(* ===== verification/_CoqProject ===== *)
-Q . S2P
Prelude.v
Prog.v
GoSort.v
Model.v
Book.v
BTree.v
BookInv.v
BookMatch.v
BookOps.v
BookProps.v
Replay.v
Reorder.v
Float64.v
Report.v
StreamVal.v
StreamProps.v
Invariants.v
InvProps.v
Topics.v
Pipeline.v
Source.v
SourceProps.v
SourceFates.v
Score.v
Ordering.v
ScoreProps.v
Lease.v
LeaseProps.v
Service.v
ServiceProps.v
StatusLoop.v
CountBounds.v
Scenarios.v
Shard.v
Gate.v
Runner.v
RunnerProps.v
Recovery.v
SubStore.v
Benchmark.v
BenchInv.v
BenchProps.v
GroupRun.v
BenchDemo.v
Dispatch.v
Archive.v
Intake.v
Dockerfile.v
Build.v
BuildProps.v
BuildNames.v
BuildDemo.v
Scoring.v
ScoringProps.v
ScoringDue.v
ScoringDemo.v
Sandbox.v
SandboxProps.v
SandboxLife.v
SandboxDemo.v
Base64.v
Board.v
BoardProps.v
BoardCache.v
RunDetail.v
DetailProps.v
Sse.v
Live.v
BoardDemo.v
SlotClient.v
