(* ===== verification/Prelude.v ===== *)
(** * match-bench: a verification library

    match-bench runs contestants' order-matching engines under load and grades
    them.  A contestant uploads an archive to [submission-api], which checks it
    and asks [build-worker] for an image; a benchmark of it is a run group, one
    session per scenario, which [submission-api] hands to
    [bot-fleet-controller] one after the other.  The controller takes each
    session through its life: it leases Kafka partitions and an order band, has
    [sandbox-orchestrator] deploy the image into a slot of the cluster, shards
    the scenario over bot workers, waits for them and fires the barrier.  The
    bots publish every order they sent and a kernel-level capture publishes
    every response.  When a session completes, [correctness-validator] reads
    both streams back, joins them, replays the session into a reference
    matching engine and counts the violations; [score-computer] turns the
    reports and the latency series of a run group into a verdict; and
    [leaderboard-api] serves the ranking, the details and a stream of events.

    This library models the Go code of that path (under [src/]) and proves what
    makes it correct.  Definitions keep the names of the Go functions; a
    comment in front of each group says what it translates.

    ** How Go is modelled

    - Integers are [Z]; every operation that can leave the range of its type is
      written with its wrap-around ([u16], [u32], [u64], [i32], [i64] below).
      [float64] is IEEE binary64 ([Float64], on the Standard Library's
      [SpecFloat]).  Strings are byte strings.
    - Pointers that are shared and mutated are addresses of an explicit heap
      (resting orders in [Book], orders in [Replay], [Reorder] and [Source],
      waiters in [Lease]); other structs are records.
    - Iteration over a Go map is an arbitrary permutation ([Replay.MapRange]);
      [sort.Slice] is an arbitrary sorted permutation, [sort.SliceStable] the
      stable one ([GoSort]).
    - Errors are values ([option], sums); run-time panics are outcomes
      ([Shard.Go]) and [defer]/[recover] are combinators of a small state
      monad ([Runner]).
    - Code that talks to databases, brokers, the cluster or the network is a
      program over calls ([Prog]): a finite tree that asks and goes on with the
      answer.  What the outside may answer, with the calls that fail and those that take
      effect and lose their answer, is a relation per component ([does],
      [serves], ...).  Concurrent requests, consumers and workers are such
      programs interleaved call by call, with restarts, in a step relation;
      theorems hold in every reachable state, or ([wp]) for every answer.
    - Critical sections under a mutex are single steps ([Lease], [Dispatch],
      [Sse]).  Kafka consumers with offsets, commits and rebalances are a step
      relation where the commits matter ([StatusLoop]); elsewhere a delivery
      starts a thread ([Benchmark], [Build], [Scoring]).
    - PostgreSQL tables are finite maps, each statement with the WHERE guard,
      the conflict clause and the unique indexes of its SQL; ORDER BY compares
      as PostgreSQL does, with the collation as a parameter.
    - Third-party code is a parameter: the B-tree (class [Book.BTreeG] with laws
      [BTreeLaws], implemented by a sorted list), the Unicode tables, the
      broker and the decoders, the UUID generator, JSON, Kubernetes quantities, ILIKE,
      the hash balancer and the clock.  Laws are stated as classes and have an
      instance wherever a theorem uses them.

    ** The files

    Shared: [Prelude] (machine integers, tactics, lists), [GoSort], [Float64],
    [Ordering] (lexicographic comparisons), [Base64], [Prog] (programs over
    calls), [Topics] (schemas/go/topics: events, protocol declarations,
    partition placement).

    correctness-validator:
    - [Model] - model/order.go.
    - [Book] - book/book.go, the reference engine on a heap with two trees and
      an index; [BTree], [BookInv], [BookMatch], [BookOps] carry its invariant
      and its refinement of an abstract book; [BookProps] has the theorems.
    - [Replay] - replay/order.go; [Reorder] - source/reorder.go.
    - [Report] - validate/validate.go; [StreamVal] - validate/stream.go, with
      [StreamProps]; [Invariants] - validate/invariants.go, with [InvProps].
    - [Pipeline] - pipeline/pipeline.go; [Source] - source/stream.go, band.go and
      offsets.go, with [SourceProps] and [SourceFates] (what becomes of each
      order).
    - [Service] - grading, the records and the table of main.go and
      store/postgres.go, with [ServiceProps]; [StatusLoop] - validateSession, the
      timeout fallback and the status consumers of main.go, with their theorems;
      [CountBounds] - the report counters stay within what was handed over.

    submission-api:
    - [Scenarios] - scenarios/builder.go.
    - [SubStore] - store/postgres.go, with the statements other services run on
      the same tables; [Benchmark] - the handlers and the status consumer, in
      a system with the controller; [BenchInv], [BenchProps], [GroupRun] have
      the theorems, [BenchDemo] concrete runs.
    - [Intake] - validator/zip.go and handler/submit.go.

    bot-fleet-controller (internal/controller):
    - [Lease] - lease.go, with [LeaseProps].
    - [Shard] - runner.go from a scenario to workload specs, producer.go from
      specs to messages.
    - [Gate] - session.go, capacity.go and the ready fan-in of runner.go.
    - [Runner] - the run of a session in runner.go, with [RunnerProps].
    - [Recovery] - recovery.go and the run tables of store/postgres.go.
    - [Dispatch] - consumer.go: the semaphore, dispatch and shutdown.

    build-worker: [Archive] - precheck/zipslip.go and the extraction of
    cmd/fetcher; [Dockerfile] - dockerfile/generate.go and its use; [Build] -
    k8s/spawner.go, pipeline.go, local_runner.go, the consumer and the status
    statements, with [BuildProps], [BuildNames] (resource names) and
    [BuildDemo].

    sandbox-orchestrator: [Sandbox] - k8s/slot.go, store/slot.go,
    handler/slot.go and the start-up of main.go, in a system with the cluster;
    [SandboxProps], [SandboxLife], [SandboxDemo].  [SlotClient] - the controller's
    orchestrator/client.go, calling those handlers.

    score-computer: [Score] - score/score.go, with [ScoreProps]; [Scoring] -
    store.go, the two triggers, the worker and the start-up scan, with
    [ScoringProps], [ScoringDue] and [ScoringDemo].

    leaderboard-api: [Board] - the leaderboard query of read/store.go,
    read/cache.go and its request, with [BoardProps] and [BoardCache];
    [RunDetail] - the detail views of read/store.go, with [DetailProps]; [Sse] -
    sse/broker.go and the consumer; [Live] - live/poll.go; [BoardDemo].

    ** What is proved

    - The reference engine (C1, C4-C7): it refines the price-time priority book
      [ABook]; no self-trade, conservation of quantity, priority respected,
      the engine's invariant in every reachable state.  [BookProps] also
      has limits, crossed books and the two ways of replacing an order.
    - Replay (C8-C10): the replay order is a sorted permutation with exactly
      the head-of-line times; the streaming reorderer is bounded and lossless,
      and equals the batch order when connections arrive in sequence.
    - Reading and grading a session (C2, C11-C14, C24): reading terminates with
      every batch merged in order, its books balance order by order under
      at-least-once delivery, callbacks only receive what was delivered, a
      leased band is read exactly; from Kafka to the stored row and its score;
      scored rows are durable under concurrent consumers and failures, and a
      committed completed session has a row unless an attempt on it failed
      (such a session can be committed past:
      [StatusLoop.LoopDemo.failed_session_skipped]).  [StreamProps] and
      [InvProps] have the accounting of both reports and the trackers against
      their quadratic definitions.
    - Scores (C15, C16, C30, C31): the verdict, scoring happens once however
      often and concurrently it is asked for, and does happen.
    - Sessions (C3, C17-C20): exclusive leases, exact sharding onto leased
      partitions, a gate that always returns with what its last probe showed,
      one terminal status and all resources given back on every path, panics
      included (a panic of the terminal publish or of the slot's deletion adds
      a failed status); recovery after a restart.
    - Run groups (C21-C23, C25): at most one session of a group at a time (when
      the broker hands each terminal status over once), none published twice,
      groups run to their end, typed statuses, over interleaved requests,
      consumers and failures; what is assumed of the broker is
      [Benchmark.Mode].
    - Intake and build (C26-C29): exactly which archives are accepted, extraction
      stays in place, ready submissions have the image of their own build, and
      what each build request comes to.
    - Sandboxes (C32-C35): every pod is the confined pod of an accepted request
      and every capture job carries the session and band of a pod the cluster
      held in that run; the life of a slot;
      a restart rebuilds the slot map; the controller's wait for a slot ends,
      and ready means serving.  [SlotClient] also has the request round trip.
    - Leaderboard (C36-C40): pages are complete, the default order is the
      ranking of score-computer, cached pages are recent, event streams have no
      gaps, the violation breakdown of a session graded in either mode against
      the stored counts.

    ** Fuel

    Loops that are not structural take fuel that their definitions supply and
    that is shown to be enough where the result matters: the matching loops
    (one round per resting order and per level, C1), the merge (one round per
    batch, C24), the queue of waiters (one round each), the histogram scan (one
    round per bucket), the capacity gate (one round per poll interval of the
    timeout and two more, C19), the wait for a slot (one round per interval
    before the deadline and two more, C35), a client that follows cursors (one
    round per row, C36).  Programs over calls are finite trees and need none; the polling
    loops of a service are unfolded a number of times.

    ** Not modelled

    Logging and metrics, health answers, process start-up and environment
    reading, HTTP routing and multipart forms: glue without logic of the
    program's own.  Kafka, PostgreSQL, ClickHouse, Redis, Docker, AWS,
    Kubernetes and object-store clients: third-party, their answers are
    parameters or tables.  The Kubernetes job specifications of build-worker:
    constant objects.  auth-api and libs/go/authn: calls of third-party
    OAuth and JWT code.  The sample engines under deploy-local: submissions used
    for trying the platform out. *)

From stdpp Require Import prelude gmap strings list sorting.
From Stdlib Require Import ZArith Lia.

Open Scope Z_scope.

(** ** Machine integers

    A Go integer of width [w] is a [Z] in range; every arithmetic operation
    that can leave the range is written with the wrap-around of its type. *)

Definition u16 (z : Z) : Z := z mod 2 ^ 16.
Definition u32 (z : Z) : Z := z mod 2 ^ 32.
Definition u64 (z : Z) : Z := z mod 2 ^ 64.
Definition i32 (z : Z) : Z := (z + 2 ^ 31) mod 2 ^ 32 - 2 ^ 31.
Definition i64 (z : Z) : Z := (z + 2 ^ 63) mod 2 ^ 64 - 2 ^ 63.

Declare Scope go_scope.
Delimit Scope go_scope with go.
Notation "a +u64 b" := (u64 (a + b)) (at level 50, left associativity) : go_scope.
Notation "a -u64 b" := (u64 (a - b)) (at level 50, left associativity) : go_scope.
Notation "a *u64 b" := (u64 (a * b)) (at level 40, left associativity) : go_scope.
Notation "a +u32 b" := (u32 (a + b)) (at level 50, left associativity) : go_scope.
Notation "a -u32 b" := (u32 (a - b)) (at level 50, left associativity) : go_scope.
Open Scope go_scope.

Definition MaxUint64 : Z := 2 ^ 64 - 1.
Definition MaxUint32 : Z := 2 ^ 32 - 1.

Lemma u64_small z : 0 <= z < 2 ^ 64 -> u64 z = z.
Proof. apply Z.mod_small. Qed.

Lemma u32_small z : 0 <= z < 2 ^ 32 -> u32 z = z.
Proof. apply Z.mod_small. Qed.

Lemma u64_range z : 0 <= u64 z < 2 ^ 64.
Proof. apply Z.mod_pos_bound. lia. Qed.

Lemma u32_range z : 0 <= u32 z < 2 ^ 32.
Proof. apply Z.mod_pos_bound. lia. Qed.

Lemma i64_small z : - 2 ^ 63 <= z < 2 ^ 63 -> i64 z = z.
Proof. intros. unfold i64. rewrite Z.mod_small; lia. Qed.

Lemma i32_small z : - 2 ^ 31 <= z < 2 ^ 31 -> i32 z = z.
Proof. intros. unfold i32. rewrite Z.mod_small; lia. Qed.

(** Equality modulo 2^64: what a chain of [uint64] additions determines. *)
Definition eq64 (a b : Z) : Prop := u64 a = u64 b.
Infix "≡64" := eq64 (at level 70) : go_scope.

#[export] Instance eq64_equiv : Equivalence eq64.
Proof. split; unfold eq64; congruence. Qed.

#[export] Instance eq64_add : Proper (eq64 ==> eq64 ==> eq64) Z.add.
Proof.
  intros a a' Ha b b' Hb. unfold eq64, u64 in *.
  by rewrite (Zplus_mod a), (Zplus_mod a'), Ha, Hb.
Qed.

#[export] Instance eq64_sub : Proper (eq64 ==> eq64 ==> eq64) Z.sub.
Proof.
  intros a a' Ha b b' Hb. unfold eq64, u64 in *.
  by rewrite (Zminus_mod a), (Zminus_mod a'), Ha, Hb.
Qed.

Lemma eq64_u64 z : u64 z ≡64 z.
Proof. unfold eq64, u64. apply Z.mod_mod. lia. Qed.

Lemma eq64_refl a b : a = b -> a ≡64 b.
Proof. by intros ->. Qed.

Lemma eq64_small a b : 0 <= a < 2 ^ 64 -> 0 <= b < 2 ^ 64 -> a ≡64 b -> a = b.
Proof. unfold eq64. intros Ha Hb. by rewrite !u64_small. Qed.

Lemma i64_eq64 a b : a ≡64 b -> i64 a = i64 b.
Proof. unfold eq64, u64, i64. intros He. f_equal. rewrite (Zplus_mod a), (Zplus_mod b). by rewrite He. Qed.

Create HintDb machine.
Create Rewrite HintDb machine.
#[export] Hint Rewrite u64_small u32_small i64_small i32_small using lia : machine.
#[export] Hint Resolve u64_range u32_range : machine.

(** ** Proof automation *)

(** Case analysis on the innermost [if] or [match] of the goal, keeping the
    equation, with boolean comparisons on [Z] turned into propositions. *)
Ltac zify_bool :=
  repeat match goal with
  | H : (_ <? _) = true |- _ => apply Z.ltb_lt in H
  | H : (_ <? _) = false |- _ => apply Z.ltb_ge in H
  | H : (_ <=? _) = true |- _ => apply Z.leb_le in H
  | H : (_ <=? _) = false |- _ => apply Z.leb_gt in H
  | H : (_ =? _) = true |- _ => apply Z.eqb_eq in H
  | H : (_ =? _) = false |- _ => apply Z.eqb_neq in H
  | H : negb _ = true |- _ => apply negb_true_iff in H
  | H : negb _ = false |- _ => apply negb_false_iff in H
  | H : _ && _ = true |- _ => apply andb_true_iff in H as [? ?]
  | H : _ || _ = false |- _ => apply orb_false_iff in H as [? ?]
  end.

Ltac break_if :=
  match goal with
  | |- context [if ?b then _ else _] =>
      lazymatch b with
      | context [if _ then _ else _] => fail
      | _ => let E := fresh "E" in destruct b eqn:E
      end
  | H : context [if ?b then _ else _] |- _ =>
      lazymatch b with
      | context [if _ then _ else _] => fail
      | _ => let E := fresh "E" in destruct b eqn:E
      end
  end.

Ltac simp_bool := repeat (break_if; zify_bool); simplify_eq; try done; try lia.

(** Sums of wrapped counters: drop the wraps, compare the sums. *)
Ltac eq64_lia := rewrite ?eq64_u64; apply eq64_refl; lia.

(** ** Lists *)

Definition sumZ (l : list Z) : Z := foldr Z.add 0 l.

Lemma sumZ_app l k : sumZ (l ++ k) = sumZ l + sumZ k.
Proof. induction l as [|x l IH]; csimpl; [done|]. unfold sumZ in *. simpl. lia. Qed.

Lemma sumZ_perm l k : l ≡ₚ k -> sumZ l = sumZ k.
Proof. induction 1; unfold sumZ in *; simpl; lia. Qed.

Lemma sumZ_nonneg l : Forall (fun z => 0 <= z) l -> 0 <= sumZ l.
Proof. induction 1; unfold sumZ in *; simpl; lia. Qed.

Definition countb {A} (f : A -> bool) (l : list A) : nat := length (List.filter f l).

Lemma countb_app {A} (f : A -> bool) l k : countb f (l ++ k) = (countb f l + countb f k)%nat.
Proof. unfold countb. by rewrite List.filter_app, length_app. Qed.

Lemma countb_insert {A} (f : A -> bool) (l : list A) i x y :
  l !! i = Some x -> (countb f (<[i := y]> l) + (if f x then 1 else 0) = countb f l + (if f y then 1 else 0))%nat.
Proof.
  unfold countb. revert i. induction l as [|z l IH]; intros [|i]; try done.
  - intros [= ->]. cbn. destruct (f x), (f y); cbn; lia.
  - intros Hi. specialize (IH i Hi). change (<[S i := y]> (z :: l)) with (z :: <[i := y]> l). cbn [List.filter].
    destruct (f z); cbn [length]; lia.
Qed.

Lemma countb_delete {A} (f : A -> bool) (l : list A) i x :
  l !! i = Some x -> (countb f (delete i l) + (if f x then 1 else 0) = countb f l)%nat.
Proof.
  unfold countb. revert i. induction l as [|z l IH]; intros [|i]; try done.
  - intros [= ->]. cbn. destruct (f x); cbn; lia.
  - intros Hi. specialize (IH i Hi). change (delete (S i) (z :: l)) with (z :: delete i l). cbn [List.filter].
    destruct (f z); cbn [length]; lia.
Qed.

Lemma countb_le {A} (f : A -> bool) (l : list A) : (countb f l <= length l)%nat.
Proof. unfold countb. apply filter_length_le. Qed.

Lemma countb_zero {A} (f : A -> bool) l : (forall x, x ∈ l -> f x = false) -> countb f l = 0%nat.
Proof.
  unfold countb. intros Hl. induction l as [|x l IH]; [done|]. cbn. rewrite (Hl x) by (by left). apply IH. intros y Hy. apply Hl. by right.
Qed.

Lemma countb_perm {A} (f : A -> bool) l k : l ≡ₚ k -> countb f l = countb f k.
Proof. unfold countb. induction 1 as [|x l k _ IH|x y l|l k m _ IH1 _ IH2]; cbn; [done| | |lia]; repeat destruct (f _); cbn; lia. Qed.

Lemma countb_map {A B} (f : B -> bool) (g : A -> B) l : countb f (map g l) = countb (fun x => f (g x)) l.
Proof. unfold countb. induction l as [|x l IH]; cbn; [done|]. destruct (f (g x)); cbn; lia. Qed.

Lemma countb_ext {A} (f g : A -> bool) l : (forall x, x ∈ l -> f x = g x) -> countb f l = countb g l.
Proof.
  unfold countb. intros Hl. induction l as [|x l IH]; cbn; [done|]. rewrite (Hl x) by (by left).
  assert (IH' : length (List.filter f l) = length (List.filter g l)) by (apply IH; intros y Hy; apply Hl; by right).
  destruct (g x); cbn; lia.
Qed.

Lemma size_list_to_set_le `{Countable A} (l : list A) :
  (size (list_to_set l : gset A) <= length l)%nat.
Proof.
  induction l as [|x l IH]; simpl; [done|].
  destruct (decide (x ∈ (list_to_set l : gset A))).
  - replace ({[x]} ∪ list_to_set l : gset A) with (list_to_set l : gset A) by set_solver. lia.
  - rewrite size_union by set_solver. rewrite size_singleton. lia.
Qed.

(** ** Sorted lists *)

Lemma StronglySorted_app_iff {A} (R : A -> A -> Prop) l k :
  StronglySorted R (l ++ k) <->
  StronglySorted R l /\ StronglySorted R k /\ (forall x y, x ∈ l -> y ∈ k -> R x y).
Proof. rewrite StronglySorted_app. tauto. Qed.

(** A sorted list stays sorted under a relation implied on its elements. *)
Lemma StronglySorted_impl_in {A} (R R' : A -> A -> Prop) l :
  (forall x y, x ∈ l -> y ∈ l -> R x y -> R' x y) ->
  StronglySorted R l -> StronglySorted R' l.
Proof.
  intros Himp Hs. induction Hs as [|x l Hs IH Hx]; constructor.
  - apply IH. intros y z Hy Hz. apply Himp; by right.
  - rewrite Forall_forall in *. intros y Hy. apply Himp; [left|by right|by apply Hx].
Qed.

Lemma StronglySorted_sublist {A} (R : A -> A -> Prop) l k :
  sublist l k -> StronglySorted R k -> StronglySorted R l.
Proof.
  induction 1 as [|x l k Hs IH|x l k Hs IH]; intros Hk; [done| |].
  - inversion Hk as [|?? H1 H2]; subst. constructor; [by apply IH|].
    rewrite Forall_forall in *. intros y Hy. apply H2. by eapply elem_of_sublist.
  - inversion Hk; subst. by apply IH.
Qed.
