(* ===== verification/Prog.v ===== *)
(** * Programs over calls

    A service routine that talks to databases, brokers and clusters is a tree
    of calls: at each node the outside answers and the routine goes on.  The
    same tree serves for interleaving (a thread is a tree), for evaluation and
    for reasoning over all answers ([wp]).  Every tree is finite along each
    path, so a routine written this way returns whatever it is told. *)

From stdpp Require Import prelude.
From S2P Require Import Prelude.

Inductive Prog (E : Type -> Type) (A : Type) : Type :=
  | Ret (a : A)
  | Call {X : Type} (c : E X) (k : X -> Prog E A).
Arguments Ret {E A}.
Arguments Call {E A X}.

Fixpoint bind {E : Type -> Type} {A B : Type} (p : Prog E A) (f : A -> Prog E B) : Prog E B :=
  match p with Ret a => f a | Call c k => Call c (fun x => bind (k x) f) end.

Definition ask {E : Type -> Type} {X} (c : E X) : Prog E X := Call c Ret.

Declare Scope prog_scope.
Delimit Scope prog_scope with prog.
Notation "'let!' x := c 'in' p" := (bind c (fun x => p)) (at level 10, x pattern, p at level 200) : prog_scope.
Notation "c ;; p" := (bind c (fun _ => p)) (at level 100, p at level 200, right associativity) : prog_scope.

(** Two goroutines: the answer to [choose] says which one moves. *)
Fixpoint interleave {E : Type -> Type} {A B : Type} (choose : E bool) (p : Prog E A) : Prog E B -> Prog E (A * B) :=
  fix go q :=
    match p, q with
    | Ret a, _ => bind q (fun b => Ret (a, b))
    | _, Ret b => bind p (fun a => Ret (a, b))
    | Call c k, Call c' k' =>
        Call choose (fun left => if left : bool then Call c (fun x => interleave choose (k x) q) else Call c' (fun x => go (k' x)))
    end.

(** ** All answers at once

    [wp need next p s Q]: from [s], every call of [p] meets [need], and
    however the calls are answered, the state moving by [next], [p] ends with
    [Q]. *)
Section Wp.
Context {E : Type -> Type} {S : Type}.
Variable need : forall X, E X -> S -> Prop.
Variable next : forall X, E X -> S -> X -> S -> Prop.

Fixpoint wp {A} (p : Prog E A) (s : S) (Q : A -> S -> Prop) : Prop :=
  match p with
  | Ret a => Q a s
  | Call c k => need _ c s /\ forall x s', next _ c s x s' -> wp (k x) s' Q
  end.

Lemma wp_impl {A} (p : Prog E A) s (Q R : A -> S -> Prop) : (forall a s, Q a s -> R a s) -> wp p s Q -> wp p s R.
Proof.
  intros HQ. revert s. induction p as [a|X c k IH]; intros s; cbn; [by apply HQ|]. intros [Hn Hk]. split; [done|].
  intros x s' Hs. by apply IH, Hk.
Qed.

Lemma wp_bind {A B} (p : Prog E A) (f : A -> Prog E B) s Q : wp p s (fun a s => wp (f a) s Q) -> wp (bind p f) s Q.
Proof.
  revert s. induction p as [a|X c k IH]; intros s; cbn; [done|]. intros [Hn Hk]. split; [done|]. intros x s' Hs. by apply IH, Hk.
Qed.

Lemma wp_ask {X} (c : E X) s Q : need _ c s -> (forall x s', next _ c s x s' -> Q x s') -> wp (ask c) s Q.
Proof. done. Qed.

End Wp.
