(* ===== verification/GoSort.v ===== *)
(** * Go's [sort] package

    [sort.SliceStable] is insertion sort (the result of a stable sort by a
    strict weak order is unique, so any stable algorithm would do);
    [sort.Slice], whose tie order is unspecified, is an interface: whatever it
    returns is a permutation and, for a strict weak order, is sorted. *)

From stdpp Require Import prelude list sorting.
From S2P Require Import Prelude.

Section sort.
Context {A : Type}.
Implicit Types (less : A -> A -> bool) (P : A -> Prop).

(** A strict weak order on the elements satisfying [P]: what Go documents a
    [less] function must be. *)
Record StrictWeakOn P less : Prop := {
  sw_asym x y : P x -> P y -> less x y = true -> less y x = false;
  sw_negtrans x y z : P x -> P y -> P z ->
    less x y = false -> less y z = false -> less x z = false;
}.

(** No later element is less than an earlier one. *)
Definition sorted_by less : list A -> Prop := StronglySorted (fun x y => less y x = false).

Fixpoint insert_stable less (x : A) (l : list A) : list A :=
  match l with
  | [] => [x]
  | y :: l' => if less x y then x :: y :: l' else y :: insert_stable less x l'
  end.

(** [sort.SliceStable]: each element is inserted after its equals. *)
Definition sort_stable less (l : list A) : list A :=
  foldl (fun acc x => insert_stable less x acc) [] l.

Lemma insert_stable_perm less x l : insert_stable less x l ≡ₚ x :: l.
Proof.
  induction l as [|y l IH]; simpl; [done|].
  destruct (less x y); [done|]. rewrite IH. apply Permutation_swap.
Qed.

Lemma sort_stable_perm_acc less l acc :
  foldl (fun acc x => insert_stable less x acc) acc l ≡ₚ acc ++ l.
Proof.
  revert acc. induction l as [|x l IH]; intros acc; simpl; [by rewrite app_nil_r|].
  rewrite IH, insert_stable_perm. by rewrite <-Permutation_middle.
Qed.

Lemma sort_stable_perm less l : sort_stable less l ≡ₚ l.
Proof. apply sort_stable_perm_acc. Qed.

Lemma insert_stable_sorted P less x l :
  StrictWeakOn P less -> P x -> Forall P l ->
  sorted_by less l -> sorted_by less (insert_stable less x l).
Proof.
  intros SW Px Pl Hs. induction Hs as [|y l Hs IH Hy]; simpl; [repeat constructor|].
  inversion Pl as [|?? Py Pl']; subst.
  destruct (less x y) eqn:E.
  - constructor; [by constructor|]. constructor; [by apply (sw_asym _ _ SW)|].
    rewrite Forall_forall in Hy, Pl'. apply Forall_forall. intros z Hz.
    apply (sw_negtrans _ _ SW z y x); auto. by apply (sw_asym _ _ SW).
  - constructor; [by apply IH|].
    rewrite insert_stable_perm. by constructor.
Qed.

Lemma sort_stable_sorted P less l :
  StrictWeakOn P less -> Forall P l -> sorted_by less (sort_stable less l).
Proof.
  intros SW Pl. unfold sort_stable.
  assert (Hacc : sorted_by less [] /\ Forall P []) by (split; constructor).
  revert Hacc. generalize (@nil A) as acc.
  induction Pl as [|x l Px Pl IH]; intros acc [Hs HP]; simpl; [done|].
  apply IH. split; [by eapply insert_stable_sorted|].
  rewrite insert_stable_perm. by constructor.
Qed.

(** Two sorted permutations of each other agree when incomparable elements
    are equal: the sorted order is then the only one. *)
Lemma sorted_by_unique P less l k :
  StrictWeakOn P less ->
  (forall x y, P x -> P y -> less x y = false -> less y x = false -> x = y) ->
  Forall P l -> sorted_by less l -> sorted_by less k -> l ≡ₚ k -> l = k.
Proof.
  intros SW Heq Pl Hl. revert k.
  induction Hl as [|x l Hl IH Hx]; intros k Hk Hp.
  { apply Permutation_nil_l in Hp. done. }
  destruct k as [|y k]; [by apply Permutation_nil_r in Hp|].
  inversion Hk as [|?? Hk' Hy]; subst. inversion Pl as [|?? Px Pl']; subst.
  assert (Forall P (y :: k)) as Pk by (by rewrite <-Hp; constructor).
  inversion Pk as [|?? Py Pk']; subst.
  assert (x = y) as ->.
  { assert (Hxin : x ∈ y :: k) by (rewrite <-Hp; left).
    assert (Hyin : y ∈ x :: l) by (rewrite Hp; left).
    apply elem_of_cons in Hxin as [?|Hxin]; [done|].
    apply elem_of_cons in Hyin as [?|Hyin]; [done|].
    rewrite Forall_forall in Hx, Hy. apply Heq; auto. }
  f_equal. apply IH; auto. by apply Permutation_cons_inv in Hp.
Qed.

End sort.

(** [sort.Slice]. *)
Class SortSlice := sort_slice : forall {A : Type}, (A -> A -> bool) -> list A -> list A.

Class SortSliceLaws `{SortSlice} : Prop := {
  sort_slice_perm {A} (less : A -> A -> bool) l : sort_slice less l ≡ₚ l;
  sort_slice_sorted {A} (P : A -> Prop) (less : A -> A -> bool) l :
    StrictWeakOn P less -> Forall P l -> sorted_by less (sort_slice less l);
}.

(** One implementation of the interface. *)
Definition SortSlice_stable : SortSlice := @sort_stable.

Lemma SortSlice_stable_laws : @SortSliceLaws SortSlice_stable.
Proof. split; intros; [apply sort_stable_perm | by eapply sort_stable_sorted]. Qed.

Create HintDb sorting.
#[export] Hint Resolve sort_stable_perm insert_stable_perm : sorting.
