(* ===== verification/Model.v ===== *)
(** * correctness-validator: [internal/model/order.go]

    The data every part of the validator works on: flows, sides, kinds, the
    responses captured for an order and the order itself. *)

From stdpp Require Import prelude gmap strings.
From S2P Require Import Prelude.

Open Scope Z_scope.

Record Flow := mkFlow { SrcIP : Z; SrcPort : Z }.

#[export] Instance Flow_eq_dec : EqDecision Flow.
Proof. solve_decision. Defined.

#[export] Instance Flow_countable : Countable Flow.
Proof.
  refine (inj_countable' (fun f => (SrcIP f, SrcPort f)) (fun p => mkFlow p.1 p.2) _).
  by intros [].
Defined.

Definition Flow_Less (f o : Flow) : bool :=
  if negb (SrcIP f =? SrcIP o) then SrcIP f <? SrcIP o
  else SrcPort f <? SrcPort o.

Inductive Side := Buy | Sell.

#[export] Instance Side_eq_dec : EqDecision Side.
Proof. solve_decision. Defined.

#[export] Instance Side_countable : Countable Side.
Proof.
  refine (inj_countable' (fun s => match s with Buy => true | Sell => false end)
                         (fun b => if b : bool then Buy else Sell) _).
  by intros [].
Defined.

Definition SideFrom (s : string) : Side :=
  if bool_decide (s = "SELL") then Sell else Buy.

Inductive Kind := NewLimit | NewMarket | Cancel | Replace.

#[export] Instance Kind_eq_dec : EqDecision Kind.
Proof. solve_decision. Defined.

Definition KindFrom (payloadType ordType : string) : Kind :=
  if bool_decide (payloadType = "CANCEL") then Cancel
  else if bool_decide (payloadType = "REPLACE") then Replace
  else if bool_decide (ordType = "MARKET") then NewMarket
  else NewLimit.

Definition Kind_String (k : Kind) : string :=
  match k with
  | NewLimit => "NewLimit"
  | NewMarket => "NewMarket"
  | Cancel => "Cancel"
  | Replace => "Replace"
  end.

Record Response := mkResponse {
  ExecType : string;
  FillQty : Z;
  FillPrice : Z;
  T7Ns : Z;
}.

Record Order := mkOrder {
  o_OrderID : string;
  o_Flow : Flow;
  o_TCPSeq : Z;
  o_T3Ns : Z;
  o_EffectiveT3 : Z;
  o_Side : Side;
  o_Price : Z;
  o_Qty : Z;
  o_Kind : Kind;
  o_OrigOrderID : string;
  o_SMPID : Z;
  o_HasSMPID : bool;
  o_Responses : list Response;
}.

(** [o.EffectiveT3 = t], the only field the replay code assigns. *)
Definition with_EffectiveT3 (o : Order) (t : Z) : Order :=
  mkOrder (o_OrderID o) (o_Flow o) (o_TCPSeq o) (o_T3Ns o) t (o_Side o) (o_Price o)
    (o_Qty o) (o_Kind o) (o_OrigOrderID o) (o_SMPID o) (o_HasSMPID o) (o_Responses o).

(** The flow order is a strict total order. *)
Lemma Flow_Less_irrefl f : Flow_Less f f = false.
Proof. unfold Flow_Less. rewrite Z.eqb_refl. simpl. apply Z.ltb_irrefl. Qed.

Lemma Flow_Less_spec f g :
  Flow_Less f g = true <-> SrcIP f < SrcIP g \/ SrcIP f = SrcIP g /\ SrcPort f < SrcPort g.
Proof.
  unfold Flow_Less. destruct (Z.eqb_spec (SrcIP f) (SrcIP g)); simpl; rewrite Z.ltb_lt; lia.
Qed.

Lemma Flow_Less_total f g : f <> g -> Flow_Less f g = true \/ Flow_Less g f = true.
Proof.
  intros Hne. rewrite !Flow_Less_spec. destruct f as [a b], g as [c d]; simpl in *.
  destruct (Z.eq_dec a c), (Z.eq_dec b d); subst; try congruence; lia.
Qed.
