(* ===== verification/Book.v ===== *)
(** * correctness-validator: [internal/book/book.go]

    The reference matching engine. A [*restingOrder] is shared between the
    order index and the FIFO of its price level and is mutated through both,
    so resting orders live in a heap and the index and the levels hold
    pointers. The ordered tree of price levels is [github.com/google/btree],
    which is not part of the repository: it is the interface [BTreeG]. *)

From stdpp Require Import prelude gmap strings.
From S2P Require Import Prelude Model.

Open Scope Z_scope.

(** ** Data *)

Record Fill := mkFill { f_OrderID : string; f_Price : Z; f_Qty : Z }.

Record Trade := mkTrade {
  t_MakerOrderID : string;
  t_TakerOrderID : string;
  t_Price : Z;
  t_Qty : Z;
  t_MakerSeq : Z;
  t_MakerSMPID : Z;
  t_MakerHasSMPID : bool;
  t_TakerSMPID : Z;
  t_TakerHasSMPID : bool;
}.

Record RestingState := mkRestingState {
  rs_OrderID : string;
  rs_Side : Side;
  rs_Price : Z;
  rs_Seq : Z;
  rs_Remaining : Z;
  rs_SMPID : Z;
  rs_HasSMPID : bool;
}.

Record restingOrder := mkResting {
  ro_orderID : string;
  ro_side : Side;
  ro_price : Z;
  ro_remaining : Z;
  ro_seq : Z;
  ro_smpID : Z;
  ro_hasSMP : bool;
}.

(** A [*restingOrder]. *)
Abbreviation ptr := positive.

Record priceLevel := mkLevel { lv_price : Z; lv_orders : list ptr }.

(** ** The ordered tree *)

(** The methods of [btree.BTreeG[*priceLevel]] the engine calls, and [Len].
    The engine holds a [*priceLevel] it obtained from [Min] or [Get] and
    assigns its [orders] field while the level is in the tree; the key [price]
    is never assigned. Such an assignment is [ReplaceOrInsert] of the new
    contents under the same key. *)
Class BTreeG (T : Type) := {
  NewG : (priceLevel -> priceLevel -> bool) -> T;
  Min : T -> option priceLevel;
  Get : T -> priceLevel -> option priceLevel;
  ReplaceOrInsert : T -> priceLevel -> T;
  Delete : T -> priceLevel -> T;
  Len : T -> nat;
}.

(** ** The engine *)

Record Engine (T : Type) := mkEngine {
  e_heap : gmap ptr restingOrder;
  e_next : ptr;
  e_asks : T;
  e_bids : T;
  e_index : gmap string ptr;
  e_seq : Z;
  e_fills : list Fill;
  e_trades : list Trade;
  e_repriced : gmap string bool;
  e_seqByOrder : gmap string Z;
  e_evicted : list string;
}.
Arguments mkEngine {T}.
Arguments e_heap {T}.
Arguments e_next {T}.
Arguments e_asks {T}.
Arguments e_bids {T}.
Arguments e_index {T}.
Arguments e_seq {T}.
Arguments e_fills {T}.
Arguments e_trades {T}.
Arguments e_repriced {T}.
Arguments e_seqByOrder {T}.
Arguments e_evicted {T}.

Section engine.
Context {T : Type} `{!BTreeG T}.
Implicit Types (e : Engine T).

(** Field assignments. *)
Definition set_heap (h : gmap ptr restingOrder) e : Engine T :=
  mkEngine h (e_next e) (e_asks e) (e_bids e) (e_index e) (e_seq e) (e_fills e)
    (e_trades e) (e_repriced e) (e_seqByOrder e) (e_evicted e).
Definition set_index (i : gmap string ptr) e : Engine T :=
  mkEngine (e_heap e) (e_next e) (e_asks e) (e_bids e) i (e_seq e) (e_fills e)
    (e_trades e) (e_repriced e) (e_seqByOrder e) (e_evicted e).
Definition set_fills (f : list Fill) e : Engine T :=
  mkEngine (e_heap e) (e_next e) (e_asks e) (e_bids e) (e_index e) (e_seq e) f
    (e_trades e) (e_repriced e) (e_seqByOrder e) (e_evicted e).
Definition set_trades (t : list Trade) e : Engine T :=
  mkEngine (e_heap e) (e_next e) (e_asks e) (e_bids e) (e_index e) (e_seq e) (e_fills e)
    t (e_repriced e) (e_seqByOrder e) (e_evicted e).
Definition set_repriced (r : gmap string bool) e : Engine T :=
  mkEngine (e_heap e) (e_next e) (e_asks e) (e_bids e) (e_index e) (e_seq e) (e_fills e)
    (e_trades e) r (e_seqByOrder e) (e_evicted e).
Definition set_seqByOrder (s : gmap string Z) e : Engine T :=
  mkEngine (e_heap e) (e_next e) (e_asks e) (e_bids e) (e_index e) (e_seq e) (e_fills e)
    (e_trades e) (e_repriced e) s (e_evicted e).
Definition set_evicted (v : list string) e : Engine T :=
  mkEngine (e_heap e) (e_next e) (e_asks e) (e_bids e) (e_index e) (e_seq e) (e_fills e)
    (e_trades e) (e_repriced e) (e_seqByOrder e) v.
Definition set_seq (s : Z) e : Engine T :=
  mkEngine (e_heap e) (e_next e) (e_asks e) (e_bids e) (e_index e) s (e_fills e)
    (e_trades e) (e_repriced e) (e_seqByOrder e) (e_evicted e).

(** [&restingOrder{...}]. *)
Definition alloc (ro : restingOrder) e : ptr * Engine T :=
  (e_next e,
   mkEngine (<[e_next e := ro]> (e_heap e)) (Pos.succ (e_next e)) (e_asks e) (e_bids e)
     (e_index e) (e_seq e) (e_fills e) (e_trades e) (e_repriced e) (e_seqByOrder e)
     (e_evicted e)).

(** [*p]. Pointers are never nil (see [wf] in [BookInv]). *)
Definition deref e (p : ptr) : restingOrder :=
  default (mkResting "" Buy 0 0 0 0 false) (e_heap e !! p).

Definition set_remaining (ro : restingOrder) (q : Z) : restingOrder :=
  mkResting (ro_orderID ro) (ro_side ro) (ro_price ro) q (ro_seq ro) (ro_smpID ro) (ro_hasSMP ro).
Definition set_orderID (ro : restingOrder) (id : string) : restingOrder :=
  mkResting id (ro_side ro) (ro_price ro) (ro_remaining ro) (ro_seq ro) (ro_smpID ro) (ro_hasSMP ro).

Definition ask_less (a b : priceLevel) : bool := lv_price a <? lv_price b.
Definition bid_less (a b : priceLevel) : bool := lv_price b <? lv_price a.

Definition NewEngine : Engine T :=
  mkEngine ∅ 1%positive (NewG ask_less) (NewG bid_less) ∅ 0 [] [] ∅ ∅ [].

Definition Repriced e (orderID : string) : bool := default false (e_repriced e !! orderID).
Definition SeqOf e (orderID : string) : option Z := e_seqByOrder e !! orderID.
Definition Fills e : list Fill := e_fills e.
Definition Trades e : list Trade := e_trades e.

Definition DrainFills e : list Fill * Engine T := (e_fills e, set_fills [] e).
Definition DrainTrades e : list Trade * Engine T := (e_trades e, set_trades [] e).
Definition DrainEvicted e : list string * Engine T := (e_evicted e, set_evicted [] e).

Definition Forget e (orderID : string) : Engine T :=
  set_repriced (delete orderID (e_repriced e))
    (set_seqByOrder (delete orderID (e_seqByOrder e)) e).

Definition IsResting e (orderID : string) : bool := bool_decide (is_Some (e_index e !! orderID)).

Definition tree e (side : Side) : T :=
  match side with Buy => e_bids e | Sell => e_asks e end.

Definition set_tree (side : Side) (t : T) e : Engine T :=
  match side with
  | Buy => mkEngine (e_heap e) (e_next e) (e_asks e) t (e_index e) (e_seq e) (e_fills e)
             (e_trades e) (e_repriced e) (e_seqByOrder e) (e_evicted e)
  | Sell => mkEngine (e_heap e) (e_next e) t (e_bids e) (e_index e) (e_seq e) (e_fills e)
             (e_trades e) (e_repriced e) (e_seqByOrder e) (e_evicted e)
  end.

Definition RestingSMPMatch e (side : Side) (price smpID : Z) : bool :=
  match Get (tree e side) (mkLevel price []) with
  | None => false
  | Some level =>
      existsb (fun p => ro_hasSMP (deref e p) && (ro_smpID (deref e p) =? smpID)) (lv_orders level)
  end.

Definition Resting e : gmap string RestingState :=
  map_imap (fun id p =>
    let ro := deref e p in
    Some (mkRestingState id (ro_side ro) (ro_price ro) (ro_seq ro) (ro_remaining ro)
            (ro_smpID ro) (ro_hasSMP ro))) (e_index e).

Definition oppositeSide (s : Side) : Side := match s with Buy => Sell | Sell => Buy end.

Definition crosses (aggressorSide : Side) (aggressorPrice restingPrice : Z) : bool :=
  match aggressorSide with
  | Buy => restingPrice <=? aggressorPrice
  | Sell => aggressorPrice <=? restingPrice
  end.

Definition min (a b : Z) : Z := if a <? b then a else b.

Definition allSameSMP e (orders : list ptr) (smp : Z) : bool :=
  forallb (fun p => ro_hasSMP (deref e p) && (ro_smpID (deref e p) =? smp)) orders
  && negb (bool_decide (orders = [])).

(** The aggressor [o] and the resting [maker] carry the same SMP id. *)
Definition smp_conflict (o : Order) (maker : restingOrder) : bool :=
  o_HasSMPID o && ro_hasSMP maker && (ro_smpID maker =? o_SMPID o).

Definition trade_of (o : Order) (maker : restingOrder) (price traded : Z) : Trade :=
  mkTrade (ro_orderID maker) (o_OrderID o) price traded (ro_seq maker)
    (ro_smpID maker) (ro_hasSMP maker) (o_SMPID o) (o_HasSMPID o).

(** The body of the matching loop for one maker that is not skipped: report
    the fills and the trade, and take the quantity off the maker. *)
Definition hit_maker (o : Order) (m : ptr) (price traded : Z) e : Engine T :=
  let maker := deref e m in
  let e := set_fills (e_fills e ++ [mkFill (o_OrderID o) price traded;
                                    mkFill (ro_orderID maker) price traded]) e in
  let e := set_trades (e_trades e ++ [trade_of o maker price traded]) e in
  set_heap (<[m := set_remaining maker (ro_remaining maker -u64 traded)]> (e_heap e)) e.

(** [delete(e.index, maker.orderID); e.evicted = append(e.evicted, ...)]. *)
Definition evict_id (id : string) e : Engine T :=
  set_evicted (e_evicted e ++ [id]) (set_index (delete id (e_index e)) e).

(** The inner loop of [matchAndRest]: [for len(level.orders) > 0 && remaining > 0]. *)
Fixpoint match_level (fuel : nat) (o : Order) e (level : priceLevel) (remaining : Z)
    (skipped : list ptr) : Engine T * priceLevel * Z * list ptr :=
  match fuel with
  | O => (e, level, remaining, skipped)
  | S fuel =>
    match lv_orders level with
    | [] => (e, level, remaining, skipped)
    | m :: rest =>
      if negb (0 <? remaining) then (e, level, remaining, skipped)
      else
        let maker := deref e m in
        if smp_conflict o maker then
          match_level fuel o e (mkLevel (lv_price level) rest) remaining (skipped ++ [m])
        else
          let traded := min remaining (ro_remaining maker) in
          let e := hit_maker o m (lv_price level) traded e in
          let remaining := remaining -u64 traded in
          if ro_remaining (deref e m) =? 0 then
            match_level fuel o (evict_id (ro_orderID maker) e)
              (mkLevel (lv_price level) rest) remaining skipped
          else match_level fuel o e level remaining skipped
    end
  end.

(** The outer loop of [matchAndRest]: [for remaining > 0]. *)
Fixpoint match_levels (fuel : nat) (o : Order) e (remaining : Z)
    (skippedLevels : list priceLevel) : Engine T * Z * list priceLevel :=
  match fuel with
  | O => (e, remaining, skippedLevels)
  | S fuel =>
    if negb (0 <? remaining) then (e, remaining, skippedLevels)
    else
      let opp := oppositeSide (o_Side o) in
      match Min (tree e opp) with
      | None => (e, remaining, skippedLevels)
      | Some level =>
        if bool_decide (o_Kind o = NewLimit) && negb (crosses (o_Side o) (o_Price o) (lv_price level))
        then (e, remaining, skippedLevels)
        else
          let '(e, level, remaining, skipped) :=
            match_level (S (length (lv_orders level))) o e level remaining [] in
          let level := if bool_decide (skipped = []) then level
                       else mkLevel (lv_price level) (skipped ++ lv_orders level) in
          if bool_decide (lv_orders level = []) then
            match_levels fuel o (set_tree opp (Delete (tree e opp) level) e) remaining skippedLevels
          else if o_HasSMPID o && allSameSMP e (lv_orders level) (o_SMPID o) then
            match_levels fuel o (set_tree opp (Delete (tree e opp) level) e) remaining
              (skippedLevels ++ [level])
          else (set_tree opp (ReplaceOrInsert (tree e opp) level) e, remaining, skippedLevels)
      end
  end.

Definition insert e (o : Order) (remaining : Z) : Engine T :=
  let e := set_seq (e_seq e +u64 1) e in
  let ro := mkResting (o_OrderID o) (o_Side o) (o_Price o) remaining (e_seq e)
              (o_SMPID o) (o_HasSMPID o) in
  let '(p, e) := alloc ro e in
  let e := set_index (<[o_OrderID o := p]> (e_index e)) e in
  let e := set_seqByOrder (<[o_OrderID o := e_seq e]> (e_seqByOrder e)) e in
  let t := tree e (o_Side o) in
  match Get t (mkLevel (o_Price o) []) with
  | Some level =>
      set_tree (o_Side o) (ReplaceOrInsert t (mkLevel (lv_price level) (lv_orders level ++ [p]))) e
  | None => set_tree (o_Side o) (ReplaceOrInsert t (mkLevel (o_Price o) [p])) e
  end.

Definition matchAndRest e (o : Order) (rest : bool) : Engine T :=
  let opp := oppositeSide (o_Side o) in
  let '(e, remaining, skippedLevels) :=
    match_levels (S (Len (tree e opp))) o e (o_Qty o) [] in
  let e := set_tree opp (foldl ReplaceOrInsert (tree e opp) skippedLevels) e in
  if rest && (0 <? remaining) && bool_decide (o_Kind o = NewLimit)
  then insert e o remaining
  else e.

(** Removal of the first pointer whose order has the id. *)
Fixpoint remove_first e (orderID : string) (orders : list ptr) : list ptr :=
  match orders with
  | [] => []
  | x :: rest =>
      if bool_decide (ro_orderID (deref e x) = orderID) then rest
      else x :: remove_first e orderID rest
  end.

Definition remove e (orderID : string) : Engine T :=
  match e_index e !! orderID with
  | None => e
  | Some p =>
    let ro := deref e p in
    let t := tree e (ro_side ro) in
    let e :=
      match Get t (mkLevel (ro_price ro) []) with
      | None => e
      | Some level =>
        let level := mkLevel (lv_price level) (remove_first e orderID (lv_orders level)) in
        if bool_decide (lv_orders level = []) then set_tree (ro_side ro) (Delete t level) e
        else set_tree (ro_side ro) (ReplaceOrInsert t level) e
      end in
    evict_id orderID e
  end.

Definition orReplaceID (o : Order) : string :=
  if negb (bool_decide (o_OrderID o = "")) then o_OrderID o else o_OrigOrderID o.

(** [&model.Order{OrderID: ..., Side: ..., Price: ...}] with the SMP identity
    assigned afterwards; the other fields have Go's zero values. *)
Definition replacement (o : Order) (smpID : Z) (hasSMP : bool) : Order :=
  mkOrder (orReplaceID o) (mkFlow 0 0) 0 0 0 (o_Side o) (o_Price o) 0 NewLimit "" smpID hasSMP [].

Definition replace e (o : Order) : Engine T :=
  match e_index e !! o_OrigOrderID o with
  | None => e
  | Some p =>
    let ro := deref e p in
    if (o_Price o =? ro_price ro) && (o_Qty o <=? ro_remaining ro) then
      let e := set_heap (<[p := set_remaining ro (o_Qty o)]> (e_heap e)) e in
      if negb (bool_decide (o_OrderID o = "")) && negb (bool_decide (o_OrderID o = ro_orderID ro)) then
        let oldID := ro_orderID ro in
        let e := set_index (delete oldID (e_index e)) e in
        let e := set_heap (<[p := set_orderID (deref e p) (o_OrderID o)]> (e_heap e)) e in
        let e := set_index (<[o_OrderID o := p]> (e_index e)) e in
        match e_seqByOrder e !! oldID with
        | Some s =>
            set_seqByOrder (delete oldID (<[o_OrderID o := s]> (e_seqByOrder e))) e
        | None => e
        end
      else e
    else
      let e := if negb (o_Price o =? ro_price ro)
               then set_repriced (<[orReplaceID o := true]> (e_repriced e)) e else e in
      let smpID := ro_smpID ro in
      let hasSMP := ro_hasSMP ro in
      let e := remove e (o_OrigOrderID o) in
      insert e (replacement o smpID hasSMP) (o_Qty o)
  end.

Definition Process e (o : Order) : Engine T :=
  match o_Kind o with
  | NewLimit => matchAndRest e o true
  | NewMarket => matchAndRest e o false
  | Cancel => remove e (o_OrigOrderID o)
  | Replace => replace e o
  end.

End engine.
