(* ===== verification/BTree.v ===== *)
(** * The ordered tree of price levels

    What [github.com/google/btree] documents about the five methods the engine
    uses ([BTreeLaws]), a sorted-list implementation that has these laws
    ([ListTree]), and the view of a tree the book proofs work with: the list
    of its levels from best to worst price. *)

From stdpp Require Import prelude gmap strings sorting.
From S2P Require Import Prelude GoSort Model Book.

Open Scope Z_scope.

(** Neither level is less than the other. *)
Definition same_key (less : priceLevel -> priceLevel -> bool) (a b : priceLevel) : Prop :=
  less a b = false /\ less b a = false.

(** Documented behaviour, for a tree whose [less] is a strict weak order:
    iteration ([items]) is in ascending order, [Min] is the smallest item,
    [Get] returns the item equal to the key, [ReplaceOrInsert] adds an item in
    place of an equal one, [Delete] removes the item equal to its argument. *)
Class BTreeLaws (T : Type) `{!BTreeG T} := {
  tree_ok : T -> Prop;
  items : T -> list priceLevel;
  lessOf : T -> priceLevel -> priceLevel -> bool;
  ok_new less : StrictWeakOn (fun _ => True) less -> tree_ok (NewG less);
  ok_insert t lv : tree_ok t -> tree_ok (ReplaceOrInsert t lv);
  ok_delete t lv : tree_ok t -> tree_ok (Delete t lv);
  less_new less : lessOf (NewG less) = less;
  less_insert t lv : lessOf (ReplaceOrInsert t lv) = lessOf t;
  less_delete t lv : lessOf (Delete t lv) = lessOf t;
  items_new less : items (NewG less) = [];
  items_sorted t : tree_ok t -> StronglySorted (fun a b => lessOf t a b = true) (items t);
  min_items t : tree_ok t -> Min t = head (items t);
  len_items t : tree_ok t -> Len t = length (items t);
  get_items t k x : tree_ok t -> Get t k = Some x <-> x ∈ items t /\ same_key (lessOf t) x k;
  insert_items t lv x : tree_ok t ->
    x ∈ items (ReplaceOrInsert t lv) <-> x = lv \/ (x ∈ items t /\ ~ same_key (lessOf t) x lv);
  delete_items t k x : tree_ok t ->
    x ∈ items (Delete t k) <-> x ∈ items t /\ ~ same_key (lessOf t) x k;
}.

(** ** An implementation *)

Record ListTree := mkListTree {
  lt_less : priceLevel -> priceLevel -> bool;
  lt_items : list priceLevel;
}.

Definition same_keyb (less : priceLevel -> priceLevel -> bool) (a b : priceLevel) : bool :=
  negb (less a b) && negb (less b a).

Fixpoint lt_insert (less : priceLevel -> priceLevel -> bool) (x : priceLevel)
    (l : list priceLevel) : list priceLevel :=
  match l with
  | [] => [x]
  | y :: l' => if less x y then x :: y :: l'
               else if less y x then y :: lt_insert less x l'
               else x :: l'
  end.

#[export] Instance ListTree_btree : BTreeG ListTree := {
  NewG less := mkListTree less [];
  Min t := head (lt_items t);
  Get t k := List.find (fun x => same_keyb (lt_less t) x k) (lt_items t);
  ReplaceOrInsert t x := mkListTree (lt_less t) (lt_insert (lt_less t) x (lt_items t));
  Delete t k := mkListTree (lt_less t) (List.filter (fun x => negb (same_keyb (lt_less t) x k)) (lt_items t));
  Len t := length (lt_items t);
}.

Lemma same_keyb_spec less a b : same_keyb less a b = true <-> same_key less a b.
Proof. unfold same_keyb, same_key. by rewrite andb_true_iff, !negb_true_iff. Qed.

Section lt.
Context (less : priceLevel -> priceLevel -> bool).
Context (SW : StrictWeakOn (fun _ => True) less).
Let R (a b : priceLevel) : Prop := less a b = true.

Lemma sw_trans_all a b c : R a b -> R b c -> R a c.
Proof using SW.
  unfold R. intros Hab Hbc. destruct (less a c) eqn:Hac; [done|].
  assert (Hcb : less c b = false) by by apply (sw_asym _ _ SW).
  rewrite (sw_negtrans _ _ SW a c b) in Hab; auto.
Qed.

Lemma same_key_less_l a b c : same_key less a b -> less a c = less b c.
Proof using SW.
  intros [Hab Hba]. destruct (less a c) eqn:E1, (less b c) eqn:E2; try done.
  - rewrite (sw_negtrans _ _ SW a b c) in E1; auto.
  - rewrite (sw_negtrans _ _ SW b a c) in E2; auto.
Qed.

Lemma same_key_less_r a b c : same_key less a b -> less c a = less c b.
Proof using SW.
  intros [Hab Hba]. destruct (less c a) eqn:E1, (less c b) eqn:E2; try done.
  - rewrite (sw_negtrans _ _ SW c b a) in E1; auto.
  - rewrite (sw_negtrans _ _ SW c a b) in E2; auto.
Qed.

Lemma lt_insert_elem x l y :
  StronglySorted R l ->
  y ∈ lt_insert less x l <-> y = x \/ (y ∈ l /\ ~ same_key less y x).
Proof using SW.
  intros Hs. induction Hs as [|z l Hs IH Hz]; simpl.
  { rewrite list_elem_of_singleton, elem_of_nil. naive_solver. }
  rewrite Forall_forall in Hz. unfold R in Hz.
  assert (Hirr : forall a, less a a = false).
  { intros a. destruct (less a a) eqn:E; [|done]. by rewrite (sw_asym _ _ SW a a) in E. }
  destruct (less x z) eqn:Hxz; [|destruct (less z x) eqn:Hzx].
  - rewrite !elem_of_cons. split; [|naive_solver].
    intros [->|Hy]; [by left|]. right. split; [done|]. intros [_ Hxy].
    destruct Hy as [->|Hy]; [congruence|].
    rewrite (sw_trans_all x z y Hxz) in Hxy; [done|]. by apply Hz.
  - rewrite !elem_of_cons, IH. unfold same_key. naive_solver congruence.
  - assert (Hk : same_key less x z) by done.
    rewrite !elem_of_cons. split.
    + intros [->|Hy]; [by left|]. right. split; [by right|]. intros [_ Hxy].
      rewrite (same_key_less_l _ _ _ Hk), Hz in Hxy; done.
    + intros [->|[[->|Hy] Hn]]; [by left| |by right]. destruct Hn. by split.
Qed.

Lemma lt_insert_sorted x l : StronglySorted R l -> StronglySorted R (lt_insert less x l).
Proof using SW.
  intros Hs. induction Hs as [|z l Hs IH Hz]; simpl; [repeat constructor|].
  destruct (less x z) eqn:Hxz; [|destruct (less z x) eqn:Hzx].
  - constructor; [by constructor|]. constructor; [done|].
    eapply Forall_impl; [apply Hz|]. intros w Hw. by eapply sw_trans_all.
  - constructor; [done|]. apply Forall_forall. intros w Hw.
    apply lt_insert_elem in Hw as [->|[Hw _]]; [done| |done].
    rewrite Forall_forall in Hz. by apply Hz.
  - constructor; [done|]. eapply Forall_impl; [apply Hz|]. intros w Hw. unfold R in *.
    by rewrite (same_key_less_l x z).
Qed.

End lt.

Lemma filter_sorted {A} (R : A -> A -> Prop) f (l : list A) :
  StronglySorted R l -> StronglySorted R (List.filter f l).
Proof.
  induction 1 as [|x l Hs IH Hx]; simpl; [constructor|]. destruct (f x); [|done].
  constructor; [done|]. rewrite Forall_forall in *. intros y Hy.
  apply Hx. apply list_elem_of_In. apply list_elem_of_In, List.filter_In in Hy. tauto.
Qed.

Lemma find_same_key less (SW : StrictWeakOn (fun _ => True) less) l k x :
  StronglySorted (fun a b => less a b = true) l ->
  List.find (fun y => same_keyb less y k) l = Some x <-> x ∈ l /\ same_key less x k.
Proof.
  intros Hs. induction Hs as [|z l Hs IH Hz]; simpl.
  { split; [done|]. intros [H _]. by apply elem_of_nil in H. }
  rewrite elem_of_cons. destruct (same_keyb less z k) eqn:E.
  - apply same_keyb_spec in E. split; [by intros [= ->]; auto|].
    intros [[->|Hx] Hk]; [done|]. rewrite Forall_forall in Hz. specialize (Hz _ Hx).
    destruct Hk as [Hk1 Hk2]. simpl in Hz.
    rewrite (same_key_less_l _ SW z k) in Hz by done. congruence.
  - rewrite IH. split; [tauto|]. intros [[->|Hx] Hk]; [|done].
    apply same_keyb_spec in Hk. congruence.
Qed.

#[export] Program Instance ListTree_laws : BTreeLaws ListTree := {
  tree_ok t := StrictWeakOn (fun _ => True) (lt_less t) /\
               StronglySorted (fun a b => lt_less t a b = true) (lt_items t);
  items := lt_items;
  lessOf := lt_less;
}.
Next Obligation. intros less SW. split; [done|constructor]. Qed.
Next Obligation. intros t lv [SW Hs]. split; [done|]. by apply lt_insert_sorted. Qed.
Next Obligation. intros t lv [SW Hs]. split; [done|]. by apply filter_sorted. Qed.
Next Obligation. done. Qed.
Next Obligation. done. Qed.
Next Obligation. done. Qed.
Next Obligation. done. Qed.
Next Obligation. by intros t [SW Hs]. Qed.
Next Obligation. done. Qed.
Next Obligation. done. Qed.
Next Obligation. intros t k x [SW Hs]. by apply find_same_key. Qed.
Next Obligation. intros t lv x [SW Hs]. by apply lt_insert_elem. Qed.
Next Obligation.
  intros t k x [SW Hs]. simpl.
  rewrite !list_elem_of_In, List.filter_In, negb_true_iff.
  rewrite <-same_keyb_spec. destruct (same_keyb (lt_less t) x k); naive_solver.
Qed.

(** ** The levels of one side of the book *)

Definition side_less (s : Side) : priceLevel -> priceLevel -> bool :=
  match s with Buy => bid_less | Sell => ask_less end.

Lemma side_less_sw s : StrictWeakOn (fun _ => True) (side_less s).
Proof.
  split; intros; destruct s; simpl in *; unfold bid_less, ask_less in *; zify_bool;
    apply Z.ltb_ge; lia.
Qed.

Lemma side_same_key s a b : same_key (side_less s) a b <-> lv_price a = lv_price b.
Proof.
  unfold same_key. destruct s; simpl; unfold bid_less, ask_less; rewrite !Z.ltb_ge; lia.
Qed.

(** A level of price [p] is served before one of price [q]. *)
Definition better (s : Side) (p q : Z) : Prop :=
  match s with Buy => q < p | Sell => p < q end.

Lemma side_less_better s a b : side_less s a b = true <-> better s (lv_price a) (lv_price b).
Proof. destruct s; simpl; unfold bid_less, ask_less; apply Z.ltb_lt. Qed.

(** Levels in priority order, best first. *)
Definition by_priority (s : Side) : list priceLevel -> Prop :=
  StronglySorted (fun a b => better s (lv_price a) (lv_price b)).

Lemma better_irrefl s p : ~ better s p p.
Proof. destruct s; simpl; lia. Qed.

Lemma better_trans s p q r : better s p q -> better s q r -> better s p r.
Proof. destruct s; simpl; lia. Qed.

Lemma by_priority_ext s l k :
  by_priority s l -> by_priority s k -> (forall x, x ∈ l <-> x ∈ k) -> l = k.
Proof.
  intros Hl. revert k. induction Hl as [|x l Hl IH Hx]; intros k Hk Heq.
  { destruct k as [|y k]; [done|]. assert (Hy : y ∈ y :: k) by left.
    by apply Heq, elem_of_nil in Hy. }
  destruct k as [|y k].
  { assert (Hy : x ∈ x :: l) by left. by apply Heq, elem_of_nil in Hy. }
  inversion Hk as [|?? Hk' Hy]; subst. rewrite Forall_forall in Hx, Hy.
  assert (x = y) as ->.
  { assert (Hxk : x ∈ x :: l) by left. assert (Hyl : y ∈ y :: k) by left.
    apply Heq, elem_of_cons in Hxk as [?|Hxk]; [done|].
    apply Heq, elem_of_cons in Hyl as [?|Hyl]; [done|].
    destruct (better_irrefl s (lv_price x)). eapply better_trans; [by apply Hx|by apply Hy]. }
  f_equal. apply IH; [done|]. intros z. specialize (Heq z). rewrite !elem_of_cons in Heq.
  split; intros Hz.
  - destruct (proj1 Heq) as [->|?]; auto. destruct (better_irrefl s (lv_price y)). by apply Hx.
  - destruct (proj2 Heq) as [->|?]; auto. destruct (better_irrefl s (lv_price y)). by apply Hy.
Qed.

(** The place of a price among levels is unique. *)
Lemma priority_split_unique s p l1 l2 pre post pre' post' :
  by_priority s (pre ++ mkLevel p l1 :: post) -> by_priority s (pre' ++ mkLevel p l2 :: post') ->
  pre ++ post = pre' ++ post' -> pre' = pre /\ post' = post.
Proof.
  intros H1 H2 Heq. apply StronglySorted_app_iff in H1 as (_ & H1 & H1').
  apply StronglySorted_app_iff in H2 as (_ & H2 & H2').
  inversion H1 as [|?? _ Hw1]; inversion H2 as [|?? _ Hw2]; subst.
  assert (Hb1 : forall x, x ∈ pre -> better s (lv_price x) p).
  { intros x Hx. apply (H1' x (mkLevel p l1)); [done|left]. }
  assert (Hb2 : forall x, x ∈ pre' -> better s (lv_price x) p).
  { intros x Hx. apply (H2' x (mkLevel p l2)); [done|left]. }
  clear H1 H2 H1' H2'. rewrite Forall_forall in Hw1, Hw2.
  revert pre' Hb2 Heq. induction pre as [|x pre IH]; intros [|y pre'] Hb2 Heq; simpl in *; try done.
  - subst. destruct (better_irrefl s p). eapply better_trans; [apply (Hw1 y)|apply (Hb2 y)]; left.
  - subst. destruct (better_irrefl s p). eapply better_trans; [apply (Hw2 x)|apply (Hb1 x)]; left.
  - simplify_eq. destruct (IH ltac:(intros; apply Hb1; by right) pre') as [-> ->]; auto.
    intros; apply Hb2. by right.
Qed.

Section view.
Context {T : Type} `{!BTreeG T} `{!BTreeLaws T}.
Implicit Types (t : T).

(** A tree that holds the levels of side [s]. *)
Definition tree_for (s : Side) t : Prop := tree_ok t /\ lessOf t = side_less s.

Lemma tree_for_new s : tree_for s (NewG (side_less s)).
Proof. split; [apply ok_new, side_less_sw|apply less_new]. Qed.

Lemma tree_for_insert s t lv : tree_for s t -> tree_for s (ReplaceOrInsert t lv).
Proof. intros [? ?]. split; [by apply ok_insert|by rewrite less_insert]. Qed.

Lemma tree_for_delete s t lv : tree_for s t -> tree_for s (Delete t lv).
Proof. intros [? ?]. split; [by apply ok_delete|by rewrite less_delete]. Qed.

Lemma tree_for_foldl s t lvs : tree_for s t -> tree_for s (foldl ReplaceOrInsert t lvs).
Proof. revert t. induction lvs; simpl; auto using tree_for_insert. Qed.

Lemma items_by_priority s t : tree_for s t -> by_priority s (items t).
Proof.
  intros [Hok Hl]. pose proof (items_sorted t Hok) as Hs. rewrite Hl in Hs.
  induction Hs as [|x l Hs IH Hx]; constructor; auto.
  eapply Forall_impl; [apply Hx|]. intros y Hy. by apply side_less_better.
Qed.

Lemma elem_items_insert s t lv x : tree_for s t ->
  x ∈ items (ReplaceOrInsert t lv) <-> x = lv \/ (x ∈ items t /\ lv_price x <> lv_price lv).
Proof. intros [Hok Hl]. by rewrite insert_items, Hl, side_same_key. Qed.

Lemma elem_items_delete s t lv x : tree_for s t ->
  x ∈ items (Delete t lv) <-> x ∈ items t /\ lv_price x <> lv_price lv.
Proof. intros [Hok Hl]. by rewrite delete_items, Hl, side_same_key. Qed.

Lemma Get_Some s t k lv : tree_for s t ->
  Get t k = Some lv <-> lv ∈ items t /\ lv_price lv = lv_price k.
Proof. intros [Hok Hl]. by rewrite get_items, Hl, side_same_key. Qed.

Lemma Get_None s t k lv : tree_for s t ->
  Get t k = None -> lv ∈ items t -> lv_price lv <> lv_price k.
Proof.
  intros Ht Hn Hin Hp. assert (Get t k = Some lv) by by eapply Get_Some. congruence.
Qed.

Lemma Min_items s t : tree_for s t -> Min t = head (items t).
Proof. intros [? _]. by apply min_items. Qed.

(** Replacing or deleting the level [x] of the decomposition [pre ++ x :: post]. *)
Lemma items_replace s t pre x post y :
  tree_for s t -> items t = pre ++ x :: post -> lv_price y = lv_price x ->
  items (ReplaceOrInsert t y) = pre ++ y :: post.
Proof.
  intros Ht Hit Hp. pose proof (items_by_priority s t Ht) as Hs. rewrite Hit in Hs.
  apply StronglySorted_app_iff in Hs as (H1 & H2 & H3).
  inversion H2 as [|?? H4 H5]; subst. rewrite Forall_forall in H5.
  apply (by_priority_ext s).
  - by apply items_by_priority, tree_for_insert.
  - apply StronglySorted_app_iff. split_and!; [done| |].
    + constructor; [done|]. apply Forall_forall. intros z Hz. rewrite Hp. auto.
    + intros a b Ha [->|Hb]%elem_of_cons; [rewrite Hp|]; apply H3; auto; [left|by right].
  - intros z. rewrite (elem_items_insert s) by done. rewrite Hit, !elem_of_app, !elem_of_cons.
    split; [intros [->|[[?|[->|?]] ?]]; auto; congruence|].
    intros [Hz|[->|Hz]]; [|by left|]; right; rewrite Hp; split; auto; intros Heq.
    + apply (better_irrefl s (lv_price x)). rewrite <-Heq at 1. apply H3; [done|left].
    + apply (better_irrefl s (lv_price x)). rewrite <-Heq at 2. auto.
Qed.

Lemma items_delete s t pre x post y :
  tree_for s t -> items t = pre ++ x :: post -> lv_price y = lv_price x ->
  items (Delete t y) = pre ++ post.
Proof.
  intros Ht Hit Hp. pose proof (items_by_priority s t Ht) as Hs. rewrite Hit in Hs.
  apply StronglySorted_app_iff in Hs as (H1 & H2 & H3).
  inversion H2 as [|?? H4 H5]; subst. rewrite Forall_forall in H5.
  apply (by_priority_ext s).
  - by apply items_by_priority, tree_for_delete.
  - apply StronglySorted_app_iff. split_and!; [done..|].
    intros a b Ha Hb. apply H3; [done|by right].
  - intros z. rewrite (elem_items_delete s) by done. rewrite Hit, !elem_of_app, !elem_of_cons.
    split; [intros [[?|[->|?]] ?]; auto; congruence|].
    intros Hz. split; [naive_solver|]. rewrite Hp. intros Heq. destruct Hz as [Hz|Hz].
    + apply (better_irrefl s (lv_price x)). rewrite <-Heq at 1. apply H3; [done|left].
    + apply (better_irrefl s (lv_price x)). rewrite <-Heq at 2. auto.
Qed.

(** Inserting a level of a price the tree does not hold. *)
Lemma items_insert_new s t lv :
  tree_for s t -> (forall x, x ∈ items t -> lv_price x <> lv_price lv) ->
  exists pre post, items t = pre ++ post /\ items (ReplaceOrInsert t lv) = pre ++ lv :: post.
Proof.
  intros Ht Hnew. pose proof (tree_for_insert s t lv Ht) as Ht'.
  assert (Hel : forall x, x ∈ items (ReplaceOrInsert t lv) <-> x = lv \/ x ∈ items t).
  { intros x. rewrite (elem_items_insert s) by done. naive_solver. }
  assert (Hin : lv ∈ items (ReplaceOrInsert t lv)) by (apply Hel; by left).
  apply list_elem_of_split in Hin as (pre & post & Heq). exists pre, post. split; [|done].
  pose proof (items_by_priority s _ Ht') as Hs. rewrite Heq in Hs.
  apply StronglySorted_app_iff in Hs as (H1 & H2 & H3). inversion H2 as [|?? H4 H5]; subst.
  rewrite Forall_forall in H5.
  apply (by_priority_ext s); [by apply items_by_priority| |].
  - apply StronglySorted_app_iff. split_and!; [done..|]. intros; apply H3; [done|by right].
  - intros x. specialize (Hel x). rewrite Heq, elem_of_app, elem_of_cons in Hel.
    rewrite elem_of_app. split; [intros Hx; destruct (proj2 Hel) as [?|[->|?]]; auto|].
    + by destruct (Hnew lv Hx).
    + intros Hx. destruct (proj1 Hel) as [->|?]; [tauto| |done]. exfalso.
      apply (better_irrefl s (lv_price lv)). destruct Hx as [Hx|Hx]; [|by apply H5].
      apply (H3 lv lv); [done|left].
Qed.

(** Putting back levels that are all better than what the tree holds. *)
Lemma elem_items_restore s t lvs z :
  tree_for s t -> by_priority s lvs ->
  (forall w w', w ∈ items t -> w' ∈ lvs -> lv_price w <> lv_price w') ->
  z ∈ items (foldl ReplaceOrInsert t lvs) <-> z ∈ lvs \/ z ∈ items t.
Proof.
  revert t z. induction lvs as [|lv lvs IH]; intros t z Ht Hs Hd; simpl.
  { rewrite elem_of_nil. tauto. }
  inversion Hs as [|?? Hs1 Hlv]; subst. rewrite Forall_forall in Hlv.
  assert (Hi : forall w, w ∈ items (ReplaceOrInsert t lv) <-> w = lv \/ w ∈ items t).
  { intros w. rewrite (elem_items_insert s) by done. split; [naive_solver|].
    intros [?|?]; [by left|]. right. split; [done|]. apply Hd; [done|left]. }
  rewrite IH, Hi, elem_of_cons; [tauto|by apply tree_for_insert|done|].
  intros w w' [->|Hw]%Hi Hw'; [|apply Hd; [done|by right]].
  intros Heq. apply (better_irrefl s (lv_price lv)). rewrite Heq at 2. by apply Hlv.
Qed.

Lemma items_restore s t lvs :
  tree_for s t -> by_priority s (lvs ++ items t) ->
  items (foldl ReplaceOrInsert t lvs) = lvs ++ items t.
Proof.
  intros Ht Hs. apply (by_priority_ext s); [by apply items_by_priority, tree_for_foldl|done|].
  intros z. apply StronglySorted_app_iff in Hs as (H1 & _ & Hsep).
  rewrite elem_items_restore, elem_of_app; [done..|].
  intros w w' Hw Hw' Heq. apply (better_irrefl s (lv_price w)). rewrite Heq at 1. by apply Hsep.
Qed.

End view.

Arguments tree_for {T _ _} s t.
