(* ===== verification/BookInv.v ===== *)
(** * Invariant of the reference book

    [core] relates the heap, the index and the FIFOs of a book given as an
    explicit list of levels per side, so that it also speaks about the states
    inside the matching loops, where levels are parked outside their tree.
    [wf] is [core] at the levels the trees hold. The lemmas of this file are
    the atomic steps every operation is made of. *)

From stdpp Require Import prelude gmap strings sorting.
From S2P Require Import Prelude GoSort Model Book BTree.

Open Scope Z_scope.

Section inv.
Context {T : Type} `{!BTreeG T} `{!BTreeLaws T}.
Implicit Types (e : Engine T) (Lv : Side -> list priceLevel) (s : Side).

(** The pointers of a list of levels, in priority order. *)
Definition lptrs (L : list priceLevel) : list ptr := L ≫= lv_orders.

Definition levels_of e s : list priceLevel := items (tree e s).

Record core e Lv : Prop := {
  core_nodup s : NoDup (lptrs (Lv s));
  core_level s lv p : lv ∈ Lv s -> p ∈ lv_orders lv ->
    exists ro, e_heap e !! p = Some ro /\ ro_side ro = s /\ ro_price ro = lv_price lv /\
               e_index e !! ro_orderID ro = Some p;
  core_index id p : e_index e !! id = Some p ->
    exists ro, e_heap e !! p = Some ro /\ ro_orderID ro = id /\ p ∈ lptrs (Lv (ro_side ro));
  core_fifo s lv : lv ∈ Lv s ->
    StronglySorted (fun p q => ro_seq (deref e p) < ro_seq (deref e q)) (lv_orders lv);
  core_seq s p : p ∈ lptrs (Lv s) -> ro_seq (deref e p) <= e_seq e;
  core_qty s p : p ∈ lptrs (Lv s) -> 0 <= ro_remaining (deref e p) < 2 ^ 64;
  core_next p : is_Some (e_heap e !! p) -> (p < e_next e)%positive;
  core_seq_range : 0 <= e_seq e < 2 ^ 64;
}.

Lemma side_cases s s' : s' = s \/ s' = oppositeSide s.
Proof. destruct s, s'; auto. Qed.

Lemma elem_lptrs p L : p ∈ lptrs L <-> exists lv, lv ∈ L /\ p ∈ lv_orders lv.
Proof. unfold lptrs. rewrite list_elem_of_bind. naive_solver. Qed.

Lemma lptrs_app L1 L2 : lptrs (L1 ++ L2) = lptrs L1 ++ lptrs L2.
Proof. apply bind_app. Qed.

Lemma lptrs_cons lv L : lptrs (lv :: L) = lv_orders lv ++ lptrs L.
Proof. done. Qed.

Lemma deref_lookup e p ro : e_heap e !! p = Some ro -> deref e p = ro.
Proof. unfold deref. by intros ->. Qed.

(** Everything [core] says about one resting pointer. *)
Lemma core_ptr e Lv s p : core e Lv -> p ∈ lptrs (Lv s) ->
  e_heap e !! p = Some (deref e p) /\ ro_side (deref e p) = s /\
  e_index e !! ro_orderID (deref e p) = Some p.
Proof.
  intros C (lv & Hlv & Hp)%elem_lptrs.
  destruct (core_level _ _ C s lv p Hlv Hp) as (ro & Hh & Hs & _ & Hi).
  by rewrite (deref_lookup _ _ _ Hh).
Qed.

Lemma core_ptr_price e Lv s lv p : core e Lv -> lv ∈ Lv s -> p ∈ lv_orders lv ->
  ro_price (deref e p) = lv_price lv.
Proof.
  intros C Hlv Hp. destruct (core_level _ _ C s lv p Hlv Hp) as (ro & Hh & _ & Hpr & _).
  by rewrite (deref_lookup _ _ _ Hh).
Qed.

(** Ids identify resting pointers, also across the two sides. *)
Lemma core_id_inj e Lv s s' p q : core e Lv -> p ∈ lptrs (Lv s) -> q ∈ lptrs (Lv s') ->
  ro_orderID (deref e p) = ro_orderID (deref e q) -> p = q.
Proof.
  intros C Hp Hq Heq. destruct (core_ptr _ _ _ _ C Hp) as (_ & _ & H1).
  destruct (core_ptr _ _ _ _ C Hq) as (_ & _ & H2). congruence.
Qed.

(** [core] reads the heap, the allocator, the index and the counter only. *)
Lemma core_ext e e' Lv Lv' :
  e_heap e' = e_heap e -> e_next e' = e_next e -> e_index e' = e_index e ->
  e_seq e' = e_seq e -> (forall s, Lv' s = Lv s) -> core e Lv -> core e' Lv'.
Proof.
  intros Hh Hn Hi Hq HL C.
  assert (Hd : forall p, deref e' p = deref e p) by (intros; unfold deref; by rewrite Hh).
  split; intros *; rewrite ?HL, ?Hh, ?Hn, ?Hi, ?Hq, ?Hd; try apply C.
  - setoid_rewrite HL. apply C.
  - intros Hlv. eapply StronglySorted_impl_in; [|by eapply C]. intros ????. by rewrite !Hd.
Qed.

(** ** Atomic steps *)

(** Assigning [remaining] of one order. *)
Lemma deref_set_remaining e m ro q p :
  e_heap e !! m = Some ro ->
  deref (set_heap (<[m := set_remaining ro q]> (e_heap e)) e) p
  = if decide (p = m) then set_remaining ro q else deref e p.
Proof.
  intros Hm. unfold deref, set_heap; simpl. case_decide; subst.
  - by rewrite lookup_insert_eq.
  - by rewrite lookup_insert_ne.
Qed.

Lemma core_set_remaining e Lv m ro q :
  core e Lv -> e_heap e !! m = Some ro -> 0 <= q < 2 ^ 64 ->
  core (set_heap (<[m := set_remaining ro q]> (e_heap e)) e) Lv.
Proof.
  intros C Hm Hq. set (e' := set_heap _ e).
  assert (Hd : forall p, ro_seq (deref e' p) = ro_seq (deref e p)).
  { intros p. unfold e'. rewrite deref_set_remaining by done.
    case_decide; subst; [by rewrite (deref_lookup e m ro)|done]. }
  assert (Hh : forall p r, e_heap e !! p = Some r -> exists r',
            e_heap e' !! p = Some r' /\ ro_side r' = ro_side r /\ ro_price r' = ro_price r /\
            ro_orderID r' = ro_orderID r).
  { intros p r Hp. unfold e'; simpl. destruct (decide (p = m)) as [->|Hne].
    - rewrite lookup_insert_eq. simplify_eq. by eexists.
    - rewrite lookup_insert_ne by done. by eexists. }
  split.
  - apply C.
  - intros s lv p Hlv Hp. destruct (core_level _ _ C s lv p Hlv Hp) as (r & H1 & H2 & H3 & H4).
    destruct (Hh _ _ H1) as (r' & ? & ? & ? & ?). exists r'. split_and!; [done|congruence..|].
    unfold e'; simpl. congruence.
  - intros id p Hi. destruct (core_index _ _ C id p Hi) as (r & H1 & H2 & H3).
    destruct (Hh _ _ H1) as (r' & ? & ? & ? & ?). exists r'. split_and!; [done|congruence..].
  - intros s lv Hlv. eapply StronglySorted_impl_in; [|by eapply C]. intros ????. by rewrite !Hd.
  - intros s p Hp. rewrite Hd. by eapply C.
  - intros s p Hp. unfold e'. rewrite deref_set_remaining by done.
    case_decide; [done|]. by eapply C.
  - intros p. unfold e'; simpl. destruct (decide (p = m)) as [->|Hne].
    + intros _. apply C. by rewrite Hm.
    + rewrite lookup_insert_ne by done. apply C.
  - apply C.
Qed.

(** Dropping the pointer [m] from its FIFO together with its index entry. *)
Lemma lptrs_drop_perm pre p l1 m l2 post :
  lptrs (pre ++ mkLevel p (l1 ++ m :: l2) :: post)
  ≡ₚ m :: lptrs (pre ++ mkLevel p (l1 ++ l2) :: post).
Proof. rewrite !lptrs_app, !lptrs_cons. simpl. solve_Permutation. Qed.

Lemma elem_drop_level pre p l1 m l2 post lv :
  lv ∈ pre ++ mkLevel p (l1 ++ l2) :: post ->
  exists lv', lv' ∈ pre ++ mkLevel p (l1 ++ m :: l2) :: post /\
    lv_price lv' = lv_price lv /\ sublist (lv_orders lv) (lv_orders lv').
Proof.
  rewrite elem_of_app, elem_of_cons. intros [?|[->|?]].
  - exists lv. rewrite elem_of_app. auto.
  - exists (mkLevel p (l1 ++ m :: l2)). rewrite elem_of_app, elem_of_cons. simpl.
    split_and!; auto. apply sublist_app; [done|]. by apply sublist_cons.
  - exists lv. rewrite elem_of_app, elem_of_cons. auto.
Qed.

Lemma core_evict e Lv Lv' s pre p l1 m l2 post :
  core e Lv -> Lv s = pre ++ mkLevel p (l1 ++ m :: l2) :: post ->
  Lv' s = pre ++ mkLevel p (l1 ++ l2) :: post ->
  Lv' (oppositeSide s) = Lv (oppositeSide s) ->
  core (evict_id (ro_orderID (deref e m)) e) Lv'.
Proof.
  intros C HL HL' Ho. set (e' := evict_id _ e).
  assert (Hd : forall q, deref e' q = deref e q) by done.
  assert (Hm : m ∈ lptrs (Lv s)).
  { rewrite HL, lptrs_drop_perm. left. }
  assert (Hnd : NoDup (m :: lptrs (Lv' s))).
  { rewrite HL', <-lptrs_drop_perm, <-HL. apply C. }
  apply NoDup_cons in Hnd as [Hnin Hnd].
  assert (Hlv : forall s' lv, lv ∈ Lv' s' -> exists lv', lv' ∈ Lv s' /\
            lv_price lv' = lv_price lv /\ sublist (lv_orders lv) (lv_orders lv')).
  { intros s' lv Hin. destruct (side_cases s s') as [->| ->].
    - rewrite HL' in Hin. rewrite HL. by apply elem_drop_level.
    - rewrite Ho in Hin. exists lv. auto. }
  assert (Hp : forall s' q, q ∈ lptrs (Lv' s') -> q ∈ lptrs (Lv s') /\ q <> m).
  { intros s' q Hq. split.
    - apply elem_lptrs in Hq as (lv & Hin & Hq). apply elem_lptrs.
      destruct (Hlv _ _ Hin) as (lv' & ? & _ & Hsub). exists lv'. split; [done|].
      by eapply elem_of_sublist.
    - intros ->. destruct (side_cases s s') as [->| ->]; [done|]. rewrite Ho in Hq.
      destruct (core_ptr _ _ _ _ C Hm) as (_ & H1 & _).
      destruct (core_ptr _ _ _ _ C Hq) as (_ & H2 & _). rewrite H1 in H2. by destruct s. }
  assert (Hid : forall s' q, q ∈ lptrs (Lv' s') ->
            ro_orderID (deref e q) <> ro_orderID (deref e m)).
  { intros s' q Hq Heq. destruct (Hp _ _ Hq) as [Hq' Hne]. destruct Hne. by eapply core_id_inj. }
  split.
  - intros s'. destruct (side_cases s s') as [->| ->]; [done|]. rewrite Ho. apply C.
  - intros s' lv q Hin Hq. destruct (Hlv _ _ Hin) as (lv' & Hin' & Hpr & Hsub).
    destruct (core_level _ _ C s' lv' q Hin') as (r & H1 & H2 & H3 & H4).
    { by eapply elem_of_sublist. }
    exists r. split_and!; [done..|congruence|]. unfold e'; simpl. rewrite lookup_delete_ne; [done|].
    apply not_eq_sym. rewrite <-(deref_lookup e q r H1). apply (Hid s'). apply elem_lptrs. by exists lv.
  - intros id q. unfold e'; simpl. rewrite lookup_delete_Some. intros [Hne Hi].
    destruct (core_index _ _ C id q Hi) as (r & H1 & H2 & H3). exists r. split_and!; [done..|].
    destruct (side_cases s (ro_side r)) as [Hs| Hs]; rewrite Hs in *; [|by rewrite Ho].
    rewrite HL, lptrs_drop_perm, elem_of_cons in H3. rewrite HL'. destruct H3 as [->|]; [|done].
    rewrite (deref_lookup _ _ _ H1) in Hne. congruence.
  - intros s' lv Hin. destruct (Hlv _ _ Hin) as (lv' & Hin' & _ & Hsub).
    eapply StronglySorted_sublist; [done|]. by eapply C.
  - intros s' q Hq. destruct (Hp _ _ Hq). rewrite Hd. by eapply C.
  - intros s' q Hq. destruct (Hp _ _ Hq). rewrite Hd. by eapply C.
  - apply C.
  - apply C.
Qed.

(** Adding or dropping empty levels. *)
Lemma core_same_ptrs e Lv Lv' :
  core e Lv -> (forall s, lptrs (Lv' s) = lptrs (Lv s)) ->
  (forall s lv, lv ∈ Lv' s -> lv ∈ Lv s \/ lv_orders lv = []) -> core e Lv'.
Proof.
  intros C Hp Hin.
  split; intros *; rewrite ?Hp; try apply C.
  - intros Hlv Hq. destruct (Hin _ _ Hlv) as [?|Hnil]; [by eapply core_level|].
    rewrite Hnil in Hq. by apply elem_of_nil in Hq.
  - intros Hi. destruct (core_index _ _ C id p Hi) as (r & H1 & H2 & H3). exists r. by rewrite Hp.
  - intros Hlv. destruct (Hin _ _ Hlv) as [?| ->]; [by eapply core_fifo|constructor].
Qed.

Lemma core_empty_level e Lv Lv' s pre p post :
  core e Lv -> Lv s = pre ++ post -> Lv' s = pre ++ mkLevel p [] :: post ->
  Lv' (oppositeSide s) = Lv (oppositeSide s) -> core e Lv'.
Proof.
  intros C HL HL' Ho. eapply core_same_ptrs; [done|..].
  - intros s'. destruct (side_cases s s') as [->| ->]; [|by rewrite Ho].
    by rewrite HL, HL', !lptrs_app, lptrs_cons.
  - intros s' lv. destruct (side_cases s s') as [->| ->]; [|rewrite Ho; auto].
    rewrite HL, HL', !elem_of_app, elem_of_cons. naive_solver.
Qed.

Lemma core_drop_empty e Lv Lv' s pre p post :
  core e Lv -> Lv s = pre ++ mkLevel p [] :: post -> Lv' s = pre ++ post ->
  Lv' (oppositeSide s) = Lv (oppositeSide s) -> core e Lv'.
Proof.
  intros C HL HL' Ho. eapply core_same_ptrs; [done|..].
  - intros s'. destruct (side_cases s s') as [->| ->]; [|by rewrite Ho].
    by rewrite HL, HL', !lptrs_app, lptrs_cons.
  - intros s' lv. destruct (side_cases s s') as [->| ->]; [|rewrite Ho; auto].
    rewrite HL, HL', !elem_of_app, elem_of_cons. naive_solver.
Qed.

(** A fresh order appended to the FIFO of a level. *)
Section push.
Context e e' Lv Lv' s (pre : list priceLevel) (os : list ptr) (post : list priceLevel) (ro : restingOrder).
Hypothesis C : core e Lv.
Hypothesis Hfr : e_index e !! ro_orderID ro = None.
Hypothesis Hov : e_seq e + 1 < 2 ^ 64.
Hypothesis Hq : 0 <= ro_remaining ro < 2 ^ 64.
Hypothesis Hsq : ro_seq ro = e_seq e + 1.
Hypothesis Hh : e_heap e' = <[e_next e := ro]> (e_heap e).
Hypothesis Hn : e_next e' = Pos.succ (e_next e).
Hypothesis Hi : e_index e' = <[ro_orderID ro := e_next e]> (e_index e).
Hypothesis Hs : e_seq e' = e_seq e + 1.
Hypothesis Hsd : ro_side ro = s.
Hypothesis HL : Lv s = pre ++ mkLevel (ro_price ro) os :: post.
Hypothesis HL' : Lv' s = pre ++ mkLevel (ro_price ro) (os ++ [e_next e]) :: post.
Hypothesis Ho : Lv' (oppositeSide s) = Lv (oppositeSide s).

Lemma push_new : deref e' (e_next e) = ro.
Proof using Hh. apply deref_lookup. by rewrite Hh, lookup_insert_eq. Qed.

Lemma push_fresh : e_heap e !! e_next e = None.
Proof using C.
  destruct (e_heap e !! e_next e) eqn:E; [|done].
  destruct (Pos.lt_irrefl (e_next e)). apply (core_next _ _ C). by rewrite E.
Qed.

(** The orders that were resting are untouched. *)
Lemma push_deref q s' : q ∈ lptrs (Lv s') -> q <> e_next e /\ deref e' q = deref e q.
Proof using C Hh.
  intros Hq'. destruct (core_ptr _ _ _ _ C Hq') as (Hq1 & _ & _). pose proof push_fresh.
  assert (q <> e_next e) by congruence. split; [done|].
  apply deref_lookup. rewrite Hh, lookup_insert_ne by done. done.
Qed.

Lemma push_lptrs : lptrs (Lv' s) ≡ₚ e_next e :: lptrs (Lv s).
Proof using HL HL'. rewrite HL, HL', !lptrs_app, !lptrs_cons. simpl. solve_Permutation. Qed.

Lemma push_ptr s' q : q ∈ lptrs (Lv' s') -> q ∈ lptrs (Lv s') \/ q = e_next e.
Proof.
  destruct (side_cases s s') as [->| ->]; [|rewrite Ho; auto]. rewrite push_lptrs, elem_of_cons. tauto.
Qed.

Lemma push_level s' lv :
  lv ∈ Lv' s' -> lv ∈ Lv s' \/ (s' = s /\ lv = mkLevel (ro_price ro) (os ++ [e_next e])).
Proof.
  destruct (side_cases s s') as [->| ->]; [|rewrite Ho; auto].
  rewrite HL', HL, !elem_of_app, !elem_of_cons. naive_solver.
Qed.

Lemma push_level_in : mkLevel (ro_price ro) os ∈ Lv s.
Proof using HL. rewrite HL, elem_of_app, elem_of_cons. auto. Qed.

Lemma push_queue q : q ∈ os -> q ∈ lptrs (Lv s).
Proof using HL. intros Hq'. apply elem_lptrs. eexists. split; [apply push_level_in|done]. Qed.

Lemma push_old s' lv q :
  lv ∈ Lv s' -> q ∈ lv_orders lv -> exists r,
    e_heap e' !! q = Some r /\ ro_side r = s' /\ ro_price r = lv_price lv /\ e_index e' !! ro_orderID r = Some q.
Proof using C Hfr Hh Hi.
  intros Hin Hq'. destruct (core_level _ _ C s' lv q Hin Hq') as (r & H1 & H2 & H3 & H4). pose proof push_fresh.
  exists r. rewrite Hh, Hi, !lookup_insert_ne; [done| |]; congruence.
Qed.

(** The new order is behind its level's queue. *)
Lemma push_fifo s' lv :
  lv ∈ Lv' s' -> StronglySorted (fun p q => ro_seq (deref e' p) < ro_seq (deref e' q)) (lv_orders lv).
Proof.
  intros Hin. destruct (push_level _ _ Hin) as [Hin'|[-> ->]].
  - eapply StronglySorted_impl_in; [|by eapply C]. intros a b Ha Hb.
    rewrite !(fun q H => proj2 (push_deref q s' H)); [done|apply elem_lptrs; by exists lv..].
  - simpl. apply StronglySorted_app_iff. split_and!.
    + eapply StronglySorted_impl_in; [|apply (core_fifo _ _ C s _ push_level_in)].
      intros a b Ha Hb. rewrite !(fun q H => proj2 (push_deref q s H)); auto using push_queue.
    + repeat constructor.
    + intros a b Ha ->%list_elem_of_singleton. rewrite push_new, Hsq.
      rewrite (proj2 (push_deref a s (push_queue _ Ha))). pose proof (core_seq _ _ C s a (push_queue _ Ha)). lia.
Qed.

Lemma core_push : core e' Lv'.
Proof.
  split.
  - intros s'. destruct (side_cases s s') as [->| ->]; [|rewrite Ho; apply C].
    rewrite push_lptrs. apply NoDup_cons. split; [|apply C]. intros Hin. by destruct (push_deref _ _ Hin).
  - intros s' lv q Hin Hq'. destruct (push_level _ _ Hin) as [Hin'|[-> ->]]; [by eapply push_old|].
    simpl in Hq'. apply elem_of_app in Hq' as [Hq'|Hq'%list_elem_of_singleton].
    + by apply (push_old s (mkLevel (ro_price ro) os) q push_level_in).
    + subst q. exists ro. by rewrite Hh, Hi, !lookup_insert_eq.
  - intros id q. rewrite Hi, lookup_insert_Some. intros [[<- <-]|[Hne Hq']].
    + exists ro. rewrite Hh, lookup_insert_eq. split_and!; [done..|]. rewrite Hsd, push_lptrs. left.
    + destruct (core_index _ _ C id q Hq') as (r & H1 & H2 & H3). exists r.
      destruct (push_deref _ _ H3) as [Hqp _]. rewrite Hh, lookup_insert_ne by done. split_and!; [done..|].
      destruct (side_cases s (ro_side r)) as [Hr|Hr]; rewrite Hr in *; [|by rewrite Ho].
      rewrite push_lptrs. by right.
  - apply push_fifo.
  - intros s' q Hq'. rewrite Hs. destruct (push_ptr _ _ Hq') as [Hq''| ->].
    + rewrite (proj2 (push_deref _ _ Hq'')). pose proof (core_seq _ _ C s' q Hq''). lia.
    + rewrite push_new. lia.
  - intros s' q Hq'. destruct (push_ptr _ _ Hq') as [Hq''| ->].
    + rewrite (proj2 (push_deref _ _ Hq'')). by eapply C.
    + by rewrite push_new.
  - intros q. rewrite Hh, Hn, lookup_insert_is_Some. intros [<-|[_ Hq']]; [lia|]. apply C in Hq'. lia.
  - rewrite Hs. pose proof (core_seq_range _ _ C). lia.
Qed.

End push.

(** An order renamed in place: same pointer, same queue position. *)
Lemma core_rename e e' Lv p ro new :
  core e Lv -> e_index e !! ro_orderID ro = Some p -> e_heap e !! p = Some ro ->
  e_index e !! new = None ->
  e_heap e' = <[p := set_orderID ro new]> (e_heap e) -> e_next e' = e_next e ->
  e_index e' = <[new := p]> (delete (ro_orderID ro) (e_index e)) -> e_seq e' = e_seq e ->
  core e' Lv.
Proof.
  intros C Hi Hp Hfr Hh Hn Hix Hs.
  assert (Hd : forall q, ro_seq (deref e' q) = ro_seq (deref e q) /\
                         ro_remaining (deref e' q) = ro_remaining (deref e q)).
  { intros q. unfold deref. rewrite Hh. destruct (decide (q = p)) as [->|].
    - by rewrite lookup_insert_eq, Hp.
    - by rewrite lookup_insert_ne. }
  assert (Hpin : p ∈ lptrs (Lv (ro_side ro))).
  { destruct (core_index _ _ C _ _ Hi) as (r & H1 & _ & H3). by simplify_eq. }
  split.
  - apply C.
  - intros s lv q Hin Hq. destruct (core_level _ _ C s lv q Hin Hq) as (r & H1 & H2 & H3 & H4).
    rewrite Hh, Hix. destruct (decide (q = p)) as [->|Hne].
    + simplify_eq. exists (set_orderID ro new). rewrite lookup_insert_eq. split_and!; [done..|].
      simpl. by rewrite lookup_insert_eq.
    + exists r. rewrite lookup_insert_ne by done. split_and!; [done..|].
      rewrite lookup_insert_ne by congruence. rewrite lookup_delete_ne; [done|]. congruence.
  - intros id q. rewrite Hix, Hh, lookup_insert_Some, lookup_delete_Some.
    intros [[<- <-]|(Hne & Hne' & Hq)].
    + exists (set_orderID ro new). by rewrite lookup_insert_eq.
    + destruct (core_index _ _ C id q Hq) as (r & H1 & H2 & H3). exists r.
      rewrite lookup_insert_ne; [done|]. congruence.
  - intros s lv Hlv. eapply StronglySorted_impl_in; [|by eapply C].
    intros a b _ _. by rewrite !(proj1 (Hd _)).
  - intros s q Hq. rewrite (proj1 (Hd _)), Hs. by eapply C.
  - intros s q Hq. rewrite (proj2 (Hd _)). by eapply C.
  - intros q. rewrite Hh, Hn, lookup_insert_is_Some. intros [<-|[_ ?]]; apply C; [by rewrite Hp|done].
  - rewrite Hs. apply C.
Qed.

(** ** Well-formed engines *)

Record wf e : Prop := {
  wf_tree s : tree_for s (tree e s);
  wf_core : core e (levels_of e);
  wf_nonempty s : Forall (fun lv => lv_orders lv <> []) (levels_of e s);
}.

Lemma wf_new : wf (@NewEngine T _).
Proof.
  assert (HL : forall s, levels_of (@NewEngine T _) s = []).
  { intros []; unfold levels_of; simpl; apply items_new. }
  split.
  - intros []; apply (tree_for_new Buy) || apply (tree_for_new Sell).
  - split; intros *; rewrite ?HL; simpl; try (intros H; by apply elem_of_nil in H).
    + constructor.
    + by rewrite lookup_empty.
    + rewrite lookup_empty. by intros [].
    + lia.
  - intros s. by rewrite HL.
Qed.

End inv.
