(* ===== verification/BookMatch.v ===== *)
(** * Matching refines a one-pass sweep of the book

    The specification of matching is [sweep]: walk the opposite side in
    price-time order, stop when the quantity is used up or the price is no
    longer acceptable, pass over makers with the aggressor's SMP id, and trade
    with every other one. [matchAndRest] gets there with nested loops that take
    skipped makers out of a FIFO and put them back, and park whole levels
    outside the tree; the theorems here show it computes exactly [sweep]. *)

From stdpp Require Import prelude gmap strings sorting.
From S2P Require Import Prelude GoSort Model Book BTree BookInv.

Open Scope Z_scope.

(** ** Specification *)

(** A resting price the aggressor accepts: any for a market order, a crossing
    one for a limit order. *)
Definition takes (o : Order) (price : Z) : bool :=
  negb (bool_decide (o_Kind o = NewLimit) && negb (crosses (o_Side o) (o_Price o) price)).

Record Sweep := mkSweep {
  sw_book : list restingOrder;   (* what is left resting, in priority order *)
  sw_trades : list Trade;
  sw_gone : list string;         (* makers used up *)
  sw_rem : Z;                    (* what the aggressor still wants *)
}.

Fixpoint sweep (o : Order) (rem : Z) (makers : list restingOrder) : Sweep :=
  match makers with
  | [] => mkSweep [] [] [] rem
  | m :: makers' =>
    if negb (0 <? rem) || negb (takes o (ro_price m)) then mkSweep makers [] [] rem
    else if smp_conflict o m then
      let r := sweep o rem makers' in
      mkSweep (m :: sw_book r) (sw_trades r) (sw_gone r) (sw_rem r)
    else
      let q := Z.min rem (ro_remaining m) in
      let r := sweep o (rem - q) makers' in
      let t := trade_of o m (ro_price m) q in
      if q =? ro_remaining m then
        mkSweep (sw_book r) (t :: sw_trades r) (ro_orderID m :: sw_gone r) (sw_rem r)
      else
        mkSweep (set_remaining m (ro_remaining m - q) :: sw_book r) (t :: sw_trades r)
          (sw_gone r) (sw_rem r)
  end.

(** The two fills a trade is reported as: taker first. *)
Definition fills_of (t : Trade) : list Fill :=
  [mkFill (t_TakerOrderID t) (t_Price t) (t_Qty t); mkFill (t_MakerOrderID t) (t_Price t) (t_Qty t)].

Lemma sweep_zero o rem ms : rem <= 0 -> sweep o rem ms = mkSweep ms [] [] rem.
Proof. intros. destruct ms; simpl; [done|]. by rewrite (proj2 (Z.ltb_ge 0 rem)). Qed.

Lemma sweep_refused o rem m ms :
  takes o (ro_price m) = false -> sweep o rem (m :: ms) = mkSweep (m :: ms) [] [] rem.
Proof. intros Ht. simpl. by rewrite Ht, orb_true_r. Qed.

Lemma sweep_skip o rem m ms :
  0 < rem -> takes o (ro_price m) = true -> smp_conflict o m = true ->
  sweep o rem (m :: ms) =
  let r := sweep o rem ms in mkSweep (m :: sw_book r) (sw_trades r) (sw_gone r) (sw_rem r).
Proof. intros Hr Ht Hc. simpl. by rewrite (proj2 (Z.ltb_lt 0 rem)), Ht, Hc. Qed.

Lemma sweep_full o rem m ms :
  0 < rem -> takes o (ro_price m) = true -> smp_conflict o m = false -> ro_remaining m <= rem ->
  sweep o rem (m :: ms) =
  let r := sweep o (rem - ro_remaining m) ms in
  mkSweep (sw_book r) (trade_of o m (ro_price m) (ro_remaining m) :: sw_trades r)
    (ro_orderID m :: sw_gone r) (sw_rem r).
Proof.
  intros Hr Ht Hc Hq. simpl. rewrite (proj2 (Z.ltb_lt 0 rem)), Ht, Hc by done. simpl.
  rewrite Z.min_r by done. by rewrite Z.eqb_refl.
Qed.

Lemma sweep_part o rem m ms :
  0 < rem -> takes o (ro_price m) = true -> smp_conflict o m = false -> rem < ro_remaining m ->
  sweep o rem (m :: ms) =
  mkSweep (set_remaining m (ro_remaining m - rem) :: ms) [trade_of o m (ro_price m) rem] [] 0.
Proof.
  intros Hr Ht Hc Hq. simpl. rewrite (proj2 (Z.ltb_lt 0 rem)), Ht, Hc by done. simpl.
  rewrite Z.min_l, Z.sub_diag by lia. rewrite (proj2 (Z.eqb_neq rem (ro_remaining m))) by lia.
  by rewrite sweep_zero.
Qed.

(** Makers used up or skipped first, then the rest. *)
Lemma sweep_app o rem ms1 ms2 :
  Forall (fun m => takes o (ro_price m) = true) ms1 ->
  let r1 := sweep o rem ms1 in
  let r2 := sweep o (sw_rem r1) ms2 in
  sweep o rem (ms1 ++ ms2)
  = mkSweep (sw_book r1 ++ sw_book r2) (sw_trades r1 ++ sw_trades r2)
      (sw_gone r1 ++ sw_gone r2) (sw_rem r2).
Proof.
  intros Ht. revert rem. induction Ht as [|m ms1 Hm Ht IH]; intros rem; simpl.
  { by destruct (sweep o rem ms2). }
  destruct (Z.ltb_spec 0 rem) as [Hr|Hr]; simpl.
  - rewrite Hm. simpl. destruct (smp_conflict o m); simpl; rewrite IH; [done|].
    by destruct (Z.min rem (ro_remaining m) =? ro_remaining m).
  - rewrite (sweep_zero o rem ms2) by lia. done.
Qed.

Section refine.
Context {T : Type} `{!BTreeG T} `{!BTreeLaws T}.
Implicit Types (e : Engine T) (Lv : Side -> list priceLevel) (s : Side).

Definition upd_side s (L : list priceLevel) Lv : Side -> list priceLevel :=
  fun s' => if decide (s' = s) then L else Lv s'.

Lemma upd_side_eq s L Lv : upd_side s L Lv s = L.
Proof. unfold upd_side. by rewrite decide_True. Qed.

Lemma upd_side_opp s L Lv : upd_side s L Lv (oppositeSide s) = Lv (oppositeSide s).
Proof. unfold upd_side. rewrite decide_False; [done|by destruct s]. Qed.

(** What the matching loops append to and leave alone. *)
Record matched e e' (ts : list Trade) (gone : list string) : Prop := {
  md_fills : e_fills e' = e_fills e ++ (ts ≫= fills_of);
  md_trades : e_trades e' = e_trades e ++ ts;
  md_evicted : e_evicted e' = e_evicted e ++ gone;
  md_index : e_index e' ⊆ e_index e;
  md_seq : e_seq e' = e_seq e;
  md_repriced : e_repriced e' = e_repriced e;
  md_seqBy : e_seqByOrder e' = e_seqByOrder e;
}.

Lemma matched_refl e : matched e e [] [].
Proof. split; by rewrite ?app_nil_r. Qed.

Lemma matched_trans e1 e2 e3 ts1 ts2 g1 g2 :
  matched e1 e2 ts1 g1 -> matched e2 e3 ts2 g2 -> matched e1 e3 (ts1 ++ ts2) (g1 ++ g2).
Proof.
  intros [] []. split; try congruence.
  - rewrite bind_app. by rewrite app_assoc, <-md_fills0.
  - by rewrite app_assoc, <-md_trades0.
  - by rewrite app_assoc, <-md_evicted0.
  - by etrans.
Qed.

Lemma matched_hit o m price q e :
  matched e (hit_maker o m price q e) [trade_of o (deref e m) price q] [].
Proof. split; simpl; by rewrite ?app_nil_r. Qed.

Lemma matched_evict id e : matched e (evict_id id e) [] [id].
Proof. split; simpl; rewrite ?app_nil_r; try done. apply delete_subseteq. Qed.

Lemma matched_set_tree s t e e' ts g :
  matched e e' ts g -> matched e (set_tree s t e') ts g.
Proof. intros []. by destruct s. Qed.

Lemma deref_hit o m price q e p :
  deref (hit_maker o m price q e) p
  = if decide (p = m) then set_remaining (deref e m) (ro_remaining (deref e m) -u64 q) else deref e p.
Proof.
  unfold hit_maker, deref, set_heap; simpl. case_decide; subst.
  - by rewrite lookup_insert_eq.
  - by rewrite lookup_insert_ne.
Qed.

Lemma core_hit o m price q e Lv s :
  core e Lv -> m ∈ lptrs (Lv s) -> core (hit_maker o m price q e) Lv.
Proof.
  intros C Hm. destruct (core_ptr _ _ _ _ C Hm) as (Hh & _ & _).
  eapply core_ext; [..|apply (core_set_remaining e Lv m _ (ro_remaining (deref e m) -u64 q) C Hh)]; try done.
  apply u64_range.
Qed.

Lemma map_deref_hit o m price q e l :
  m ∉ l -> map (deref (hit_maker o m price q e)) l = map (deref e) l.
Proof.
  intros Hm. apply list_fmap_ext. intros i p Hp. rewrite deref_hit, decide_False; [done|].
  intros ->. apply Hm. by eapply list_elem_of_lookup_2.
Qed.

Lemma match_level_stop fuel o e level rem skipped :
  rem <= 0 -> match_level fuel o e level rem skipped = (e, level, rem, skipped).
Proof.
  intros Hr. destruct fuel; simpl; [done|].
  destruct (lv_orders level); [done|]. by rewrite (proj2 (Z.ltb_ge 0 rem)).
Qed.

(** ** The inner loop *)

(** What running the inner loop on the FIFO [orders] of a level, with
    [skipped] already set aside, establishes; [kept] is the FIFO the level is
    left with. *)
Record level_done o e Lv s pre p skipped orders post rem e' lv' rem' sk' : Prop := {
  ld_price : lv_price lv' = p;
  ld_core : core e' (upd_side s (pre ++ mkLevel p (sk' ++ lv_orders lv') :: post) Lv);
  ld_book : map (deref e') (sk' ++ lv_orders lv')
            = map (deref e) skipped ++ sw_book (sweep o rem (map (deref e) orders));
  ld_rem : rem' = sw_rem (sweep o rem (map (deref e) orders));
  ld_range : 0 <= rem' < 2 ^ 64;
  ld_matched : matched e e' (sw_trades (sweep o rem (map (deref e) orders)))
                 (sw_gone (sweep o rem (map (deref e) orders)));
  ld_frame q : q ∉ orders -> deref e' q = deref e q;
  ld_sub : sublist (sk' ++ lv_orders lv') (skipped ++ orders);
  ld_spent : 0 < rem' -> lv_orders lv' = [];
  ld_skipped : Forall (fun q => smp_conflict o (deref e' q) = true) skipped ->
               Forall (fun q => smp_conflict o (deref e' q) = true) sk';
  ld_trees s' : tree e' s' = tree e s';
}.

Lemma level_done_skip o e Lv s pre p skipped m rest post rem e' lv' rem' sk' :
  0 < rem -> takes o (ro_price (deref e m)) = true -> smp_conflict o (deref e m) = true ->
  m ∉ rest ->
  level_done o e Lv s pre p (skipped ++ [m]) rest post rem e' lv' rem' sk' ->
  level_done o e Lv s pre p skipped (m :: rest) post rem e' lv' rem' sk'.
Proof.
  intros Hr Ht Hc Hm [? ? Hb Hre ? Hmd Hfr Hsub ? Hsk ?]. simpl in *.
  split; cbn [map]; try rewrite sweep_skip by done; simpl; try done.
  - rewrite Hb, map_app, <-app_assoc. done.
  - intros q Hq. apply Hfr. by apply not_elem_of_cons in Hq as [_ ?].
  - by rewrite <-app_assoc in Hsub.
  - intros HF. apply Hsk. apply Forall_app. split; [done|]. constructor; [|done].
    by rewrite Hfr.
Qed.

Lemma level_done_full o e e2 Lv Lv2 s pre p skipped m rest post rem e' lv' rem' sk' :
  0 < rem -> takes o (ro_price (deref e m)) = true -> smp_conflict o (deref e m) = false ->
  ro_price (deref e m) = p -> ro_remaining (deref e m) <= rem ->
  e2 = evict_id (ro_orderID (deref e m)) (hit_maker o m p (ro_remaining (deref e m)) e) ->
  m ∉ skipped -> m ∉ rest -> (forall L s', upd_side s L Lv2 s' = upd_side s L Lv s') ->
  level_done o e2 Lv2 s pre p skipped rest post (rem - ro_remaining (deref e m)) e' lv' rem' sk' ->
  level_done o e Lv s pre p skipped (m :: rest) post rem e' lv' rem' sk'.
Proof.
  intros Hr Ht Hc Hp Hq -> Hms Hmr HLv [? Hco Hb Hre ? Hmd Hfr Hsub ? Hsk Htr]. simpl in *.
  set (e1 := hit_maker o m p (ro_remaining (deref e m)) e) in *.
  assert (Hd : forall l, m ∉ l -> map (deref (evict_id (ro_orderID (deref e m)) e1)) l = map (deref e) l).
  { intros l Hl. by apply map_deref_hit. }
  rewrite !Hd in Hb by done. rewrite Hd in Hre, Hmd by done.
  split; cbn [map]; try rewrite sweep_full by done; simpl; try done.
  - by eapply core_ext; [..|exact Hco].
  - rewrite Hp.
    apply (matched_trans _ _ _ [_] _ [_] _) with (2 := Hmd).
    apply (matched_trans _ _ _ [_] [] [] [_]) with (2 := matched_evict _ _). apply matched_hit.
  - intros q [Hqm Hq']%not_elem_of_cons. rewrite Hfr by done.
    change (deref e1 q = deref e q). unfold e1. by rewrite deref_hit, decide_False.
  - etrans; [apply Hsub|]. apply sublist_app; [done|]. by apply sublist_cons.
Qed.

Lemma level_done_part o e Lv s pre p skipped m rest post rem :
  0 < rem -> takes o (ro_price (deref e m)) = true -> smp_conflict o (deref e m) = false ->
  ro_price (deref e m) = p -> rem < ro_remaining (deref e m) < 2 ^ 64 ->
  m ∉ skipped -> m ∉ rest ->
  core (hit_maker o m p rem e) (upd_side s (pre ++ mkLevel p (skipped ++ m :: rest) :: post) Lv) ->
  level_done o e Lv s pre p skipped (m :: rest) post rem
    (hit_maker o m p rem e) (mkLevel p (m :: rest)) 0 skipped.
Proof.
  intros Hr Ht Hc Hp Hq Hms Hmr Hco.
  split; cbn [map]; try rewrite sweep_part by (done || lia); simpl; try done; try lia.
  - rewrite map_app. simpl. rewrite !map_deref_hit by done.
    rewrite deref_hit, decide_True, u64_small by (done || lia). done.
  - rewrite Hp. apply matched_hit.
  - intros q [Hqm Hq']%not_elem_of_cons. by rewrite deref_hit, decide_False.
Qed.

Lemma match_level_done fuel o e Lv s pre p skipped orders post rem :
  core e Lv -> Lv s = pre ++ mkLevel p (skipped ++ orders) :: post ->
  0 <= rem < 2 ^ 64 -> (length orders < fuel)%nat -> takes o p = true ->
  match match_level fuel o e (mkLevel p orders) rem skipped with
  | (e', lv', rem', sk') => level_done o e Lv s pre p skipped orders post rem e' lv' rem' sk'
  end.
Proof.
  revert e Lv skipped orders rem.
  induction fuel as [|fuel IH]; intros e Lv skipped orders rem C HL Hr Hf Ht; [lia|].
  assert (HC : core e (upd_side s (pre ++ mkLevel p (skipped ++ orders) :: post) Lv)).
  { eapply core_ext; [..|exact C]; try done. intros s'. unfold upd_side.
    case_decide; congruence. }
  destruct orders as [|m rest]; simpl.
  { split; simpl; rewrite ?app_nil_r in *; auto using matched_refl. }
  destruct (Z.ltb_spec 0 rem) as [Hr0|Hr0]; simpl.
  2:{ assert (rem = 0) as -> by lia. split; simpl; auto using matched_refl; try lia; try done.
      by rewrite map_app. }
  assert (Hlv : mkLevel p (skipped ++ m :: rest) ∈ Lv s).
  { rewrite HL. apply elem_of_app. right. left. }
  assert (Hin : m ∈ skipped ++ m :: rest) by (apply elem_of_app; right; left).
  assert (Hm : m ∈ lptrs (Lv s)) by (apply elem_lptrs; by eexists).
  pose proof (core_ptr_price _ _ _ _ _ C Hlv Hin) as Hp. simpl in Hp.
  pose proof (core_qty _ _ C s m Hm) as Hq.
  assert (Hnd : NoDup (skipped ++ m :: rest)).
  { pose proof (core_nodup _ _ C s) as Hn. rewrite HL, lptrs_app, lptrs_cons in Hn.
    apply NoDup_app in Hn as (_ & _ & Hn). by apply NoDup_app in Hn as (Hn & _ & _). }
  apply NoDup_app in Hnd as (_ & Hms & Hnd). apply NoDup_cons in Hnd as [Hmr _].
  assert (Hms' : m ∉ skipped) by (intros H; apply (Hms m H); left).
  destruct (smp_conflict o (deref e m)) eqn:Hc; simpl.
  { assert (HL' : Lv s = pre ++ mkLevel p ((skipped ++ [m]) ++ rest) :: post)
      by by rewrite <-app_assoc.
    pose proof (IH e Lv (skipped ++ [m]) rest rem C HL' Hr ltac:(simpl in Hf; lia) Ht) as H.
    destruct (match_level fuel o e (mkLevel p rest) rem (skipped ++ [m])) as [[[e' lv'] rem'] sk'].
    apply level_done_skip; by rewrite ?Hp. }
  rewrite deref_hit, decide_True by done. unfold min.
  destruct (Z.ltb_spec rem (ro_remaining (deref e m))) as [Hlt|Hge].
  - simpl. rewrite (u64_small (_ - rem)) by lia.
    rewrite (proj2 (Z.eqb_neq _ 0)) by lia. rewrite Z.sub_diag. change (u64 0) with 0.
    rewrite match_level_stop by lia. apply level_done_part; rewrite ?Hp; try done; try lia.
    apply (core_hit _ _ _ _ _ _ s); [done|]. rewrite upd_side_eq, <-HL. done.
  - simpl. rewrite Z.sub_diag. change (u64 0 =? 0) with true. cbv iota.
    rewrite (u64_small (rem - _)) by lia.
    set (e2 := evict_id _ _).
    assert (C2 : core e2 (upd_side s (pre ++ mkLevel p (skipped ++ rest) :: post) Lv)).
    { pose proof (core_hit o m p (ro_remaining (deref e m)) e Lv s C Hm) as C1.
      pose proof (core_evict _ _ (upd_side s (pre ++ mkLevel p (skipped ++ rest) :: post) Lv)
                    s pre p skipped m rest post C1 HL) as H.
      rewrite upd_side_eq, upd_side_opp, deref_hit, decide_True in H by done. by apply H. }
    pose proof (IH e2 _ skipped rest (rem - ro_remaining (deref e m)) C2
                  (upd_side_eq _ _ _) ltac:(lia) ltac:(simpl in Hf; lia) Ht) as H.
    destruct (match_level fuel o e2 _ _ _) as [[[e' lv'] rem'] sk'].
    eapply level_done_full; [..|exact H]; rewrite ?Hp; try done.
    intros L s'. unfold upd_side. by case_decide.
Qed.

(** ** The outer loop *)

(** A book with some of the levels of side [s] parked outside their tree. *)
Record parked_ok e s (parked : list priceLevel) : Prop := {
  pk_tree s' : tree_for s' (tree e s');
  pk_core : core e (upd_side s (parked ++ items (tree e s)) (levels_of e));
  pk_prio : by_priority s (parked ++ items (tree e s));
  pk_nonempty : Forall (fun lv => lv_orders lv <> []) (parked ++ items (tree e s));
}.

(** The makers of side [s] that are in the tree, in priority order. *)
Definition makers e s : list restingOrder := map (deref e) (lptrs (items (tree e s))).

Record levels_done o s e parked rem e' rem' parked' : Prop := {
  ls_ok : parked_ok e' s parked';
  ls_book : exists new, parked' = parked ++ new /\
    map (deref e') (lptrs (new ++ items (tree e' s))) = sw_book (sweep o rem (makers e s));
  ls_frame q : q ∉ lptrs (items (tree e s)) -> deref e' q = deref e q;
  ls_rem : rem' = sw_rem (sweep o rem (makers e s));
  ls_range : 0 <= rem' < 2 ^ 64;
  ls_matched : matched e e' (sw_trades (sweep o rem (makers e s))) (sw_gone (sweep o rem (makers e s)));
  ls_other : tree e' (oppositeSide s) = tree e (oppositeSide s);
}.

Lemma tree_set_tree s t e : tree (set_tree s t e) s = t.
Proof. by destruct s. Qed.

Lemma tree_set_tree_opp s t e :
  tree (set_tree s t e) (oppositeSide s) = tree e (oppositeSide s).
Proof. by destruct s. Qed.

Lemma deref_set_tree s t e p : deref (set_tree s t e) p = deref e p.
Proof. by destruct s. Qed.

Lemma map_deref_set_tree s t e l : map (deref (set_tree s t e)) l = map (deref e) l.
Proof. apply map_ext. intros. apply deref_set_tree. Qed.

Lemma core_set_tree s t e Lv Lv' :
  core e Lv -> (forall s', Lv' s' = Lv s') -> core (set_tree s t e) Lv'.
Proof. intros C HL. eapply core_ext; [..|exact HL|exact C]; by destruct s. Qed.

Lemma levels_done_refl o s e parked rem :
  parked_ok e s parked -> 0 <= rem < 2 ^ 64 ->
  sweep o rem (makers e s) = mkSweep (makers e s) [] [] rem ->
  levels_done o s e parked rem e rem parked.
Proof.
  intros Hok Hr Hsw. split; rewrite ?Hsw; simpl; auto using matched_refl.
  exists []. by rewrite app_nil_r.
Qed.

(** A level is entered: the facts about the tree's first level. *)
Lemma makers_cons e s p os post :
  items (tree e s) = mkLevel p os :: post ->
  makers e s = map (deref e) os ++ map (deref e) (lptrs post).
Proof. intros Hit. unfold makers. by rewrite Hit, lptrs_cons, map_app. Qed.

Lemma parked_level_facts e s parked p os post :
  parked_ok e s parked -> items (tree e s) = mkLevel p os :: post ->
  os <> [] /\ Forall (fun m => ro_price m = p) (map (deref e) os) /\
  (forall q, q ∈ os -> q ∉ lptrs post) /\ (forall q, q ∈ lptrs parked -> q ∉ lptrs post).
Proof.
  intros Hok Hit. split_and!.
  - pose proof (pk_nonempty _ _ _ Hok) as HF. rewrite Hit, Forall_app, Forall_cons in HF. tauto.
  - apply Forall_forall. intros m (q & -> & Hq)%list_elem_of_fmap.
    eapply (core_ptr_price _ _ s (mkLevel p os)); [apply Hok| |done].
    rewrite upd_side_eq, Hit. apply elem_of_app. right. left.
  - pose proof (core_nodup _ _ (pk_core _ _ _ Hok) s) as Hn.
    rewrite upd_side_eq, Hit, lptrs_app, lptrs_cons in Hn.
    apply NoDup_app in Hn as (_ & _ & Hn). by apply NoDup_app in Hn as (_ & Hn & _).
  - pose proof (core_nodup _ _ (pk_core _ _ _ Hok) s) as Hn.
    rewrite upd_side_eq, Hit, lptrs_app, lptrs_cons in Hn.
    apply NoDup_app in Hn as (_ & Hn & _). intros q Hq Hq'. apply (Hn q Hq), elem_of_app. by right.
Qed.

(** The state after the inner loop has run on the first level of the tree and
    the tree has been updated to [t]: the level is gone, parked or rewritten. *)
Section after_level.
Context (o : Order) (s : Side) (e : Engine T) (parked : list priceLevel) (rem : Z).
Context (p : Z) (os : list ptr) (post : list priceLevel).
Context (e1 : Engine T) (lv1 : priceLevel) (rem1 : Z) (sk1 : list ptr).
Hypothesis Hok : parked_ok e s parked.
Hypothesis Hit : items (tree e s) = mkLevel p os :: post.
Hypothesis Ht : takes o p = true.
Hypothesis Hld : level_done o e (upd_side s (parked ++ items (tree e s)) (levels_of e))
                   s parked p [] os post rem e1 lv1 rem1 sk1.
Let kept : list ptr := sk1 ++ lv_orders lv1.

Lemma kept_sub q : q ∈ kept -> q ∈ os.
Proof using Hld. intros Hq. apply (elem_of_sublist _ _ _ Hq), Hld. Qed.

Lemma after_level_ok t parked2 mid :
  tree_for s t -> items t = mid ++ post ->
  parked2 ++ mid = parked ++ (if decide (kept = []) then [] else [mkLevel p kept]) ->
  parked_ok (set_tree s t e1) s parked2.
Proof using Hok Hit Hld.
  intros Htf Hi Heq. set (e2 := set_tree s t e1).
  assert (HL2 : parked2 ++ items (tree e2 s)
            = parked ++ (if decide (kept = []) then [] else [mkLevel p kept]) ++ post).
  { unfold e2. by rewrite tree_set_tree, Hi, !app_assoc, Heq. }
  pose proof (pk_prio _ _ _ Hok) as Hpr. rewrite Hit in Hpr.
  apply StronglySorted_app_iff in Hpr as (H1 & H2 & H3). inversion H2 as [|?? H4 H5]; subst.
  split.
  - intros s'. destruct (side_cases s s') as [->| ->]; unfold e2.
    + by rewrite tree_set_tree.
    + rewrite tree_set_tree_opp, (ld_trees _ _ _ _ _ _ _ _ _ _ _ _ _ _ Hld). apply Hok.
  - rewrite HL2. pose proof (ld_core _ _ _ _ _ _ _ _ _ _ _ _ _ _ Hld) as C. fold kept in C.
    assert (Ho : levels_of e2 (oppositeSide s) = levels_of e (oppositeSide s)).
    { unfold levels_of, e2.
      by rewrite tree_set_tree_opp, (ld_trees _ _ _ _ _ _ _ _ _ _ _ _ _ _ Hld). }
    case_decide as Hk.
    + rewrite Hk in C. eapply (core_drop_empty _ _ _ s parked p post).
      * eapply core_set_tree; [exact C|]. intros s'. reflexivity.
      * apply upd_side_eq.
      * apply upd_side_eq.
      * rewrite !upd_side_opp. done.
    + eapply core_set_tree; [exact C|]. intros s'.
      destruct (side_cases s s') as [->| ->]; rewrite ?upd_side_eq, ?upd_side_opp; done.
  - rewrite HL2. apply StronglySorted_app_iff. split_and!; [done| |].
    + case_decide; [done|]. by constructor.
    + intros x y Hx Hy. case_decide; [by apply H3; [|right]|].
      apply elem_of_cons in Hy as [->|Hy]; [|by apply H3; [|right]].
      apply (H3 x (mkLevel p os)); [done|left].
  - rewrite HL2. pose proof (pk_nonempty _ _ _ Hok) as HF.
    rewrite Hit, Forall_app, Forall_cons in HF. rewrite !Forall_app.
    split_and!; try tauto. case_decide; [done|]. by repeat constructor.
Qed.

Lemma after_level_makers t mid :
  items t = mid ++ post -> map (deref (set_tree s t e1)) (lptrs post) = map (deref e) (lptrs post).
Proof using Hok Hit Hld.
  intros _. rewrite map_deref_set_tree. apply list_fmap_ext. intros i q Hq.
  apply (ld_frame _ _ _ _ _ _ _ _ _ _ _ _ _ _ Hld). intros Hin.
  destruct (parked_level_facts _ _ _ _ _ _ Hok Hit) as (_ & _ & Hdis & _).
  apply (Hdis q Hin). by eapply list_elem_of_lookup_2.
Qed.

Lemma after_level_sweep :
  let r1 := sweep o rem (map (deref e) os) in
  let r2 := sweep o rem1 (map (deref e) (lptrs post)) in
  sweep o rem (makers e s)
  = mkSweep (map (deref e1) kept ++ sw_book r2) (sw_trades r1 ++ sw_trades r2)
      (sw_gone r1 ++ sw_gone r2) (sw_rem r2).
Proof using Hok Hit Ht Hld.
  rewrite (makers_cons _ _ _ _ _ Hit), sweep_app; cbv zeta.
  - unfold kept. rewrite (ld_book _ _ _ _ _ _ _ _ _ _ _ _ _ _ Hld).
    by rewrite (ld_rem _ _ _ _ _ _ _ _ _ _ _ _ _ _ Hld).
  - destruct (parked_level_facts _ _ _ _ _ _ Hok Hit) as (_ & HF & _).
    eapply Forall_impl; [exact HF|]. simpl. by intros m ->.
Qed.

(** The loop goes on with [post]: the level was deleted or parked. *)
Lemma after_level_continue t e' rem' parked' lvk :
  items t = post -> lptrs lvk = kept ->
  levels_done o s (set_tree s t e1) (parked ++ lvk) rem1 e' rem' parked' ->
  levels_done o s e parked rem e' rem' parked'.
Proof using Hok Hit Ht Hld.
  intros Hi Hk [Hok' (new & -> & Hb) Hfr Hre Hra Hmd Hoth].
  assert (Hmk : makers (set_tree s t e1) s = map (deref e) (lptrs post)).
  { unfold makers. rewrite tree_set_tree, Hi. by apply (after_level_makers t []). }
  destruct (parked_level_facts _ _ _ _ _ _ Hok Hit) as (_ & _ & Hdis & _).
  rewrite Hmk in *. rewrite tree_set_tree, Hi in Hfr. rewrite tree_set_tree_opp in Hoth.
  split; try rewrite after_level_sweep; simpl; try done.
  - exists (lvk ++ new). split; [by rewrite app_assoc|].
    rewrite <-app_assoc, lptrs_app, map_app, Hb, Hk. f_equal.
    apply list_fmap_ext. intros i q Hq. rewrite Hfr, deref_set_tree; [done|].
    apply Hdis, kept_sub. by eapply list_elem_of_lookup_2.
  - intros q Hq. rewrite Hit, lptrs_cons in Hq. apply not_elem_of_app in Hq as [Hq1 Hq2].
    rewrite Hfr, deref_set_tree by done. by apply Hld.
  - eapply matched_trans; [|exact Hmd]. apply matched_set_tree, Hld.
  - rewrite Hoth. apply Hld.
Qed.

(** The level as the loop body leaves it. *)
Lemma level_after_skips :
  (if bool_decide (sk1 = []) then lv1 else mkLevel (lv_price lv1) (sk1 ++ lv_orders lv1)) = mkLevel p kept.
Proof using Hld.
  pose proof (ld_price _ _ _ _ _ _ _ _ _ _ _ _ _ _ Hld) as Hp1. unfold kept.
  case_bool_decide as Hs; [rewrite Hs|by rewrite Hp1]. destruct lv1; simpl in *. by subst.
Qed.

(** The tree still holds the level as it was entered. *)
Lemma after_level_tree : tree_for s (tree e1 s) /\ items (tree e1 s) = [] ++ mkLevel p os :: post.
Proof using Hok Hit Hld. rewrite (ld_trees _ _ _ _ _ _ _ _ _ _ _ _ _ _ Hld). split; [apply Hok|done]. Qed.

(** The aggressor stops inside the level. *)
Lemma after_level_stop :
  rem1 = 0 -> kept <> [] ->
  levels_done o s e parked rem (set_tree s (ReplaceOrInsert (tree e1 s) (mkLevel p kept)) e1) rem1 parked.
Proof using Hok Hit Ht Hld BTreeLaws0.
  intros Hr0 Hk. destruct after_level_tree as [Htf Hi1].
  assert (Hst : items (ReplaceOrInsert (tree e1 s) (mkLevel p kept)) = [] ++ mkLevel p kept :: post).
  { by rewrite (items_replace s _ _ _ _ _ Htf Hi1). }
  pose proof after_level_sweep as Hsw. cbv zeta in Hsw. rewrite Hr0, (sweep_zero o 0) in Hsw by lia. simpl in Hsw.
  split; rewrite ?Hsw; simpl; try done; try lia.
  - eapply (after_level_ok _ _ [mkLevel p kept]); [by apply tree_for_insert|done|]. by rewrite decide_False.
  - exists []. split; [by rewrite app_nil_r|].
    rewrite tree_set_tree, Hst, map_deref_set_tree. cbn [app]. rewrite lptrs_cons, map_app. f_equal.
    rewrite <-(after_level_makers (tree e1 s) [mkLevel p os] Hi1). by rewrite map_deref_set_tree.
  - intros q Hq. rewrite Hit, lptrs_cons in Hq. apply not_elem_of_app in Hq as [Hq _].
    rewrite deref_set_tree. by apply Hld.
  - rewrite !app_nil_r. apply matched_set_tree, Hld.
  - rewrite tree_set_tree_opp. apply Hld.
Qed.

End after_level.

Lemma allSameSMP_conflicts o e l :
  l <> [] -> Forall (fun q => smp_conflict o (deref e q) = true) l ->
  o_HasSMPID o && allSameSMP e l (o_SMPID o) = true.
Proof.
  intros Hne HF. apply andb_true_iff. split.
  - destruct HF as [|q l Hq _]; [done|]. unfold smp_conflict in Hq. by zify_bool.
  - apply andb_true_iff. split; [|by rewrite bool_decide_eq_false_2].
    apply forallb_forall. intros q Hq%list_elem_of_In. rewrite Forall_forall in HF.
    specialize (HF q Hq). unfold smp_conflict in HF. zify_bool.
    apply andb_true_iff. split; [done|by apply Z.eqb_eq].
Qed.

#[local] Arguments match_level : simpl never.

Lemma match_levels_done fuel o e parked rem :
  let s := oppositeSide (o_Side o) in
  parked_ok e s parked -> 0 <= rem < 2 ^ 64 -> (length (items (tree e s)) < fuel)%nat ->
  match match_levels fuel o e rem parked with
  | (e', rem', parked') => levels_done o s e parked rem e' rem' parked'
  end.
Proof.
  intros s. revert e parked rem.
  induction fuel as [|fuel IH]; intros e parked rem Hok Hr Hf; [lia|]. simpl. fold s.
  destruct (Z.ltb_spec 0 rem) as [Hr0|Hr0]; simpl.
  2:{ apply levels_done_refl; [done..|]. apply sweep_zero. lia. }
  rewrite (Min_items s) by apply Hok.
  destruct (items (tree e s)) as [|[p os] post] eqn:Hit; simpl.
  { apply levels_done_refl; [done..|]. unfold makers. by rewrite Hit. }
  destruct (parked_level_facts _ _ _ _ _ _ Hok Hit) as (Hos & Hpr & _).
  destruct (_ && _) eqn:Htk.
  { apply levels_done_refl; [done..|]. rewrite (makers_cons _ _ _ _ _ Hit).
    destruct os as [|m os]; [done|]. cbn [map] in Hpr |- *. cbn [app].
    apply Forall_cons in Hpr as [Hp _]. apply sweep_refused. unfold takes. by rewrite Hp, Htk. }
  assert (Ht : takes o p = true) by (unfold takes; by rewrite Htk). clear Htk.
  pose proof (match_level_done (S (length os)) o e _ s parked p [] os post rem
                (pk_core _ _ _ Hok) ltac:(by rewrite upd_side_eq, Hit) Hr ltac:(lia) Ht) as Hld.
  destruct (match_level _ o e _ rem []) as [[[e1 lv1] rem1] sk1].
  rewrite (level_after_skips o s e parked rem p os post e1 lv1 rem1 sk1 Hld).
  cbn [lv_orders lv_price]. set (kept := sk1 ++ lv_orders lv1).
  destruct (after_level_tree o s e parked rem p os post e1 lv1 rem1 sk1 Hok Hit Hld) as [Htf Hi1].
  pose proof (ld_range _ _ _ _ _ _ _ _ _ _ _ _ _ _ Hld) as Hr1.
  assert (Hdel : items (Delete (tree e1 s) (mkLevel p kept)) = post).
  { by rewrite (items_delete s _ _ _ _ _ Htf Hi1). }
  assert (Htd : tree_for s (Delete (tree e1 s) (mkLevel p kept))) by by apply tree_for_delete.
  pose proof (fun e' rem' parked' lvk Hlvk =>
                after_level_continue o s e parked rem p os post e1 lv1 rem1 sk1
                  Hok Hit Ht Hld _ e' rem' parked' lvk Hdel Hlvk) as Hcont.
  case_bool_decide as Hk.
  { (* the level is used up *)
    assert (Hok2 : parked_ok (set_tree s (Delete (tree e1 s) (mkLevel p kept)) e1) s (parked ++ [])).
    { eapply (after_level_ok o s e parked rem p os post e1 lv1 rem1 sk1 Hok Hit Hld _ _ []); [done..|].
      fold kept. rewrite decide_True by done. by rewrite !app_nil_r. }
    rewrite <-(app_nil_r parked).
    pose proof (IH _ _ rem1 Hok2 Hr1 ltac:(rewrite tree_set_tree, Hdel; simpl in Hf; lia)) as H.
    destruct (match_levels fuel o _ rem1 (parked ++ [])) as [[e' rem'] parked'].
    rewrite app_nil_r at 1. by apply (Hcont _ _ _ []). }
  destruct (o_HasSMPID o && _) eqn:Hall.
  { (* every maker left carries the aggressor's id: the level is parked *)
    assert (Hok2 : parked_ok (set_tree s (Delete (tree e1 s) (mkLevel p kept)) e1) s
                     (parked ++ [mkLevel p kept])).
    { eapply (after_level_ok o s e parked rem p os post e1 lv1 rem1 sk1 Hok Hit Hld _ _ []); [done..|].
      fold kept. rewrite decide_False by done. by rewrite app_nil_r. }
    pose proof (IH _ _ rem1 Hok2 Hr1 ltac:(rewrite tree_set_tree, Hdel; simpl in Hf; lia)) as H.
    destruct (match_levels fuel o _ rem1 _) as [[e' rem'] parked'].
    apply (Hcont _ _ _ [mkLevel p kept]); [|exact H]. simpl. by rewrite app_nil_r. }
  (* the aggressor stopped inside the level *)
  assert (rem1 = 0) as ->.
  { destruct (Z.lt_trichotomy rem1 0) as [?|[?|Hpos]]; [lia|done|].
    pose proof (ld_spent _ _ _ _ _ _ _ _ _ _ _ _ _ _ Hld Hpos) as Hnil.
    pose proof (ld_skipped _ _ _ _ _ _ _ _ _ _ _ _ _ _ Hld ltac:(done)) as HF.
    rewrite allSameSMP_conflicts in Hall; [done|done|]. unfold kept. by rewrite Hnil, app_nil_r. }
  by apply (after_level_stop o s e parked rem p os post e1 lv1 0 sk1 Hok Hit Ht Hld).
Qed.

End refine.
