(* ===== verification/BookOps.v ===== *)
(** * The reference book refines a price-time priority book

    [ABook] is the contract of the engine: per side the list of resting orders
    in priority order, with one equation per operation ([abs_process]).
    [Process] on the pointer structures of [Book] simulates it. *)

From stdpp Require Import prelude gmap strings sorting.
From S2P Require Import Prelude GoSort Model Book BTree BookInv BookMatch.

Open Scope Z_scope.

(** ** Specification *)

Record ABook := mkABook { ab_bids : list restingOrder; ab_asks : list restingOrder; ab_seq : Z }.

Definition ab_side (b : ABook) (s : Side) : list restingOrder :=
  match s with Buy => ab_bids b | Sell => ab_asks b end.

Definition ab_set (s : Side) (l : list restingOrder) (b : ABook) : ABook :=
  match s with
  | Buy => mkABook l (ab_asks b) (ab_seq b)
  | Sell => mkABook (ab_bids b) l (ab_seq b)
  end.

Definition betterb (s : Side) (p q : Z) : bool :=
  match s with Buy => q <? p | Sell => p <? q end.

(** Behind every order of a better or equal price, ahead of worse prices. *)
Fixpoint enqueue (s : Side) (ro : restingOrder) (l : list restingOrder) : list restingOrder :=
  match l with
  | [] => [ro]
  | m :: l' => if betterb s (ro_price ro) (ro_price m) then ro :: m :: l' else m :: enqueue s ro l'
  end.

(** A new resting order takes the next sequence number. *)
Definition ab_rest (o : Order) (q : Z) (b : ABook) : ABook :=
  let sq := ab_seq b + 1 in
  let ro := mkResting (o_OrderID o) (o_Side o) (o_Price o) q sq (o_SMPID o) (o_HasSMPID o) in
  let b := mkABook (ab_bids b) (ab_asks b) sq in
  ab_set (o_Side o) (enqueue (o_Side o) ro (ab_side b (o_Side o))) b.

Definition ab_drop (id : string) (b : ABook) : ABook :=
  let f := List.filter (fun m => negb (bool_decide (ro_orderID m = id))) in
  mkABook (f (ab_bids b)) (f (ab_asks b)) (ab_seq b).

Definition ab_find (id : string) (b : ABook) : option restingOrder :=
  List.find (fun m => bool_decide (ro_orderID m = id)) (ab_bids b ++ ab_asks b).

Definition ab_update (id : string) (f : restingOrder -> restingOrder) (b : ABook) : ABook :=
  let g := map (fun m => if bool_decide (ro_orderID m = id) then f m else m) in
  mkABook (g (ab_bids b)) (g (ab_asks b)) (ab_seq b).

Definition abs_process (b : ABook) (o : Order) : ABook :=
  match o_Kind o with
  | NewLimit | NewMarket =>
      let opp := oppositeSide (o_Side o) in
      let r := sweep o (o_Qty o) (ab_side b opp) in
      let b := ab_set opp (sw_book r) b in
      if bool_decide (o_Kind o = NewLimit) && (0 <? sw_rem r) then ab_rest o (sw_rem r) b else b
  | Cancel => ab_drop (o_OrigOrderID o) b
  | Replace =>
      match ab_find (o_OrigOrderID o) b with
      | None => b
      | Some ro =>
          if (o_Price o =? ro_price ro) && (o_Qty o <=? ro_remaining ro) then
            ab_update (o_OrigOrderID o)
              (fun m => set_orderID (set_remaining m (o_Qty o)) (orReplaceID o)) b
          else
            ab_rest (replacement o (ro_smpID ro) (ro_hasSMP ro)) (o_Qty o)
              (ab_drop (o_OrigOrderID o) b)
      end
  end.

Section ops.
Context {T : Type} `{!BTreeG T} `{!BTreeLaws T}.
Implicit Types (e : Engine T) (s : Side).

(** The abstract book an engine stands for. *)
Definition abs e : ABook := mkABook (makers e Buy) (makers e Sell) (e_seq e).

(** What the engine relies on: quantities in range, sequence numbers not
    exhausted, and no id given to two resting orders. *)
Definition admissible e (o : Order) : Prop :=
  0 <= o_Qty o < 2 ^ 64 /\ e_seq e + 1 < 2 ^ 64 /\
  match o_Kind o with
  | NewLimit => e_index e !! o_OrderID o = None
  | NewMarket | Cancel => True
  | Replace => o_OrderID o = "" \/ o_OrderID o = o_OrigOrderID o \/ e_index e !! o_OrderID o = None
  end.

Lemma abs_side e s : ab_side (abs e) s = makers e s.
Proof. by destruct s. Qed.

Lemma abs_eq e b :
  (forall s, makers e s = ab_side b s) -> e_seq e = ab_seq b -> abs e = b.
Proof. intros H1 H2. unfold abs. rewrite !H1, H2. by destruct b. Qed.

Lemma betterb_spec s p q : betterb s p q = true <-> better s p q.
Proof. destruct s; simpl; apply Z.ltb_lt. Qed.

Lemma wf_parked e s : wf e -> parked_ok e s [].
Proof.
  intros W. split; simpl; try apply W.
  - eapply core_ext; [..|apply W]; try done. intros s'. unfold upd_side. by case_decide; subst.
  - apply items_by_priority, W.
Qed.

(** ** Resting an order *)

Lemma enqueue_app s ro l1 l2 :
  Forall (fun m => ~ better s (ro_price ro) (ro_price m)) l1 ->
  enqueue s ro (l1 ++ l2) = l1 ++ enqueue s ro l2.
Proof.
  induction 1 as [|m l1 Hm _ IH]; simpl; [done|].
  destruct (betterb s (ro_price ro) (ro_price m)) eqn:E; [by apply betterb_spec in E|].
  by rewrite IH.
Qed.

Lemma enqueue_front s ro l :
  Forall (fun m => better s (ro_price ro) (ro_price m)) l -> enqueue s ro l = ro :: l.
Proof.
  destruct 1 as [|m l Hm _]; simpl; [done|].
  by rewrite (proj2 (betterb_spec s (ro_price ro) (ro_price m)) Hm).
Qed.

(** Where a new order of side [s] and price [p] goes: behind the FIFO [os]
    between the better levels [pre] and the worse levels [post]. *)
Lemma level_slot e s p :
  wf e -> exists pre os post,
    (levels_of e s = pre ++ mkLevel p os :: post \/ (os = [] /\ levels_of e s = pre ++ post)) /\
    forall n, items (match Get (tree e s) (mkLevel p []) with
                     | Some level => ReplaceOrInsert (tree e s) (mkLevel (lv_price level) (lv_orders level ++ [n]))
                     | None => ReplaceOrInsert (tree e s) (mkLevel p [n])
                     end) = pre ++ mkLevel p (os ++ [n]) :: post.
Proof.
  intros W. pose proof (wf_tree _ W s) as Ht.
  destruct (Get (tree e s) (mkLevel p [])) as [[p' os]|] eqn:HG.
  - apply (Get_Some s) in HG as [Hin Hp]; [|done]. simpl in Hp. subst p'.
    apply list_elem_of_split in Hin as (pre & post & Heq). exists pre, os, post.
    split; [by left|]. intros n. by apply (items_replace s _ _ (mkLevel p os)).
  - assert (Hnew : forall x, x ∈ items (tree e s) -> lv_price x <> p).
    { intros x Hx. by apply (Get_None s _ (mkLevel p []) x Ht). }
    destruct (items_insert_new s (tree e s) (mkLevel p []) Ht Hnew) as (pre & post & Heq & Hins).
    exists pre, [], post. split; [by right|]. intros n.
    destruct (items_insert_new s (tree e s) (mkLevel p [n]) Ht Hnew) as (pre' & post' & Heq' & Hins').
    rewrite Hins'. assert (pre' = pre /\ post' = post) as [-> ->]; [|done].
    pose proof (items_by_priority s _ (tree_for_insert s _ (mkLevel p []) Ht)) as Hs.
    pose proof (items_by_priority s _ (tree_for_insert s _ (mkLevel p [n]) Ht)) as Hs'.
    rewrite Hins in Hs. rewrite Hins' in Hs'. rewrite Heq in Heq'.
    by eapply (priority_split_unique s p).
Qed.

(** The order [insert] creates. *)
Definition fresh_ro e (o : Order) (q : Z) : restingOrder :=
  mkResting (o_OrderID o) (o_Side o) (o_Price o) q (e_seq e + 1) (o_SMPID o) (o_HasSMPID o).

(** [insert] up to the update of the tree. *)
Definition pre_insert e (o : Order) (q : Z) : Engine T :=
  mkEngine (<[e_next e := fresh_ro e o q]> (e_heap e)) (Pos.succ (e_next e)) (e_asks e) (e_bids e)
    (<[o_OrderID o := e_next e]> (e_index e)) (e_seq e + 1) (e_fills e) (e_trades e)
    (e_repriced e) (<[o_OrderID o := e_seq e + 1]> (e_seqByOrder e)) (e_evicted e).

Lemma insert_unfold e o q : 0 <= e_seq e -> e_seq e + 1 < 2 ^ 64 ->
  insert e o q = set_tree (o_Side o)
    (match Get (tree e (o_Side o)) (mkLevel (o_Price o) []) with
     | Some level => ReplaceOrInsert (tree e (o_Side o))
                       (mkLevel (lv_price level) (lv_orders level ++ [e_next e]))
     | None => ReplaceOrInsert (tree e (o_Side o)) (mkLevel (o_Price o) [e_next e])
     end) (pre_insert e o q).
Proof.
  intros H0 H1. unfold insert, alloc, pre_insert, fresh_ro. simpl. rewrite (u64_small (_ + 1)) by lia.
  destruct (o_Side o); simpl; by destruct (Get _ _).
Qed.

Section inserting.
Context (e : Engine T) (o : Order) (q : Z) (pre post : list priceLevel) (os : list ptr) (t : T).
Let s : Side := o_Side o.
Hypothesis W : wf e.
Hypothesis Hfr : e_index e !! o_OrderID o = None.
Hypothesis Hov : e_seq e + 1 < 2 ^ 64.
Hypothesis Hq : 0 <= q < 2 ^ 64.
Hypothesis HL : levels_of e s = pre ++ mkLevel (o_Price o) os :: post \/
                (os = [] /\ levels_of e s = pre ++ post).
Hypothesis Htf : tree_for s t.
Hypothesis Hit : items t = pre ++ mkLevel (o_Price o) (os ++ [e_next e]) :: post.
Let Lv0 := upd_side s (pre ++ mkLevel (o_Price o) os :: post) (levels_of e).
Let Lv1 := upd_side s (pre ++ mkLevel (o_Price o) (os ++ [e_next e]) :: post) (levels_of e).
Let e' := set_tree s t (pre_insert e o q).

Lemma inserting_core0 : core e Lv0.
Proof.
  destruct HL as [HL'|[Hos HL']].
  - eapply core_ext; [..|apply W]; try done. intros s'. unfold Lv0, upd_side. case_decide; congruence.
  - unfold Lv0. rewrite Hos.
    eapply (core_empty_level _ _ _ s pre (o_Price o) post); [apply W|done|apply upd_side_eq|apply upd_side_opp].
Qed.

Lemma inserting_levels s' : levels_of e' s' = Lv1 s'.
Proof.
  unfold levels_of, Lv1, e'. destruct (side_cases s s') as [->| ->].
  - by rewrite tree_set_tree, upd_side_eq.
  - rewrite tree_set_tree_opp, upd_side_opp. by destruct s.
Qed.

Lemma inserting_core : core e' (levels_of e').
Proof.
  apply (core_set_tree _ _ _ Lv1); [|apply inserting_levels].
  apply (core_push e _ Lv0 Lv1 s pre os post (fresh_ro e o q) inserting_core0);
    unfold Lv0, Lv1; rewrite ?upd_side_eq, ?upd_side_opp; done.
Qed.

Lemma inserting_wf : wf e'.
Proof.
  split.
  - intros s'. unfold e'. destruct (side_cases s s') as [->| ->]; [by rewrite tree_set_tree|].
    rewrite tree_set_tree_opp. pose proof (wf_tree _ W (oppositeSide s)). by destruct s.
  - apply inserting_core.
  - intros s'. rewrite inserting_levels. unfold Lv1. destruct (side_cases s s') as [->| ->].
    + rewrite upd_side_eq. pose proof (wf_nonempty _ W s) as HF.
      destruct HL as [HL'|[Hos HL']]; rewrite HL' in HF; rewrite ?Forall_app, ?Forall_cons in *;
        split_and!; try tauto; simpl; by destruct os.
    + rewrite upd_side_opp. apply W.
Qed.

Lemma inserting_deref p s' : p ∈ lptrs (Lv0 s') -> deref e' p = deref e p.
Proof.
  intros Hp. destruct (core_ptr _ _ _ _ inserting_core0 Hp) as (Hh & _ & _).
  unfold e'. rewrite deref_set_tree. apply deref_lookup. simpl.
  rewrite lookup_insert_ne; [done|]. intros <-.
  assert (e_next e < e_next e)%positive by (apply (core_next _ _ inserting_core0); by rewrite Hh). lia.
Qed.

Lemma inserting_makers_opp : makers e' (oppositeSide s) = makers e (oppositeSide s).
Proof.
  unfold makers. unfold e' at 2. rewrite tree_set_tree_opp.
  replace (tree (pre_insert e o q) (oppositeSide s)) with (tree e (oppositeSide s)) by by destruct s.
  apply list_fmap_ext. intros i p Hp. apply (inserting_deref p (oppositeSide s)).
  unfold Lv0. rewrite upd_side_opp. by eapply list_elem_of_lookup_2.
Qed.

Lemma inserting_makers : makers e' s = enqueue s (fresh_ro e o q) (makers e s).
Proof.
  assert (Hold : makers e s = map (deref e') (lptrs pre ++ os) ++ map (deref e') (lptrs post)).
  { rewrite <-map_app, <-app_assoc.
    change (lptrs pre ++ os ++ lptrs post) with
      (lptrs pre ++ lptrs (mkLevel (o_Price o) os :: post)). rewrite <-lptrs_app.
    transitivity (map (deref e) (lptrs (pre ++ mkLevel (o_Price o) os :: post))).
    - unfold makers. destruct HL as [HL'|[Hos HL']]; unfold levels_of in HL'; rewrite HL'; [done|].
      by rewrite Hos, !lptrs_app, lptrs_cons.
    - apply list_fmap_ext. intros i p Hp. symmetry. apply (inserting_deref p s).
      unfold Lv0. rewrite upd_side_eq. by eapply list_elem_of_lookup_2. }
  assert (Hpr : forall lv p, lv ∈ levels_of e' s -> p ∈ lv_orders lv -> ro_price (deref e' p) = lv_price lv).
  { intros lv p. apply (core_ptr_price _ _ s), inserting_core. }
  assert (Hlv : levels_of e' s = pre ++ mkLevel (o_Price o) (os ++ [e_next e]) :: post).
  { rewrite inserting_levels. apply upd_side_eq. }
  pose proof (items_by_priority s _ Htf) as Hs. rewrite Hit in Hs.
  apply StronglySorted_app_iff in Hs as (_ & H2 & H3). inversion H2 as [|?? _ H5]; subst.
  rewrite Forall_forall in H5.
  assert (Hnew : deref e' (e_next e) = fresh_ro e o q).
  { unfold e'. rewrite deref_set_tree. apply deref_lookup. simpl. by rewrite lookup_insert_eq. }
  rewrite Hold, enqueue_app, enqueue_front.
  - unfold makers. change (items (tree e' s)) with (levels_of e' s).
    rewrite Hlv, lptrs_app, lptrs_cons. simpl. rewrite <-!app_assoc, !map_app. simpl.
    by rewrite Hnew, <-app_assoc.
  - apply Forall_forall. intros m (p & -> & Hp)%list_elem_of_fmap.
    apply elem_lptrs in Hp as (lv & Hin & Hp). rewrite (Hpr lv p); [by apply H5| |done].
    rewrite Hlv, elem_of_app, elem_of_cons. auto.
  - apply Forall_forall. intros m (p & -> & [Hp|Hp]%elem_of_app)%list_elem_of_fmap; simpl.
    + apply elem_lptrs in Hp as (lv & Hin & Hp). rewrite (Hpr lv p); [| |done].
      * intros Hb. apply (better_irrefl s (o_Price o)). eapply better_trans; [exact Hb|].
        apply (H3 lv (mkLevel (o_Price o) (os ++ [e_next e]))); [done|left].
      * rewrite Hlv, elem_of_app. auto.
    + rewrite (Hpr (mkLevel (o_Price o) (os ++ [e_next e])) p); [apply better_irrefl| |].
      * rewrite Hlv, elem_of_app, elem_of_cons. auto.
      * apply elem_of_app. auto.
Qed.

End inserting.

Lemma insert_wf_makers e o q :
  wf e -> e_index e !! o_OrderID o = None -> e_seq e + 1 < 2 ^ 64 -> 0 <= q < 2 ^ 64 ->
  wf (insert e o q) /\
  makers (insert e o q) (o_Side o) = enqueue (o_Side o) (fresh_ro e o q) (makers e (o_Side o)) /\
  makers (insert e o q) (oppositeSide (o_Side o)) = makers e (oppositeSide (o_Side o)).
Proof.
  intros W Hfr Hov Hq. pose proof (core_seq_range _ _ (wf_core _ W)) as Hsr.
  destruct (level_slot e (o_Side o) (o_Price o) W) as (pre & os & post & HL & Hit).
  specialize (Hit (e_next e)). rewrite insert_unfold by lia.
  set (t := match Get _ _ with Some _ => _ | None => _ end) in *.
  assert (Htf : tree_for (o_Side o) t) by (unfold t; destruct (Get _ _); apply tree_for_insert, W).
  split_and!.
  - by eapply inserting_wf.
  - by eapply inserting_makers.
  - by eapply inserting_makers_opp.
Qed.

Lemma insert_abs e o q :
  wf e -> e_index e !! o_OrderID o = None -> e_seq e + 1 < 2 ^ 64 -> 0 <= q < 2 ^ 64 ->
  wf (insert e o q) /\ abs (insert e o q) = ab_rest o q (abs e).
Proof.
  intros W Hfr Hov Hq. destruct (insert_wf_makers e o q W Hfr Hov Hq) as (W' & Hm & Ho).
  pose proof (core_seq_range _ _ (wf_core _ W)) as Hsr.
  split; [done|]. apply abs_eq.
  - unfold ab_rest. intros s. destruct (side_cases (o_Side o) s) as [->| ->].
    + rewrite Hm. unfold fresh_ro. by destruct (o_Side o).
    + rewrite Ho. by destruct (o_Side o).
  - rewrite insert_unfold by lia. unfold ab_rest. by destruct (o_Side o).
Qed.

(** ** Ids of resting orders *)

Lemma resting_id e id p q s :
  wf e -> e_index e !! id = Some p -> q ∈ lptrs (levels_of e s) ->
  ro_orderID (deref e q) = id <-> q = p.
Proof.
  intros W Hi Hq. destruct (core_index _ _ (wf_core _ W) _ _ Hi) as (ro & Hh & Hid & Hp).
  split; [|intros ->; by rewrite (deref_lookup _ _ _ Hh)].
  intros Heq. eapply core_id_inj; [apply W|exact Hq|exact Hp|].
  by rewrite (deref_lookup _ _ _ Hh), Heq.
Qed.

Lemma absent_id e id q s :
  wf e -> e_index e !! id = None -> q ∈ lptrs (levels_of e s) -> ro_orderID (deref e q) <> id.
Proof. intros W Hi Hq Heq. destruct (core_ptr _ _ _ _ (wf_core _ W) Hq) as (_ & _ & Hx). congruence. Qed.

Lemma filter_absent e id (l : list ptr) :
  (forall q, q ∈ l -> ro_orderID (deref e q) <> id) ->
  List.filter (fun m => negb (bool_decide (ro_orderID m = id))) (map (deref e) l) = map (deref e) l.
Proof.
  induction l as [|q l IH]; intros H; simpl; [done|].
  rewrite bool_decide_eq_false_2 by (apply H; left). simpl. f_equal. apply IH. intros; apply H. by right.
Qed.

Lemma remove_first_mid e id l1 p l2 :
  ro_orderID (deref e p) = id -> (forall q, q ∈ l1 -> ro_orderID (deref e q) <> id) ->
  remove_first e id (l1 ++ p :: l2) = l1 ++ l2.
Proof.
  intros Hp. induction l1 as [|q l1 IH]; intros H; simpl.
  - by rewrite bool_decide_eq_true_2.
  - rewrite bool_decide_eq_false_2 by (apply H; left). f_equal. apply IH. intros; apply H. by right.
Qed.

(** The level an indexed order sits in. *)
Lemma resting_slot e id p :
  wf e -> e_index e !! id = Some p ->
  exists pre l1 l2 post,
    levels_of e (ro_side (deref e p)) = pre ++ mkLevel (ro_price (deref e p)) (l1 ++ p :: l2) :: post /\
    (p ∉ (lptrs pre ++ l1)) /\ (p ∉ (l2 ++ lptrs post)).
Proof.
  intros W Hi. destruct (core_index _ _ (wf_core _ W) _ _ Hi) as (ro & Hh & _ & Hp).
  rewrite (deref_lookup _ _ _ Hh). apply elem_lptrs in Hp as ([pr os] & Hlv & Hp).
  pose proof (core_ptr_price _ _ _ _ _ (wf_core _ W) Hlv Hp) as Hpr. simpl in *.
  rewrite (deref_lookup _ _ _ Hh) in Hpr.
  apply list_elem_of_split in Hp as (l1 & l2 & ->).
  apply list_elem_of_split in Hlv as (pre & post & Heq).
  exists pre, l1, l2, post. rewrite Hpr, Heq. split; [done|].
  pose proof (core_nodup _ _ (wf_core _ W) (ro_side ro)) as Hn.
  rewrite Heq, lptrs_app, lptrs_cons in Hn. simpl in Hn.
  rewrite <-app_assoc, app_assoc in Hn. simpl in Hn.
  apply NoDup_app in Hn as (_ & Hn1 & Hn2). apply NoDup_cons in Hn2 as [Hn2 _].
  split; [|done]. intros Hin. apply (Hn1 p Hin). left.
Qed.

(** ** Removing an order *)

(** The state of [remove] once the order is out of its FIFO. *)
Lemma removing_wf e p pre l1 l2 post t :
  let ro := deref e p in
  wf e -> levels_of e (ro_side ro) = pre ++ mkLevel (ro_price ro) (l1 ++ p :: l2) :: post ->
  tree_for (ro_side ro) t ->
  items t = pre ++ (if decide (l1 ++ l2 = []) then [] else [mkLevel (ro_price ro) (l1 ++ l2)]) ++ post ->
  wf (evict_id (ro_orderID ro) (set_tree (ro_side ro) t e)).
Proof.
  intros ro W HL Htf Hit. set (s := ro_side ro) in *. set (e' := evict_id _ _).
  assert (Htr : forall s', tree e' s' = tree (set_tree s t e) s') by by intros [].
  set (Lv1 := upd_side s (pre ++ mkLevel (ro_price ro) (l1 ++ l2) :: post) (levels_of e)).
  assert (C1 : core (evict_id (ro_orderID ro) e) Lv1).
  { apply (core_evict e (levels_of e) Lv1 s pre (ro_price ro) l1 p l2 post (wf_core _ W) HL);
      unfold Lv1; rewrite ?upd_side_eq, ?upd_side_opp; done. }
  assert (HLs : levels_of e' s = items t) by (unfold levels_of; by rewrite Htr, tree_set_tree).
  assert (HLo : levels_of e' (oppositeSide s) = levels_of e (oppositeSide s)).
  { unfold levels_of. by rewrite Htr, tree_set_tree_opp. }
  split.
  - intros s'. rewrite Htr. destruct (side_cases s s') as [->| ->]; [by rewrite tree_set_tree|].
    rewrite tree_set_tree_opp. apply W.
  - assert (C2 : core e' Lv1) by (eapply core_ext; [..|exact C1]; by destruct s).
    case_decide as Hnil.
    + unfold Lv1 in C2. rewrite Hnil in C2.
      eapply (core_drop_empty _ _ _ s pre (ro_price ro) post C2); rewrite ?upd_side_eq, ?upd_side_opp; try done.
      by rewrite HLs, Hit.
    + eapply core_ext; [..|exact C2]; try done. intros s'. unfold Lv1.
      destruct (side_cases s s') as [->| ->]; rewrite ?upd_side_eq, ?upd_side_opp; [by rewrite HLs, Hit|done].
  - intros s'. destruct (side_cases s s') as [->| ->]; [|rewrite HLo; apply W].
    rewrite HLs, Hit. pose proof (wf_nonempty _ W s) as HF. rewrite HL, Forall_app, Forall_cons in HF.
    rewrite !Forall_app. split_and!; try tauto. case_decide; by repeat constructor.
Qed.

Lemma removing_makers e p id pre l1 l2 post :
  wf e -> e_index e !! id = Some p ->
  levels_of e (ro_side (deref e p)) = pre ++ mkLevel (ro_price (deref e p)) (l1 ++ p :: l2) :: post ->
  p ∉ (lptrs pre ++ l1) -> p ∉ (l2 ++ lptrs post) ->
  map (deref e) (lptrs (pre ++ mkLevel (ro_price (deref e p)) (l1 ++ l2) :: post))
  = List.filter (fun m => negb (bool_decide (ro_orderID m = id))) (makers e (ro_side (deref e p))).
Proof.
  intros W Hi HL Hn1 Hn2. unfold makers.
  change (items (tree e (ro_side (deref e p)))) with (levels_of e (ro_side (deref e p))).
  assert (Hid : forall q, q ∈ lptrs (levels_of e (ro_side (deref e p))) -> q <> p -> ro_orderID (deref e q) <> id).
  { intros q Hq Hne Heq. by apply (resting_id e id p q _ W Hi Hq) in Heq. }
  assert (Hpid : ro_orderID (deref e p) = id).
  { apply (resting_id e id p p (ro_side (deref e p)) W Hi); [|done].
    rewrite HL, lptrs_drop_perm. left. }
  rewrite HL in Hid |- *.
  assert (H1 : lptrs (pre ++ mkLevel (ro_price (deref e p)) (l1 ++ p :: l2) :: post)
               = (lptrs pre ++ l1) ++ p :: (l2 ++ lptrs post)).
  { rewrite lptrs_app, lptrs_cons. simpl. by rewrite <-!app_assoc. }
  assert (H2 : lptrs (pre ++ mkLevel (ro_price (deref e p)) (l1 ++ l2) :: post)
               = (lptrs pre ++ l1) ++ (l2 ++ lptrs post)).
  { rewrite lptrs_app, lptrs_cons. simpl. by rewrite <-!app_assoc. }
  rewrite H1 in Hid |- *. rewrite H2. revert Hn1 Hn2 Hid.
  generalize (lptrs pre ++ l1) (l2 ++ lptrs post). intros A B Hn1 Hn2 Hid.
  rewrite !map_app, List.filter_app. simpl. rewrite bool_decide_eq_true_2 by done. simpl.
  rewrite !filter_absent; [done|..]; intros q Hq; apply Hid;
    try (rewrite elem_of_app, elem_of_cons; tauto); intros ->; tauto.
Qed.

(** The tree [remove] leaves behind. *)
Definition removed_tree e (p : ptr) (os : list ptr) : T :=
  let ro := deref e p in
  if bool_decide (os = []) then Delete (tree e (ro_side ro)) (mkLevel (ro_price ro) os)
  else ReplaceOrInsert (tree e (ro_side ro)) (mkLevel (ro_price ro) os).

Lemma remove_unfold e id p pre l1 l2 post :
  wf e -> e_index e !! id = Some p ->
  levels_of e (ro_side (deref e p)) = pre ++ mkLevel (ro_price (deref e p)) (l1 ++ p :: l2) :: post ->
  p ∉ (lptrs pre ++ l1) ->
  remove e id = evict_id id (set_tree (ro_side (deref e p)) (removed_tree e p (l1 ++ l2)) e).
Proof.
  intros W Hi HL Hn. unfold remove. rewrite Hi. set (ro := deref e p) in *.
  assert (Hin : mkLevel (ro_price ro) (l1 ++ p :: l2) ∈ levels_of e (ro_side ro)).
  { rewrite HL. apply elem_of_app. right. left. }
  rewrite (proj2 (Get_Some (ro_side ro) (tree e (ro_side ro)) (mkLevel (ro_price ro) [])
             (mkLevel (ro_price ro) (l1 ++ p :: l2)) (wf_tree _ W _)) (conj Hin eq_refl)).
  cbn [lv_orders lv_price].
  assert (Hids : forall q, q ∈ l1 ++ p :: l2 -> ro_orderID (deref e q) = id <-> q = p).
  { intros q Hq. apply (resting_id e id p q (ro_side ro) W Hi). apply elem_lptrs. by eexists. }
  rewrite (remove_first_mid e id l1 p l2).
  - unfold removed_tree. fold ro. by destruct (bool_decide (l1 ++ l2 = [])).
  - apply Hids; [|done]. apply elem_of_app. right. left.
  - intros q Hq Heq. apply Hids in Heq; [|apply elem_of_app; by left]. subst q.
    apply Hn, elem_of_app. by right.
Qed.

Lemma removed_tree_items e id p pre l1 l2 post :
  wf e -> levels_of e (ro_side (deref e p)) = pre ++ mkLevel (ro_price (deref e p)) (l1 ++ p :: l2) :: post ->
  e_index e !! id = Some p ->
  tree_for (ro_side (deref e p)) (removed_tree e p (l1 ++ l2)) /\
  items (removed_tree e p (l1 ++ l2)) =
  pre ++ (if decide (l1 ++ l2 = []) then [] else [mkLevel (ro_price (deref e p)) (l1 ++ l2)]) ++ post.
Proof.
  intros W HL _. pose proof (wf_tree _ W (ro_side (deref e p))) as Ht. unfold removed_tree.
  destruct (decide (l1 ++ l2 = [])) as [Hn|Hn].
  - rewrite bool_decide_eq_true_2 by done. split; [by apply tree_for_delete|].
    by rewrite (items_delete _ _ _ _ _ _ Ht HL).
  - rewrite bool_decide_eq_false_2 by done. split; [by apply tree_for_insert|].
    by rewrite (items_replace _ _ _ _ _ _ Ht HL).
Qed.

Lemma lptrs_drop_empty pre p os post :
  lptrs (pre ++ (if decide (os = []) then [] else [mkLevel p os]) ++ post)
  = lptrs (pre ++ mkLevel p os :: post).
Proof. rewrite !lptrs_app, lptrs_cons. case_decide; subst; [done|]. by rewrite lptrs_cons, app_nil_r. Qed.

Lemma remove_abs e id : wf e -> wf (remove e id) /\ abs (remove e id) = ab_drop id (abs e).
Proof.
  intros W. destruct (e_index e !! id) as [p|] eqn:Hi.
  - destruct (resting_slot e id p W Hi) as (pre & l1 & l2 & post & HL & Hn1 & Hn2).
    destruct (removed_tree_items e id p pre l1 l2 post W HL Hi) as [Htf Hit].
    rewrite (remove_unfold e id p pre l1 l2 post W Hi HL Hn1). set (s := ro_side (deref e p)) in *.
    assert (Hid : ro_orderID (deref e p) = id).
    { apply (resting_id e id p p s W Hi); [|done]. rewrite HL, lptrs_drop_perm. left. }
    set (t := removed_tree e p (l1 ++ l2)) in *.
    assert (Hd : forall l, map (deref (evict_id id (set_tree s t e))) l = map (deref e) l).
    { intros l. apply map_ext. intros q. by destruct s. }
    split; [rewrite <-Hid; by eapply removing_wf|]. apply abs_eq.
    + intros s'. unfold makers. rewrite Hd. destruct (side_cases s s') as [->| ->].
      * replace (tree (evict_id id (set_tree s t e)) s) with t by by destruct s.
        rewrite Hit, lptrs_drop_empty. unfold s in *.
        rewrite (removing_makers e p id pre l1 l2 post) by done. by destruct (ro_side _).
      * replace (tree (evict_id id (set_tree s t e)) (oppositeSide s)) with (tree e (oppositeSide s))
          by by destruct s.
        assert (Hf : List.filter (fun m => negb (bool_decide (ro_orderID m = id)))
                       (makers e (oppositeSide s)) = makers e (oppositeSide s)).
        { apply filter_absent. intros q Hq Heq. apply (resting_id e id p q _ W Hi Hq) in Heq. subst q.
          destruct (core_ptr _ _ _ _ (wf_core _ W) Hq) as (_ & Hs & _). fold s in Hs. by destruct s. }
        unfold ab_drop. fold (makers e (oppositeSide s)). rewrite <-Hf at 1. by destruct s.
    + by destruct s.
  - unfold remove. rewrite Hi. split; [done|]. apply abs_eq; [|done]. intros s.
    transitivity (List.filter (fun m => negb (bool_decide (ro_orderID m = id))) (makers e s)).
    + symmetry. apply filter_absent. intros q Hq. by apply (absent_id e id q s).
    + by destruct s.
Qed.

(** ** Matching *)

Lemma parked_restore_wf e s parked :
  parked_ok e s parked -> Forall (fun lv => lv_orders lv <> []) (levels_of e (oppositeSide s)) ->
  let e' := set_tree s (foldl ReplaceOrInsert (tree e s) parked) e in
  wf e' /\ items (tree e' s) = parked ++ items (tree e s).
Proof.
  intros Hok Hopp e'. pose proof (pk_tree _ _ _ Hok) as Ht.
  assert (Hit : items (tree e' s) = parked ++ items (tree e s)).
  { unfold e'. rewrite tree_set_tree. apply (items_restore s); [done|]. apply Hok. }
  split; [|done].
  assert (HL : forall s', levels_of e' s' = upd_side s (parked ++ items (tree e s)) (levels_of e) s').
  { intros s'. destruct (side_cases s s') as [->| ->]; rewrite ?upd_side_eq, ?upd_side_opp; [done|].
    unfold levels_of, e'. by rewrite tree_set_tree_opp. }
  split.
  - intros s'. unfold e'. destruct (side_cases s s') as [->| ->].
    + rewrite tree_set_tree. by apply tree_for_foldl.
    + by rewrite tree_set_tree_opp.
  - apply (core_set_tree _ _ _ _ _ (pk_core _ _ _ Hok) HL).
  - intros s'. rewrite HL. destruct (side_cases s s') as [->| ->]; rewrite ?upd_side_eq, ?upd_side_opp.
    + apply Hok.
    + done.
Qed.

(** The matching half of [matchAndRest]: both loops and the levels put back. *)
Definition matching e (o : Order) : Engine T * Z :=
  let opp := oppositeSide (o_Side o) in
  let '(e, remaining, skippedLevels) := match_levels (S (Len (tree e opp))) o e (o_Qty o) [] in
  (set_tree opp (foldl ReplaceOrInsert (tree e opp) skippedLevels) e, remaining).

Lemma matchAndRest_matching e o rest :
  matchAndRest e o rest =
  let '(e, remaining) := matching e o in
  if rest && (0 <? remaining) && bool_decide (o_Kind o = NewLimit) then insert e o remaining else e.
Proof. unfold matchAndRest, matching. by destruct (match_levels _ _ _ _ _) as [[??]?]. Qed.

Record matching_done e (o : Order) e' (rem' : Z) : Prop := {
  mg_wf : wf e';
  mg_opp : makers e' (oppositeSide (o_Side o))
           = sw_book (sweep o (o_Qty o) (makers e (oppositeSide (o_Side o))));
  mg_own : makers e' (o_Side o) = makers e (o_Side o);
  mg_rem : rem' = sw_rem (sweep o (o_Qty o) (makers e (oppositeSide (o_Side o))));
  mg_range : 0 <= rem' < 2 ^ 64;
  mg_matched : matched e e' (sw_trades (sweep o (o_Qty o) (makers e (oppositeSide (o_Side o)))))
                 (sw_gone (sweep o (o_Qty o) (makers e (oppositeSide (o_Side o)))));
}.

Lemma matching_sweep e o :
  wf e -> 0 <= o_Qty o < 2 ^ 64 ->
  match matching e o with (e', rem') => matching_done e o e' rem' end.
Proof.
  intros W Hq. unfold matching. set (s := oppositeSide (o_Side o)).
  assert (Hs : oppositeSide s = o_Side o) by (unfold s; by destruct (o_Side o)).
  pose proof (match_levels_done (S (Len (tree e s))) o e [] (o_Qty o) (wf_parked e s W) Hq) as H.
  fold s in H. rewrite (len_items (tree e s)) in H by apply (wf_tree _ W).
  rewrite (len_items (tree e s)) by apply (wf_tree _ W).
  specialize (H ltac:(lia)).
  destruct (match_levels _ o e (o_Qty o) []) as [[e' rem'] parked'].
  destruct H as [Hok (new & Hn & Hb) Hfr Hre Hra Hmd Hoth]. simpl in Hn. subst new.
  destruct (parked_restore_wf e' s parked' Hok) as [W' Hit].
  { unfold levels_of. rewrite Hoth. apply W. }
  split; try done.
  - fold s. unfold makers at 1. by rewrite Hit, map_deref_set_tree.
  - unfold makers. rewrite <-Hs, tree_set_tree_opp, Hoth, map_deref_set_tree.
    apply list_fmap_ext. intros i q Hl. apply list_elem_of_lookup_2 in Hl. apply Hfr. intros Hq'.
    destruct (core_ptr _ _ _ _ (wf_core _ W) Hl) as (_ & H1 & _).
    destruct (core_ptr _ _ _ _ (wf_core _ W) Hq') as (_ & H2 & _). rewrite H1 in H2. by destruct s.
  - by apply matched_set_tree.
Qed.

Lemma matchAndRest_abs e o :
  wf e -> admissible e o -> o_Kind o = NewLimit \/ o_Kind o = NewMarket ->
  let e' := matchAndRest e o (bool_decide (o_Kind o = NewLimit)) in
  wf e' /\ abs e' = abs_process (abs e) o.
Proof.
  intros W (Hq & Hov & Hid) Hk e'. unfold e'. rewrite matchAndRest_matching.
  pose proof (matching_sweep e o W Hq) as H. destruct (matching e o) as [e1 rem1].
  destruct H as [W1 Hopp Hown Hre Hra Hmd].
  set (r := sweep o (o_Qty o) (makers e (oppositeSide (o_Side o)))) in *.
  assert (Habs : abs e1 = ab_set (oppositeSide (o_Side o)) (sw_book r) (abs e)).
  { apply abs_eq; [|destruct (o_Side o); apply Hmd]. intros s.
    destruct (side_cases (o_Side o) s) as [->| ->]; [rewrite Hown|rewrite Hopp]; by destruct (o_Side o). }
  assert (Hspec : abs_process (abs e) o =
            if bool_decide (o_Kind o = NewLimit) && (0 <? rem1) then ab_rest o rem1 (abs e1) else abs e1).
  { rewrite Habs, Hre. unfold abs_process, r. rewrite abs_side. by destruct Hk as [-> | ->]. }
  rewrite Hspec. case_bool_decide as HkL; [|done].
  rewrite andb_true_r. simpl. destruct (0 <? rem1); [|done].
  rewrite HkL in Hid. apply insert_abs; [done| |by rewrite (md_seq _ _ _ _ Hmd)|done].
  apply (lookup_weaken_None _ _ _ Hid), Hmd.
Qed.

(** ** Replacing an order *)

Lemma ab_find_abs e id :
  wf e -> ab_find id (abs e) = deref e <$> (e_index e !! id).
Proof.
  intros W. unfold ab_find, abs, makers. simpl. rewrite <-map_app.
  set (L := lptrs _ ++ lptrs _).
  assert (HL : forall q, q ∈ L -> exists s, q ∈ lptrs (levels_of e s)).
  { intros q [Hq|Hq]%elem_of_app; [by exists Buy|by exists Sell]. }
  destruct (e_index e !! id) as [p|] eqn:Hi; simpl.
  - assert (Hid : forall q, q ∈ L -> ro_orderID (deref e q) = id <-> q = p).
    { intros q Hq. destruct (HL q Hq) as [s ?]. by eapply resting_id. }
    assert (Hp : p ∈ L).
    { destruct (core_index _ _ (wf_core _ W) _ _ Hi) as (ro & _ & _ & Hp).
      unfold L. rewrite elem_of_app. destruct (ro_side ro); auto. }
    clearbody L. clear HL. induction L as [|q L IH]; [by apply elem_of_nil in Hp|]. simpl.
    case_bool_decide as Hq; rewrite Hid in Hq by left; [by subst|].
    apply elem_of_cons in Hp as [->|Hp]; [done|]. apply IH; [|done].
    intros q' Hq'. apply Hid. by right.
  - assert (Hid : forall q, q ∈ L -> ro_orderID (deref e q) <> id).
    { intros q Hq. destruct (HL q Hq) as [s ?]. by eapply absent_id. }
    clearbody L. clear HL. induction L as [|q L IH]; [done|]. simpl.
    rewrite bool_decide_eq_false_2 by (apply Hid; left). apply IH.
    intros q' Hq'. apply Hid. by right.
Qed.

(** One resting order assigned through its pointer. *)
Lemma update_abs e e' id p f :
  wf e -> e_index e !! id = Some p -> e_seq e' = e_seq e -> (forall s, tree e' s = tree e s) ->
  (forall q, deref e' q = if decide (q = p) then f (deref e p) else deref e q) ->
  abs e' = ab_update id f (abs e).
Proof.
  intros W Hi Hs Ht Hd. apply abs_eq; [|done]. intros s.
  transitivity (map (fun m => if bool_decide (ro_orderID m = id) then f m else m) (makers e s));
    [|by destruct s].
  unfold makers. rewrite Ht, map_map. apply list_fmap_ext. intros i q Hq.
  apply list_elem_of_lookup_2 in Hq. pose proof (resting_id e id p q s W Hi Hq) as Hid.
  rewrite Hd. case_decide as Hqp.
  - rewrite bool_decide_eq_true_2 by (by apply Hid). by subst.
  - rewrite bool_decide_eq_false_2; [done|]. by intros ?%Hid.
Qed.

Lemma wf_same_trees e e' :
  wf e -> (forall s, tree e' s = tree e s) -> core e' (levels_of e) -> wf e'.
Proof.
  intros W Ht C. assert (HL : forall s, levels_of e' s = levels_of e s)
    by (intros; unfold levels_of; by rewrite Ht).
  split.
  - intros s. rewrite Ht. apply W.
  - by eapply core_ext; [..|exact C].
  - intros s. rewrite HL. apply W.
Qed.

(** The branch of [replace] that keeps the queue position. *)
Lemma replace_in_place_abs e o p :
  wf e -> admissible e o -> o_Kind o = Replace -> e_index e !! o_OrigOrderID o = Some p ->
  o_Price o = ro_price (deref e p) -> o_Qty o <= ro_remaining (deref e p) ->
  wf (replace e o) /\
  abs (replace e o) = ab_update (o_OrigOrderID o)
    (fun m => set_orderID (set_remaining m (o_Qty o)) (orReplaceID o)) (abs e).
Proof.
  intros W (Hq & _ & Hfr) Hk Hi Hp Hle. rewrite Hk in Hfr.
  destruct (core_index _ _ (wf_core _ W) _ _ Hi) as (ro & Hh & Hid & Hin).
  unfold replace. rewrite Hi, (deref_lookup _ _ _ Hh) in *. cbv zeta.
  rewrite (proj2 (Z.eqb_eq _ _) Hp), (proj2 (Z.leb_le _ _) Hle). cbn [andb].
  pose proof (core_set_remaining e _ p ro (o_Qty o) (wf_core _ W) Hh Hq) as C1.
  set (e1 := set_heap _ e) in *.
  assert (Hh1 : e_heap e1 !! p = Some (set_remaining ro (o_Qty o))) by (simpl; by rewrite lookup_insert_eq).
  destruct (_ && _) eqn:Hren.
  - apply andb_true_iff in Hren as [Hn1 Hn2]. rewrite negb_true_iff in Hn1, Hn2.
    rewrite bool_decide_eq_false in Hn1, Hn2. assert (Hor : orReplaceID o = o_OrderID o).
    { unfold orReplaceID. by rewrite bool_decide_eq_false_2. }
    assert (Hnew : e_index e !! o_OrderID o = None) by (destruct Hfr as [?|[?|?]]; congruence).
    set (e2 := set_index (<[o_OrderID o := p]> _) _).
    assert (C2 : core e2 (levels_of e)).
    { apply (core_rename e1 e2 _ p (set_remaining ro (o_Qty o)) (o_OrderID o) C1); try done.
      - simpl. congruence.
      - simpl. rewrite (deref_lookup _ p (set_remaining ro (o_Qty o))); [done|]. exact Hh1. }
    assert (Hd2 : forall q, deref e2 q = if decide (q = p)
              then set_orderID (set_remaining (deref e p) (o_Qty o)) (orReplaceID o) else deref e q).
    { intros q. unfold deref at 1. simpl. unfold deref at 1. simpl. rewrite lookup_insert_eq. simpl.
      rewrite (deref_lookup _ _ _ Hh), Hor. case_decide as Hqp.
      - subst. by rewrite lookup_insert_eq.
      - by rewrite !lookup_insert_ne. }
    set (e3 := match _ with Some _ => _ | None => _ end).
    assert (H3 : e_heap e3 = e_heap e2 /\ e_next e3 = e_next e2 /\ e_index e3 = e_index e2 /\
                 e_seq e3 = e_seq e2 /\ forall s, tree e3 s = tree e2 s).
    { unfold e3. destruct (e_seqByOrder e2 !! _); split_and!; try done; by intros []. }
    destruct H3 as (H3h & H3n & H3i & H3s & H3t). split.
    + apply (wf_same_trees e); [done|intros s; rewrite H3t; by destruct s|].
      by eapply core_ext; [..|exact C2].
    + apply (update_abs e _ _ p); [done..| |].
      * intros s. rewrite H3t. by destruct s.
      * intros q. rewrite <-Hd2. unfold deref. by rewrite H3h.
  - split; [apply (wf_same_trees e); [done|by intros []|done]|].
    apply (update_abs e _ _ p); [done..|by intros []|].
    intros q. unfold e1. rewrite (deref_set_remaining _ _ _ _ _ Hh), (deref_lookup _ _ _ Hh).
    destruct (decide (q = p)); [|done]. replace (orReplaceID o) with (ro_orderID ro); [by destruct ro|].
    clear C1 Hh1. unfold orReplaceID. apply andb_false_iff in Hren. destruct Hren as [Hren|Hren].
    + rewrite Hren. by rewrite Hid.
    + rewrite negb_false_iff in Hren. apply bool_decide_eq_true in Hren. rewrite <-Hren.
      case_bool_decide; simpl; congruence.
Qed.

Lemma set_repriced_wf r e : wf e -> wf (set_repriced r e) /\ abs (set_repriced r e) = abs e.
Proof.
  intros W. split; [|done]. apply (wf_same_trees e); [done|by intros []|].
  by eapply core_ext; [..|apply W].
Qed.

Lemma remove_index e id : e_index (remove e id) = delete id (e_index e).
Proof.
  unfold remove. destruct (e_index e !! id) as [p|] eqn:Hi; [|by rewrite delete_id].
  simpl. f_equal. destruct (Get _ _); [|done]. case_bool_decide; by destruct (ro_side _).
Qed.

Lemma remove_seq e id : e_seq (remove e id) = e_seq e.
Proof.
  unfold remove. destruct (e_index e !! id) as [p|] eqn:Hi; [|done].
  simpl. destruct (Get _ _); [|done]. case_bool_decide; by destruct (ro_side _).
Qed.

(** The id a re-queued order takes is free once the original is out. *)
Lemma replacement_fresh e o smp has :
  o_OrderID o = "" \/ o_OrderID o = o_OrigOrderID o \/ e_index e !! o_OrderID o = None ->
  delete (o_OrigOrderID o) (e_index e) !! o_OrderID (replacement o smp has) = None.
Proof.
  intros Hfr. unfold replacement, orReplaceID. simpl.
  destruct (decide (o_OrderID o = o_OrigOrderID o)) as [Heq|Hne].
  - rewrite Heq. case_bool_decide; simpl; by rewrite lookup_delete_eq.
  - case_bool_decide; simpl; [by rewrite lookup_delete_eq|].
    rewrite lookup_delete_ne by done. tauto.
Qed.

Lemma replace_abs e o :
  wf e -> admissible e o -> o_Kind o = Replace ->
  wf (replace e o) /\ abs (replace e o) = abs_process (abs e) o.
Proof.
  intros W Had Hk. unfold abs_process. rewrite Hk, ab_find_abs by done.
  destruct (e_index e !! o_OrigOrderID o) as [p|] eqn:Hi; simpl.
  2:{ unfold replace. by rewrite Hi. }
  destruct (_ && _) eqn:Hin.
  { zify_bool. by apply (replace_in_place_abs e o p). }
  unfold replace. rewrite Hi, Hin. destruct Had as (Hq & Hov & Hfr). rewrite Hk in Hfr.
  set (e1 := if negb _ then _ else _).
  assert (H1 : wf e1 /\ abs e1 = abs e).
  { unfold e1. destruct (negb _); [by apply set_repriced_wf|done]. }
  assert (Hx : e_index e1 = e_index e /\ e_seq e1 = e_seq e) by (unfold e1; by destruct (negb _)).
  destruct H1 as [W1 Ha1], Hx as [Hx1 Hx2].
  destruct (remove_abs e1 (o_OrigOrderID o) W1) as [W2 Ha2]. rewrite Ha1 in Ha2.
  rewrite <-Ha2. apply insert_abs; [done| |by rewrite remove_seq, Hx2|done].
  rewrite remove_index, Hx1. by apply replacement_fresh.
Qed.

End ops.
