(* ===== verification/BookProps.v ===== *)
(** * Properties of the reference book

    The refinement theorem for [Process] and what follows from it: the
    contract a validator of third-party matching engines needs from its own
    reference engine. *)

From stdpp Require Import prelude gmap strings sorting.
From S2P Require Import Prelude GoSort Model Book BTree BookInv BookMatch BookOps.

Open Scope Z_scope.

(** ** Outputs of the specification *)

(** The trades an order causes. *)
Definition abs_trades (b : ABook) (o : Order) : list Trade :=
  match o_Kind o with
  | NewLimit | NewMarket => sw_trades (sweep o (o_Qty o) (ab_side b (oppositeSide (o_Side o))))
  | Cancel | Replace => []
  end.

(** The ids that leave the book while an order is processed. *)
Definition abs_evicted (b : ABook) (o : Order) : list string :=
  match o_Kind o with
  | NewLimit | NewMarket => sw_gone (sweep o (o_Qty o) (ab_side b (oppositeSide (o_Side o))))
  | Cancel => if ab_find (o_OrigOrderID o) b is Some _ then [o_OrigOrderID o] else []
  | Replace =>
      match ab_find (o_OrigOrderID o) b with
      | Some ro => if (o_Price o =? ro_price ro) && (o_Qty o <=? ro_remaining ro)
                   then [] else [o_OrigOrderID o]
      | None => []
      end
  end.

(** ** Facts about [sweep] *)

Lemma sweep_conserve o rem ms :
  0 <= rem -> Forall (fun m => 0 <= ro_remaining m) ms ->
  let r := sweep o rem ms in
  sumZ (map t_Qty (sw_trades r)) + sw_rem r = rem /\ 0 <= sw_rem r /\
  sumZ (map ro_remaining (sw_book r)) + sumZ (map t_Qty (sw_trades r)) = sumZ (map ro_remaining ms).
Proof.
  intros Hr HF. revert rem Hr. induction HF as [|m ms Hm _ IH]; intros rem Hr; simpl; [lia|].
  destruct (_ || _); simpl; [lia|].
  destruct (smp_conflict o m); simpl; [specialize (IH rem Hr); simpl in IH; lia|].
  specialize (IH (rem - Z.min rem (ro_remaining m)) ltac:(lia)). simpl in IH.
  destruct (_ =? _) eqn:Heq; simpl; zify_bool; lia.
Qed.

(** Every trade of a sweep is with a maker of the book. *)
Definition trade_ok (o : Order) (ms : list restingOrder) (t : Trade) : Prop :=
  exists m, m ∈ ms /\ t = trade_of o m (ro_price m) (t_Qty t) /\ smp_conflict o m = false /\
            takes o (ro_price m) = true /\ 0 <= t_Qty t <= ro_remaining m.

Lemma sweep_trades_ok o rem ms :
  0 <= rem -> Forall (fun m => 0 <= ro_remaining m) ms ->
  Forall (trade_ok o ms) (sw_trades (sweep o rem ms)).
Proof.
  intros Hr HF. revert rem Hr. induction HF as [|m ms Hm _ IH]; intros rem Hr; simpl; [constructor|].
  assert (Hmono : forall l, Forall (trade_ok o ms) l -> Forall (trade_ok o (m :: ms)) l).
  { intros l Hl. eapply Forall_impl; [exact Hl|]. intros t (m' & ? & ?). exists m'. split; [by right|done]. }
  destruct (negb (0 <? rem) || negb (takes o (ro_price m))) eqn:Hstop; simpl; [constructor|].
  apply orb_false_iff in Hstop as [_ Htk]. rewrite negb_false_iff in Htk.
  destruct (smp_conflict o m) eqn:Hc; simpl; [by apply Hmono, IH|].
  assert (Hhd : trade_ok o (m :: ms) (trade_of o m (ro_price m) (Z.min rem (ro_remaining m)))).
  { exists m. simpl. split_and!; [left|done..|lia|lia]. }
  specialize (IH (rem - Z.min rem (ro_remaining m)) ltac:(lia)).
  destruct (_ =? _); simpl; constructor; auto.
Qed.

(** Strict priority: a maker trades only when every maker ahead of it that
    the aggressor may trade with has been used up. *)
Lemma sweep_priority o rem l1 m l2 t :
  0 <= rem -> NoDup (map ro_orderID (l1 ++ m :: l2)) ->
  Forall (fun m => 0 <= ro_remaining m) l1 ->
  t ∈ sw_trades (sweep o rem (l1 ++ m :: l2)) -> t_MakerOrderID t = ro_orderID m ->
  forall m', m' ∈ l1 -> smp_conflict o m' = false ->
    ro_orderID m' ∈ sw_gone (sweep o rem (l1 ++ m :: l2)).
Proof.
  intros Hr Hnd HF. revert rem Hr. induction HF as [|x l Hx _ IH]; intros rem Hr Ht Hid m' Hm' Hc.
  { by apply elem_of_nil in Hm'. }
  cbn [map app] in Hnd. apply NoDup_cons in Hnd as [Hnx Hnd]. revert Ht. simpl.
  destruct (_ || _) eqn:Hstop; simpl; [by intros ?%elem_of_nil|].
  destruct (smp_conflict o x) eqn:Hcx; simpl.
  { intros Ht. apply elem_of_cons in Hm' as [->|Hm']; [congruence|]. by apply IH. }
  assert (Hne : ro_orderID x <> t_MakerOrderID t).
  { rewrite Hid. intros Heq. apply Hnx. rewrite Heq. apply list_elem_of_fmap.
    exists m. split; [done|]. apply elem_of_app. right. left. }
  destruct (_ =? _) eqn:Hq; simpl; intros [->|Ht]%elem_of_cons; try done.
  - apply elem_of_cons in Hm' as [->|Hm']; [left|]. right. apply IH; try done. lia.
  - zify_bool. rewrite sweep_zero in Ht by lia. by apply elem_of_nil in Ht.
Qed.

(** What is left when the aggressor is not filled: nothing it could trade with. *)
Lemma sweep_rest o rem ms m :
  0 <= rem -> Forall (fun m => 0 <= ro_remaining m) ms ->
  StronglySorted (fun a b => takes o (ro_price b) = true -> takes o (ro_price a) = true) ms ->
  0 < sw_rem (sweep o rem ms) -> m ∈ sw_book (sweep o rem ms) ->
  takes o (ro_price m) = true -> smp_conflict o m = true.
Proof.
  intros Hr HF Hs. revert rem Hr HF. induction Hs as [|x l Hs IH Hx]; intros rem Hr HF; simpl.
  { by intros _ ?%elem_of_nil. }
  apply Forall_cons in HF as [Hx0 HF]. rewrite Forall_forall in Hx.
  destruct (_ || _) eqn:Hstop; simpl.
  { intros Hpos Hm Htm. apply orb_true_iff in Hstop as [Hst|Hst]; zify_bool; [lia|].
    apply elem_of_cons in Hm as [->|Hm]; [congruence|]. rewrite (Hx m Hm Htm) in Hst. done. }
  destruct (smp_conflict o x) eqn:Hcx; simpl.
  { intros Hpos Hm Htm. apply elem_of_cons in Hm as [->|Hm]; [done|]. by apply (IH rem). }
  destruct (_ =? _) eqn:Hq; simpl; intros Hpos Hm Htm; zify_bool.
  - apply (IH (rem - Z.min rem (ro_remaining x))); try done. lia.
  - rewrite sweep_zero in Hpos by lia. simpl in Hpos. lia.
Qed.

Section props.
Context {T : Type} `{!BTreeG T} `{!BTreeLaws T}.
Implicit Types (e : Engine T) (s : Side).

(** ** Frames *)

(** The output buffers of an engine. *)
Definition outs e : list Fill * list Trade * list string := (e_fills e, e_trades e, e_evicted e).

Lemma outs_insert e o q : outs (insert e o q) = outs e.
Proof. unfold insert, outs. simpl. destruct (Get _ _); by destruct (o_Side o). Qed.

Lemma outs_remove e id :
  outs (remove e id) =
  (e_fills e, e_trades e, e_evicted e ++ if e_index e !! id is Some _ then [id] else []).
Proof.
  unfold remove, outs. destruct (e_index e !! id) as [p|]; [|by rewrite app_nil_r].
  destruct (Get _ _); [|done]. simpl. case_bool_decide; by destruct (ro_side _).
Qed.

Lemma outs_replace e o :
  wf e -> o_Kind o = Replace ->
  outs (replace e o) = (e_fills e, e_trades e, e_evicted e ++ abs_evicted (abs e) o).
Proof.
  intros W Hk. unfold abs_evicted. rewrite Hk, ab_find_abs by done. unfold replace.
  destruct (e_index e !! o_OrigOrderID o) as [p|] eqn:Hi; simpl; [|unfold outs; by rewrite app_nil_r].
  destruct (_ && _).
  - rewrite app_nil_r. destruct (_ && _); [|done]. by destruct (e_seqByOrder _ !! _).
  - rewrite outs_insert, outs_remove. destruct (negb _); simpl; by rewrite Hi.
Qed.

Lemma outs_matching e o rest :
  wf e -> 0 <= o_Qty o < 2 ^ 64 ->
  let r := sweep o (o_Qty o) (makers e (oppositeSide (o_Side o))) in
  outs (matchAndRest e o rest) =
  (e_fills e ++ (sw_trades r ≫= fills_of), e_trades e ++ sw_trades r, e_evicted e ++ sw_gone r).
Proof.
  intros W Hq r. rewrite matchAndRest_matching.
  pose proof (matching_sweep e o W Hq) as H. destruct (matching e o) as [e1 rem1].
  destruct H as [_ _ _ _ _ [Hf Ht He _ _ _ _]]. fold r in Hf, Ht, He.
  destruct (_ && _); rewrite ?outs_insert; unfold outs; by rewrite Hf, Ht, He.
Qed.

Lemma outs_Process e o :
  wf e -> 0 <= o_Qty o < 2 ^ 64 ->
  outs (Process e o) =
  (e_fills e ++ (abs_trades (abs e) o ≫= fills_of), e_trades e ++ abs_trades (abs e) o,
   e_evicted e ++ abs_evicted (abs e) o).
Proof.
  intros W Hq. unfold Process, abs_trades. destruct (o_Kind o) eqn:Hk.
  - rewrite outs_matching by done. unfold abs_evicted. rewrite Hk. by destruct (o_Side o).
  - rewrite outs_matching by done. unfold abs_evicted. rewrite Hk. by destruct (o_Side o).
  - rewrite outs_remove. unfold abs_evicted. rewrite Hk, ab_find_abs by done. simpl.
    rewrite !app_nil_r. by destruct (e_index e !! _).
  - rewrite outs_replace by done. simpl. by rewrite !app_nil_r.
Qed.

Lemma Process_abs e o :
  wf e -> admissible e o -> wf (Process e o) /\ abs (Process e o) = abs_process (abs e) o.
Proof.
  intros W Ha. unfold Process. destruct (o_Kind o) eqn:Hk.
  - pose proof (matchAndRest_abs e o W Ha) as H. rewrite Hk in H. by apply H; left.
  - pose proof (matchAndRest_abs e o W Ha) as H. rewrite Hk in H. by apply H; right.
  - destruct (remove_abs e (o_OrigOrderID o) W) as [? ->]. split; [done|].
    unfold abs_process. by rewrite Hk.
  - by apply replace_abs.
Qed.

(** ** Facts about the makers of a well-formed book *)

Lemma makers_qty e s : wf e -> Forall (fun m => 0 <= ro_remaining m < 2 ^ 64) (makers e s).
Proof.
  intros W. apply Forall_forall. intros m (p & -> & Hp)%list_elem_of_fmap.
  by apply (core_qty _ _ (wf_core _ W) s).
Qed.

Lemma makers_nonneg e s : wf e -> Forall (fun m => 0 <= ro_remaining m) (makers e s).
Proof. intros W. eapply Forall_impl; [by apply makers_qty|]. simpl. tauto. Qed.

Lemma makers_ids e s : wf e -> NoDup (map ro_orderID (makers e s)).
Proof.
  intros W. unfold makers. rewrite map_map. apply NoDup_fmap_2_strong; [|apply (wf_core _ W)].
  intros p q Hp Hq Heq. by eapply (core_id_inj _ _ s s); [apply W|..].
Qed.

(** Price priority first, then arrival order. *)
Definition ahead s (a b : restingOrder) : Prop :=
  better s (ro_price a) (ro_price b) \/ (ro_price a = ro_price b /\ ro_seq a < ro_seq b).

Lemma makers_ahead e s : wf e -> StronglySorted (ahead s) (makers e s).
Proof.
  intros W. unfold makers. fold (levels_of e s).
  pose proof (items_by_priority s _ (wf_tree _ W s)) as Hpr. fold (levels_of e s) in Hpr.
  assert (Hlv : forall lv, lv ∈ levels_of e s ->
            StronglySorted (fun p q => ro_seq (deref e p) < ro_seq (deref e q)) (lv_orders lv) /\
            forall p, p ∈ lv_orders lv -> ro_price (deref e p) = lv_price lv).
  { intros lv Hin. split; [by apply (core_fifo _ _ (wf_core _ W) s)|].
    intros p Hp. by apply (core_ptr_price _ _ s lv p (wf_core _ W)). }
  induction Hpr as [|lv L Hpr IH HF]; [constructor|].
  rewrite lptrs_cons, map_app, StronglySorted_app_iff. destruct (Hlv lv ltac:(left)) as [Hs Hp].
  rewrite Forall_forall in HF. split_and!.
  - clear IH HF Hlv Hpr. induction Hs as [|p l Hs IH HF]; simpl; constructor.
    + apply IH. intros; apply Hp. by right.
    + rewrite Forall_forall in HF. apply Forall_forall. intros m (q & -> & Hq)%list_elem_of_fmap.
      right. rewrite !Hp by (by left || by right). auto.
  - apply IH. intros; apply Hlv. by right.
  - intros a b (p & -> & Hp')%list_elem_of_fmap (q & -> & Hq)%list_elem_of_fmap.
    apply elem_lptrs in Hq as (lv' & Hin & Hq). left. rewrite Hp by done.
    rewrite (proj2 (Hlv lv' ltac:(by right)) q Hq). by apply HF.
Qed.

Lemma takes_mono o e : wf e ->
  StronglySorted (fun a b => takes o (ro_price b) = true -> takes o (ro_price a) = true)
    (makers e (oppositeSide (o_Side o))).
Proof.
  intros W. eapply StronglySorted_impl_in; [|by apply makers_ahead]. intros a b _ _.
  unfold takes, ahead. case_bool_decide; simpl; [|done]. rewrite !negb_involutive.
  destruct (o_Side o); simpl; rewrite !Z.leb_le; lia.
Qed.

Lemma Process_split e o :
  wf e -> 0 <= o_Qty o < 2 ^ 64 ->
  e_fills (Process e o) = e_fills e ++ (abs_trades (abs e) o ≫= fills_of) /\
  e_trades (Process e o) = e_trades e ++ abs_trades (abs e) o /\
  e_evicted (Process e o) = e_evicted e ++ abs_evicted (abs e) o.
Proof. intros W Hq. pose proof (outs_Process e o W Hq) as H. unfold outs in H. by simplify_eq. Qed.

Lemma enqueue_total s ro l :
  sumZ (map ro_remaining (enqueue s ro l)) = ro_remaining ro + sumZ (map ro_remaining l).
Proof. induction l as [|x l IH]; simpl; [done|]. destruct (betterb _ _ _); simpl; lia. Qed.

Lemma new_trade_ok e o t :
  wf e -> 0 <= o_Qty o < 2 ^ 64 -> t ∈ drop (length (e_trades e)) (e_trades (Process e o)) ->
  trade_ok o (makers e (oppositeSide (o_Side o))) t.
Proof.
  intros W Hq Ht. destruct (Process_split e o W Hq) as (_ & Heq & _).
  rewrite Heq, drop_app_length in Ht. unfold abs_trades in Ht. rewrite abs_side in Ht.
  assert (Hok := sweep_trades_ok o (o_Qty o) _ (proj1 Hq) (makers_nonneg e (oppositeSide (o_Side o)) W)).
  rewrite Forall_forall in Hok. destruct (o_Kind o); auto; by apply elem_of_nil in Ht.
Qed.

(** ** Runs *)

#[export] Instance admissible_dec e o : Decision (admissible e o).
Proof. unfold admissible. destruct (o_Kind o); apply _. Defined.

(** A stream of orders, each admissible when its turn comes. *)
Fixpoint run_ok e (os : list Order) : Prop :=
  match os with [] => True | o :: os => admissible e o /\ run_ok (Process e o) os end.

#[export] Instance run_ok_dec e os : Decision (run_ok e os).
Proof. revert e. induction os; simpl; apply _. Defined.

Lemma run_abs e os :
  wf e -> run_ok e os ->
  wf (foldl Process e os) /\ abs (foldl Process e os) = foldl abs_process (abs e) os.
Proof.
  revert e. induction os as [|o os IH]; simpl; [done|]. intros e W [Ha Hr].
  destruct (Process_abs e o W Ha) as [W' <-]. by apply IH.
Qed.

Lemma run_wf os : run_ok (@NewEngine T _) os -> wf (foldl Process (@NewEngine T _) os).
Proof. intros H. by apply run_abs; [apply wf_new|]. Qed.

(** ** Correctness of [Process] *)

(** C1: [Process] implements the price-time priority book. On a well-formed
    engine every admissible order leaves a well-formed engine whose book is the
    one the specification computes, and appends exactly the specified trades,
    fills (taker's before maker's) and evicted ids to the output buffers. *)
Theorem Process_refines e o :
  wf e -> admissible e o ->
  wf (Process e o) /\ abs (Process e o) = abs_process (abs e) o /\
  e_trades (Process e o) = e_trades e ++ abs_trades (abs e) o /\
  e_fills (Process e o) = e_fills e ++ (abs_trades (abs e) o ≫= fills_of) /\
  e_evicted (Process e o) = e_evicted e ++ abs_evicted (abs e) o.
Proof.
  intros W Ha. destruct (Process_abs e o W Ha) as [W' Habs].
  destruct (Process_split e o W ltac:(apply Ha)) as (Hf & Ht & He). done.
Qed.

(** A whole session refines the specification from the empty book: no
    reachable state of the pointer structures departs from it. *)
Theorem session_refines os :
  run_ok (@NewEngine T _) os ->
  wf (foldl Process (@NewEngine T _) os) /\
  abs (foldl Process (@NewEngine T _) os) = foldl abs_process (mkABook [] [] 0) os.
Proof.
  intros H. destruct (run_abs _ _ wf_new H) as [W ->]. split; [done|]. f_equal.
  apply abs_eq; [|done]. intros []; unfold makers; simpl; by rewrite items_new.
Qed.

(** C4: self-match prevention. No trade pairs two orders that carry the same
    SMP id. *)
Theorem no_self_trade e o t :
  wf e -> 0 <= o_Qty o < 2 ^ 64 -> t ∈ drop (length (e_trades e)) (e_trades (Process e o)) ->
  ~ (t_MakerHasSMPID t = true /\ t_TakerHasSMPID t = true /\ t_MakerSMPID t = t_TakerSMPID t).
Proof.
  intros W Hq Ht. pose proof (new_trade_ok e o t W Hq Ht) as Hin.
  destruct Hin as (m & _ & -> & Hc & _). simpl. unfold smp_conflict in Hc.
  intros (H1 & H2 & H3). rewrite H1, H2, H3, Z.eqb_refl in Hc. done.
Qed.

(** C5: quantity is conserved. The trades of a new order and what is left of it
    add up to its quantity, what the makers lose is what is traded, and a limit
    order's leftover is what comes to rest. *)
Theorem quantity_conserved e o :
  let traded := sumZ (map t_Qty (drop (length (e_trades e)) (e_trades (Process e o)))) in
  let total e s := sumZ (map ro_remaining (makers e s)) in
  wf e -> admissible e o -> o_Kind o = NewLimit \/ o_Kind o = NewMarket ->
  0 <= traded <= o_Qty o /\
  total (Process e o) (oppositeSide (o_Side o)) + traded = total e (oppositeSide (o_Side o)) /\
  total (Process e o) (o_Side o) =
    total e (o_Side o) + if bool_decide (o_Kind o = NewLimit) then o_Qty o - traded else 0.
Proof.
  intros traded total W Ha Hk. destruct Ha as (Hq & Ha').
  destruct (Process_split e o W Hq) as (_ & Ht & _).
  unfold traded. clear traded. rewrite Ht, drop_app_length.
  destruct (Process_abs e o W (conj Hq Ha')) as [_ Habs].
  assert (Hm : forall s, makers (Process e o) s = ab_side (abs_process (abs e) o) s).
  { intros s. by rewrite <-Habs, abs_side. }
  unfold total. rewrite !Hm. unfold abs_trades, abs_process. rewrite abs_side.
  pose proof (sweep_conserve o (o_Qty o) _ (proj1 Hq) (makers_nonneg e (oppositeSide (o_Side o)) W)) as H.
  cbv zeta in H. destruct H as (H1 & H2 & H3).
  pose proof (sweep_trades_ok o (o_Qty o) _ (proj1 Hq) (makers_nonneg e (oppositeSide (o_Side o)) W)) as Hok.
  set (r := sweep _ _ _) in *.
  assert (Hnn : 0 <= sumZ (map t_Qty (sw_trades r))).
  { apply sumZ_nonneg. apply Forall_forall. intros x (t & -> & Hin)%list_elem_of_fmap.
    rewrite Forall_forall in Hok. destruct (Hok t Hin) as (m & _ & _ & _ & _ & ?). lia. }
  destruct Hk as [-> | ->]; simpl.
  - unfold ab_rest. destruct (Z.ltb_spec 0 (sw_rem r)); destruct (o_Side o); simpl in *;
      rewrite ?enqueue_total; simpl; lia.
  - destruct (o_Side o); simpl in *; lia.
Qed.

(** Every trade is with an order that was resting on the opposite side, is
    priced at that order's limit, respects the aggressor's limit, is no larger
    than what the maker had left, and records its queue sequence. *)
Theorem trades_respect_limits e o t :
  wf e -> 0 <= o_Qty o < 2 ^ 64 -> t ∈ drop (length (e_trades e)) (e_trades (Process e o)) ->
  exists m, m ∈ makers e (oppositeSide (o_Side o)) /\
    t_MakerOrderID t = ro_orderID m /\ t_TakerOrderID t = o_OrderID o /\
    t_Price t = ro_price m /\ t_MakerSeq t = ro_seq m /\ 0 <= t_Qty t <= ro_remaining m /\
    (o_Kind o = NewLimit -> match o_Side o with
                            | Buy => t_Price t <= o_Price o
                            | Sell => o_Price o <= t_Price t
                            end).
Proof.
  intros W Hq Ht. pose proof (new_trade_ok e o t W Hq Ht) as Hin.
  destruct Hin as (m & Hm & Heqt & _ & Htk & Hqt). exists m. rewrite Heqt. simpl.
  split_and!; try done; try lia. intros Hk. unfold takes in Htk. rewrite Hk in Htk. simpl in Htk.
  rewrite negb_involutive in Htk. unfold crosses in Htk. destruct (o_Side o); by apply Z.leb_le.
Qed.

(** C6: price-time priority. A maker trades only if every order ahead of it
    (better price, or same price and earlier arrival) that self-match
    prevention does not protect is used up by the same aggressor. *)
Theorem price_time_priority e o t m m' :
  wf e -> 0 <= o_Qty o < 2 ^ 64 ->
  t ∈ drop (length (e_trades e)) (e_trades (Process e o)) ->
  m ∈ makers e (oppositeSide (o_Side o)) -> t_MakerOrderID t = ro_orderID m ->
  m' ∈ makers e (oppositeSide (o_Side o)) -> ahead (oppositeSide (o_Side o)) m' m ->
  smp_conflict o m' = false ->
  ro_orderID m' ∈ drop (length (e_evicted e)) (e_evicted (Process e o)).
Proof.
  intros W Hq Ht Hm Hid Hm' Hah Hc. destruct (Process_split e o W Hq) as (_ & Heq & Hev).
  rewrite Heq, drop_app_length in Ht. rewrite Hev, drop_app_length. clear Heq Hev.
  unfold abs_trades, abs_evicted in *. rewrite abs_side in *.
  pose proof (makers_ids e (oppositeSide (o_Side o)) W) as Hnd.
  pose proof (makers_nonneg e (oppositeSide (o_Side o)) W) as Hnn.
  pose proof (makers_ahead e (oppositeSide (o_Side o)) W) as Hs.
  revert Hm Hm' Hnd Hnn Hs Ht. generalize (makers e (oppositeSide (o_Side o))). intros ms Hm Hm' Hnd Hnn Hs Ht.
  apply list_elem_of_split in Hm as (l1 & l2 & ->).
  assert (Hl1 : m' ∈ l1).
  { apply StronglySorted_app_iff in Hs as (_ & Hs & _). inversion Hs as [|?? _ HF]; subst.
    rewrite Forall_forall in HF. apply elem_of_app in Hm' as [?|[->|Hl2]%elem_of_cons]; [done|..].
    - unfold ahead in Hah. destruct Hah as [Hb|?]; [by apply better_irrefl in Hb|lia].
    - specialize (HF _ Hl2). unfold ahead in *. destruct (oppositeSide (o_Side o)); simpl in *; lia. }
  apply Forall_app in Hnn as [Hnn _].
  destruct (o_Kind o); try (by apply elem_of_nil in Ht);
    apply (sweep_priority o (o_Qty o) l1 m l2 t); auto; apply Hq.
Qed.

(** A limit order that comes to rest does not leave a crossed book behind:
    every opposite order it could still trade with carries its SMP id. *)
Theorem rests_uncrossed e o m :
  wf e -> admissible e o -> o_Kind o = NewLimit -> IsResting (Process e o) (o_OrderID o) = true ->
  m ∈ makers (Process e o) (oppositeSide (o_Side o)) ->
  crosses (o_Side o) (o_Price o) (ro_price m) = true -> smp_conflict o m = true.
Proof.
  intros W (Hq & Hov & Hid) Hk Hr. unfold Process in *. rewrite Hk in *.
  rewrite matchAndRest_matching in *. pose proof (matching_sweep e o W Hq) as H.
  destruct (matching e o) as [e1 rem1]. destruct H as [W1 Hopp Hown Hre Hra Hmd].
  assert (Hi1 : e_index e1 !! o_OrderID o = None) by apply (lookup_weaken_None _ _ _ Hid), Hmd.
  simpl in *. rewrite bool_decide_eq_true_2, andb_true_r in * by done.
  destruct (Z.ltb_spec 0 rem1) as [Hpos|Hz].
  2:{ unfold IsResting in Hr. rewrite Hi1 in Hr. done. }
  assert (Hmk : makers (insert e1 o rem1) (oppositeSide (o_Side o)) = makers e1 (oppositeSide (o_Side o))).
  { apply insert_wf_makers; [done..|by rewrite (md_seq _ _ _ _ Hmd)|done]. }
  rewrite Hmk, Hopp. intros Hm Hcr.
  apply (sweep_rest o (o_Qty o) (makers e (oppositeSide (o_Side o)))); auto.
  - lia.
  - by apply makers_nonneg.
  - by apply takes_mono.
  - by rewrite <-Hre.
  - unfold takes. by rewrite Hk, Hcr.
Qed.

(** C7: what holds of the book in every reachable state: each side is sorted by
    price priority and, within a price, by arrival; ids are unique across the
    book; quantities fit 64 bits; and the index answers exactly for the orders
    that rest. *)
Theorem book_invariant os :
  run_ok (@NewEngine T _) os ->
  let e := foldl Process (@NewEngine T _) os in
  (forall s, StronglySorted (ahead s) (makers e s)) /\
  NoDup (map ro_orderID (makers e Buy ++ makers e Sell)) /\
  (forall s, Forall (fun m => ro_side m = s /\ 0 <= ro_remaining m < 2 ^ 64) (makers e s)) /\
  (forall id, IsResting e id = true <-> id ∈ map ro_orderID (makers e Buy ++ makers e Sell)).
Proof.
  intros Hr e. pose proof (run_wf os Hr) as W. fold e in W. split_and!.
  - intros s. by apply makers_ahead.
  - rewrite map_app. apply NoDup_app. split_and!; [by apply makers_ids| |by apply makers_ids].
    intros id (m & -> & Hm)%list_elem_of_fmap (m' & Heq & Hm')%list_elem_of_fmap.
    apply list_elem_of_fmap in Hm as (p & -> & Hp), Hm' as (q & -> & Hq').
    assert (p = q) as <- by by apply (core_id_inj e (levels_of e) Buy Sell p q (wf_core _ W)).
    destruct (core_ptr _ _ _ _ (wf_core _ W) Hp) as (_ & H1 & _).
    destruct (core_ptr _ _ _ _ (wf_core _ W) Hq') as (_ & H2 & _). congruence.
  - intros s. apply Forall_forall. intros m (p & -> & Hp)%list_elem_of_fmap.
    split; [|by apply (core_qty _ _ (wf_core _ W) s)]. by apply (core_ptr _ _ _ _ (wf_core _ W) Hp).
  - intros id. unfold IsResting. rewrite bool_decide_eq_true. split.
    + intros [p Hp]. destruct (core_index _ _ (wf_core _ W) _ _ Hp) as (ro & Hh & <- & Hin).
      apply list_elem_of_fmap. exists ro. split; [done|]. apply elem_of_app.
      destruct (ro_side ro); [left|right]; apply list_elem_of_fmap; exists p;
        (split; [by rewrite (deref_lookup _ _ _ Hh)|done]).
    + intros (m & -> & [(p & -> & Hp)%list_elem_of_fmap|(p & -> & Hp)%list_elem_of_fmap]%elem_of_app)%list_elem_of_fmap;
        destruct (core_ptr _ _ _ _ (wf_core _ W) Hp) as (_ & _ & ->); by eexists.
Qed.

(** ** Queue sequence numbers *)

(** [SeqOf] answers with the queue position of every resting order. *)
Definition seq_ok e : Prop :=
  forall s m, m ∈ makers e s -> SeqOf e (ro_orderID m) = Some (ro_seq m).

Lemma sweep_from o rem ms m :
  m ∈ sw_book (sweep o rem ms) ->
  exists m0, m0 ∈ ms /\ ro_orderID m = ro_orderID m0 /\ ro_seq m = ro_seq m0.
Proof.
  revert rem. induction ms as [|x ms IH]; intros rem; simpl; [by intros ?%elem_of_nil|].
  assert (Hr : forall r, m ∈ sw_book (sweep o r ms) ->
            exists m0, m0 ∈ x :: ms /\ ro_orderID m = ro_orderID m0 /\ ro_seq m = ro_seq m0).
  { intros r (m0 & ? & ?)%IH. exists m0. split; [by right|done]. }
  destruct (_ || _); simpl; [intros ?; by exists m|].
  destruct (smp_conflict o x); simpl.
  { intros [->|Hm]%elem_of_cons; [|by eapply Hr]. exists x. split; [left|done]. }
  destruct (_ =? _); simpl; [by apply Hr|].
  intros [->|Hm]%elem_of_cons; [|by eapply Hr]. exists x. split; [left|done].
Qed.

Lemma enqueue_elem s ro l m : m ∈ enqueue s ro l -> m = ro \/ m ∈ l.
Proof.
  induction l as [|x l IH]; simpl; [by intros ->%list_elem_of_singleton; left|].
  destruct (betterb _ _ _); rewrite !elem_of_cons; naive_solver.
Qed.

Lemma makers_fresh e s id m : wf e -> e_index e !! id = None -> m ∈ makers e s -> ro_orderID m <> id.
Proof. intros W Hi (p & -> & Hp)%list_elem_of_fmap. by eapply absent_id. Qed.

Lemma insert_seq_ok e o q :
  wf e -> e_index e !! o_OrderID o = None -> e_seq e + 1 < 2 ^ 64 -> 0 <= q < 2 ^ 64 ->
  seq_ok e -> seq_ok (insert e o q).
Proof.
  intros W Hfr Hov Hq Hs s m Hm. pose proof (core_seq_range _ _ (wf_core _ W)) as Hsr.
  destruct (insert_wf_makers e o q W Hfr Hov Hq) as (_ & Hown & Hopp).
  assert (Hby : e_seqByOrder (insert e o q) = <[o_OrderID o := e_seq e + 1]> (e_seqByOrder e)).
  { rewrite insert_unfold by lia. by destruct (o_Side o). }
  unfold SeqOf. rewrite Hby.
  assert (Hm' : m = fresh_ro e o q \/ m ∈ makers e s).
  { destruct (side_cases (o_Side o) s) as [->| ->]; rewrite ?Hown, ?Hopp in Hm; [|by right].
    by apply enqueue_elem in Hm. }
  destruct Hm' as [->|Hm']; [by rewrite lookup_insert_eq|].
  rewrite lookup_insert_ne; [by apply (Hs s)|]. by apply not_eq_sym, (makers_fresh e s).
Qed.

Lemma remove_seq_ok e id : wf e -> seq_ok e -> seq_ok (remove e id).
Proof.
  intros W Hs s m Hm. destruct (remove_abs e id W) as [_ Habs].
  assert (Hby : e_seqByOrder (remove e id) = e_seqByOrder e).
  { unfold remove. destruct (e_index e !! id); [|done]. simpl. destruct (Get _ _); [|done].
    case_bool_decide; by destruct (ro_side _). }
  unfold SeqOf. rewrite Hby. apply (Hs s). rewrite <-abs_side, Habs in Hm.
  assert (Hf : m ∈ List.filter (fun m => negb (bool_decide (ro_orderID m = id))) (makers e s))
    by by destruct s.
  apply list_elem_of_In, List.filter_In in Hf. apply list_elem_of_In. tauto.
Qed.

Lemma matching_seq_ok e o e1 rem1 : matching_done e o e1 rem1 -> seq_ok e -> seq_ok e1.
Proof.
  intros [_ Hopp Hown _ _ Hmd] Hs s m Hm. unfold SeqOf. rewrite (md_seqBy _ _ _ _ Hmd).
  destruct (side_cases (o_Side o) s) as [->| ->]; rewrite ?Hown, ?Hopp in Hm; [by eapply Hs|].
  apply sweep_from in Hm as (m0 & Hm0 & -> & ->). by eapply Hs.
Qed.

Lemma update_seq_ok e e' id p f sq :
  wf e -> seq_ok e -> e_index e !! id = Some p -> e_seqByOrder e' = sq ->
  abs e' = ab_update id f (abs e) -> (forall m, ro_seq (f m) = ro_seq m) ->
  sq !! ro_orderID (f (deref e p)) = Some (ro_seq (deref e p)) ->
  (forall s m, m ∈ makers e s -> ro_orderID m <> id -> sq !! ro_orderID m = SeqOf e (ro_orderID m)) ->
  seq_ok e'.
Proof.
  intros W Hs Hi Hsq Habs Hf Hp Hoth s m Hm. unfold SeqOf. rewrite Hsq.
  rewrite <-abs_side, Habs in Hm.
  assert (Hm' : m ∈ map (fun m => if bool_decide (ro_orderID m = id) then f m else m) (makers e s))
    by by destruct s.
  apply list_elem_of_fmap in Hm' as (x & -> & Hx). case_bool_decide as Hid.
  - apply list_elem_of_fmap in Hx as (q & -> & Hq). apply (resting_id e id p q s W Hi Hq) in Hid. subst q.
    by rewrite Hp, Hf.
  - rewrite (Hoth s) by done. by apply (Hs s).
Qed.

Lemma replace_in_place_seq_ok e o p :
  wf e -> admissible e o -> o_Kind o = Replace -> e_index e !! o_OrigOrderID o = Some p ->
  o_Price o = ro_price (deref e p) -> o_Qty o <= ro_remaining (deref e p) ->
  seq_ok e -> seq_ok (replace e o).
Proof.
  intros W Ha Hk Hi Hp Hle Hs.
  destruct (replace_in_place_abs e o p W Ha Hk Hi Hp Hle) as [_ Habs].
  destruct Ha as (_ & _ & Hfr). rewrite Hk in Hfr.
  assert (Hpm : deref e p ∈ makers e (ro_side (deref e p)) /\ ro_orderID (deref e p) = o_OrigOrderID o).
  { destruct (core_index _ _ (wf_core _ W) _ _ Hi) as (ro & Hh & Hid & Hin).
    rewrite (deref_lookup _ _ _ Hh). split; [|done]. apply list_elem_of_fmap. exists p.
    by rewrite (deref_lookup _ _ _ Hh). }
  destruct Hpm as [Hpm Hpid]. pose proof (Hs _ _ Hpm) as Hsp. unfold SeqOf in Hsp.
  eapply (update_seq_ok e _ _ p); [done..| |exact Habs|done| |]; [reflexivity|..];
    unfold replace; rewrite Hi, (proj2 (Z.eqb_eq _ _) Hp), (proj2 (Z.leb_le _ _) Hle); cbn [andb];
    rewrite Hpid in *; unfold orReplaceID; simpl;
    destruct (decide (o_OrderID o = "")) as [H1|H1];
    rewrite ?(bool_decide_eq_true_2 _ H1), ?(bool_decide_eq_false_2 _ H1); simpl; try done;
    destruct (decide (o_OrderID o = o_OrigOrderID o)) as [H2|H2];
    rewrite ?(bool_decide_eq_true_2 _ H2), ?(bool_decide_eq_false_2 _ H2); simpl; rewrite ?Hsp; simpl;
    try done; try congruence.
  - rewrite lookup_delete_ne by done. by rewrite lookup_insert_eq.
  - intros s m Hm Hne. rewrite lookup_delete_ne by done. rewrite lookup_insert_ne; [done|].
    apply not_eq_sym, (makers_fresh e s); [done| |done]. tauto.
Qed.

(** The queue sequence reported for an order ([SeqOf], which the validator
    uses to judge time priority) is that of the resting order with the id,
    whatever matching, cancels, renames and re-queues do. *)
Theorem SeqOf_resting e o :
  wf e -> admissible e o -> seq_ok e -> seq_ok (Process e o).
Proof.
  intros W Ha Hs. destruct Ha as (Hq & Hov & Hid) eqn:HA. clear HA. unfold Process.
  assert (Hmat : forall b, o_Kind o = NewLimit \/ b = false -> seq_ok (matchAndRest e o b)).
  { intros b Hb. rewrite matchAndRest_matching. pose proof (matching_sweep e o W Hq) as H.
    destruct (matching e o) as [e1 rem1]. pose proof (matching_seq_ok _ _ _ _ H Hs) as Hs1.
    destruct H as [W1 _ _ _ Hra Hmd]. destruct b; simpl; [|done]. destruct Hb as [Hk|]; [|done].
    destruct (_ && _); [|done]. rewrite Hk in Hid.
    apply insert_seq_ok; try done; [|by rewrite (md_seq _ _ _ _ Hmd)].
    apply (lookup_weaken_None _ _ _ Hid), Hmd. }
  destruct (o_Kind o) eqn:Hk; [by apply Hmat; left|by apply Hmat; right|by apply remove_seq_ok|].
  destruct (e_index e !! o_OrigOrderID o) as [p|] eqn:Hi; [|unfold replace; by rewrite Hi].
  destruct ((o_Price o =? ro_price (deref e p)) && (o_Qty o <=? ro_remaining (deref e p))) eqn:Hin.
  { zify_bool. by apply (replace_in_place_seq_ok e o p). }
  unfold replace. rewrite Hi, Hin. set (e1 := if negb _ then _ else _).
  assert (H1 : wf e1 /\ seq_ok e1 /\ e_index e1 = e_index e /\ e_seq e1 = e_seq e).
  { unfold e1. destruct (negb _); [|done]. split; [by apply set_repriced_wf|]. split; [|done].
    intros s m Hm. apply (Hs s m). by destruct s. }
  destruct H1 as (W1 & Hs1 & Hx1 & Hx2). destruct (remove_abs e1 (o_OrigOrderID o) W1) as [W2 _].
  apply insert_seq_ok; [done| |by rewrite remove_seq, Hx2|done|by apply remove_seq_ok].
  rewrite remove_index, Hx1. by apply replacement_fresh.
Qed.

(** ** Replacing *)

Lemma ab_find_maker e s m : wf e -> m ∈ makers e s -> ab_find (ro_orderID m) (abs e) = Some m.
Proof.
  intros W (p & -> & Hp)%list_elem_of_fmap. rewrite ab_find_abs by done.
  by destruct (core_ptr _ _ _ _ (wf_core _ W) Hp) as (_ & _ & ->).
Qed.

Lemma ab_find_Some e id ro :
  wf e -> ab_find id (abs e) = Some ro -> ro ∈ makers e (ro_side ro) /\ ro_orderID ro = id.
Proof.
  intros W. rewrite ab_find_abs by done. intros (p & Hi & ->)%fmap_Some.
  destruct (core_index _ _ (wf_core _ W) _ _ Hi) as (ro & Hh & Hid & Hin).
  rewrite (deref_lookup _ _ _ Hh). split; [|done]. apply list_elem_of_fmap. exists p.
  by rewrite (deref_lookup _ _ _ Hh).
Qed.

Lemma enqueue_self s ro l : ro ∈ enqueue s ro l.
Proof.
  induction l as [|x l IH]; simpl; [by left|]. destruct (betterb _ _ _); [by left|by right].
Qed.

Lemma makers_seq e s m : wf e -> m ∈ makers e s -> ro_seq m <= e_seq e.
Proof. intros W (p & -> & Hp)%list_elem_of_fmap. by apply (core_seq _ _ (wf_core _ W) s). Qed.

Lemma requeue_last e o q m s :
  wf e -> e_index e !! o_OrderID o = None -> e_seq e + 1 < 2 ^ 64 -> 0 <= q < 2 ^ 64 ->
  ab_find (o_OrderID o) (abs (insert e o q)) = Some (fresh_ro e o q) /\
  (m ∈ makers (insert e o q) s -> m = fresh_ro e o q \/ ro_seq m < ro_seq (fresh_ro e o q)).
Proof.
  intros W Hfr Hov Hq. destruct (insert_wf_makers e o q W Hfr Hov Hq) as (W' & Hown & Hopp). split.
  - change (o_OrderID o) with (ro_orderID (fresh_ro e o q)).
    apply (ab_find_maker _ (o_Side o)); [done|]. rewrite Hown. apply enqueue_self.
  - intros Hm. destruct (side_cases (o_Side o) s) as [->| ->]; rewrite ?Hown, ?Hopp in Hm.
    + apply enqueue_elem in Hm as [?|Hm%makers_seq]; [by left| |done]. right. simpl. lia.
    + apply makers_seq in Hm; [|done]. right. simpl. lia.
Qed.

(** Replacing a resting order. It survives under the new id with the new
    price and quantity and its own SMP identity. At the same price with no more
    than its remaining quantity it keeps its queue sequence; otherwise it goes
    behind every other resting order. *)
Theorem replace_priority e o ro :
  wf e -> admissible e o -> o_Kind o = Replace -> ab_find (o_OrigOrderID o) (abs e) = Some ro ->
  exists ro', ab_find (orReplaceID o) (abs (Process e o)) = Some ro' /\
    ro_price ro' = o_Price o /\ ro_remaining ro' = o_Qty o /\
    ro_smpID ro' = ro_smpID ro /\ ro_hasSMP ro' = ro_hasSMP ro /\
    if (o_Price o =? ro_price ro) && (o_Qty o <=? ro_remaining ro)
    then ro_seq ro' = ro_seq ro /\ ro_side ro' = ro_side ro
    else forall s m, m ∈ makers (Process e o) s -> m = ro' \/ ro_seq m < ro_seq ro'.
Proof.
  intros W Ha Hk Hf. destruct (Process_abs e o W Ha) as [W' Habs]. unfold Process in *.
  rewrite Hk in *. rewrite ab_find_abs in Hf by done. apply fmap_Some in Hf as (p & Hi & ->).
  destruct (_ && _) eqn:Hin.
  - zify_bool. destruct (replace_in_place_abs e o p W Ha Hk Hi) as [_ Hup]; [done..|].
    assert (Hfp : ab_find (o_OrigOrderID o) (abs e) = Some (deref e p)) by by rewrite ab_find_abs, Hi.
    apply ab_find_Some in Hfp as [Hpm Hpid]; [|done].
    exists (set_orderID (set_remaining (deref e p) (o_Qty o)) (orReplaceID o)).
    split; [|by split_and!].
    change (orReplaceID o) with
      (ro_orderID (set_orderID (set_remaining (deref e p) (o_Qty o)) (orReplaceID o))) at 1.
    apply (ab_find_maker _ (ro_side (deref e p))); [done|]. rewrite <-abs_side, Hup.
    assert (Hin : set_orderID (set_remaining (deref e p) (o_Qty o)) (orReplaceID o)
              ∈ map (fun m => if bool_decide (ro_orderID m = o_OrigOrderID o)
                     then set_orderID (set_remaining m (o_Qty o)) (orReplaceID o) else m)
                  (makers e (ro_side (deref e p)))).
    { apply list_elem_of_fmap. exists (deref e p). by rewrite bool_decide_eq_true_2. }
    by destruct (ro_side (deref e p)).
  - unfold replace in *. rewrite Hi, Hin in *. destruct Ha as (Hq & Hov & Hfr). rewrite Hk in Hfr.
    set (e1 := if negb _ then _ else _) in *.
    assert (H1 : wf e1 /\ e_index e1 = e_index e /\ e_seq e1 = e_seq e).
    { unfold e1. destruct (negb _); [|done]. split; [by apply set_repriced_wf|done]. }
    destruct H1 as (W1 & Hx1 & Hx2). destruct (remove_abs e1 (o_OrigOrderID o) W1) as [W2 _].
    set (o' := replacement _ _ _) in *. set (e2 := remove e1 _) in *.
    assert (Hfr2 : e_index e2 !! o_OrderID o' = None).
    { unfold e2. rewrite remove_index, Hx1. by apply replacement_fresh. }
    assert (Hov2 : e_seq e2 + 1 < 2 ^ 64) by (unfold e2; by rewrite remove_seq, Hx2).
    exists (fresh_ro e2 o' (o_Qty o)). split_and!; try done.
    + by apply (requeue_last e2 o' (o_Qty o) (deref e p) Buy).
    + intros s m. by apply requeue_last.
Qed.

End props.

(** ** Concrete sessions *)

Definition limit (id : string) (s : Side) (price qty smp : Z) : Order :=
  mkOrder id (mkFlow 1 1) 0 0 0 s price qty NewLimit "" smp (negb (smp =? 0)) [].
Definition amend (orig id : string) (s : Side) (price qty : Z) : Order :=
  mkOrder id (mkFlow 1 1) 0 0 0 s price qty Replace orig 0 false [].

(** Two asks at 100 (one with SMP id 7), one at 101, a bid at 99. *)
Definition demo_orders : list Order :=
  [limit "a" Sell 100 10 7; limit "b" Sell 100 5 0; limit "c" Sell 101 8 0; limit "d" Buy 99 4 0].

Definition demo : Engine ListTree := foldl Process NewEngine demo_orders.

Lemma demo_ok : run_ok (@NewEngine ListTree _) demo_orders.
Proof. apply (bool_decide_unpack _). vm_compute. exact I. Qed.

Lemma demo_wf : wf demo.
Proof. apply run_wf, demo_ok. Qed.

(** Takes "b" and part of "c", skipping "a", and is used up. *)
Definition demo_taker : Order := limit "t" Buy 101 9 7.

Lemma demo_admissible o : bool_decide (admissible demo o) = true -> admissible demo o.
Proof. apply bool_decide_eq_true. Qed.

Lemma Process_refines_witness :
  wf (Process demo demo_taker) /\ map t_MakerOrderID (abs_trades (abs demo) demo_taker) = ["b"; "c"].
Proof.
  destruct (Process_refines demo demo_taker demo_wf (demo_admissible demo_taker ltac:(vm_compute; reflexivity))) as (H & _).
  split; [exact H|vm_compute; reflexivity].
Defined.

Lemma session_refines_witness :
  abs demo = foldl abs_process (mkABook [] [] 0) demo_orders /\ length (makers demo Sell) = 3%nat.
Proof. split; [exact (proj2 (session_refines (T:=ListTree) demo_orders demo_ok))|vm_compute; reflexivity]. Defined.

Definition demo_trade : Trade := mkTrade "c" "t" 101 4 3 0 false 7 true.

Lemma demo_trade_in :
  demo_trade ∈ drop (length (e_trades demo)) (e_trades (Process demo demo_taker)).
Proof. apply list_elem_of_In. vm_compute. right. left. reflexivity. Qed.

Lemma no_self_trade_witness :
  t_MakerSMPID demo_trade <> t_TakerSMPID demo_trade /\
  ~ (t_MakerHasSMPID demo_trade = true /\ t_TakerHasSMPID demo_trade = true /\
     t_MakerSMPID demo_trade = t_TakerSMPID demo_trade).
Proof.
  split; [done|]. apply (no_self_trade demo demo_taker demo_trade demo_wf); [done|exact demo_trade_in].
Defined.

Lemma quantity_conserved_witness :
  sumZ (map ro_remaining (makers (Process demo demo_taker) Sell)) + 9 =
  sumZ (map ro_remaining (makers demo Sell)).
Proof.
  exact (proj1 (proj2 (quantity_conserved demo demo_taker demo_wf
           (demo_admissible demo_taker ltac:(vm_compute; reflexivity)) (or_introl eq_refl)))).
Defined.

Lemma trades_respect_limits_witness :
  exists m, m ∈ makers demo Sell /\ t_MakerOrderID demo_trade = ro_orderID m /\ t_Price demo_trade = ro_price m.
Proof.
  destruct (trades_respect_limits demo demo_taker demo_trade demo_wf) as (m & H1 & H2 & _ & H3 & _);
    [done|exact demo_trade_in|by exists m].
Defined.

Lemma price_time_priority_witness :
  "b" ∈ drop (length (e_evicted demo)) (e_evicted (Process demo demo_taker)).
Proof.
  apply (price_time_priority demo demo_taker demo_trade
           (mkResting "c" Sell 101 8 3 0 false) (mkResting "b" Sell 100 5 2 0 false) demo_wf);
    [done|exact demo_trade_in|..]; try reflexivity.
  - apply list_elem_of_In. vm_compute. auto.
  - apply list_elem_of_In. vm_compute. auto.
  - left. simpl. lia.
Defined.

Definition demo_rester : Order := limit "r" Buy 101 20 7.

Lemma rests_uncrossed_witness :
  smp_conflict demo_rester (mkResting "a" Sell 100 10 1 7 true) = true.
Proof.
  apply (rests_uncrossed demo demo_rester _ demo_wf (demo_admissible demo_rester ltac:(vm_compute; reflexivity))); try reflexivity.
  apply list_elem_of_In. vm_compute. auto.
Defined.

Lemma book_invariant_witness : StronglySorted (ahead Sell) (makers demo Sell).
Proof. exact (proj1 (book_invariant (T:=ListTree) demo_orders demo_ok) Sell). Defined.

Lemma demo_seq_ok : seq_ok (@NewEngine ListTree _).
Proof. intros [] m Hm; by apply elem_of_nil in Hm. Qed.

Lemma SeqOf_resting_witness :
  seq_ok (Process (@NewEngine ListTree _) (limit "a" Sell 100 10 7)).
Proof. apply (SeqOf_resting _ _ wf_new); [exact (proj1 demo_ok)|exact demo_seq_ok]. Defined.

Lemma replace_priority_witness :
  exists ro', ab_find "a2" (abs (Process demo (amend "a" "a2" Sell 100 6))) = Some ro' /\ ro_seq ro' = 1.
Proof.
  destruct (replace_priority demo (amend "a" "a2" Sell 100 6) (mkResting "a" Sell 100 10 1 7 true)
              demo_wf (demo_admissible (amend "a" "a2" Sell 100 6) ltac:(vm_compute; reflexivity)) eq_refl) as (ro' & H & _ & _ & _ & _ & Hs & _).
  - vm_compute. reflexivity.
  - by exists ro'.
Defined.
