(* ===== verification/Replay.v ===== *)
(** * correctness-validator: [internal/replay/order.go]

    The order in which a captured session is replayed into the reference book:
    by effective arrival time, where an order's arrival time is at least that
    of its predecessors on the same TCP connection (head-of-line promotion).
    Orders are shared through pointers and promotion assigns [EffectiveT3]
    through them, so the orders live in a store. *)

From stdpp Require Import prelude gmap strings list sorting.
From S2P Require Import Prelude GoSort Model.

Open Scope Z_scope.

(** [for k, v := range m]: Go visits the entries of a map in an unspecified
    order. *)
Class MapRange := map_range : forall {A : Type}, list A -> list A.
Class MapRangeLaws `{MapRange} : Prop :=
  map_range_perm : forall {A : Type} (l : list A), map_range l ≡ₚ l.

Definition MapRange_id : MapRange := fun A l => l.
Lemma MapRange_id_laws : @MapRangeLaws MapRange_id.
Proof. by intros A l. Qed.

(** ** Definitions *)

Definition TieToleranceNs : Z := 100.

Definition seqLess (a b : Z) : bool := i32 (a -u32 b) <? 0.

Definition absDiff (a b : Z) : Z := if b <? a then a -u64 b else b -u64 a.

Definition Less (a b : Order) : bool :=
  if negb (o_EffectiveT3 a =? o_EffectiveT3 b) then o_EffectiveT3 a <? o_EffectiveT3 b
  else if negb (bool_decide (o_Flow a = o_Flow b)) then Flow_Less (o_Flow a) (o_Flow b)
  else seqLess (o_TCPSeq a) (o_TCPSeq b).

Definition CrossFlowTie (a b : Order) : bool :=
  if bool_decide (o_Flow a = o_Flow b) then false
  else absDiff (o_EffectiveT3 a) (o_EffectiveT3 b) <? TieToleranceNs.

(** The [*model.Order]s of a session. *)
Abbreviation optr := positive.
Abbreviation store := (gmap optr Order).

Definition zeroOrder : Order := mkOrder "" (mkFlow 0 0) 0 0 0 Buy 0 0 NewLimit "" 0 false [].
Definition at_ (st : store) (p : optr) : Order := default zeroOrder (st !! p).

Definition group (st : store) (orders : list optr) : gmap Flow (list optr) :=
  foldl (fun m p => let f := o_Flow (at_ st p) in <[f := default [] (m !! f) ++ [p]]> m) ∅ orders.

(** The loop over one connection's orders. *)
Fixpoint promote_run (st : store) (prev : Z) (started : bool) (ps : list optr) : store :=
  match ps with
  | [] => st
  | p :: ps =>
      let o := at_ st p in
      let t := if negb started || (prev <? o_T3Ns o) then o_T3Ns o else prev in
      promote_run (<[p := with_EffectiveT3 o t]> st) t true ps
  end.

Definition by_seq (st : store) (p q : optr) : bool := seqLess (o_TCPSeq (at_ st p)) (o_TCPSeq (at_ st q)).
Definition by_less (st : store) (p q : optr) : bool := Less (at_ st p) (at_ st q).

(** The loop over the connections: sort one connection's orders by sequence
    number with [sorter] and promote them, starting from what [carry] has for
    the connection. *)
Definition promote_groups (sorter : (optr -> optr -> bool) -> list optr -> list optr)
    (carry : gmap Flow Z) (st : store) (groups : list (Flow * list optr)) : store :=
  foldl (fun st '(flow, flowOrders) =>
    let '(prev, started) := match carry !! flow with Some c => (c, true) | None => (0, false) end in
    promote_run st prev started (sorter (by_seq st) flowOrders)) st groups.

(** [Order]: the store with [EffectiveT3] assigned and the replay sequence. *)
Definition replay_Order `{SortSlice, MapRange} (st : store) (orders : list optr) : store * list optr :=
  let st := promote_groups sort_slice ∅ st (map_range (map_to_list (group st orders))) in
  (st, sort_stable (by_less st) orders).

(** ** TCP sequence comparison *)

(** The sequence numbers of each connection stay within half the sequence
    space of a base. *)
Definition in_window (base : Flow -> Z) (o : Order) : Prop := u32 (o_TCPSeq o - base (o_Flow o)) < 2 ^ 31.

Lemma seqLess_window base a b :
  u32 (a - base) < 2 ^ 31 -> u32 (b - base) < 2 ^ 31 ->
  seqLess a b = (u32 (a - base) <? u32 (b - base)).
Proof.
  intros Ha Hb. unfold seqLess, i32.
  assert (Hd : u32 (a - b) = (u32 (a - base) - u32 (b - base)) mod 2 ^ 32).
  { unfold u32. rewrite <-Zminus_mod. f_equal. lia. }
  rewrite Hd. pose proof (u32_range (a - base)). pose proof (u32_range (b - base)).
  set (x := u32 (a - base)) in *. set (y := u32 (b - base)) in *. clearbody x y. clear Hd.
  rewrite Zplus_mod_idemp_l, Z.mod_small by lia.
  destruct (Z.ltb_spec x y); [apply Z.ltb_lt|apply Z.ltb_ge]; lia.
Qed.

Section window.
Context (base : Flow -> Z).

(** The position of an order in its connection. *)
Definition rank (o : Order) : Z := u32 (o_TCPSeq o - base (o_Flow o)).

Lemma seqLess_rank a b : in_window base a -> in_window base b -> o_Flow a = o_Flow b ->
  seqLess (o_TCPSeq a) (o_TCPSeq b) = (rank a <? rank b).
Proof. intros Ha Hb Hf. unfold rank. rewrite Hf. apply seqLess_window; unfold in_window in *; congruence. Qed.

Lemma Less_spec a b : in_window base a -> in_window base b ->
  Less a b = true <->
  o_EffectiveT3 a < o_EffectiveT3 b \/
  o_EffectiveT3 a = o_EffectiveT3 b /\
    (Flow_Less (o_Flow a) (o_Flow b) = true \/ o_Flow a = o_Flow b /\ rank a < rank b).
Proof.
  intros Ha Hb. unfold Less. destruct (Z.eqb_spec (o_EffectiveT3 a) (o_EffectiveT3 b)); simpl.
  - case_bool_decide as Hf; simpl.
    + rewrite seqLess_rank, Z.ltb_lt by done. rewrite Hf, Flow_Less_irrefl. naive_solver lia.
    + naive_solver lia.
  - rewrite Z.ltb_lt. lia.
Qed.

Lemma Less_false a b : in_window base a -> in_window base b ->
  Less a b = false <->
  o_EffectiveT3 b < o_EffectiveT3 a \/
  o_EffectiveT3 a = o_EffectiveT3 b /\
    (Flow_Less (o_Flow b) (o_Flow a) = true \/ o_Flow a = o_Flow b /\ rank b <= rank a).
Proof.
  intros Ha Hb. rewrite <-not_true_iff_false, Less_spec by done.
  destruct (decide (o_Flow a = o_Flow b)) as [Hf|Hf].
  - rewrite Hf, Flow_Less_irrefl. split; [|naive_solver lia]. intros H.
    destruct (Z.lt_trichotomy (o_EffectiveT3 a) (o_EffectiveT3 b)) as [?|[?|?]];
      [naive_solver| |by left]. right. split; [done|]. right. split; [done|].
    apply Z.nlt_ge. naive_solver.
  - destruct (Flow_Less_total _ _ Hf) as [Hl|Hl].
    + assert (Flow_Less (o_Flow b) (o_Flow a) = false) as ->.
      { destruct (Flow_Less (o_Flow b) _) eqn:E; [|done].
        rewrite Flow_Less_spec in E, Hl. lia. }
      rewrite Hl. naive_solver lia.
    + assert (Flow_Less (o_Flow a) (o_Flow b) = false) as ->.
      { destruct (Flow_Less (o_Flow a) _) eqn:E; [|done].
        rewrite Flow_Less_spec in E, Hl. lia. }
      rewrite Hl. split; [|naive_solver lia].
      intros H. destruct (Z.lt_trichotomy (o_EffectiveT3 a) (o_EffectiveT3 b)) as [?|[?|?]];
        [naive_solver|naive_solver|by left].
Qed.

Lemma Less_sw : StrictWeakOn (in_window base) Less.
Proof.
  split.
  - intros a b Ha Hb. rewrite Less_spec, Less_false by done. naive_solver lia.
  - intros a b c Ha Hb Hc. rewrite !Less_false by done. rewrite !Flow_Less_spec.
    intros [?|[? H1]] [?|[? H2]]; try (left; lia). right. split; [lia|].
    destruct H1 as [H1|[H1 ?]], H2 as [H2|[H2 ?]]; rewrite ?H1, ?H2 in *; try (left; lia).
    right. split; [done|lia].
Qed.

Lemma by_less_sw st : StrictWeakOn (fun p => in_window base (at_ st p)) (by_less st).
Proof.
  split; unfold by_less.
  - intros p q Hp Hq. by apply (sw_asym _ _ Less_sw).
  - intros p q r Hp Hq Hr. by apply (sw_negtrans _ _ Less_sw).
Qed.

Lemma by_seq_sw st f :
  StrictWeakOn (fun p => in_window base (at_ st p) /\ o_Flow (at_ st p) = f) (by_seq st).
Proof.
  split; unfold by_seq.
  - intros p q [Hp1 Hp2] [Hq1 Hq2]. rewrite !seqLess_rank by congruence. intros ?%Z.ltb_lt. apply Z.ltb_ge. lia.
  - intros p q r [Hp1 Hp2] [Hq1 Hq2] [Hr1 Hr2]. rewrite !seqLess_rank by congruence.
    rewrite !Z.ltb_ge. lia.
Qed.

End window.

(** ** Promotion *)

Definition t3 (st : store) (p : optr) : Z := o_T3Ns (at_ st p).
Definition flow (st : store) (p : optr) : Flow := o_Flow (at_ st p).
Definition eff (st : store) (p : optr) : Z := o_EffectiveT3 (at_ st p).

(** The orders of one connection, in arrival order. *)
Definition of_flow (st : store) (f : Flow) (orders : list optr) : list optr :=
  filter (fun p => flow st p = f) orders.

(** Only [EffectiveT3] may have been assigned. *)
Definition same_raw (st st' : store) : Prop :=
  forall p, exists t, at_ st' p = with_EffectiveT3 (at_ st p) t.

Lemma same_raw_refl st : same_raw st st.
Proof. intros p. exists (o_EffectiveT3 (at_ st p)). by destruct (at_ st p). Qed.

Lemma same_raw_trans st1 st2 st3 : same_raw st1 st2 -> same_raw st2 st3 -> same_raw st1 st3.
Proof. intros H1 H2 p. destruct (H1 p) as [t1 E1], (H2 p) as [t2 E2]. exists t2. by rewrite E2, E1. Qed.

Lemma same_raw_at st st' p : same_raw st st' ->
  flow st' p = flow st p /\ t3 st' p = t3 st p /\ o_TCPSeq (at_ st' p) = o_TCPSeq (at_ st p).
Proof. intros H. destruct (H p) as [t E]. unfold flow, t3. by rewrite E. Qed.

Lemma same_raw_by_seq st st' p q : same_raw st st' -> by_seq st' p q = by_seq st p q.
Proof. intros H. unfold by_seq. by rewrite !(proj2 (proj2 (same_raw_at st st' _ H))). Qed.

Lemma same_raw_of_flow st st' f l : same_raw st st' -> of_flow st' f l = of_flow st f l.
Proof. intros H. unfold of_flow. apply list_filter_iff. intros p. by rewrite (proj1 (same_raw_at st st' p H)). Qed.

Lemma same_raw_window base st st' p :
  same_raw st st' -> in_window base (at_ st p) -> in_window base (at_ st' p).
Proof. intros H. destruct (H p) as [t E]. by rewrite E. Qed.

Lemma at_insert st p o q : at_ (<[p := o]> st) q = if decide (q = p) then o else at_ st q.
Proof. unfold at_. case_decide; subst; [by rewrite lookup_insert_eq|by rewrite lookup_insert_ne]. Qed.

Lemma promote_run_spec st prev started ps :
  (started = false -> prev = 0) -> NoDup ps -> Forall (fun p => 0 <= t3 st p) ps ->
  let st' := promote_run st prev started ps in
  (forall q, q ∉ ps -> at_ st' q = at_ st q) /\
  (forall l1 p l2, ps = l1 ++ p :: l2 ->
     at_ st' p = with_EffectiveT3 (at_ st p) (foldl Z.max prev (map (t3 st) (l1 ++ [p])))).
Proof.
  revert st prev started. induction ps as [|p ps IH]; intros st prev started Hst Hnd HF; simpl.
  { split; [done|]. by intros [] ? ?. }
  apply NoDup_cons in Hnd as [Hp Hnd]. apply Forall_cons in HF as [Hp0 HF].
  set (t := if negb started || (prev <? o_T3Ns (at_ st p)) then _ else _).
  assert (Ht : t = Z.max prev (t3 st p)).
  { unfold t, t3 in *. destruct started; simpl; [destruct (Z.ltb_spec prev (o_T3Ns (at_ st p))); lia|].
    rewrite Hst by done. lia. }
  set (st1 := <[p := _]> st).
  assert (Hat : forall q, q ∈ ps -> at_ st1 q = at_ st q).
  { intros q Hq. unfold st1. rewrite at_insert, decide_False; [done|]. by intros ->. }
  destruct (IH st1 t true ltac:(done) Hnd) as [IH1 IH2].
  { rewrite Forall_forall in HF |- *. intros q Hq. unfold t3. rewrite Hat by done. by apply HF. }
  split.
  - intros q [Hqp Hq]%not_elem_of_cons. rewrite IH1 by done. unfold st1. by rewrite at_insert, decide_False.
  - intros [|x l1] q l2 Heq; simpl in Heq; injection Heq as -> Heq.
    + rewrite IH1 by done. unfold st1. rewrite at_insert, decide_True by done. by rewrite Ht.
    + rewrite (IH2 l1 q l2 Heq). rewrite Hat by (rewrite Heq; apply elem_of_app; right; left).
      f_equal. simpl. rewrite <-Ht. f_equal. apply list_fmap_ext. intros i y Hy.
      unfold t3. rewrite Hat; [done|]. rewrite Heq. apply list_elem_of_lookup_2, elem_of_app in Hy.
      apply elem_of_app. destruct Hy as [Hy|Hy%list_elem_of_singleton]; [by left|right; subst; left].
Qed.

Lemma group_lookup st orders f :
  group st orders !! f = if decide (of_flow st f orders = []) then None else Some (of_flow st f orders).
Proof.
  unfold group. induction orders as [|p orders IH] using rev_ind; simpl; [done|].
  rewrite foldl_app. simpl. unfold of_flow in *. rewrite list.filter_app.
  destruct (decide (flow st p = f)) as [Hf|Hf].
  - fold (flow st p). rewrite Hf, lookup_insert_eq, IH.
    rewrite (list.filter_cons_True _ p []) by done. rewrite list.filter_nil.
    rewrite (decide_False (P := _ ++ [p] = [])) by (by intros [_ ?]%app_nil).
    case_decide as Hn; simpl; [by rewrite Hn|done].
  - fold (flow st p). rewrite lookup_insert_ne, IH by done.
    rewrite (list.filter_cons_False _ p []) by done. by rewrite list.filter_nil, app_nil_r.
Qed.

(** [arr] is the connection's orders in sequence order and [st'] promotes them. *)
Definition promoted (carry : gmap Flow Z) (orders : list optr) (st st' : store) (f : Flow) : Prop :=
  exists arr, arr ≡ₚ of_flow st f orders /\ sorted_by (by_seq st) arr /\
    forall l1 p l2, arr = l1 ++ p :: l2 ->
      at_ st' p = with_EffectiveT3 (at_ st p) (foldl Z.max (default 0 (carry !! f)) (map (t3 st) (l1 ++ [p]))).

Lemma foldl_max_init a l : a <= foldl Z.max a l.
Proof. revert a. induction l as [|x l IH]; intros a; simpl; [lia|]. specialize (IH (Z.max a x)). lia. Qed.

Lemma foldl_max_ge a l x : x ∈ l -> x <= foldl Z.max a l.
Proof.
  revert a. induction l as [|y l IH]; intros a; simpl; [by intros ?%elem_of_nil|].
  intros [->|Hx]%elem_of_cons; [|by apply IH]. pose proof (foldl_max_init (Z.max a y) l). lia.
Qed.

Lemma foldl_max_in a l : foldl Z.max a l = a \/ foldl Z.max a l ∈ l.
Proof.
  revert a. induction l as [|x l IH]; intros a; simpl; [by left|].
  destruct (IH (Z.max a x)) as [->|?]; [|right; by right].
  destruct (Z.max_spec a x) as [[_ ->]|[_ ->]]; [right; left|by left].
Qed.

Section promote_groups.
Context (sorter : (optr -> optr -> bool) -> list optr -> list optr) (base : Flow -> Z).
Hypothesis sorter_perm : forall less l, sorter less l ≡ₚ l.
Hypothesis sorter_sorted : forall P less l,
  StrictWeakOn P less -> Forall P l -> sorted_by less (sorter less l).
Context (carry : gmap Flow Z) (st0 : store) (orders : list optr).
Hypothesis Hnd : NoDup orders.
Hypothesis Hwin : Forall (fun p => in_window base (at_ st0 p)) orders.
Hypothesis Ht3 : Forall (fun p => 0 <= t3 st0 p) orders.

Lemma elem_of_of_flow p f : p ∈ of_flow st0 f orders <-> p ∈ orders /\ flow st0 p = f.
Proof using. unfold of_flow. rewrite list_elem_of_filter. tauto. Qed.

(** One connection: its orders are promoted, nothing else changes. *)
Lemma promote_one st f :
  same_raw st0 st ->
  let '(prev, started) := match carry !! f with Some c => (c, true) | None => (0, false) end in
  let st' := promote_run st prev started (sorter (by_seq st) (of_flow st0 f orders)) in
  same_raw st0 st' /\ promoted carry orders st0 st' f /\
  (forall q, flow st0 q <> f -> at_ st' q = at_ st q) /\
  (forall q, q ∉ orders -> at_ st' q = at_ st q).
Proof using sorter_perm sorter_sorted Hnd Hwin Ht3.
  intros Hraw. set (arr := sorter _ _).
  assert (Hperm : arr ≡ₚ of_flow st0 f orders) by apply sorter_perm.
  assert (Hin : forall p, p ∈ arr <-> p ∈ orders /\ flow st0 p = f).
  { intros p. rewrite Hperm. apply elem_of_of_flow. }
  destruct (match carry !! f with Some c => (c, true) | None => (0, false) end) as [prev started] eqn:Hc.
  assert (Hprev : (started = false -> prev = 0) /\ prev = default 0 (carry !! f)).
  { destruct (carry !! f); by simplify_eq. }
  destruct Hprev as [Hp1 Hp2].
  destruct (promote_run_spec st prev started arr Hp1) as [Hout Hrun].
  { rewrite Hperm. by apply NoDup_filter. }
  { apply Forall_forall. intros p [Hp _]%Hin. rewrite (proj1 (proj2 (same_raw_at _ _ p Hraw))).
    rewrite Forall_forall in Ht3. by apply Ht3. }
  set (st' := promote_run st prev started arr) in *.
  assert (Hraw' : same_raw st0 st').
  { intros q. destruct (decide (q ∈ arr)) as [Hq|Hq].
    - apply list_elem_of_split in Hq as (l1 & l2 & Hq). rewrite (Hrun l1 q l2 Hq).
      destruct (Hraw q) as [t ->]. by eexists.
    - rewrite Hout by done. apply Hraw. }
  split; [done|]. split.
  - exists arr. split; [done|]. split.
    + assert (Hs : sorted_by (by_seq st) arr).
      { apply (sorter_sorted (fun p => in_window base (at_ st p) /\ o_Flow (at_ st p) = f));
          [apply by_seq_sw|]. apply Forall_forall. intros p [Hp Hf]%elem_of_of_flow.
        rewrite Forall_forall in Hwin. split; [by eapply same_raw_window; [|apply Hwin]|].
        fold (flow st p). by rewrite (proj1 (same_raw_at _ _ p Hraw)). }
      unfold sorted_by in *. eapply StronglySorted_impl_in; [|exact Hs]. intros p q _ _ Hpq.
      by rewrite <-(same_raw_by_seq st0 st).
    + intros l1 p l2 Heq. rewrite (Hrun l1 p l2 Heq), Hp2. destruct (Hraw p) as [t ->].
      unfold with_EffectiveT3 at 1. simpl. unfold with_EffectiveT3. f_equal. f_equal.
      apply map_ext. intros q. apply (same_raw_at _ _ q Hraw).
  - split; intros q Hq; apply Hout; rewrite Hin; tauto.
Qed.

Lemma promote_groups_spec st groups :
  same_raw st0 st -> NoDup groups.*1 ->
  (forall f l, (f, l) ∈ groups -> l = of_flow st0 f orders) ->
  let st' := promote_groups sorter carry st groups in
  same_raw st0 st' /\ (forall f, f ∈ groups.*1 -> promoted carry orders st0 st' f) /\
  (forall q, flow st0 q ∉ groups.*1 -> at_ st' q = at_ st q) /\
  (forall q, q ∉ orders -> at_ st' q = at_ st q).
Proof using sorter_perm sorter_sorted Hnd Hwin Ht3.
  revert st. induction groups as [|[f l] groups IH]; intros st Hraw Hk Hl; simpl.
  { split; [done|]. split; [by intros f ?%elem_of_nil|done]. }
  apply NoDup_cons in Hk as [Hf Hk]. rewrite (Hl f l) by left.
  pose proof (promote_one st f Hraw) as H1.
  destruct (match carry !! f with Some c => (c, true) | None => (0, false) end) as [prev started].
  set (st1 := promote_run st prev started _) in *. destruct H1 as (Hraw1 & Hp1 & Ho1 & Hn1).
  destruct (IH st1 Hraw1 Hk) as (Hraw2 & Hp2 & Ho2 & Hn2).
  { intros f' l' Hin. apply Hl. by right. }
  fold (promote_groups sorter carry st1 groups).
  set (st2 := promote_groups sorter carry st1 groups) in *. split; [done|]. split_and!.
  - intros f' [->|Hf']%elem_of_cons; [|by apply Hp2].
    destruct Hp1 as (arr & Hperm & Hs & Hrun). exists arr. split; [done|]. split; [done|].
    intros l1 p l2 Heq. rewrite Ho2; [by apply (Hrun l1 p l2)|].
    assert (Hp : p ∈ arr) by (rewrite Heq; apply elem_of_app; right; left).
    rewrite Hperm, elem_of_of_flow in Hp. destruct Hp as [_ ->]. done.
  - intros q [Hq1 Hq2]%not_elem_of_cons. rewrite Ho2, Ho1 by done. done.
  - intros q Hq. by rewrite Hn2, Hn1.
Qed.

(** Promotion of a whole buffer, whatever order the map is visited in. *)
Lemma promote_buffer groups :
  groups ≡ₚ map_to_list (group st0 orders) ->
  let st' := promote_groups sorter carry st0 groups in
  same_raw st0 st' /\ (forall f, promoted carry orders st0 st' f) /\
  (forall q, q ∉ orders -> at_ st' q = at_ st0 q).
Proof using sorter_perm sorter_sorted Hnd Hwin Ht3.
  intros Hperm.
  assert (Hin : forall f l, (f, l) ∈ groups <-> of_flow st0 f orders <> [] /\ l = of_flow st0 f orders).
  { intros f l. rewrite Hperm, elem_of_map_to_list, group_lookup. case_decide; naive_solver. }
  destruct (promote_groups_spec st0 groups (same_raw_refl st0)) as (Hraw & Hp & _ & Ho).
  { rewrite Hperm. apply NoDup_fst_map_to_list. }
  { intros f l H. by apply Hin in H as [_ ->]. }
  split; [done|]. split; [|done].
  intros f. destruct (decide (of_flow st0 f orders = [])) as [Hn|Hn].
  - exists []. rewrite Hn. split; [done|]. split; [constructor|]. by intros [] ? ?.
  - apply Hp. apply list_elem_of_fmap. exists (f, of_flow st0 f orders). split; [done|]. by apply Hin.
Qed.

(** What promotion means for one order: the largest arrival time among the
    orders of its connection up to it (and the time carried over). *)
Lemma promoted_eff st' p :
  promoted carry orders st0 st' (flow st0 p) -> p ∈ orders ->
  (forall q, q ∈ orders -> flow st0 q = flow st0 p -> by_seq st0 q p = true \/ q = p ->
     t3 st0 q <= eff st' p) /\
  default 0 (carry !! flow st0 p) <= eff st' p /\
  (eff st' p = default 0 (carry !! flow st0 p) \/
   exists q, q ∈ orders /\ flow st0 q = flow st0 p /\ by_seq st0 p q = false /\ eff st' p = t3 st0 q).
Proof using.
  intros (arr & Hperm & Hs & Hrun) Hp.
  assert (Hin : forall q, q ∈ arr <-> q ∈ orders /\ flow st0 q = flow st0 p).
  { intros q. rewrite Hperm. apply elem_of_of_flow. }
  assert (Hpa : p ∈ arr) by by apply Hin. apply list_elem_of_split in Hpa as (l1 & l2 & Heq).
  assert (He : eff st' p = foldl Z.max (default 0 (carry !! flow st0 p)) (map (t3 st0) (l1 ++ [p]))).
  { unfold eff. by rewrite (Hrun l1 p l2 Heq). }
  rewrite He. rewrite Heq in Hs. apply StronglySorted_app_iff in Hs as (_ & Hs2 & Hs3).
  inversion Hs2 as [|?? _ HF]; subst. rewrite Forall_forall in HF. split_and!.
  - intros q Hq Hf Hqp. apply foldl_max_ge. apply list_elem_of_fmap. exists q. split; [done|].
    assert (Hqa : q ∈ l1 ++ p :: l2) by by apply Hin.
    apply elem_of_app in Hqa as [?|[->|Hq2]%elem_of_cons].
    + apply elem_of_app. by left.
    + apply elem_of_app. right. left.
    + destruct Hqp as [Hqp| ->]; [|apply elem_of_app; right; left].
      specialize (HF q Hq2). simpl in HF. congruence.
  - apply foldl_max_init.
  - destruct (foldl_max_in (default 0 (carry !! flow st0 p)) (map (t3 st0) (l1 ++ [p]))) as [?|Hx]; [by left|].
    right. apply list_elem_of_fmap in Hx as (q & Hx & Hq). exists q.
    assert (Hq' : q ∈ orders /\ flow st0 q = flow st0 p).
    { apply Hin. apply elem_of_app in Hq as [Hq| ->%list_elem_of_singleton]; apply elem_of_app; [by left|right; left]. }
    split_and!; [tauto|tauto| |done].
    apply elem_of_app in Hq as [Hq| ->%list_elem_of_singleton]; [apply (Hs3 q p); [done|left]|].
    unfold by_seq, seqLess. by rewrite Z.sub_diag.
Qed.

(** Promotion never reorders a connection. *)
Lemma promoted_mono st' p q :
  (forall f, promoted carry orders st0 st' f) -> (forall p, p ∈ orders -> in_window base (at_ st0 p)) ->
  p ∈ orders -> q ∈ orders -> flow st0 p = flow st0 q -> by_seq st0 q p = true -> eff st' q <= eff st' p.
Proof using.
  intros Hpro Hw Hp Hq Hf Hqp.
  destruct (promoted_eff st' p (Hpro _) Hp) as (Hge & Hc & _).
  destruct (promoted_eff st' q (Hpro _) Hq) as (_ & _ & [->|(r & Hr & Hfr & Hqr & ->)]).
  - by rewrite <-Hf.
  - apply Hge; [done|congruence|]. left. unfold by_seq in *. unfold flow in *.
    rewrite (seqLess_rank base) in Hqp, Hqr |- *; try (by apply Hw); try congruence.
    apply Z.ltb_lt in Hqp. apply Z.ltb_ge in Hqr. apply Z.ltb_lt. lia.
Qed.

End promote_groups.

(** ** [Order] *)

Section order.
Context `{SortSliceLaws} `{MapRangeLaws}.
Context (base : Flow -> Z) (st : store) (orders : list optr).
Hypothesis Hnd : NoDup orders.
Hypothesis Hwin : Forall (fun p => in_window base (at_ st p)) orders.
Hypothesis Ht3 : Forall (fun p => 0 <= t3 st p) orders.

Lemma replay_Order_promoted :
  let st' := (replay_Order st orders).1 in
  same_raw st st' /\ (forall f, promoted ∅ orders st st' f) /\ (forall q, q ∉ orders -> at_ st' q = at_ st q).
Proof.
  unfold replay_Order. simpl. apply (promote_buffer _ base); auto.
  - intros. apply sort_slice_perm.
  - intros. by eapply sort_slice_sorted.
Qed.

Lemma replay_Order_sorted :
  let '(st', out) := replay_Order st orders in out ≡ₚ orders /\ sorted_by (by_less st') out.
Proof.
  pose proof replay_Order_promoted as (Hraw & _ & _). unfold replay_Order in *. simpl in *.
  set (st' := promote_groups _ _ _ _) in *. split; [apply sort_stable_perm|].
  apply (sort_stable_sorted (fun p => in_window base (at_ st' p))); [apply by_less_sw|].
  eapply Forall_impl; [exact Hwin|]. intros p Hp. by eapply same_raw_window.
Qed.

End order.

(** C8: replay order. [Order] returns a permutation of its input sorted by
    (effective time, connection, sequence number), assigns only [EffectiveT3],
    and gives each order the largest arrival time among the orders of its
    connection up to and including it: head-of-line promotion, neither more
    nor less. *)
Theorem replay_Order_correct `{SortSliceLaws} `{MapRangeLaws} base st orders :
  NoDup orders -> Forall (fun p => in_window base (at_ st p)) orders ->
  Forall (fun p => 0 <= t3 st p) orders ->
  let '(st', out) := replay_Order st orders in
  out ≡ₚ orders /\ sorted_by (by_less st') out /\ same_raw st st' /\
  (forall q, q ∉ orders -> at_ st' q = at_ st q) /\
  forall p, p ∈ orders ->
    (forall q, q ∈ orders -> flow st q = flow st p -> by_seq st q p = true \/ q = p ->
       t3 st q <= eff st' p) /\
    exists q, q ∈ orders /\ flow st q = flow st p /\ by_seq st p q = false /\ eff st' p = t3 st q.
Proof.
  intros Hnd Hwin Ht3. pose proof (replay_Order_promoted base st orders Hnd Hwin Ht3) as (Hraw & Hpro & Hout).
  pose proof (replay_Order_sorted base st orders Hnd Hwin Ht3) as Hsort.
  destruct (replay_Order st orders) as [st' out]. simpl in *.
  split_and!; try tauto. intros p Hp.
  destruct (promoted_eff ∅ st orders st' p (Hpro _) Hp) as (Hge & Hc & Hx). split; [done|].
  destruct Hx as [Hx|]; [|done]. rewrite lookup_empty in *. simpl in *. exists p.
  unfold by_seq, seqLess. rewrite Z.sub_diag. split_and!; try done.
  pose proof (Hge p Hp eq_refl (or_intror eq_refl)). rewrite Forall_forall in Ht3. specialize (Ht3 p Hp). lia.
Qed.

(** Replay never reorders a connection: of two orders of the same
    connection, the one with the later TCP sequence number never comes first. *)
Theorem replay_Order_fifo `{SortSliceLaws} `{MapRangeLaws} base st orders l1 p l2 q l3 :
  NoDup orders -> Forall (fun p => in_window base (at_ st p)) orders ->
  Forall (fun p => 0 <= t3 st p) orders ->
  (replay_Order st orders).2 = l1 ++ p :: l2 ++ q :: l3 -> flow st p = flow st q ->
  by_seq st q p = false.
Proof.
  intros Hnd Hwin Ht3 Heq Hf.
  pose proof (replay_Order_promoted base st orders Hnd Hwin Ht3) as (Hraw & Hpro & _).
  pose proof (replay_Order_sorted base st orders Hnd Hwin Ht3) as Hsort.
  destruct (replay_Order st orders) as [st' out]. simpl in *. destruct Hsort as [Hperm Hs]. subst out.
  assert (Hp : p ∈ orders) by (rewrite <-Hperm; apply elem_of_app; right; left).
  assert (Hq : q ∈ orders).
  { rewrite <-Hperm. apply elem_of_app. right. right. apply elem_of_app. right. left. }
  apply StronglySorted_app_iff in Hs as (_ & Hs & _). inversion Hs as [|?? _ HF]; subst.
  rewrite Forall_forall in HF. specialize (HF q ltac:(apply elem_of_app; right; left)). simpl in HF.
  rewrite Forall_forall in Hwin. unfold by_less in HF.
  assert (Hwp : in_window base (at_ st' p)) by (eapply same_raw_window; [exact Hraw|by apply Hwin]).
  assert (Hwq : in_window base (at_ st' q)) by (eapply same_raw_window; [exact Hraw|by apply Hwin]).
  destruct (by_seq st q p) eqn:Hqp; [|done]. exfalso.
  assert (Hle : eff st' q <= eff st' p) by (by apply (promoted_mono base ∅ st orders st')).
  rewrite (Less_false base) in HF by done. unfold eff in Hle.
  assert (Hfl : o_Flow (at_ st' q) = o_Flow (at_ st' p)).
  { change (flow st' q = flow st' p).
    by rewrite (proj1 (same_raw_at _ _ q Hraw)), (proj1 (same_raw_at _ _ p Hraw)). }
  rewrite <-(same_raw_by_seq st st') in Hqp by done. unfold by_seq in Hqp.
  rewrite (seqLess_rank base) in Hqp by done. apply Z.ltb_lt in Hqp.
  rewrite Hfl, Flow_Less_irrefl in HF. destruct HF as [?|[_ [?|[_ ?]]]]; [lia|done|lia].
Qed.

(** ** A concrete session: the first order of the connection arrived last. *)

Definition demo_order (f seq t : Z) : Order :=
  mkOrder "" (mkFlow f 1) seq t 0 Buy 0 0 NewLimit "" 0 false [].

Definition demo_store : store :=
  <[1%positive := demo_order 1 2 5]> (<[2%positive := demo_order 1 1 9]> (<[3%positive := demo_order 2 7 6]> ∅)).
Definition demo_arrivals : list optr := [1; 2; 3]%positive.

Lemma demo_arrivals_ok :
  NoDup demo_arrivals /\ Forall (fun p => in_window (fun _ => 0) (at_ demo_store p)) demo_arrivals /\
  Forall (fun p => 0 <= t3 demo_store p) demo_arrivals.
Proof.
  split_and!; [apply (bool_decide_unpack _); vm_compute; exact I|..];
    repeat constructor; vm_compute; done.
Qed.

Lemma replay_Order_correct_witness :
  (@replay_Order SortSlice_stable MapRange_id demo_store demo_arrivals).2 = [3; 2; 1]%positive /\
  (@replay_Order SortSlice_stable MapRange_id demo_store demo_arrivals).2 ≡ₚ demo_arrivals.
Proof.
  split; [vm_compute; reflexivity|].
  pose proof (@replay_Order_correct SortSlice_stable SortSlice_stable_laws MapRange_id MapRange_id_laws
    (fun _ => 0) demo_store demo_arrivals (proj1 demo_arrivals_ok) (proj1 (proj2 demo_arrivals_ok))
    (proj2 (proj2 demo_arrivals_ok))) as Hw.
  destruct (@replay_Order SortSlice_stable MapRange_id demo_store demo_arrivals). exact (proj1 Hw).
Defined.

Lemma replay_Order_fifo_witness : by_seq demo_store 1 2 = false.
Proof.
  apply (@replay_Order_fifo SortSlice_stable SortSlice_stable_laws MapRange_id MapRange_id_laws
    (fun _ => 0) demo_store demo_arrivals [3%positive] 2%positive [] 1%positive []
    (proj1 demo_arrivals_ok) (proj1 (proj2 demo_arrivals_ok)) (proj2 (proj2 demo_arrivals_ok)));
    vm_compute; reflexivity.
Defined.
