(* ===== verification/Reorder.v ===== *)
(** * correctness-validator: [internal/source/reorder.go]

    The bounded-memory counterpart of [replay.Order]: orders are pushed in
    arrival order, at most twice the window of them is buffered, and they are
    released in replay order. *)

From stdpp Require Import prelude gmap strings list sorting.
From S2P Require Import Prelude GoSort Model Replay.

Open Scope Z_scope.

(** ** Definitions *)

(** [r_store] is the heap the pushed pointers refer to; [r_out] records the
    calls of [emit], each with the order as it was at the call. *)
Record Reorderer := mkReorderer {
  r_window : Z;
  r_buf : list optr;
  r_carry : gmap Flow Z;
  r_store : store;
  r_out : list (optr * Order);
}.

Definition seqLessLocal (a b : Z) : bool := i32 (a -u32 b) <? 0.

Definition NewReorderer (window : Z) (st : store) : Reorderer :=
  mkReorderer (if window <? 1 then 1 else window) [] ∅ st [].

(** [promote]: [by_seq] compares with [seqLess], which [seqLessLocal] repeats. *)
Definition promote `{MapRange} (r : Reorderer) : Reorderer :=
  mkReorderer (r_window r) (r_buf r) (r_carry r)
    (promote_groups sort_stable (r_carry r) (r_store r)
       (map_range (map_to_list (group (r_store r) (r_buf r)))))
    (r_out r).

(** The release loop over the orders to emit. *)
Fixpoint emit_all (ps : list optr) (r : Reorderer) : Reorderer :=
  match ps with
  | [] => r
  | p :: ps =>
      let o := at_ (r_store r) p in
      let carry := match r_carry r !! o_Flow o with
                   | Some cur => if cur <? o_EffectiveT3 o
                                 then <[o_Flow o := o_EffectiveT3 o]> (r_carry r) else r_carry r
                   | None => <[o_Flow o := o_EffectiveT3 o]> (r_carry r)
                   end in
      emit_all ps (mkReorderer (r_window r) (r_buf r) carry (r_store r) (r_out r ++ [(p, o)]))
  end.

Definition release `{MapRange} (n : Z) (r : Reorderer) : Reorderer :=
  if (n <=? 0) || bool_decide (r_buf r = []) then r
  else
    let n := if Z.of_nat (length (r_buf r)) <? n then length (r_buf r) else Z.to_nat n in
    let r := promote r in
    let buf := sort_stable (by_less (r_store r)) (r_buf r) in
    let r := emit_all (take n buf) r in
    mkReorderer (r_window r) (drop n buf) (r_carry r) (r_store r) (r_out r).

(** Twice the window is taken without wrap-around: a window is a buffer size,
    far below 2^62. *)
Definition Push `{MapRange} (r : Reorderer) (p : optr) : Reorderer :=
  let r := mkReorderer (r_window r) (r_buf r ++ [p]) (r_carry r) (r_store r) (r_out r) in
  if 2 * r_window r <=? Z.of_nat (length (r_buf r)) then release (r_window r) r else r.

Definition Flush `{MapRange} (r : Reorderer) : Reorderer :=
  release (Z.of_nat (length (r_buf r))) r.

(** A whole session. *)
Definition stream `{MapRange} (window : Z) (st : store) (arrivals : list optr) : Reorderer :=
  Flush (foldl Push (NewReorderer window st) arrivals).

(** The pointers handed to [emit], in order. *)
Definition emitted (r : Reorderer) : list optr := (r_out r).*1.

Lemma seqLessLocal_seqLess a b : seqLessLocal a b = seqLess a b.
Proof. done. Qed.

(** ** Nothing is lost, and memory is bounded *)

Lemma emit_all_out ps r :
  r_out (emit_all ps r) = r_out r ++ map (fun p => (p, at_ (r_store r) p)) ps /\
  r_store (emit_all ps r) = r_store r /\ r_window (emit_all ps r) = r_window r.
Proof.
  revert r. induction ps as [|p ps IH]; intros r; simpl; [by rewrite app_nil_r|].
  destruct (IH (mkReorderer (r_window r) (r_buf r)
    (match r_carry r !! o_Flow (at_ (r_store r) p) with
     | Some cur => if cur <? o_EffectiveT3 (at_ (r_store r) p)
                   then <[o_Flow (at_ (r_store r) p) := o_EffectiveT3 (at_ (r_store r) p)]> (r_carry r)
                   else r_carry r
     | None => <[o_Flow (at_ (r_store r) p) := o_EffectiveT3 (at_ (r_store r) p)]> (r_carry r)
     end) (r_store r) (r_out r ++ [(p, at_ (r_store r) p)]))) as (H1 & H2 & H3).
  simpl in *. rewrite H1, <-app_assoc. done.
Qed.

#[local] Arguments promote : simpl never.

Lemma promote_frame `{MapRange} r :
  r_window (promote r) = r_window r /\ r_buf (promote r) = r_buf r /\
  r_carry (promote r) = r_carry r /\ r_out (promote r) = r_out r.
Proof. done. Qed.

Section lossless.
Context `{MapRange}.

Lemma release_perm n r : emitted (release n r) ++ r_buf (release n r) ≡ₚ emitted r ++ r_buf r.
Proof.
  unfold release. destruct (_ || _); [done|]. simpl. set (k := if _ <? _ then _ else _).
  set (buf := sort_stable _ _). unfold emitted. simpl.
  destruct (emit_all_out (take k buf) (promote r)) as (-> & _ & _).
  change (r_out (promote r)) with (r_out r).
  rewrite fmap_app, <-app_assoc. f_equiv.
  assert (Hfst : (map (fun p => (p, at_ (r_store (promote r)) p)) (take k buf)).*1 = take k buf).
  { rewrite <-list_fmap_compose. apply list_fmap_id. }
  rewrite Hfst, take_drop. apply sort_stable_perm.
Qed.

Lemma release_window n r : r_window (release n r) = r_window r.
Proof. unfold release. destruct (_ || _); [done|]. simpl. exact (proj2 (proj2 (emit_all_out _ _))). Qed.

Lemma release_length n r :
  length (r_buf (release n r)) = (length (r_buf r) - Z.to_nat n)%nat.
Proof.
  unfold release. destruct (_ || _) eqn:Hc; simpl.
  - apply orb_true_iff in Hc as [Hc|Hc]; [zify_bool; lia|].
    apply bool_decide_eq_true in Hc. by rewrite Hc.
  - rewrite length_drop, sort_stable_perm. break_if; zify_bool; lia.
Qed.

Lemma Push_perm r p : emitted (Push r p) ++ r_buf (Push r p) ≡ₚ (emitted r ++ r_buf r) ++ [p].
Proof.
  unfold Push. simpl. destruct (_ <=? _).
  - rewrite release_perm. simpl. by rewrite app_assoc.
  - simpl. unfold emitted. simpl. by rewrite app_assoc.
Qed.

Lemma Push_bounded r p :
  1 <= r_window r -> Z.of_nat (length (r_buf r)) < 2 * r_window r ->
  r_window (Push r p) = r_window r /\ Z.of_nat (length (r_buf (Push r p))) < 2 * r_window r.
Proof.
  intros Hw Hb. unfold Push. simpl. destruct (_ <=? _) eqn:Hc; zify_bool; simpl; [|by split].
  rewrite release_window, release_length. simpl. split; [done|]. rewrite length_app in *. simpl in *. lia.
Qed.

Lemma pushes_bounded r ps :
  1 <= r_window r -> Z.of_nat (length (r_buf r)) < 2 * r_window r ->
  Z.of_nat (length (r_buf (foldl Push r ps))) < 2 * r_window r.
Proof.
  revert r. induction ps as [|p ps IH]; intros r Hw Hb; simpl; [done|].
  destruct (Push_bounded r p Hw Hb) as [Heq Hb']. rewrite <-Heq. apply IH; lia.
Qed.

Lemma pushes_perm r ps :
  emitted (foldl Push r ps) ++ r_buf (foldl Push r ps) ≡ₚ (emitted r ++ r_buf r) ++ ps.
Proof.
  revert r. induction ps as [|p ps IH]; intros r; simpl; [by rewrite app_nil_r|].
  rewrite IH, Push_perm, <-app_assoc. done.
Qed.

(** C9: the streaming reorderer neither loses nor repeats an order, and never
    holds as many as twice its window: whatever arrives, in whatever order. *)
Theorem reorderer_bounded_lossless window st arrivals :
  emitted (stream window st arrivals) ≡ₚ arrivals /\
  forall n, Z.of_nat (length (r_buf (foldl Push (NewReorderer window st) (take n arrivals))))
            < 2 * Z.max 1 window.
Proof.
  assert (Hw : r_window (NewReorderer window st) = Z.max 1 window).
  { simpl. destruct (Z.ltb_spec window 1); lia. }
  split.
  - unfold stream, Flush. set (r := foldl _ _ _).
    assert (Hnil : r_buf (release (Z.of_nat (length (r_buf r))) r) = []).
    { apply length_zero_iff_nil. rewrite release_length. lia. }
    pose proof (release_perm (Z.of_nat (length (r_buf r))) r) as Hp.
    rewrite Hnil, app_nil_r in Hp. rewrite Hp. unfold r. by rewrite pushes_perm.
  - intros n. rewrite <-Hw. apply pushes_bounded; simpl; break_if; zify_bool; lia.
Qed.

End lossless.

(** ** Equivalence with [replay.Order] *)

Lemma insert_stable_ext {A} (less less' : A -> A -> bool) x l :
  (forall y, y ∈ l -> less x y = less' x y) -> insert_stable less x l = insert_stable less' x l.
Proof.
  induction l as [|y l IH]; simpl; intros Hl; [done|]. rewrite <-Hl by left.
  destruct (less x y); [done|]. f_equal. apply IH. intros. apply Hl. by right.
Qed.

Lemma sort_stable_ext {A} (less less' : A -> A -> bool) l :
  (forall x y, x ∈ l -> y ∈ l -> less x y = less' x y) -> sort_stable less l = sort_stable less' l.
Proof.
  unfold sort_stable.
  assert (Hg : forall acc, (forall x y, x ∈ acc ++ l -> y ∈ acc ++ l -> less x y = less' x y) ->
            foldl (fun acc x => insert_stable less x acc) acc l
            = foldl (fun acc x => insert_stable less' x acc) acc l).
  { induction l as [|x l IH]; simpl; intros acc Hl; [done|].
    rewrite (insert_stable_ext less less').
    - apply IH. intros y z. rewrite !insert_stable_perm. simpl. intros Hy Hz.
      apply Hl; rewrite <-Permutation_middle; done.
    - intros y Hy. apply Hl; apply elem_of_app; [right; left|by left]. }
  intros Hl. by apply (Hg []).
Qed.

(** Each connection delivers its orders in TCP sequence order. *)
Definition in_order (st : store) (arrivals : list optr) : Prop :=
  forall f, StronglySorted (fun p q => by_seq st p q = true) (of_flow st f arrivals).

(** No order arrives more than [w] places after its place in [out]. *)
Definition near_sorted (w : nat) (arrivals out : list optr) : Prop :=
  forall i j p, arrivals !! i = Some p -> out !! j = Some p -> (i <= j + w)%nat.

Section equivalence.
Context `{SortSliceLaws} `{MapRangeLaws}.
Context (base : Flow -> Z) (window : Z) (st : store) (arrivals : list optr).
Hypothesis Hw1 : 1 <= window.
Hypothesis Hnd : NoDup arrivals.
Hypothesis Hwin : Forall (fun p => in_window base (at_ st p)) arrivals.
Hypothesis Ht3 : Forall (fun p => 0 <= t3 st p) arrivals.
Hypothesis Hord : in_order st arrivals.
Let stF : store := (replay_Order st arrivals).1.
Let out : list optr := (replay_Order st arrivals).2.
Hypothesis Hnear : near_sorted (Z.to_nat window) arrivals out.

Lemma final_facts :
  same_raw st stF /\ (forall f, promoted ∅ arrivals st stF f) /\
  out ≡ₚ arrivals /\ sorted_by (by_less stF) out.
Proof.
  pose proof (replay_Order_promoted base st arrivals Hnd Hwin Ht3) as (Hraw & Hpro & _).
  pose proof (replay_Order_sorted base st arrivals Hnd Hwin Ht3) as Hs.
  unfold stF, out. destruct (replay_Order st arrivals). simpl in *. tauto.
Qed.

Lemma win_at p : p ∈ arrivals -> in_window base (at_ st p).
Proof. intros Hp. rewrite Forall_forall in Hwin. by apply Hwin. Qed.

Lemma t3_at p : p ∈ arrivals -> 0 <= t3 st p.
Proof. intros Hp. rewrite Forall_forall in Ht3. by apply Ht3. Qed.

(** Two orders of a connection are comparable. *)
Lemma flow_total p q : p ∈ arrivals -> q ∈ arrivals -> flow st p = flow st q ->
  p = q \/ by_seq st p q = true \/ by_seq st q p = true.
Proof.
  intros Hp Hq Hf. pose proof (Hord (flow st q)) as Hs.
  assert (Hp' : p ∈ of_flow st (flow st q) arrivals) by by apply elem_of_of_flow.
  assert (Hq' : q ∈ of_flow st (flow st q) arrivals) by by apply elem_of_of_flow.
  revert Hp' Hq'. induction Hs as [|x l Hs IH HF]; [by intros ?%elem_of_nil|].
  rewrite Forall_forall in HF. rewrite !elem_of_cons. naive_solver.
Qed.

Lemma by_seq_asym p q : p ∈ arrivals -> q ∈ arrivals -> flow st p = flow st q ->
  by_seq st p q = true -> by_seq st q p = false.
Proof.
  intros Hp Hq Hf. apply (sw_asym _ _ (by_seq_sw base st (flow st q))); split; auto using win_at.
Qed.

Lemma arrival_order dn rest p q :
  arrivals = dn ++ rest -> p ∈ dn -> q ∈ rest -> flow st p = flow st q -> by_seq st p q = true.
Proof.
  intros Heq Hp Hq Hf. pose proof (Hord (flow st q)) as Hs. rewrite Heq in Hs.
  unfold of_flow in Hs. rewrite list.filter_app in Hs.
  apply StronglySorted_app_iff in Hs as (_ & _ & Hs).
  apply (Hs p q); apply list_elem_of_filter; done.
Qed.

Lemma eff_final_ge p q : p ∈ arrivals -> q ∈ arrivals -> flow st q = flow st p ->
  by_seq st q p = true \/ q = p -> t3 st q <= eff stF p.
Proof.
  intros Hp Hq Hf Hqp. destruct final_facts as (_ & Hpro & _).
  by apply (promoted_eff ∅ st arrivals stF p (Hpro _) Hp).
Qed.

Lemma eff_final_from p : p ∈ arrivals ->
  exists q, q ∈ arrivals /\ flow st q = flow st p /\ (by_seq st q p = true \/ q = p) /\ eff stF p = t3 st q.
Proof.
  intros Hp. destruct final_facts as (_ & Hpro & _).
  destruct (promoted_eff ∅ st arrivals stF p (Hpro _) Hp) as (Hge & _ & Hx).
  destruct Hx as [Hx|(q & Hq & Hf & Hpq & Hx)].
  - rewrite lookup_empty in Hx. simpl in Hx. exists p. split_and!; auto.
    pose proof (Hge p Hp eq_refl (or_intror eq_refl)). pose proof (t3_at p Hp). lia.
  - exists q. split_and!; auto. destruct (flow_total p q) as [->|[Hc|Hc]]; auto. congruence.
Qed.

Lemma eff_final_mono p q : p ∈ arrivals -> q ∈ arrivals -> flow st p = flow st q ->
  by_seq st q p = true -> eff stF q <= eff stF p.
Proof.
  intros Hp Hq Hf. destruct final_facts as (_ & Hpro & _).
  apply (promoted_mono base ∅ st arrivals); auto using win_at.
Qed.

(** [carry] holds the latest final time of each connection among [em]. *)
Definition carry_ok (carry : gmap Flow Z) (em : list optr) : Prop :=
  forall f, match carry !! f with
            | None => forall p, p ∈ em -> flow st p <> f
            | Some c => (exists p, p ∈ em /\ flow st p = f /\ c = eff stF p) /\
                        forall p, p ∈ em -> flow st p = f -> eff stF p <= c
            end.

(** The state of the reorderer when [dn] has arrived and [rest] has not. *)
Record inv (dn rest : list optr) (r : Reorderer) : Prop := {
  iv_split : arrivals = dn ++ rest;
  iv_perm : emitted r ++ r_buf r ≡ₚ dn;
  iv_raw : same_raw st (r_store r);
  iv_window : r_window r = window;
  iv_before p q : p ∈ emitted r -> q ∈ r_buf r -> flow st p = flow st q -> by_seq st p q = true;
  iv_carry : carry_ok (r_carry r) (emitted r);
  iv_out : r_out r = map (fun p => (p, at_ stF p)) (emitted r);
  iv_prefix : emitted r = take (length (emitted r)) out;
}.

Lemma inv_elem dn rest r p :
  inv dn rest r -> p ∈ emitted r \/ p ∈ r_buf r -> p ∈ arrivals /\ p ∈ dn.
Proof.
  intros I Hp. assert (Hd : p ∈ dn) by (rewrite <-(iv_perm _ _ _ I), elem_of_app; tauto).
  split; [|done]. rewrite (iv_split _ _ _ I), elem_of_app. by left.
Qed.

Lemma inv_nodup dn rest r : inv dn rest r -> NoDup (emitted r ++ r_buf r).
Proof.
  intros I. rewrite (iv_perm _ _ _ I). rewrite (iv_split _ _ _ I) in Hnd.
  by apply NoDup_app in Hnd as (? & _).
Qed.

(** Promoting the buffer gives every buffered order its final time. *)
Lemma promote_final dn rest r :
  inv dn rest r ->
  same_raw st (r_store (promote r)) /\
  forall p, p ∈ r_buf r -> at_ (r_store (promote r)) p = at_ stF p.
Proof.
  intros I. pose proof (iv_raw _ _ _ I) as Hraw. destruct final_facts as (HrawF & _).
  assert (Hbuf : forall p, p ∈ r_buf r -> p ∈ arrivals) by (intros p Hp; apply (inv_elem _ _ _ p I); tauto).
  destruct (promote_buffer sort_stable base) with (carry := r_carry r) (st0 := r_store r)
    (orders := r_buf r) (groups := map_range (map_to_list (group (r_store r) (r_buf r))))
    as (Hraw1 & Hpro1 & _).
  { intros. apply sort_stable_perm. }
  { intros. by eapply sort_stable_sorted. }
  { pose proof (inv_nodup _ _ _ I) as Hn. by apply NoDup_app in Hn as (_ & _ & ?). }
  { apply Forall_forall. intros p Hp. eapply same_raw_window; [done|]. by apply win_at, Hbuf. }
  { apply Forall_forall. intros p Hp. rewrite (proj1 (proj2 (same_raw_at _ _ p Hraw))).
    by apply t3_at, Hbuf. }
  { apply map_range_perm. }
  fold (r_store (promote r)) in *.
  change (promote_groups _ _ _ _) with (r_store (promote r)) in Hraw1, Hpro1.
  set (st1 := r_store (promote r)) in *.
  assert (Hr1 : same_raw st st1) by exact (same_raw_trans _ _ _ Hraw Hraw1). split; [done|].
  intros p Hp. pose proof (Hbuf p Hp) as Hpa.
  assert (Heff : eff st1 p = eff stF p).
  2:{ destruct (Hr1 p) as [t1 E1], (HrawF p) as [t2 E2]. unfold eff in Heff. rewrite E1, E2 in *.
      simpl in Heff. by rewrite Heff. }
  assert (Hfl : forall q, flow (r_store r) q = flow st q) by (intros; by apply same_raw_at).
  destruct (promoted_eff (r_carry r) (r_store r) (r_buf r) st1 p (Hpro1 _) Hp) as (Hge & Hc & Hx).
  rewrite Hfl in Hc, Hx. pose proof (iv_carry _ _ _ I (flow st p)) as Hcar.
  apply Z.le_antisymm.
  - destruct Hx as [->|(q & Hq & Hf & Hpq & ->)].
    + destruct (r_carry r !! flow st p) as [c|]; simpl.
      * destruct Hcar as [(x & Hx & Hfx & ->) _]. apply eff_final_mono; [done| |done|].
        -- apply (inv_elem _ _ _ x I). by left.
        -- by apply (iv_before _ _ _ I).
      * pose proof (t3_at p Hpa).
        pose proof (eff_final_ge p p Hpa Hpa eq_refl (or_intror eq_refl)). lia.
    + rewrite !Hfl in Hf. rewrite (same_raw_by_seq st) in Hpq by done.
      rewrite (proj1 (proj2 (same_raw_at _ _ q Hraw))). apply eff_final_ge; auto.
      destruct (flow_total p q) as [->|[?|?]]; auto. congruence.
  - destruct (eff_final_from p Hpa) as (q & Hq & Hf & Hqp & ->).
    assert (Hqd : q ∈ emitted r ++ r_buf r).
    { rewrite (iv_perm _ _ _ I). rewrite (iv_split _ _ _ I) in Hq.
      apply elem_of_app in Hq as [?|Hq]; [done|].
      destruct (inv_elem _ _ _ p I (or_intror Hp)) as [_ Hpd]. destruct Hqp as [Hqp| ->]; [|done].
      pose proof (arrival_order _ _ p q (iv_split _ _ _ I) Hpd Hq (eq_sym Hf)) as Hpq.
      assert (Hqa : q ∈ arrivals) by (rewrite (iv_split _ _ _ I); apply elem_of_app; by right).
      rewrite (by_seq_asym p q) in Hqp; done. }
    apply elem_of_app in Hqd as [Hqe|Hqb].
    + transitivity (eff stF q); [by apply eff_final_ge; auto|].
      transitivity (default 0 (r_carry r !! flow st p)); [|done].
      destruct (r_carry r !! flow st p) as [c|]; simpl; [by apply Hcar|]. by destruct (Hcar q Hqe).
    + rewrite <-(proj1 (proj2 (same_raw_at _ _ q Hraw))).
      apply Hge; [done|by rewrite !Hfl|]. rewrite (same_raw_by_seq st) by done. done.
Qed.

(** On the session's orders [by_less] is a total order. *)
Lemma less_unique l k :
  (forall p, p ∈ l -> p ∈ arrivals) -> sorted_by (by_less stF) l -> sorted_by (by_less stF) k ->
  l ≡ₚ k -> l = k.
Proof.
  intros Hl Hs Hk Hp. destruct final_facts as (HrawF & _).
  pose proof (by_less_sw base stF) as SW.
  assert (SW' : StrictWeakOn (fun p => p ∈ arrivals) (by_less stF)).
  { assert (HW : forall p, p ∈ arrivals -> in_window base (at_ stF p)).
    { intros p Hpa. eapply same_raw_window; [done|]. by apply win_at. }
    split.
    - intros x y Hx Hy. apply (sw_asym _ _ SW); auto.
    - intros x y z Hx Hy Hz. apply (sw_negtrans _ _ SW); auto. }
  apply (sorted_by_unique _ _ l k SW'); [|by apply Forall_forall|done..].
  intros p q Hpa Hqa Hpq Hqp. unfold by_less in *.
  assert (Hwp : in_window base (at_ stF p)) by (eapply same_raw_window; [done|by apply win_at]).
  assert (Hwq : in_window base (at_ stF q)) by (eapply same_raw_window; [done|by apply win_at]).
  rewrite (Less_false base) in Hpq, Hqp by done.
  destruct (decide (flow stF p = flow stF q)) as [Hf|Hf].
  - unfold flow in Hf. rewrite Hf, Flow_Less_irrefl in *.
    assert (Hr : rank base (at_ stF p) = rank base (at_ stF q)) by naive_solver lia.
    assert (Hf' : flow st p = flow st q).
    { rewrite <-!(proj1 (same_raw_at _ _ _ HrawF)). done. }
    destruct (flow_total p q Hpa Hqa Hf') as [?|[Hc|Hc]]; [done|..]; exfalso;
      rewrite <-(same_raw_by_seq st stF) in Hc by done; unfold by_seq in Hc;
      rewrite (seqLess_rank base) in Hc by done; apply Z.ltb_lt in Hc; lia.
  - exfalso. unfold flow in Hf. rewrite !Flow_Less_spec in *. naive_solver lia.
Qed.

Lemma out_nodup : NoDup out.
Proof. destruct final_facts as (_ & _ & Hp & _). by rewrite Hp. Qed.

(** The first [n] of the sorted buffer come next in the replay order. *)
Lemma release_next dn rest r n :
  inv dn rest r -> (n <= length (r_buf r))%nat ->
  (forall j p, (j < length (emitted r) + n)%nat -> out !! j = Some p -> p ∈ dn) ->
  let b := sort_stable (by_less stF) (r_buf r) in
  emitted r ++ take n b = take (length (emitted r) + n) out.
Proof.
  intros I Hn Hin b. destruct final_facts as (HrawF & _ & Hperm & Hs).
  set (k := length (emitted r)) in *. set (X := take n (drop k out)).
  assert (HX : take (k + n) out = emitted r ++ X).
  { rewrite <-take_take_drop. unfold X. f_equal. symmetry. apply I. }
  assert (Hnd' : NoDup (emitted r ++ X)).
  { rewrite <-HX. eapply sublist_NoDup; [apply out_nodup|]. apply sublist_take. }
  assert (HXb : forall p, p ∈ X -> p ∈ r_buf r).
  { intros p Hp. apply NoDup_app in Hnd' as (_ & Hdis & _).
    assert (Hpd : p ∈ dn).
    { assert (Hpt : p ∈ take (k + n) out) by (rewrite HX; apply elem_of_app; by right).
      apply list_elem_of_lookup_1 in Hpt as [j Hj]. apply lookup_take_Some in Hj as [Hj Hlt].
      by eapply Hin. }
    rewrite <-(iv_perm _ _ _ I) in Hpd. apply elem_of_app in Hpd as [Hpe|?]; [|done].
    by destruct (Hdis p Hpe). }
  apply NoDup_app in Hnd' as (_ & Hdis & HndX).
  assert (Hsub : X ⊆+ r_buf r) by by apply NoDup_submseteq.
  apply submseteq_Permutation in Hsub as [Z HZ].
  assert (HXlen : length X = n).
  { unfold X. rewrite length_take, length_drop.
    assert (length out = length arrivals) by by rewrite Hperm.
    assert (length dn = (k + length (r_buf r))%nat).
    { rewrite <-(iv_perm _ _ _ I). by rewrite length_app. }
    rewrite (iv_split _ _ _ I), length_app in *. lia. }
  assert (Hsd : sorted_by (by_less stF) (X ++ drop (k + n) out)).
  { assert (Heq : X ++ drop (k + n) out = drop k out).
    { unfold X. rewrite <-drop_drop, take_drop. done. }
    rewrite Heq. eapply StronglySorted_sublist; [apply sublist_drop|exact Hs]. }
  assert (HZin : forall p, p ∈ Z -> p ∈ drop (k + n) out).
  { intros p Hp. assert (Hpb : p ∈ r_buf r) by (rewrite HZ; apply elem_of_app; by right).
    assert (Hpo : p ∈ take (k + n) out ++ drop (k + n) out).
    { rewrite take_drop, Hperm. by apply (inv_elem _ _ _ p I); right. }
    apply elem_of_app in Hpo as [Hpo|?]; [|done]. rewrite HX in Hpo.
    pose proof (inv_nodup _ _ _ I) as Hn'. rewrite HZ in Hn'.
    apply NoDup_app in Hn' as (_ & Hd1 & Hn'). apply NoDup_app in Hn' as (_ & Hd2 & _).
    apply elem_of_app in Hpo as [Hpe|HpX].
    - destruct (Hd1 p Hpe). apply elem_of_app. by right.
    - by destruct (Hd2 p HpX). }
  assert (Hb : b = X ++ sort_stable (by_less stF) Z).
  { apply less_unique.
    - intros p. unfold b. rewrite sort_stable_perm. intros Hp. apply (inv_elem _ _ _ p I). by right.
    - apply (sort_stable_sorted (fun p => in_window base (at_ stF p))); [apply by_less_sw|].
      apply Forall_forall. intros p Hp. eapply same_raw_window; [done|]. apply win_at.
      apply (inv_elem _ _ _ p I). by right.
    - apply StronglySorted_app_iff in Hsd as (H1s & _ & H3s). apply StronglySorted_app_iff. split_and!.
      + done.
      + apply (sort_stable_sorted (fun p => in_window base (at_ stF p))); [apply by_less_sw|].
        apply Forall_forall. intros p Hp. eapply same_raw_window; [done|]. apply win_at.
        apply (inv_elem _ _ _ p I). right. rewrite HZ. apply elem_of_app. by right.
      + intros p q Hp Hq. apply H3s; [done|]. apply HZin. by rewrite <-(sort_stable_perm (by_less stF) Z).
    - unfold b. rewrite !sort_stable_perm. done. }
  rewrite HX, Hb, take_app_length'; done.
Qed.

Lemma emit_one_carry carry em p :
  carry_ok carry em -> p ∈ arrivals ->
  let o := at_ stF p in
  carry_ok (match carry !! o_Flow o with
            | Some cur => if cur <? o_EffectiveT3 o then <[o_Flow o := o_EffectiveT3 o]> carry else carry
            | None => <[o_Flow o := o_EffectiveT3 o]> carry
            end) (em ++ [p]).
Proof.
  intros Hc Hp o. destruct final_facts as (HrawF & _).
  assert (Hf : o_Flow o = flow st p) by apply (same_raw_at _ _ p HrawF).
  change (o_EffectiveT3 o) with (eff stF p). rewrite Hf. clear o Hf.
  intros f. pose proof (Hc f) as Hcf.
  assert (Hin : forall q, q ∈ em ++ [p] <-> q ∈ em \/ q = p).
  { intros q. by rewrite elem_of_app, list_elem_of_singleton. }
  destruct (decide (f = flow st p)) as [->|Hne].
  - destruct (carry !! flow st p) as [cur|] eqn:Hcur; simpl.
    + destruct Hcf as [(x & Hx & Hfx & ->) Hmax]. destruct (Z.ltb_spec (eff stF x) (eff stF p)).
      * rewrite lookup_insert_eq. split; [exists p; rewrite Hin; auto|].
        intros q [Hq| ->]%Hin Hfq; [|lia]. pose proof (Hmax q Hq Hfq). lia.
      * rewrite Hcur. split; [exists x; rewrite Hin; auto|]. intros q [Hq| ->]%Hin Hfq; auto.
    + rewrite lookup_insert_eq. split; [exists p; rewrite Hin; auto|].
      intros q [Hq| ->]%Hin Hfq; [|lia]. by destruct (Hcf q Hq).
  - assert (Hsame : (match carry !! flow st p with
             | Some cur => if cur <? eff stF p then <[flow st p := eff stF p]> carry else carry
             | None => <[flow st p := eff stF p]> carry end) !! f = carry !! f).
    { destruct (carry !! flow st p); [destruct (_ <? _)|]; rewrite ?lookup_insert_ne; done. }
    rewrite Hsame. destruct (carry !! f) as [c|].
    + destruct Hcf as [(x & Hx & Hfx & ->) Hmax]. split; [exists x; rewrite Hin; auto|].
      intros q [Hq| ->]%Hin Hfq; [auto|congruence].
    + intros q [Hq| ->]%Hin; [auto|congruence].
Qed.

Lemma emit_all_carry ps r em :
  carry_ok (r_carry r) em -> (forall p, p ∈ ps -> p ∈ arrivals /\ at_ (r_store r) p = at_ stF p) ->
  carry_ok (r_carry (emit_all ps r)) (em ++ ps).
Proof.
  revert r em. induction ps as [|p ps IH]; intros r em Hc Hps; simpl; [by rewrite app_nil_r|].
  destruct (Hps p ltac:(left)) as [Hp Hat]. rewrite Hat.
  change (em ++ p :: ps) with (em ++ [p] ++ ps). rewrite app_assoc. apply IH; simpl.
  - by apply emit_one_carry.
  - intros q Hq. apply Hps. by right.
Qed.

(** A released prefix of a sorted buffer precedes, per connection, what stays. *)
Lemma sorted_before l1 l2 p q :
  (forall x, x ∈ l1 ++ l2 -> x ∈ arrivals) -> NoDup (l1 ++ l2) -> sorted_by (by_less stF) (l1 ++ l2) ->
  p ∈ l1 -> q ∈ l2 -> flow st p = flow st q -> by_seq st p q = true.
Proof.
  intros Hin Hn Hs Hp Hq Hf. destruct final_facts as (HrawF & _).
  assert (Hpa : p ∈ arrivals) by (apply Hin, elem_of_app; by left).
  assert (Hqa : q ∈ arrivals) by (apply Hin, elem_of_app; by right).
  apply StronglySorted_app_iff in Hs as (_ & _ & Hs). specialize (Hs p q Hp Hq). simpl in Hs.
  apply NoDup_app in Hn as (_ & Hn & _).
  destruct (flow_total p q Hpa Hqa Hf) as [->|[?|Hqp]]; [by destruct (Hn q Hp)|done|exfalso].
  pose proof (eff_final_mono p q Hpa Hqa Hf Hqp) as Hle. unfold eff in Hle. unfold by_less in Hs.
  assert (Hwp : in_window base (at_ stF p)) by (eapply same_raw_window; [done|by apply win_at]).
  assert (Hwq : in_window base (at_ stF q)) by (eapply same_raw_window; [done|by apply win_at]).
  assert (Hfl : o_Flow (at_ stF q) = o_Flow (at_ stF p)).
  { change (flow stF q = flow stF p).
    by rewrite (proj1 (same_raw_at _ _ q HrawF)), (proj1 (same_raw_at _ _ p HrawF)). }
  rewrite (Less_false base), Hfl, Flow_Less_irrefl in Hs by done.
  rewrite <-(same_raw_by_seq st stF) in Hqp by done. unfold by_seq in Hqp.
  rewrite (seqLess_rank base) in Hqp by done. apply Z.ltb_lt in Hqp.
  destruct Hs as [?|[_ [?|[_ ?]]]]; [lia|done|lia].
Qed.

Lemma release_inv dn rest r n :
  inv dn rest r -> 0 <= n <= Z.of_nat (length (r_buf r)) ->
  (forall j p, (j < length (emitted r) + Z.to_nat n)%nat -> out !! j = Some p -> p ∈ dn) ->
  inv dn rest (release n r).
Proof.
  intros I Hn Hin. unfold release. destruct (_ || _) eqn:Hc; [done|].
  rewrite (proj2 (Z.ltb_ge _ n)) by lia. set (k := Z.to_nat n) in *.
  destruct (promote_final _ _ _ I) as [Hraw Hfin]. destruct final_facts as (HrawF & _).
  change (r_buf (promote r)) with (r_buf r).
  assert (Hb : sort_stable (by_less (r_store (promote r))) (r_buf r) = sort_stable (by_less stF) (r_buf r)).
  { apply sort_stable_ext. intros p q Hp Hq. unfold by_less. by rewrite !Hfin. }
  rewrite Hb. set (b := sort_stable (by_less stF) (r_buf r)).
  assert (Hbp : b ≡ₚ r_buf r) by apply sort_stable_perm.
  assert (Hba : forall p, p ∈ b -> p ∈ arrivals /\ at_ (r_store (promote r)) p = at_ stF p).
  { intros p Hp. rewrite Hbp in Hp. split; [|by apply Hfin]. apply (inv_elem _ _ _ p I). by right. }
  assert (Htk : forall p, p ∈ take k b -> p ∈ b).
  { intros p Hp. eapply elem_of_sublist; [exact Hp|apply sublist_take]. }
  destruct (emit_all_out (take k b) (promote r)) as (Ho & Hst & Hwd).
  change (r_out (promote r)) with (r_out r) in Ho.
  set (r1 := emit_all (take k b) (promote r)) in *.
  assert (Hem : (r_out r1).*1 = emitted r ++ take k b).
  { rewrite Ho, fmap_app. unfold emitted. f_equal. rewrite <-list_fmap_compose. apply list_fmap_id. }
  assert (Hnb : NoDup b).
  { rewrite Hbp. pose proof (inv_nodup _ _ _ I) as Hn'. by apply NoDup_app in Hn' as (_ & _ & ?). }
  split; unfold emitted; simpl; try rewrite Hem.
  - apply I.
  - rewrite <-app_assoc, take_drop, Hbp. apply I.
  - by rewrite Hst.
  - rewrite Hwd. apply I.
  - intros p q [Hp|Hp]%elem_of_app Hq Hf.
    + apply (iv_before _ _ _ I); [done| |done]. rewrite <-Hbp.
      eapply elem_of_sublist; [exact Hq|apply sublist_drop].
    + apply (sorted_before (take k b) (drop k b)); rewrite ?take_drop; try done.
      * intros x Hx. by apply Hba.
      * apply (sort_stable_sorted (fun p => in_window base (at_ stF p))); [apply by_less_sw|].
        apply Forall_forall. intros x Hx. eapply same_raw_window; [done|]. apply win_at.
        apply (inv_elem _ _ _ x I). by right.
  - unfold r1. apply emit_all_carry; [apply I|]. intros p Hp. by apply Hba, Htk.
  - rewrite Ho, map_app, (iv_out _ _ _ I). f_equal. apply list_fmap_ext. intros i p Hp.
    f_equal. apply Hba, Htk. by eapply list_elem_of_lookup_2.
  - pose proof (release_next _ _ _ k I ltac:(lia) Hin) as Hnx. cbv zeta in Hnx. fold b in Hnx.
    rewrite Hnx, length_take. f_equal.
    assert (length (emitted r) + k <= length out)%nat; [|lia].
    destruct final_facts as (_ & _ & Hperm & _). rewrite Hperm, (iv_split _ _ _ I), length_app.
    rewrite <-(iv_perm _ _ _ I), length_app. lia.
Qed.

Lemma push_inv dn p rest r :
  inv dn (p :: rest) r -> Z.of_nat (length (r_buf r)) < 2 * window -> inv (dn ++ [p]) rest (Push r p).
Proof.
  intros I Hlen. unfold Push. set (r1 := mkReorderer _ _ _ _ _).
  assert (I1 : inv (dn ++ [p]) rest r1).
  { split; simpl; try apply I.
    - rewrite (iv_split _ _ _ I). by rewrite <-app_assoc.
    - unfold emitted. simpl. rewrite app_assoc. f_equiv. apply I.
    - intros x y Hx [Hy|Hy%list_elem_of_singleton]%elem_of_app Hf; [by apply (iv_before _ _ _ I)|].
      subst y. apply (arrival_order dn (p :: rest)); [apply I| |left|done].
      by apply (inv_elem _ _ _ x I); left. }
  destruct (_ <=? _) eqn:Hfull; [|done]. zify_bool.
  assert (Hw : r_window r1 = window) by apply I1. rewrite Hw in *. simpl in Hfull.
  rewrite length_app in Hfull. simpl in Hfull. apply release_inv; [done|simpl; rewrite length_app; simpl; lia|].
  intros j x Hj Hx. assert (Hxa : x ∈ arrivals).
  { destruct final_facts as (_ & _ & Hperm & _). rewrite <-Hperm. by eapply list_elem_of_lookup_2. }
  apply list_elem_of_lookup_1 in Hxa as [i Hi]. pose proof (Hnear i j x Hi Hx) as Hij.
  rewrite (iv_split _ _ _ I1) in Hi. apply lookup_app_Some in Hi as [Hi|[Hi _]].
  - by eapply list_elem_of_lookup_2.
  - exfalso. rewrite <-(iv_perm _ _ _ I1) in Hi. rewrite !length_app in Hi. simpl in Hi.
    rewrite length_app in Hi. simpl in Hi. change (emitted r1) with (emitted r) in *. lia.
Qed.

Lemma pushes_inv dn rest r :
  inv dn rest r -> Z.of_nat (length (r_buf r)) < 2 * window -> inv arrivals [] (foldl Push r rest).
Proof.
  revert dn r. induction rest as [|p rest IH]; intros dn r I Hlen; simpl.
  - pose proof (iv_split _ _ _ I) as Heq. rewrite app_nil_r in Heq. by rewrite Heq at 1.
  - apply (IH (dn ++ [p])); [by apply push_inv|].
    pose proof (iv_window _ _ _ I) as Hw. rewrite <-Hw. apply Push_bounded; lia.
Qed.

Lemma stream_out : r_out (stream window st arrivals) = map (fun p => (p, at_ stF p)) out.
Proof.
  assert (I0 : inv [] arrivals (NewReorderer window st)).
  { split; try done.
    - apply same_raw_refl.
    - simpl. by rewrite (proj2 (Z.ltb_ge _ _)).
    - intros p q Hp. by apply elem_of_nil in Hp.
    - intros f. simpl. rewrite lookup_empty. intros p Hp. by apply elem_of_nil in Hp. }
  pose proof (pushes_inv [] arrivals _ I0 ltac:(simpl; lia)) as I.
  unfold stream, Flush. set (r := foldl _ _ _) in *.
  assert (I' : inv arrivals [] (release (Z.of_nat (length (r_buf r))) r)).
  { apply release_inv; [done|lia|]. intros j p _ Hj.
    destruct final_facts as (_ & _ & Hperm & _). rewrite <-Hperm. by eapply list_elem_of_lookup_2. }
  rewrite (iv_out _ _ _ I'). f_equal. rewrite (iv_prefix _ _ _ I'). apply take_ge.
  assert (Hnil : r_buf (release (Z.of_nat (length (r_buf r))) r) = []).
  { apply length_zero_iff_nil. rewrite release_length. lia. }
  pose proof (iv_perm _ _ _ I') as Hp. rewrite Hnil, app_nil_r in Hp. rewrite Hp.
  destruct final_facts as (_ & _ & Hperm & _). by rewrite Hperm.
Qed.

End equivalence.

(** C10: streaming replays exactly what the batch path replays. When every
    connection delivers in TCP sequence order and no order arrives more than
    the window behind its place, the orders handed to [emit], with the times
    they carry at that moment, are [replay.Order]'s output. *)
Theorem reorderer_is_replay_order `{SortSliceLaws} `{MapRangeLaws} base window st arrivals :
  1 <= window -> NoDup arrivals -> Forall (fun p => in_window base (at_ st p)) arrivals ->
  Forall (fun p => 0 <= t3 st p) arrivals -> in_order st arrivals ->
  near_sorted (Z.to_nat window) arrivals (replay_Order st arrivals).2 ->
  r_out (stream window st arrivals) =
  map (fun p => (p, at_ (replay_Order st arrivals).1 p)) (replay_Order st arrivals).2.
Proof. intros. by apply (stream_out base). Qed.

Lemma in_order_pairs st l :
  StronglySorted (fun p q => flow st p = flow st q -> by_seq st p q = true) l -> in_order st l.
Proof.
  intros Hs f. eapply StronglySorted_impl_in.
  2:{ eapply StronglySorted_sublist; [|exact Hs]. unfold of_flow. apply sublist_filter. }
  intros p q Hp%list_elem_of_filter Hq%list_elem_of_filter Hpq. apply Hpq.
  destruct Hp as [-> _], Hq as [-> _]. done.
Qed.

Lemma near_sorted_bound w arrivals out :
  (length arrivals <= S w)%nat -> near_sorted w arrivals out.
Proof. intros Hl i j p Hi%lookup_lt_Some _. lia. Qed.

(** ** Concrete sessions *)

(** Two connections; the second order of connection 1 was captured before the
    first of connection 2 but is promoted past it. *)
Definition flows_store : store :=
  <[1%positive := demo_order 1 1 9]> (<[2%positive := demo_order 1 2 3]> (<[3%positive := demo_order 2 7 6]> ∅)).

Lemma reorderer_is_replay_order_witness :
  emitted (@stream MapRange_id 2 flows_store [1; 2; 3]%positive) = [3; 1; 2]%positive /\
  r_out (@stream MapRange_id 2 flows_store [1; 2; 3]%positive) =
  map (fun p => (p, at_ (@replay_Order SortSlice_stable MapRange_id flows_store [1; 2; 3]%positive).1 p))
    (@replay_Order SortSlice_stable MapRange_id flows_store [1; 2; 3]%positive).2.
Proof.
  split; [vm_compute; reflexivity|].
  apply (@reorderer_is_replay_order SortSlice_stable SortSlice_stable_laws MapRange_id MapRange_id_laws
           (fun _ => 0) 2 flows_store [1; 2; 3]%positive); [lia|..].
  - apply (bool_decide_unpack _). vm_compute. exact I.
  - repeat constructor; vm_compute; done.
  - repeat constructor; vm_compute; done.
  - apply in_order_pairs. repeat constructor; vm_compute; done.
  - apply near_sorted_bound. simpl. lia.
Defined.

(** Connection 1 delivers 3 (sequence 2, time 1) before 4 (sequence 1, time
    1000): both belong at time 1000. *)
Definition late_store : store :=
  <[1%positive := demo_order 2 1 10]> (<[2%positive := demo_order 2 2 20]>
  (<[3%positive := demo_order 1 2 1]> (<[4%positive := demo_order 1 1 1000]> ∅))).

(** The window alone does not make streaming exact. In this session no
    order arrives more than one place from its place in [replay.Order]'s
    output, yet a window of one replays a different sequence, because a
    connection's orders arrived out of sequence. *)
Theorem window_alone_not_exact :
  let arrivals := [1; 2; 3; 4]%positive in
  let batch := (@replay_Order SortSlice_stable MapRange_id late_store arrivals).2 in
  near_sorted 1 arrivals batch /\ near_sorted 1 batch arrivals /\
  batch = [1; 2; 4; 3]%positive /\
  emitted (@stream MapRange_id 1 late_store arrivals) = [1; 3; 2; 4]%positive.
Proof.
  assert (Hb : (@replay_Order SortSlice_stable MapRange_id late_store [1; 2; 3; 4]%positive).2
               = [1; 2; 4; 3]%positive) by (vm_compute; reflexivity).
  cbv zeta. rewrite Hb.
  split; [|split; [|split; [reflexivity|vm_compute; reflexivity]]].
  - intros i j p Hi Hj. destruct i as [|[|[|[|i]]]]; [| | | |discriminate Hi]; injection Hi as <-;
      destruct j as [|[|[|[|j]]]]; try discriminate Hj; lia.
  - intros i j p Hi Hj. destruct i as [|[|[|[|i]]]]; [| | | |discriminate Hi]; injection Hi as <-;
      destruct j as [|[|[|[|j]]]]; try discriminate Hj; lia.
Qed.
