(* ===== verification/Float64.v ===== *)
(** * Go's [float64]

    IEEE 754 binary64, rounding to nearest even, on the Standard Library's
    executable [spec_float]: no axioms, and every operation computes. *)

From Stdlib Require Import Floats.SpecFloat.
From stdpp Require Import prelude strings pretty.
From S2P Require Import Prelude.

Open Scope Z_scope.

Definition float64 : Type := spec_float.

(** [float64(z)] for an integer [z]. *)
Definition f64 (z : Z) : float64 := binary_normalize 53 1024 z 0 false.

Definition fadd : float64 -> float64 -> float64 := SFadd 53 1024.
Definition fsub : float64 -> float64 -> float64 := SFsub 53 1024.
Definition fmul : float64 -> float64 -> float64 := SFmul 53 1024.
Definition fdiv : float64 -> float64 -> float64 := SFdiv 53 1024.
Definition fltb : float64 -> float64 -> bool := SFltb.
Definition fleb : float64 -> float64 -> bool := SFleb.
Definition feqb : float64 -> float64 -> bool := SFeqb.

(** A decimal literal [n / d] whose parts are exactly representable: the
    division is correctly rounded, so this is the double nearest to it. *)
Definition flit (n d : Z) : float64 := fdiv (f64 n) (f64 d).

(** [uint64(f)] and [int(f)]: truncation towards zero. Go leaves the result
    for NaN, infinities and values out of range open; here it is 0. *)
Definition f_to_Z (f : float64) : Z :=
  match f with
  | S754_finite s m e =>
      let a := Z.shiftl (Zpos m) e in if s then - a else a
  | _ => 0
  end.

(** Round half to even of [n / d], [0 < d]. *)
Definition div_half_even (n d : Z) : Z :=
  let q := n / d in
  let r := 2 * (n mod d) in
  if (r <? d) || ((r =? d) && Z.even q) then q else q + 1.

Fixpoint zeros (k : nat) : string := match k with O => "" | S k => "0" +:+ zeros k end.

(** [fmt.Sprintf("%.<k>f", f)] of a finite [f]. *)
Definition fmt_f (k : nat) (f : float64) : string :=
  match f with
  | S754_nan => "NaN"
  | S754_infinity s => if s then "-Inf" else "+Inf"
  | S754_zero s => (if s then "-" else "") +:+ "0" +:+
                   match k with O => "" | _ => "." +:+ zeros k end
  | S754_finite s m e =>
      let p := 10 ^ Z.of_nat k in
      let n := if 0 <=? e then Z.shiftl (Zpos m) e * p
               else div_half_even (Zpos m * p) (2 ^ (- e)) in
      let frac := pretty (n mod p) in
      (if s then "-" else "") +:+ pretty (n / p) +:+
      match k with
      | O => ""
      | _ => "." +:+ zeros (k - String.length frac) +:+ frac
      end
  end.

(** [fmt.Sprintf("%d", z)]. *)
Definition fmt_d (z : Z) : string := pretty z.

Example f64_exact : f_to_Z (f64 (2 ^ 53)) = 2 ^ 53.
Proof. reflexivity. Qed.

Example f64_rounds : f_to_Z (f64 (2 ^ 53 + 1)) = 2 ^ 53.
Proof. reflexivity. Qed.

Example fmt_rate : fmt_f 1 (fdiv (fmul (f64 100) (f64 3)) (f64 9)) = "33.3".
Proof. vm_compute. reflexivity. Qed.

Example fmt_pad : fmt_f 4 (flit 1 1000) = "0.0010".
Proof. vm_compute. reflexivity. Qed.
