(* ===== verification/Report.v ===== *)
(** * correctness-validator: [internal/validate/validate.go]

    The report both validation modes accumulate: exact counters per violation
    class, a capped list of examples, and the set of orders that misbehaved,
    which the order-level score is computed from. *)

From stdpp Require Import prelude gmap strings.
From S2P Require Import Prelude Float64 Model Book.

Open Scope Z_scope.

(** ** Data *)

Inductive ViolationType :=
  | V_Overfill | V_MissedFill | V_Price | V_Time | V_SelfTrade | V_CancelReplaceLoss
  | V_LostOrder | V_LostCancel.

#[export] Instance ViolationType_eq_dec : EqDecision ViolationType.
Proof. solve_decision. Defined.

Definition ViolationType_String (t : ViolationType) : string :=
  match t with
  | V_Overfill => "overfill"
  | V_MissedFill => "missed_fill"
  | V_Price => "price"
  | V_Time => "time"
  | V_SelfTrade => "self_trade"
  | V_CancelReplaceLoss => "cancel_replace_loss"
  | V_LostOrder => "lost_order"
  | V_LostCancel => "lost_cancel"
  end.

Definition all_ViolationTypes : list ViolationType :=
  [V_Overfill; V_MissedFill; V_Price; V_Time; V_SelfTrade; V_CancelReplaceLoss; V_LostOrder; V_LostCancel].

#[export] Instance ViolationType_countable : Countable ViolationType.
Proof.
  refine (inj_countable ViolationType_String
            (fun s => List.find (fun t => bool_decide (ViolationType_String t = s)) all_ViolationTypes) _).
  by intros [].
Defined.

Record Violation := mkViolation {
  vi_Type : ViolationType;
  vi_OrderID : string;
  vi_ReportedQty : Z;
  vi_ReportedPrice : Z;
  vi_Detail : string;
}.

Record ReportedFill := mkReportedFill { rf_OrderID : string; rf_Qty : Z; rf_Price : Z }.

(** Summary of the processing-order jitter (invariants.go). *)
Record JitterStats := mkJitterStats {
  js_Count : Z;
  js_InversionRate : float64;
  js_P50Us : float64;
  js_P99Us : float64;
  js_P999Us : float64;
  js_MaxUs : float64;
}.
Definition zeroJitter : JitterStats := mkJitterStats 0 (f64 0) (f64 0) (f64 0) (f64 0) (f64 0).

Record Report := mkReport {
  rp_TotalFills : Z;
  rp_ValidFills : Z;
  rp_PhantomFills : Z;
  rp_Overfills : Z;
  rp_PriceViolations : Z;
  rp_TimeViolations : Z;
  rp_CancelReplaceLosses : Z;
  rp_SelfTrades : Z;
  rp_MissedFills : Z;
  rp_Violations : list Violation;
  rp_totalViolations : Z;
  rp_violationExamplesByType : gmap ViolationType Z;
  rp_LostOrders : Z;
  rp_LostCancels : Z;
  rp_CaptureGaps : Z;
  rp_Jitter : JitterStats;
  rp_T7ReorderLate : Z;
  rp_T7Anomalies : Z;
  rp_Tainted : bool;
  rp_TaintReason : string;
  rp_ScoredFills : Z;
  rp_ScoredOrders : Z;
  rp_DirtyOrders : Z;
  rp_dirtyByOrder : gset string;
}.

(** The zero [Report]. *)
Definition zeroReport : Report :=
  mkReport 0 0 0 0 0 0 0 0 0 [] 0 ∅ 0 0 0 zeroJitter 0 0 false "" 0 0 0 ∅.

(** Field assignments. *)
Definition set_TotalFills (x : Z) (r : Report) : Report :=
  mkReport x (rp_ValidFills r) (rp_PhantomFills r) (rp_Overfills r) (rp_PriceViolations r)
  (rp_TimeViolations r) (rp_CancelReplaceLosses r) (rp_SelfTrades r) (rp_MissedFills r)
  (rp_Violations r) (rp_totalViolations r) (rp_violationExamplesByType r) (rp_LostOrders r)
  (rp_LostCancels r) (rp_CaptureGaps r) (rp_Jitter r) (rp_T7ReorderLate r) (rp_T7Anomalies r)
  (rp_Tainted r) (rp_TaintReason r) (rp_ScoredFills r) (rp_ScoredOrders r) (rp_DirtyOrders r)
  (rp_dirtyByOrder r).
Definition set_ValidFills (x : Z) (r : Report) : Report :=
  mkReport (rp_TotalFills r) x (rp_PhantomFills r) (rp_Overfills r) (rp_PriceViolations r)
  (rp_TimeViolations r) (rp_CancelReplaceLosses r) (rp_SelfTrades r) (rp_MissedFills r)
  (rp_Violations r) (rp_totalViolations r) (rp_violationExamplesByType r) (rp_LostOrders r)
  (rp_LostCancels r) (rp_CaptureGaps r) (rp_Jitter r) (rp_T7ReorderLate r) (rp_T7Anomalies r)
  (rp_Tainted r) (rp_TaintReason r) (rp_ScoredFills r) (rp_ScoredOrders r) (rp_DirtyOrders r)
  (rp_dirtyByOrder r).
Definition set_PhantomFills (x : Z) (r : Report) : Report :=
  mkReport (rp_TotalFills r) (rp_ValidFills r) x (rp_Overfills r) (rp_PriceViolations r)
  (rp_TimeViolations r) (rp_CancelReplaceLosses r) (rp_SelfTrades r) (rp_MissedFills r)
  (rp_Violations r) (rp_totalViolations r) (rp_violationExamplesByType r) (rp_LostOrders r)
  (rp_LostCancels r) (rp_CaptureGaps r) (rp_Jitter r) (rp_T7ReorderLate r) (rp_T7Anomalies r)
  (rp_Tainted r) (rp_TaintReason r) (rp_ScoredFills r) (rp_ScoredOrders r) (rp_DirtyOrders r)
  (rp_dirtyByOrder r).
Definition set_Overfills (x : Z) (r : Report) : Report :=
  mkReport (rp_TotalFills r) (rp_ValidFills r) (rp_PhantomFills r) x (rp_PriceViolations r)
  (rp_TimeViolations r) (rp_CancelReplaceLosses r) (rp_SelfTrades r) (rp_MissedFills r)
  (rp_Violations r) (rp_totalViolations r) (rp_violationExamplesByType r) (rp_LostOrders r)
  (rp_LostCancels r) (rp_CaptureGaps r) (rp_Jitter r) (rp_T7ReorderLate r) (rp_T7Anomalies r)
  (rp_Tainted r) (rp_TaintReason r) (rp_ScoredFills r) (rp_ScoredOrders r) (rp_DirtyOrders r)
  (rp_dirtyByOrder r).
Definition set_PriceViolations (x : Z) (r : Report) : Report :=
  mkReport (rp_TotalFills r) (rp_ValidFills r) (rp_PhantomFills r) (rp_Overfills r) x
  (rp_TimeViolations r) (rp_CancelReplaceLosses r) (rp_SelfTrades r) (rp_MissedFills r)
  (rp_Violations r) (rp_totalViolations r) (rp_violationExamplesByType r) (rp_LostOrders r)
  (rp_LostCancels r) (rp_CaptureGaps r) (rp_Jitter r) (rp_T7ReorderLate r) (rp_T7Anomalies r)
  (rp_Tainted r) (rp_TaintReason r) (rp_ScoredFills r) (rp_ScoredOrders r) (rp_DirtyOrders r)
  (rp_dirtyByOrder r).
Definition set_TimeViolations (x : Z) (r : Report) : Report :=
  mkReport (rp_TotalFills r) (rp_ValidFills r) (rp_PhantomFills r) (rp_Overfills r)
  (rp_PriceViolations r) x (rp_CancelReplaceLosses r) (rp_SelfTrades r) (rp_MissedFills r)
  (rp_Violations r) (rp_totalViolations r) (rp_violationExamplesByType r) (rp_LostOrders r)
  (rp_LostCancels r) (rp_CaptureGaps r) (rp_Jitter r) (rp_T7ReorderLate r) (rp_T7Anomalies r)
  (rp_Tainted r) (rp_TaintReason r) (rp_ScoredFills r) (rp_ScoredOrders r) (rp_DirtyOrders r)
  (rp_dirtyByOrder r).
Definition set_CancelReplaceLosses (x : Z) (r : Report) : Report :=
  mkReport (rp_TotalFills r) (rp_ValidFills r) (rp_PhantomFills r) (rp_Overfills r)
  (rp_PriceViolations r) (rp_TimeViolations r) x (rp_SelfTrades r) (rp_MissedFills r)
  (rp_Violations r) (rp_totalViolations r) (rp_violationExamplesByType r) (rp_LostOrders r)
  (rp_LostCancels r) (rp_CaptureGaps r) (rp_Jitter r) (rp_T7ReorderLate r) (rp_T7Anomalies r)
  (rp_Tainted r) (rp_TaintReason r) (rp_ScoredFills r) (rp_ScoredOrders r) (rp_DirtyOrders r)
  (rp_dirtyByOrder r).
Definition set_SelfTrades (x : Z) (r : Report) : Report :=
  mkReport (rp_TotalFills r) (rp_ValidFills r) (rp_PhantomFills r) (rp_Overfills r)
  (rp_PriceViolations r) (rp_TimeViolations r) (rp_CancelReplaceLosses r) x (rp_MissedFills r)
  (rp_Violations r) (rp_totalViolations r) (rp_violationExamplesByType r) (rp_LostOrders r)
  (rp_LostCancels r) (rp_CaptureGaps r) (rp_Jitter r) (rp_T7ReorderLate r) (rp_T7Anomalies r)
  (rp_Tainted r) (rp_TaintReason r) (rp_ScoredFills r) (rp_ScoredOrders r) (rp_DirtyOrders r)
  (rp_dirtyByOrder r).
Definition set_MissedFills (x : Z) (r : Report) : Report :=
  mkReport (rp_TotalFills r) (rp_ValidFills r) (rp_PhantomFills r) (rp_Overfills r)
  (rp_PriceViolations r) (rp_TimeViolations r) (rp_CancelReplaceLosses r) (rp_SelfTrades r) x
  (rp_Violations r) (rp_totalViolations r) (rp_violationExamplesByType r) (rp_LostOrders r)
  (rp_LostCancels r) (rp_CaptureGaps r) (rp_Jitter r) (rp_T7ReorderLate r) (rp_T7Anomalies r)
  (rp_Tainted r) (rp_TaintReason r) (rp_ScoredFills r) (rp_ScoredOrders r) (rp_DirtyOrders r)
  (rp_dirtyByOrder r).
Definition set_Violations (x : list Violation) (r : Report) : Report :=
  mkReport (rp_TotalFills r) (rp_ValidFills r) (rp_PhantomFills r) (rp_Overfills r)
  (rp_PriceViolations r) (rp_TimeViolations r) (rp_CancelReplaceLosses r) (rp_SelfTrades r)
  (rp_MissedFills r) x (rp_totalViolations r) (rp_violationExamplesByType r) (rp_LostOrders r)
  (rp_LostCancels r) (rp_CaptureGaps r) (rp_Jitter r) (rp_T7ReorderLate r) (rp_T7Anomalies r)
  (rp_Tainted r) (rp_TaintReason r) (rp_ScoredFills r) (rp_ScoredOrders r) (rp_DirtyOrders r)
  (rp_dirtyByOrder r).
Definition set_totalViolations (x : Z) (r : Report) : Report :=
  mkReport (rp_TotalFills r) (rp_ValidFills r) (rp_PhantomFills r) (rp_Overfills r)
  (rp_PriceViolations r) (rp_TimeViolations r) (rp_CancelReplaceLosses r) (rp_SelfTrades r)
  (rp_MissedFills r) (rp_Violations r) x (rp_violationExamplesByType r) (rp_LostOrders r)
  (rp_LostCancels r) (rp_CaptureGaps r) (rp_Jitter r) (rp_T7ReorderLate r) (rp_T7Anomalies r)
  (rp_Tainted r) (rp_TaintReason r) (rp_ScoredFills r) (rp_ScoredOrders r) (rp_DirtyOrders r)
  (rp_dirtyByOrder r).
Definition set_violationExamplesByType (x : gmap ViolationType Z) (r : Report) : Report :=
  mkReport (rp_TotalFills r) (rp_ValidFills r) (rp_PhantomFills r) (rp_Overfills r)
  (rp_PriceViolations r) (rp_TimeViolations r) (rp_CancelReplaceLosses r) (rp_SelfTrades r)
  (rp_MissedFills r) (rp_Violations r) (rp_totalViolations r) x (rp_LostOrders r) (rp_LostCancels
  r) (rp_CaptureGaps r) (rp_Jitter r) (rp_T7ReorderLate r) (rp_T7Anomalies r) (rp_Tainted r)
  (rp_TaintReason r) (rp_ScoredFills r) (rp_ScoredOrders r) (rp_DirtyOrders r) (rp_dirtyByOrder
  r).
Definition set_LostOrders (x : Z) (r : Report) : Report :=
  mkReport (rp_TotalFills r) (rp_ValidFills r) (rp_PhantomFills r) (rp_Overfills r)
  (rp_PriceViolations r) (rp_TimeViolations r) (rp_CancelReplaceLosses r) (rp_SelfTrades r)
  (rp_MissedFills r) (rp_Violations r) (rp_totalViolations r) (rp_violationExamplesByType r) x
  (rp_LostCancels r) (rp_CaptureGaps r) (rp_Jitter r) (rp_T7ReorderLate r) (rp_T7Anomalies r)
  (rp_Tainted r) (rp_TaintReason r) (rp_ScoredFills r) (rp_ScoredOrders r) (rp_DirtyOrders r)
  (rp_dirtyByOrder r).
Definition set_LostCancels (x : Z) (r : Report) : Report :=
  mkReport (rp_TotalFills r) (rp_ValidFills r) (rp_PhantomFills r) (rp_Overfills r)
  (rp_PriceViolations r) (rp_TimeViolations r) (rp_CancelReplaceLosses r) (rp_SelfTrades r)
  (rp_MissedFills r) (rp_Violations r) (rp_totalViolations r) (rp_violationExamplesByType r)
  (rp_LostOrders r) x (rp_CaptureGaps r) (rp_Jitter r) (rp_T7ReorderLate r) (rp_T7Anomalies r)
  (rp_Tainted r) (rp_TaintReason r) (rp_ScoredFills r) (rp_ScoredOrders r) (rp_DirtyOrders r)
  (rp_dirtyByOrder r).
Definition set_CaptureGaps (x : Z) (r : Report) : Report :=
  mkReport (rp_TotalFills r) (rp_ValidFills r) (rp_PhantomFills r) (rp_Overfills r)
  (rp_PriceViolations r) (rp_TimeViolations r) (rp_CancelReplaceLosses r) (rp_SelfTrades r)
  (rp_MissedFills r) (rp_Violations r) (rp_totalViolations r) (rp_violationExamplesByType r)
  (rp_LostOrders r) (rp_LostCancels r) x (rp_Jitter r) (rp_T7ReorderLate r) (rp_T7Anomalies r)
  (rp_Tainted r) (rp_TaintReason r) (rp_ScoredFills r) (rp_ScoredOrders r) (rp_DirtyOrders r)
  (rp_dirtyByOrder r).
Definition set_Jitter (x : JitterStats) (r : Report) : Report :=
  mkReport (rp_TotalFills r) (rp_ValidFills r) (rp_PhantomFills r) (rp_Overfills r)
  (rp_PriceViolations r) (rp_TimeViolations r) (rp_CancelReplaceLosses r) (rp_SelfTrades r)
  (rp_MissedFills r) (rp_Violations r) (rp_totalViolations r) (rp_violationExamplesByType r)
  (rp_LostOrders r) (rp_LostCancels r) (rp_CaptureGaps r) x (rp_T7ReorderLate r) (rp_T7Anomalies
  r) (rp_Tainted r) (rp_TaintReason r) (rp_ScoredFills r) (rp_ScoredOrders r) (rp_DirtyOrders r)
  (rp_dirtyByOrder r).
Definition set_T7ReorderLate (x : Z) (r : Report) : Report :=
  mkReport (rp_TotalFills r) (rp_ValidFills r) (rp_PhantomFills r) (rp_Overfills r)
  (rp_PriceViolations r) (rp_TimeViolations r) (rp_CancelReplaceLosses r) (rp_SelfTrades r)
  (rp_MissedFills r) (rp_Violations r) (rp_totalViolations r) (rp_violationExamplesByType r)
  (rp_LostOrders r) (rp_LostCancels r) (rp_CaptureGaps r) (rp_Jitter r) x (rp_T7Anomalies r)
  (rp_Tainted r) (rp_TaintReason r) (rp_ScoredFills r) (rp_ScoredOrders r) (rp_DirtyOrders r)
  (rp_dirtyByOrder r).
Definition set_T7Anomalies (x : Z) (r : Report) : Report :=
  mkReport (rp_TotalFills r) (rp_ValidFills r) (rp_PhantomFills r) (rp_Overfills r)
  (rp_PriceViolations r) (rp_TimeViolations r) (rp_CancelReplaceLosses r) (rp_SelfTrades r)
  (rp_MissedFills r) (rp_Violations r) (rp_totalViolations r) (rp_violationExamplesByType r)
  (rp_LostOrders r) (rp_LostCancels r) (rp_CaptureGaps r) (rp_Jitter r) (rp_T7ReorderLate r) x
  (rp_Tainted r) (rp_TaintReason r) (rp_ScoredFills r) (rp_ScoredOrders r) (rp_DirtyOrders r)
  (rp_dirtyByOrder r).
Definition set_Tainted (x : bool) (r : Report) : Report :=
  mkReport (rp_TotalFills r) (rp_ValidFills r) (rp_PhantomFills r) (rp_Overfills r)
  (rp_PriceViolations r) (rp_TimeViolations r) (rp_CancelReplaceLosses r) (rp_SelfTrades r)
  (rp_MissedFills r) (rp_Violations r) (rp_totalViolations r) (rp_violationExamplesByType r)
  (rp_LostOrders r) (rp_LostCancels r) (rp_CaptureGaps r) (rp_Jitter r) (rp_T7ReorderLate r)
  (rp_T7Anomalies r) x (rp_TaintReason r) (rp_ScoredFills r) (rp_ScoredOrders r) (rp_DirtyOrders
  r) (rp_dirtyByOrder r).
Definition set_TaintReason (x : string) (r : Report) : Report :=
  mkReport (rp_TotalFills r) (rp_ValidFills r) (rp_PhantomFills r) (rp_Overfills r)
  (rp_PriceViolations r) (rp_TimeViolations r) (rp_CancelReplaceLosses r) (rp_SelfTrades r)
  (rp_MissedFills r) (rp_Violations r) (rp_totalViolations r) (rp_violationExamplesByType r)
  (rp_LostOrders r) (rp_LostCancels r) (rp_CaptureGaps r) (rp_Jitter r) (rp_T7ReorderLate r)
  (rp_T7Anomalies r) (rp_Tainted r) x (rp_ScoredFills r) (rp_ScoredOrders r) (rp_DirtyOrders r)
  (rp_dirtyByOrder r).
Definition set_ScoredFills (x : Z) (r : Report) : Report :=
  mkReport (rp_TotalFills r) (rp_ValidFills r) (rp_PhantomFills r) (rp_Overfills r)
  (rp_PriceViolations r) (rp_TimeViolations r) (rp_CancelReplaceLosses r) (rp_SelfTrades r)
  (rp_MissedFills r) (rp_Violations r) (rp_totalViolations r) (rp_violationExamplesByType r)
  (rp_LostOrders r) (rp_LostCancels r) (rp_CaptureGaps r) (rp_Jitter r) (rp_T7ReorderLate r)
  (rp_T7Anomalies r) (rp_Tainted r) (rp_TaintReason r) x (rp_ScoredOrders r) (rp_DirtyOrders r)
  (rp_dirtyByOrder r).
Definition set_ScoredOrders (x : Z) (r : Report) : Report :=
  mkReport (rp_TotalFills r) (rp_ValidFills r) (rp_PhantomFills r) (rp_Overfills r)
  (rp_PriceViolations r) (rp_TimeViolations r) (rp_CancelReplaceLosses r) (rp_SelfTrades r)
  (rp_MissedFills r) (rp_Violations r) (rp_totalViolations r) (rp_violationExamplesByType r)
  (rp_LostOrders r) (rp_LostCancels r) (rp_CaptureGaps r) (rp_Jitter r) (rp_T7ReorderLate r)
  (rp_T7Anomalies r) (rp_Tainted r) (rp_TaintReason r) (rp_ScoredFills r) x (rp_DirtyOrders r)
  (rp_dirtyByOrder r).
Definition set_DirtyOrders (x : Z) (r : Report) : Report :=
  mkReport (rp_TotalFills r) (rp_ValidFills r) (rp_PhantomFills r) (rp_Overfills r)
  (rp_PriceViolations r) (rp_TimeViolations r) (rp_CancelReplaceLosses r) (rp_SelfTrades r)
  (rp_MissedFills r) (rp_Violations r) (rp_totalViolations r) (rp_violationExamplesByType r)
  (rp_LostOrders r) (rp_LostCancels r) (rp_CaptureGaps r) (rp_Jitter r) (rp_T7ReorderLate r)
  (rp_T7Anomalies r) (rp_Tainted r) (rp_TaintReason r) (rp_ScoredFills r) (rp_ScoredOrders r) x
  (rp_dirtyByOrder r).
Definition set_dirtyByOrder (x : gset string) (r : Report) : Report :=
  mkReport (rp_TotalFills r) (rp_ValidFills r) (rp_PhantomFills r) (rp_Overfills r)
  (rp_PriceViolations r) (rp_TimeViolations r) (rp_CancelReplaceLosses r) (rp_SelfTrades r)
  (rp_MissedFills r) (rp_Violations r) (rp_totalViolations r) (rp_violationExamplesByType r)
  (rp_LostOrders r) (rp_LostCancels r) (rp_CaptureGaps r) (rp_Jitter r) (rp_T7ReorderLate r)
  (rp_T7Anomalies r) (rp_Tainted r) (rp_TaintReason r) (rp_ScoredFills r) (rp_ScoredOrders r)
  (rp_DirtyOrders r) x.

(** ** Operations *)

(** [x++] on a [uint64]. *)
Definition inc (x : Z) : Z := x +u64 1.

Definition maxViolationExamplesPerType : Z := 100.

Definition MarkDirty (orderID : string) (r : Report) : Report :=
  if decide (orderID ∈ rp_dirtyByOrder r) then r
  else
    let r := set_dirtyByOrder ({[orderID]} ∪ rp_dirtyByOrder r) r in
    set_DirtyOrders (inc (rp_DirtyOrders r)) r.

(** [clean] of [CorrectnessScore], and the ratio. *)
Definition cleanOrders (r : Report) : Z :=
  if rp_ScoredOrders r <? rp_DirtyOrders r then 0 else rp_ScoredOrders r -u64 rp_DirtyOrders r.

Definition CorrectnessScore (r : Report) : float64 :=
  if rp_ScoredOrders r =? 0 then f64 1
  else fdiv (f64 (cleanOrders r)) (f64 (rp_ScoredOrders r)).

Definition ViolationCount (r : Report) : Z := rp_totalViolations r.

Definition isFill (execType : string) (qty : Z) : bool :=
  (0 <? qty) && (bool_decide (execType = "1") || bool_decide (execType = "2") || bool_decide (execType = "F")).

(** [r.add(t, id, qty, price, detail)]. *)
Definition radd (t : ViolationType) (id : string) (qty price : Z) (detail : string) (r : Report) : Report :=
  let r := set_totalViolations (inc (rp_totalViolations r)) r in
  let r := MarkDirty id r in
  let n := default 0 (rp_violationExamplesByType r !! t) in
  if maxViolationExamplesPerType <=? n then r
  else
    let r := set_violationExamplesByType (<[t := n + 1]> (rp_violationExamplesByType r)) r in
    set_Violations (rp_Violations r ++ [mkViolation t id qty price detail]) r.

Definition flagJump {T} (e : Engine T) (o : Order) (jumper : string) (qty price : Z) (r : Report) : Report :=
  let r := set_TimeViolations (inc (rp_TimeViolations r)) r in
  if Repriced e (o_OrderID o) then
    let r := set_CancelReplaceLosses (inc (rp_CancelReplaceLosses r)) r in
    radd V_CancelReplaceLoss (o_OrderID o) qty price
      ("repriced order filled ahead of " +:+ jumper +:+
       ", which was already resting at the new level (lost time priority on REPLACE)") r
  else
    radd V_Time (o_OrderID o) qty price
      ("filled ahead of earlier same-price order " +:+ jumper +:+ " (time priority)") r.

Definition hasPrice (m : gset Z) (p : Z) : bool := bool_decide (p ∈ m).

(** ** What holds of every report *)

(** The violation classes, each counted exactly. *)
Definition classes (r : Report) : Z :=
  rp_Overfills r + rp_PriceViolations r + rp_TimeViolations r + rp_SelfTrades r +
  rp_MissedFills r + rp_LostOrders r + rp_LostCancels r.

Definition examples (t : ViolationType) (r : Report) : Z :=
  Z.of_nat (countb (fun v => bool_decide (vi_Type v = t)) (rp_Violations r)).

Record report_ok (r : Report) : Prop := {
  ok_total : rp_totalViolations r ≡64 classes r;
  ok_dirty : rp_DirtyOrders r = u64 (Z.of_nat (size (rp_dirtyByOrder r)));
  ok_examples t : default 0 (rp_violationExamplesByType r !! t) = examples t r;
  ok_capped t : examples t r <= maxViolationExamplesPerType;
}.

(** Everything but the violation bookkeeping. *)
Definition tallies (r : Report) :=
  (rp_TotalFills r, rp_ValidFills r, rp_PhantomFills r, rp_ScoredOrders r, rp_ScoredFills r,
   rp_CaptureGaps r, rp_T7ReorderLate r, rp_T7Anomalies r,
   (rp_Overfills r, rp_PriceViolations r, rp_TimeViolations r, rp_SelfTrades r,
    rp_MissedFills r, rp_LostOrders r, rp_LostCancels r)).

(** The bookkeeping of violations. *)
Definition books (r : Report) :=
  (rp_totalViolations r, rp_DirtyOrders r, rp_dirtyByOrder r, rp_violationExamplesByType r, rp_Violations r).

Lemma zeroReport_ok : report_ok zeroReport.
Proof. by split. Qed.

Lemma MarkDirty_spec id r :
  rp_dirtyByOrder (MarkDirty id r) = {[id]} ∪ rp_dirtyByOrder r /\
  tallies (MarkDirty id r) = tallies r /\ rp_totalViolations (MarkDirty id r) = rp_totalViolations r /\
  rp_violationExamplesByType (MarkDirty id r) = rp_violationExamplesByType r /\
  rp_Violations (MarkDirty id r) = rp_Violations r.
Proof. unfold MarkDirty. case_decide; split_and!; try done. set_solver. Qed.

Lemma MarkDirty_count id r :
  rp_DirtyOrders r = u64 (Z.of_nat (size (rp_dirtyByOrder r))) ->
  rp_DirtyOrders (MarkDirty id r) = u64 (Z.of_nat (size (rp_dirtyByOrder (MarkDirty id r)))).
Proof.
  intros H. unfold MarkDirty. case_decide; [done|]. simpl. rewrite H.
  rewrite size_union by set_solver. rewrite size_singleton. unfold inc.
  change (eq64 (u64 (Z.of_nat (size (rp_dirtyByOrder r))) + 1) (Z.of_nat (1 + size (rp_dirtyByOrder r)))).
  rewrite eq64_u64. apply eq64_refl. lia.
Qed.

Lemma radd_spec t id q p d r :
  tallies (radd t id q p d r) = tallies r /\
  rp_totalViolations (radd t id q p d r) = inc (rp_totalViolations r) /\
  rp_dirtyByOrder (radd t id q p d r) = {[id]} ∪ rp_dirtyByOrder r.
Proof.
  unfold radd. set (r1 := set_totalViolations _ r).
  destruct (MarkDirty_spec id r1) as (H1 & H2 & H3 & _).
  destruct (_ <=? _); simpl; rewrite ?H1, ?H3; split_and!; try done; by rewrite H2.
Qed.

Lemma radd_TotalFills t id q p d r : rp_TotalFills (radd t id q p d r) = rp_TotalFills r.
Proof. pose proof (proj1 (radd_spec t id q p d r)) as Htal. unfold tallies in Htal. congruence. Qed.

(** Recording a violation after its class counter has been advanced. *)
Lemma radd_ok t id q p d r0 r :
  report_ok r0 -> books r = books r0 -> classes r ≡64 classes r0 + 1 -> report_ok (radd t id q p d r).
Proof.
  intros [Ht Hd He Hc] Hb Hcl. unfold books in Hb. injection Hb as Hb1 Hb2 Hb3 Hb4 Hb5.
  destruct (radd_spec t id q p d r) as (Htal & Htot & _).
  assert (Hex : forall t', examples t' r = examples t' r0) by (intros; unfold examples; by rewrite Hb5).
  split.
  - rewrite Htot. assert (Hcr : classes (radd t id q p d r) = classes r).
    { unfold tallies in Htal. injection Htal. intros. unfold classes. congruence. }
    rewrite Hcr, Hcl, Hb1. unfold inc. by rewrite eq64_u64, Ht.
  - pose proof (MarkDirty_count id (set_totalViolations (inc (rp_totalViolations r)) r)) as Hm.
    simpl in Hm. rewrite Hb2, Hb3 in Hm. specialize (Hm Hd).
    unfold radd. destruct (_ <=? _); exact Hm.
  - intros t'. unfold radd. cbv zeta.
    set (r1 := MarkDirty id (set_totalViolations (inc (rp_totalViolations r)) r)).
    destruct (MarkDirty_spec id (set_totalViolations (inc (rp_totalViolations r)) r)) as (_ & _ & _ & H4 & H5).
    fold r1 in H4, H5. simpl in H4, H5.
    assert (Hex1 : examples t' r1 = examples t' r0) by (unfold examples; by rewrite H5, Hb5).
    rewrite H4, Hb4. destruct (_ <=? _); [by rewrite H4, Hb4, Hex1|]. simpl.
    unfold examples. simpl. rewrite countb_app, Nat2Z.inj_add. fold (examples t' r1). rewrite Hex1.
    rewrite ?H4, ?Hb4. destruct (decide (t = t')) as [->|Hne].
    + rewrite lookup_insert_eq. unfold countb. simpl. rewrite bool_decide_eq_true_2 by done.
      simpl. rewrite He. lia.
    + rewrite lookup_insert_ne by done. unfold countb. simpl. rewrite bool_decide_eq_false_2 by done.
      simpl. rewrite He. lia.
  - intros t'. unfold radd. cbv zeta.
    set (r1 := MarkDirty id (set_totalViolations (inc (rp_totalViolations r)) r)).
    destruct (MarkDirty_spec id (set_totalViolations (inc (rp_totalViolations r)) r)) as (_ & _ & _ & H4 & H5).
    fold r1 in H4, H5. simpl in H4, H5.
    assert (Hex1 : examples t' r1 = examples t' r0) by (unfold examples; by rewrite H5, Hb5).
    rewrite H4, Hb4, He. destruct (_ <=? _) eqn:Hcap; [by rewrite Hex1|]. zify_bool.
    unfold examples. simpl. rewrite countb_app, Nat2Z.inj_add. fold (examples t' r1). rewrite Hex1.
    unfold countb. simpl. case_bool_decide; simpl; [subst; lia|]. specialize (Hc t'). lia.
Qed.

(** A step that advances no violation class. *)
Lemma quiet_ok r0 r :
  report_ok r0 -> books r = books r0 -> classes r = classes r0 -> report_ok r.
Proof.
  intros [Ht Hd He Hc] Hb Hcl. unfold books in Hb. injection Hb as Hb1 Hb2 Hb3 Hb4 Hb5.
  assert (Hex : forall t', examples t' r = examples t' r0) by (intros; unfold examples; by rewrite Hb5).
  split; intros; rewrite ?Hb1, ?Hb2, ?Hb3, ?Hb4, ?Hcl, ?Hex; auto.
Qed.
