(* ===== verification/StreamVal.v ===== *)
(** * correctness-validator: [internal/validate/stream.go]

    Full mode: orders are fed, in replay order, to the reference book, and the
    fills the contestant reported for an order are compared with the reference
    fills the moment the order leaves the book, or at the end of the session.
    An order is known by its pointer and its (by now constant) contents. *)

From stdpp Require Import prelude gmap strings sorting.
From S2P Require Import Prelude GoSort Float64 Model Book Replay Report.

Open Scope Z_scope.

(** ** Data *)

(** [*model.Order]. *)
Record order_ref := mkORef { op_ptr : optr; op_o : Order }.

Record orderRef := mkOrderRef { or_qty : Z; or_prices : gset Z }.

Abbreviation levelKey := (Side * Z)%type.

Record shortedOrder := mkShorted { so_o : order_ref; so_seq : Z }.

Record shortedIndex := mkShortedIndex {
  si_byLevel : gmap (Side * Z) (list shortedOrder);
  si_ring : list shortedOrder;
  si_pos : nat;
}.

Definition shortedCapacity : nat := Z.to_nat (Z.shiftl 1 16).

Record StreamValidator (T : Type) := mkSV {
  sv_engine : Engine T;
  sv_pending : gmap string order_ref;
  sv_ref : gmap string orderRef;
  sv_shorted : shortedIndex;
  sv_captureGaps : Z;
  sv_rep : Report;
}.
Arguments mkSV {T}.
Arguments sv_engine {T}.
Arguments sv_pending {T}.
Arguments sv_ref {T}.
Arguments sv_shorted {T}.
Arguments sv_captureGaps {T}.
Arguments sv_rep {T}.

Definition DefaultCaptureGapTaintRate : float64 := flit 1 100.

Definition lostViolationType (k : Kind) : ViolationType :=
  if bool_decide (k = Cancel) then V_LostCancel else V_LostOrder.

Definition oppositeOf (s : Side) : Side := if bool_decide (s = Buy) then Sell else Buy.

(** ** The record of under-reported orders *)

Definition newShortedIndex : shortedIndex := mkShortedIndex ∅ [] 0.

Definition so_key (e : shortedOrder) : levelKey := (o_Side (op_o (so_o e)), o_Price (op_o (so_o e))).

(** Removal of the first entry with the order's pointer. *)
Fixpoint drop_ptr (p : optr) (lvl : list shortedOrder) : list shortedOrder :=
  match lvl with
  | [] => []
  | x :: lvl => if bool_decide (op_ptr (so_o x) = p) then lvl else x :: drop_ptr p lvl
  end.

Definition si_evict (e : shortedOrder) (s : shortedIndex) : shortedIndex :=
  let k := so_key e in
  let lvl := default [] (si_byLevel s !! k) in
  let byLevel := if existsb (fun x => bool_decide (op_ptr (so_o x) = op_ptr (so_o e))) lvl
                 then <[k := drop_ptr (op_ptr (so_o e)) lvl]> (si_byLevel s) else si_byLevel s in
  let byLevel := if bool_decide (default [] (byLevel !! k) = []) then delete k byLevel else byLevel in
  mkShortedIndex byLevel (si_ring s) (si_pos s).

(** [push], with the capacity as an argument. *)
Definition si_push_cap (cap : nat) (o : order_ref) (seq : Z) (s : shortedIndex) : shortedIndex :=
  let e := mkShorted o seq in
  let s :=
    if (length (si_ring s) <? cap)%nat then
      mkShortedIndex (si_byLevel s) (si_ring s ++ [e]) (si_pos s)
    else
      match si_ring s !! si_pos s with
      | None => s (* out of range: [pos] stays below the length of the ring *)
      | Some old =>
          let s := si_evict old s in
          mkShortedIndex (si_byLevel s) (<[si_pos s := e]> (si_ring s)) ((si_pos s + 1) mod cap)
      end in
  let k := so_key e in
  mkShortedIndex (<[k := default [] (si_byLevel s !! k) ++ [e]]> (si_byLevel s)) (si_ring s) (si_pos s).

Definition si_push : order_ref -> Z -> shortedIndex -> shortedIndex := si_push_cap shortedCapacity.

Definition si_at (side : Side) (price : Z) (s : shortedIndex) : list shortedOrder :=
  default [] (si_byLevel s !! (side, price)).

(** ** The validator *)

Section sv.
Context {T : Type} `{!BTreeG T} `{!SortSlice} `{!MapRange}.
Implicit Types (v : StreamValidator T).

Definition set_rep (r : Report) v : StreamValidator T :=
  mkSV (sv_engine v) (sv_pending v) (sv_ref v) (sv_shorted v) (sv_captureGaps v) r.
Definition set_engine (e : Engine T) v : StreamValidator T :=
  mkSV e (sv_pending v) (sv_ref v) (sv_shorted v) (sv_captureGaps v) (sv_rep v).
Definition set_pending (p : gmap string order_ref) v : StreamValidator T :=
  mkSV (sv_engine v) p (sv_ref v) (sv_shorted v) (sv_captureGaps v) (sv_rep v).
Definition set_ref (r : gmap string orderRef) v : StreamValidator T :=
  mkSV (sv_engine v) (sv_pending v) r (sv_shorted v) (sv_captureGaps v) (sv_rep v).
Definition set_shorted (s : shortedIndex) v : StreamValidator T :=
  mkSV (sv_engine v) (sv_pending v) (sv_ref v) s (sv_captureGaps v) (sv_rep v).

Definition NewStreamValidator : StreamValidator T :=
  mkSV NewEngine ∅ ∅ newShortedIndex 0 zeroReport.

(** The best candidate so far: id and sequence. *)
Definition consider (o : Order) (price mySeq : Z) (best : option (string * Z))
    (id : string) (other : Order) (otherSeq : Z) : option (string * Z) :=
  if bool_decide (id = o_OrderID o) || negb (bool_decide (o_Side other = o_Side o)) ||
     negb (o_Price other =? price) then best
  else if mySeq <=? otherSeq then best
  else if CrossFlowTie o other then best
  else
    match best with
    | None => Some (id, otherSeq)
    | Some (b, bestSeq) =>
        if (otherSeq <? bestSeq) || ((otherSeq =? bestSeq) && String.ltb id b)
        then Some (id, otherSeq) else best
    end.

Definition queueJump v (o : Order) (price : Z) : option string :=
  match SeqOf (sv_engine v) (o_OrderID o) with
  | None => None
  | Some mySeq =>
      let best := foldl (fun best '(id, other) =>
                    match SeqOf (sv_engine v) id with
                    | None => best
                    | Some otherSeq => consider o price mySeq best id (op_o other) otherSeq
                    end) None (map_range (map_to_list (sv_pending v))) in
      let best := foldl (fun best e =>
                    consider o price mySeq best (o_OrderID (op_o (so_o e))) (op_o (so_o e)) (so_seq e))
                    best (si_at (o_Side o) price (sv_shorted v)) in
      fst <$> best
  end.

Definition selfMatchedAgainstBook v (o : Order) (price : Z) : bool :=
  if negb (o_HasSMPID o) then false
  else RestingSMPMatch (sv_engine v) (oppositeOf (o_Side o)) price (o_SMPID o).

Definition classifyUnexplained v (o : Order) (price qty : Z) (detail : string) (r : Report) : Report :=
  if selfMatchedAgainstBook v o price then
    radd V_SelfTrade (o_OrderID o) qty price
      "filled against a resting order carrying the same self-match-prevention id"
      (set_SelfTrades (inc (rp_SelfTrades r)) r)
  else
    match queueJump v o price with
    | Some jumper => flagJump (sv_engine v) o jumper qty price r
    | None => radd V_Price (o_OrderID o) qty price detail (set_PriceViolations (inc (rp_PriceViolations r)) r)
    end.

(** One iteration of the loop over the responses. The report is the only part
    of the validator it assigns. *)
Definition scoreResponse v (o : Order) (ref : option orderRef) '(cumReported, r) (resp : Response)
    : Z * Report :=
  if negb (isFill (ExecType resp) (FillQty resp)) then (cumReported, r)
  else
    let r := set_TotalFills (inc (rp_TotalFills r)) r in
    let cumReported := cumReported +u64 FillQty resp in
    let price := i64 (FillPrice resp) in
    (cumReported,
     if o_Qty o <? cumReported then
       radd V_Overfill (o_OrderID o) (FillQty resp) price
         ("cumulative reported " +:+ fmt_d cumReported +:+ " exceeds order qty " +:+ fmt_d (o_Qty o))
         (set_Overfills (inc (rp_Overfills r)) r)
     else
       match ref with
       | None => classifyUnexplained v o price (FillQty resp)
                   "reference engine produced no fill for this order" r
       | Some ref =>
           if negb (hasPrice (or_prices ref) price) then
             classifyUnexplained v o price (FillQty resp)
               "reported fill price not produced by the reference engine for this order" r
           else if or_qty ref <? cumReported then
             classifyUnexplained v o price (FillQty resp)
               ("cumulative reported " +:+ fmt_d cumReported +:+ " exceeds reference fill qty " +:+
                fmt_d (or_qty ref)) r
           else set_ValidFills (inc (rp_ValidFills r)) r
       end).

Definition scoreOrder v (o : Order) (ref : option orderRef) : bool * Report :=
  let '(cumReported, r) := foldl (scoreResponse v o ref) (0, sv_rep v) (o_Responses o) in
  match ref with
  | Some rf =>
      if cumReported <? or_qty rf then
        (true, radd V_MissedFill (o_OrderID o) cumReported 0
                 ("reference engine filled " +:+ fmt_d (or_qty rf) +:+
                  " for this order; contestant reported " +:+ fmt_d cumReported)
                 (set_MissedFills (inc (rp_MissedFills r)) r))
      else (false, r)
  | None => (false, r)
  end.

Definition finalize v (id : string) : StreamValidator T :=
  match sv_pending v !! id with
  | None => v
  | Some o =>
      let v := set_pending (delete id (sv_pending v)) v in
      let ref := sv_ref v !! id in
      let v := set_ref (delete id (sv_ref v)) v in
      let '(shorted, r) := scoreOrder v (op_o o) ref in
      let v := set_rep r v in
      let v := if shorted then
                 match SeqOf (sv_engine v) id with
                 | Some seq => set_shorted (si_push o seq (sv_shorted v)) v
                 | None => v
                 end
               else v in
      set_engine (Forget (sv_engine v) id) v
  end.

(** The loop over the drained fills. *)
Definition addFill (m : gmap string orderRef) (f : Fill) : gmap string orderRef :=
  let r := default (mkOrderRef 0 ∅) (m !! f_OrderID f) in
  <[f_OrderID f := mkOrderRef (or_qty r +u64 f_Qty f) ({[f_Price f]} ∪ or_prices r)]> m.

Definition Apply v (o : order_ref) : StreamValidator T :=
  let id := o_OrderID (op_o o) in
  let v := set_rep (set_ScoredOrders (inc (rp_ScoredOrders (sv_rep v))) (sv_rep v)) v in
  let v := set_pending (<[id := o]> (sv_pending v)) v in
  let v := set_engine (Process (sv_engine v) (op_o o)) v in
  let '(fills, e) := DrainFills (sv_engine v) in
  let v := set_ref (foldl addFill (sv_ref v) fills) (set_engine e v) in
  let v := set_engine (DrainTrades (sv_engine v)).2 v in
  let '(evicted, e) := DrainEvicted (sv_engine v) in
  let v := foldl finalize (set_engine e v) evicted in
  if bool_decide (is_Some (sv_pending v !! id)) && negb (IsResting (sv_engine v) id)
  then finalize v id else v.

Definition AddPhantom v (_ : ReportedFill) : StreamValidator T :=
  set_rep (set_PhantomFills (inc (rp_PhantomFills (sv_rep v))) (sv_rep v)) v.

Definition AddCaptureGap v : StreamValidator T :=
  mkSV (sv_engine v) (sv_pending v) (sv_ref v) (sv_shorted v) (inc (sv_captureGaps v)) (sv_rep v).

(** The counting and flagging of an unanswered order, shared by both modes. *)
Definition countLost (kind : Kind) (r : Report) : Report :=
  if bool_decide (kind = Cancel) then set_LostCancels (inc (rp_LostCancels r)) r
  else set_LostOrders (inc (rp_LostOrders r)) r.

Definition addLostViolation (orderID : string) (kind : Kind) (r : Report) : Report :=
  radd (lostViolationType kind) orderID 0 0 "order/cancel sent but never received any response" r.

Definition AddLost v (orderID : string) (kind : Kind) : StreamValidator T :=
  let r := set_ScoredOrders (inc (rp_ScoredOrders (sv_rep v))) (sv_rep v) in
  set_rep (addLostViolation orderID kind (countLost kind r)) v.

(** The capture-loss taint at the end of [Finish], shared by both modes;
    [tail] is the last words of the reason. *)
Definition captureTaint (captureGaps : Z) (tail : string) (r : Report) : Report :=
  let r := set_CaptureGaps captureGaps r in
  let total := rp_ScoredOrders r +u64 captureGaps in
  if (0 <? total) && fltb DefaultCaptureGapTaintRate (fdiv (f64 captureGaps) (f64 total)) then
    set_TaintReason
      ("capture lost the responses for " +:+ fmt_d captureGaps +:+ " of " +:+ fmt_d total +:+
       " orders (" +:+ fmt_f 1 (fdiv (fmul (f64 100) (f64 captureGaps)) (f64 total)) +:+
       "%): the contestant answered them but no orders.acked record arrived, so they are excluded from " +:+ tail)
      (set_Tainted true r)
  else r.

Definition sv_Finish v : StreamValidator T * Report :=
  let rest := map snd (map_range (map_to_list (sv_pending v))) in
  let rest := sort_slice (fun a b => Less (op_o a) (op_o b)) rest in
  let v := foldl (fun v o => finalize v (o_OrderID (op_o o))) v rest in
  let r := set_ScoredFills (rp_TotalFills (sv_rep v)) (sv_rep v) in
  let r := captureTaint (sv_captureGaps v) "the score" r in
  (set_rep r v, r).

End sv.
