(* ===== verification/StreamProps.v ===== *)
(** * Full-mode validation: accounting and grading

    What the report of a session says about the session, whatever the
    contestant does: exact accounting, every order graded exactly once, and an
    order found dirty exactly when its reported fills differ from the
    reference's. *)

From stdpp Require Import prelude gmap strings sorting.
From S2P Require Import Prelude GoSort Float64 Model Book BTree Replay Report StreamVal.

Open Scope Z_scope.

(** ** Grading one order *)

(** The outcomes a reported fill is counted under. *)
Definition fill_classes (r : Report) : Z :=
  rp_ValidFills r + rp_Overfills r + rp_PriceViolations r + rp_TimeViolations r + rp_SelfTrades r.

Definition is_fill (resp : Response) : bool := isFill (ExecType resp) (FillQty resp).

Definition fill_count (o : Order) : Z := Z.of_nat (countb is_fill (o_Responses o)).

(** From [r] to [r'], one violation of order [id] is recorded, counted among
    the outcomes of fills when [b] is 1. *)
Record violates (id : string) (b : Z) (r r' : Report) : Prop := {
  vl_ok : report_ok r -> report_ok r';
  vl_total : rp_TotalFills r' = rp_TotalFills r;
  vl_fills : fill_classes r' ≡64 fill_classes r + b;
  vl_dirty : rp_dirtyByOrder r' = {[id]} ∪ rp_dirtyByOrder r;
  vl_scored : rp_ScoredOrders r' = rp_ScoredOrders r;
}.

Lemma violates_radd id b t q p d r r1 :
  books r1 = books r -> classes r1 ≡64 classes r + 1 -> rp_TotalFills r1 = rp_TotalFills r ->
  fill_classes r1 ≡64 fill_classes r + b -> rp_ScoredOrders r1 = rp_ScoredOrders r ->
  violates id b r (radd t id q p d r1).
Proof.
  intros Hb Hc Ht Hf Hs. destruct (radd_spec t id q p d r1) as (Htal & _ & Hd).
  assert (Hok : report_ok r -> report_ok (radd t id q p d r1)) by (intros Hr; by apply (radd_ok _ _ _ _ _ r)).
  unfold tallies in Htal. injection Htal. intros. unfold books in Hb. injection Hb as _ _ Hb3 _ _.
  split.
  - exact Hok.
  - congruence.
  - transitivity (fill_classes r1); [|done]. apply eq64_refl. unfold fill_classes. congruence.
  - by rewrite Hd, Hb3.
  - congruence.
Qed.

Ltac count_violation :=
  apply violates_radd; simpl; try done; unfold classes, fill_classes, inc; simpl; eq64_lia.

Section grading.
Context {T : Type} `{!BTreeG T} `{!SortSlice} `{!MapRange}.
Implicit Types (v : StreamValidator T).

Lemma flagJump_violates (e : Engine T) o j q p r : violates (o_OrderID o) 1 r (flagJump e o j q p r).
Proof. unfold flagJump. destruct (Repriced _ _); count_violation. Qed.

Lemma classify_violates v o price q d r : violates (o_OrderID o) 1 r (classifyUnexplained v o price q d r).
Proof.
  unfold classifyUnexplained. destruct (selfMatchedAgainstBook _ _ _); [count_violation|].
  destruct (queueJump _ _ _); [apply flagJump_violates|count_violation].
Qed.

(** What grading (part of) order [id] may do to the report: [n] fills are
    counted, each under one outcome. *)
Record graded (id : string) (n : Z) (r r' : Report) : Prop := {
  gr_ok : report_ok r -> report_ok r';
  gr_total : rp_TotalFills r' ≡64 rp_TotalFills r + n;
  gr_fills : fill_classes r' ≡64 fill_classes r + n;
  gr_dirty : rp_dirtyByOrder r ⊆ rp_dirtyByOrder r' ⊆ {[id]} ∪ rp_dirtyByOrder r;
  gr_scored : rp_ScoredOrders r' = rp_ScoredOrders r;
}.

Lemma graded_refl id r : graded id 0 r r.
Proof. split; try done; [by rewrite Z.add_0_r..|set_solver]. Qed.

Lemma graded_trans id n1 n2 r1 r2 r3 :
  graded id n1 r1 r2 -> graded id n2 r2 r3 -> graded id (n1 + n2) r1 r3.
Proof.
  intros [] []. split; [auto|..|congruence].
  - by rewrite gr_total1, gr_total0, Z.add_assoc.
  - by rewrite gr_fills1, gr_fills0, Z.add_assoc.
  - set_solver.
Qed.

Lemma violates_graded id r r' : violates id 0 r r' -> graded id 0 r r'.
Proof. intros []. split; try done; [by rewrite vl_total0, Z.add_0_r|set_solver]. Qed.

(** A counted fill that turned out wrong. *)
Lemma fill_violates id r r' :
  violates id 1 (set_TotalFills (inc (rp_TotalFills r)) r) r' -> graded id 1 r r'.
Proof.
  intros [Hok Ht Hf Hd Hs]. simpl in *. split; try done.
  - intros Hr. apply Hok. by apply (quiet_ok r).
  - rewrite Ht. unfold inc. eq64_lia.
  - set_solver.
Qed.

(** The outcome of one reported fill, with [cum] reported before it. *)
Definition fill_fine (o : Order) (ref : option orderRef) (cum : Z) (resp : Response) : bool :=
  (cum <=? o_Qty o) &&
  match ref with
  | None => false
  | Some rf => hasPrice (or_prices rf) (i64 (FillPrice resp)) && (cum <=? or_qty rf)
  end.

Lemma scoreResponse_spec v o ref cum r resp :
  let '(cum', r') := scoreResponse v o ref (cum, r) resp in
  if is_fill resp then
    cum' = cum +u64 FillQty resp /\ graded (o_OrderID o) 1 r r' /\
    rp_dirtyByOrder r' = (if fill_fine o ref cum' resp then ∅ else {[o_OrderID o]}) ∪ rp_dirtyByOrder r
  else cum' = cum /\ r' = r.
Proof.
  unfold scoreResponse, is_fill. destruct (isFill _ _); simpl; [|done]. split; [done|].
  set (cum' := cum +u64 FillQty resp). set (r1 := set_TotalFills _ r).
  assert (Hbad : forall r', violates (o_OrderID o) 1 r1 r' ->
            graded (o_OrderID o) 1 r r' /\
            rp_dirtyByOrder r' = {[o_OrderID o]} ∪ rp_dirtyByOrder r).
  { intros r' Hv. split; [by apply fill_violates|]. apply Hv. }
  unfold fill_fine. rewrite Z.leb_antisym. destruct (o_Qty o <? cum') eqn:Hq; simpl.
  { apply Hbad. count_violation. }
  destruct ref as [rf|]; [|apply Hbad, classify_violates].
  destruct (hasPrice _ _); simpl; [|apply Hbad, classify_violates].
  rewrite Z.leb_antisym. destruct (or_qty rf <? cum') eqn:Hr; simpl; [apply Hbad, classify_violates|].
  split; [|set_solver]. split; simpl; try done.
  - intros Hr0. by apply (quiet_ok r).
  - unfold inc. eq64_lia.
  - unfold fill_classes, inc. simpl. eq64_lia.
  - set_solver.
Qed.

(** The quantities reported by the fills among the responses. *)
Definition reported (rs : list Response) : Z := sumZ (map FillQty (List.filter is_fill rs)).

Definition fills_fine (o : Order) (ref : option orderRef) (cum : Z) (rs : list Response) : bool :=
  match List.filter is_fill rs with
  | [] => true
  | fs => (cum + reported rs <=? o_Qty o) &&
      match ref with
      | None => false
      | Some rf => forallb (fun f => hasPrice (or_prices rf) (i64 (FillPrice f))) fs &&
                   (cum + reported rs <=? or_qty rf)
      end
  end.

Lemma is_fill_pos resp : is_fill resp = true -> 0 < FillQty resp.
Proof. unfold is_fill, isFill. intros. by zify_bool. Qed.

Lemma reported_nonneg rs : 0 <= reported rs.
Proof.
  apply sumZ_nonneg, Forall_forall. intros x (resp & -> & Hr)%list_elem_of_fmap.
  apply list_elem_of_In, List.filter_In in Hr as [_ Hr]. apply is_fill_pos in Hr. lia.
Qed.

Lemma fills_fine_cons o ref cum resp rs :
  is_fill resp = true ->
  fills_fine o ref cum (resp :: rs) =
  fill_fine o ref (cum + FillQty resp) resp && fills_fine o ref (cum + FillQty resp) rs.
Proof.
  intros Hf. pose proof (reported_nonneg rs) as Hn. unfold fills_fine, fill_fine. simpl. rewrite Hf.
  assert (Hrep : reported (resp :: rs) = FillQty resp + reported rs).
  { unfold reported. simpl. by rewrite Hf. }
  rewrite Hrep. destruct (List.filter is_fill rs) as [|f fs] eqn:E.
  - assert (Hr0 : reported rs = 0) by (unfold reported; by rewrite E). rewrite Hr0.
    replace (cum + (FillQty resp + 0)) with (cum + FillQty resp) by lia.
    destruct ref; simpl; [|by rewrite andb_false_r]. rewrite !andb_true_r. done.
  - replace (cum + (FillQty resp + reported rs)) with (cum + FillQty resp + reported rs) by lia.
    set (c := cum + FillQty resp).
    destruct ref as [rf|]; simpl; [|by rewrite !andb_false_r].
    destruct (Z.leb_spec (c + reported rs) (o_Qty o)), (Z.leb_spec c (o_Qty o)); simpl; try lia;
      rewrite ?andb_false_r; try done.
    destruct (hasPrice (or_prices rf) (i64 (FillPrice resp))); simpl; [|done].
    destruct (Z.leb_spec (c + reported rs) (or_qty rf)), (Z.leb_spec c (or_qty rf)); simpl; try lia;
      rewrite ?andb_false_r, ?andb_true_r; done.
Qed.

Lemma scoreResponses_spec v o ref cum r rs :
  0 <= cum -> cum + reported rs < 2 ^ 64 ->
  let '(cum', r') := foldl (scoreResponse v o ref) (cum, r) rs in
  cum' = cum + reported rs /\ graded (o_OrderID o) (Z.of_nat (countb is_fill rs)) r r' /\
  rp_dirtyByOrder r' = (if fills_fine o ref cum rs then ∅ else {[o_OrderID o]}) ∪ rp_dirtyByOrder r.
Proof.
  revert cum r. induction rs as [|resp rs IH]; intros cum r Hc Hlt.
  { simpl. unfold reported, fills_fine, countb. simpl. split; [lia|]. split; [apply graded_refl|set_solver]. }
  cbn [foldl]. pose proof (scoreResponse_spec v o ref cum r resp) as H1.
  destruct (scoreResponse v o ref (cum, r) resp) as [cum1 r1].
  assert (Hrep : reported (resp :: rs) = (if is_fill resp then FillQty resp else 0) + reported rs).
  { unfold reported. simpl. by destruct (is_fill resp). }
  rewrite Hrep in *. pose proof (reported_nonneg rs).
  destruct (is_fill resp) eqn:Hf.
  - destruct H1 as (Hc1 & Hg1 & Hd1). pose proof (is_fill_pos _ Hf). rewrite u64_small in Hc1 by lia. subst cum1.
    specialize (IH (cum + FillQty resp) r1 ltac:(lia) ltac:(lia)).
    destruct (foldl _ (cum + FillQty resp, r1) rs) as [cum' r'].
    destruct IH as (-> & Hg & Hd). split; [lia|]. split.
    + assert (Hcnt : Z.of_nat (countb is_fill (resp :: rs)) = 1 + Z.of_nat (countb is_fill rs)).
      { unfold countb. simpl. rewrite Hf. simpl. lia. }
      rewrite Hcnt. by eapply graded_trans.
    + rewrite fills_fine_cons by done. rewrite Hd, Hd1.
      destruct (fill_fine _ _ _ _), (fills_fine _ _ _ _); simpl; set_solver.
  - destruct H1 as [-> ->]. specialize (IH cum r Hc ltac:(lia)).
    destruct (foldl _ (cum, r) rs) as [cum' r']. destruct IH as (-> & Hg & Hd). split; [lia|].
    assert (Hcnt : countb is_fill (resp :: rs) = countb is_fill rs) by (unfold countb; simpl; by rewrite Hf).
    assert (Hff : fills_fine o ref cum (resp :: rs) = fills_fine o ref cum rs).
    { unfold fills_fine. rewrite Hrep. simpl. by rewrite Hf. }
    by rewrite Hcnt, Hff.
Qed.

(** The reported fills of an order agree with the reference. *)
Definition faithful (o : Order) (ref : option orderRef) : Prop :=
  match ref with
  | None => List.filter is_fill (o_Responses o) = []
  | Some rf =>
      Forall (fun f => i64 (FillPrice f) ∈ or_prices rf) (List.filter is_fill (o_Responses o)) /\
      reported (o_Responses o) = or_qty rf /\
      (List.filter is_fill (o_Responses o) = [] \/ or_qty rf <= o_Qty o)
  end.

Lemma fills_fine_faithful o ref :
  0 <= match ref with Some rf => or_qty rf | None => 0 end ->
  (fills_fine o ref 0 (o_Responses o) = true /\
   match ref with Some rf => or_qty rf <= reported (o_Responses o) | None => True end)
  <-> faithful o ref.
Proof.
  intros Hq. unfold fills_fine, faithful.
  assert (Hp : forall rf fs, forallb (fun f => hasPrice (or_prices rf) (i64 (FillPrice f))) fs = true <->
            Forall (fun f => i64 (FillPrice f) ∈ or_prices rf) fs).
  { intros rf fs. rewrite forallb_forall, Forall_forall. unfold hasPrice.
    setoid_rewrite bool_decide_eq_true. split; intros Hx x; specialize (Hx x); by rewrite list_elem_of_In in *. }
  destruct (List.filter is_fill (o_Responses o)) as [|f fs] eqn:E.
  - assert (Hr0 : reported (o_Responses o) = 0) by (unfold reported; by rewrite E).
    rewrite Hr0. destruct ref as [rf|]; [|tauto]. split; [intros [_ ?]|intros (_ & ? & _)]; split_and!;
      auto; lia.
  - destruct ref as [rf|]; simpl.
    + change (forallb _ fs) with (forallb (fun f => hasPrice (or_prices rf) (i64 (FillPrice f))) fs).
      rewrite !andb_true_iff, !Z.leb_le, Forall_cons, Hp. unfold hasPrice. rewrite bool_decide_eq_true.
      split; [intros ((? & (? & ?) & ?) & ?)|intros ((? & ?) & ? & [?|?])]; split_and!; auto; try lia; done.
    + rewrite andb_false_r. split; [by intros [? _]|done].
Qed.

Lemma scoreResponses_graded v o ref cum r rs :
  graded (o_OrderID o) (Z.of_nat (countb is_fill rs)) r (foldl (scoreResponse v o ref) (cum, r) rs).2.
Proof.
  revert cum r. induction rs as [|resp rs IH]; intros cum r; [apply graded_refl|]. cbn [foldl].
  pose proof (scoreResponse_spec v o ref cum r resp) as H1.
  destruct (scoreResponse v o ref (cum, r) resp) as [cum1 r1].
  unfold countb. simpl. destruct (is_fill resp) eqn:Hf; simpl.
  - destruct H1 as (_ & Hg & _). rewrite Nat2Z.inj_succ, <-Z.add_1_l. eapply graded_trans; [exact Hg|apply IH].
  - destruct H1 as [-> ->]. apply IH.
Qed.

Lemma scoreOrder_graded v o ref : graded (o_OrderID o) (fill_count o) (sv_rep v) (scoreOrder v o ref).2.
Proof.
  unfold scoreOrder. pose proof (scoreResponses_graded v o ref 0 (sv_rep v) (o_Responses o)) as Hg.
  destruct (foldl _ _ _) as [cum r]. simpl in Hg.
  destruct ref as [rf|]; [|done]. destruct (cum <? or_qty rf); [|done]. simpl.
  rewrite <-(Z.add_0_r (fill_count o)). eapply graded_trans; [exact Hg|].
  apply violates_graded. count_violation.
Qed.

(** ** Sessions *)

(** What the event source calls on the validator. *)
Inductive event :=
  | EvApply (o : order_ref)
  | EvPhantom (f : ReportedFill)
  | EvGap
  | EvLost (orderID : string) (kind : Kind).

Definition step v (ev : event) : StreamValidator T :=
  match ev with
  | EvApply o => Apply v o
  | EvPhantom f => AddPhantom v f
  | EvGap => AddCaptureGap v
  | EvLost id kind => AddLost v id kind
  end.

Definition session (evs : list event) : Report :=
  (sv_Finish (foldl step NewStreamValidator evs)).2.

(** The ids of the orders a session grades, one per order. *)
Definition ev_ids (ev : event) : list string :=
  match ev with
  | EvApply o => [o_OrderID (op_o o)]
  | EvLost id _ => [id]
  | _ => []
  end.

Definition graded_ids (evs : list event) : list string := evs ≫= ev_ids.

(** The accounting invariant, with [ids] the orders seen so far. *)
Record acc (ids : list string) v : Prop := {
  ac_ok : report_ok (sv_rep v);
  ac_fills : rp_TotalFills (sv_rep v) ≡64 fill_classes (sv_rep v);
  ac_dirty : rp_dirtyByOrder (sv_rep v) ⊆ list_to_set ids;
  ac_scored : rp_ScoredOrders (sv_rep v) = u64 (Z.of_nat (length ids));
  ac_pending id o : sv_pending v !! id = Some o -> o_OrderID (op_o o) = id /\ id ∈ ids;
}.

Lemma finalize_spec v id :
  match sv_pending v !! id with
  | None => finalize v id = v
  | Some o =>
      sv_pending (finalize v id) = delete id (sv_pending v) /\
      sv_captureGaps (finalize v id) = sv_captureGaps v /\
      graded (o_OrderID (op_o o)) (fill_count (op_o o)) (sv_rep v) (sv_rep (finalize v id))
  end.
Proof.
  unfold finalize. destruct (sv_pending v !! id) as [o|]; [|done]. simpl.
  set (v1 := set_ref _ _).
  pose proof (scoreOrder_graded v1 (op_o o) (sv_ref v !! id)) as Hg.
  destruct (scoreOrder v1 (op_o o) (sv_ref v !! id)) as [sh r]. simpl in Hg.
  destruct sh; [destruct (SeqOf _ _)|]; split_and!; done.
Qed.

Lemma finalize_acc ids v id : acc ids v -> acc ids (finalize v id).
Proof.
  intros [Hok Hf Hd Hs Hp]. pose proof (finalize_spec v id) as H1.
  destruct (sv_pending v !! id) as [o|] eqn:Ho; [|by rewrite H1].
  destruct H1 as (Hpe & _ & [Gok Gt Gf Gd Gs]). destruct (Hp id o Ho) as [Hid Hin]. split.
  - by apply Gok.
  - by rewrite Gt, Gf, Hf.
  - rewrite Hid in Gd. etrans; [apply Gd|]. apply union_subseteq. split; [|done].
    apply singleton_subseteq_l, elem_of_list_to_set. done.
  - congruence.
  - intros id' o'. rewrite Hpe. intros [_ Hl]%lookup_delete_Some. by apply Hp.
Qed.

Lemma finalize_fold_acc ids v (l : list string) : acc ids v -> acc ids (foldl finalize v l).
Proof. revert v. induction l as [|id l IH]; simpl; auto using finalize_acc. Qed.

(** The engine side of [Apply] touches neither the report nor [pending]. *)
Definition ingest v (o : order_ref) : StreamValidator T * list string :=
  let id := o_OrderID (op_o o) in
  let e := Process (sv_engine v) (op_o o) in
  (mkSV (set_evicted [] (set_trades [] (set_fills [] e))) (<[id := o]> (sv_pending v))
     (foldl addFill (sv_ref v) (e_fills e)) (sv_shorted v) (sv_captureGaps v)
     (set_ScoredOrders (inc (rp_ScoredOrders (sv_rep v))) (sv_rep v)),
   e_evicted e).

Lemma Apply_ingest v o :
  Apply v o =
  let id := o_OrderID (op_o o) in
  let v := foldl finalize (ingest v o).1 (ingest v o).2 in
  if bool_decide (is_Some (sv_pending v !! id)) && negb (IsResting (sv_engine v) id)
  then finalize v id else v.
Proof. reflexivity. Qed.

Lemma acc_grow ids v v' id :
  acc ids v -> report_ok (sv_rep v') -> rp_TotalFills (sv_rep v') = rp_TotalFills (sv_rep v) ->
  fill_classes (sv_rep v') = fill_classes (sv_rep v) ->
  rp_dirtyByOrder (sv_rep v') ⊆ {[id]} ∪ rp_dirtyByOrder (sv_rep v) ->
  rp_ScoredOrders (sv_rep v') = inc (rp_ScoredOrders (sv_rep v)) ->
  (forall id' o, sv_pending v' !! id' = Some o ->
     sv_pending v !! id' = Some o \/ (id' = id /\ o_OrderID (op_o o) = id)) ->
  acc (ids ++ [id]) v'.
Proof.
  intros [Hok Hf Hd Hs Hp] Hok' Ht Hc Hd' Hs' Hp'. split; [done|by rewrite Ht, Hc| | |].
  - rewrite list_to_set_app_L. simpl. set_solver.
  - rewrite Hs', Hs, length_app. simpl. unfold inc.
    change (eq64 (u64 (Z.of_nat (length ids)) + 1) (Z.of_nat (length ids + 1))).
    rewrite eq64_u64. apply eq64_refl. lia.
  - intros id' o Ho. rewrite elem_of_app, list_elem_of_singleton.
    destruct (Hp' _ _ Ho) as [Hold|[-> ?]]; [|auto]. destruct (Hp _ _ Hold). auto.
Qed.

Lemma step_acc ids v ev : acc ids v -> acc (ids ++ ev_ids ev) (step v ev).
Proof.
  intros Ha. pose proof Ha as [Hok Hf Hd Hs Hp]. destruct ev as [o|f| |id kind]; simpl.
  - rewrite Apply_ingest. cbv zeta. set (v1 := (ingest v o).1).
    assert (Ha1 : acc (ids ++ [o_OrderID (op_o o)]) v1).
    { apply (acc_grow ids v); try done; simpl.
      - by apply (quiet_ok (sv_rep v)).
      - set_solver.
      - intros id' o'. rewrite lookup_insert_Some. naive_solver. }
    pose proof (finalize_fold_acc _ v1 (ingest v o).2 Ha1). destruct (_ && _); auto using finalize_acc.
  - rewrite app_nil_r. split; simpl; try done. by apply (quiet_ok (sv_rep v)).
  - rewrite app_nil_r. by split.
  - unfold AddLost. set (r0 := set_ScoredOrders (inc (rp_ScoredOrders (sv_rep v))) (sv_rep v)).
    set (r1 := countLost kind r0).
    assert (Hv : violates id 0 r0 (addLostViolation id kind r1)).
    { unfold addLostViolation, r1, countLost. destruct (bool_decide (kind = Cancel)); count_violation. }
    destruct Hv as [Vok Vt Vf Vd Vs]. apply (acc_grow ids v); simpl; try done.
    + apply Vok. by apply (quiet_ok (sv_rep v)).
    + unfold addLostViolation. destruct (radd_spec (lostViolationType kind) id 0 0
        "order/cancel sent but never received any response" r1) as (Htal & _).
      unfold tallies in Htal. injection Htal. intros. unfold fill_classes.
      assert (fill_classes r1 = fill_classes r0) as Hr1 by (unfold r1, countLost; by destruct (bool_decide _)).
      unfold fill_classes, r0 in Hr1. simpl in Hr1. lia.
    + rewrite Vd. done.
    + auto.
Qed.

Lemma run_acc ids v evs : acc ids v -> acc (ids ++ graded_ids evs) (foldl step v evs).
Proof.
  revert ids v. induction evs as [|ev evs IH]; intros ids v Ha; simpl; [by rewrite app_nil_r|].
  unfold graded_ids. simpl. rewrite app_assoc. apply IH. by apply step_acc.
Qed.

Lemma captureTaint_frame g t r :
  books (captureTaint g t r) = books r /\ rp_TotalFills (captureTaint g t r) = rp_TotalFills r /\
  classes (captureTaint g t r) = classes r /\ fill_classes (captureTaint g t r) = fill_classes r /\
  rp_ScoredOrders (captureTaint g t r) = rp_ScoredOrders r /\
  rp_ScoredFills (captureTaint g t r) = rp_ScoredFills r /\
  rp_DirtyOrders (captureTaint g t r) = rp_DirtyOrders r /\
  rp_dirtyByOrder (captureTaint g t r) = rp_dirtyByOrder r.
Proof. unfold captureTaint. by destruct (_ && _). Qed.

Lemma finish_acc ids v : acc ids v ->
  let r := (sv_Finish v).2 in
  report_ok r /\ rp_TotalFills r ≡64 fill_classes r /\ rp_ScoredFills r = rp_TotalFills r /\
  rp_dirtyByOrder r ⊆ list_to_set ids /\ rp_ScoredOrders r = u64 (Z.of_nat (length ids)).
Proof.
  intros Ha. unfold sv_Finish. simpl. set (rest := sort_slice _ _).
  assert (Ha' : acc ids (foldl (fun v o => finalize v (o_OrderID (op_o o))) v rest)).
  { clearbody rest. revert v Ha. induction rest; simpl; auto using finalize_acc. }
  set (v' := foldl _ v rest) in *. destruct Ha' as [Hok Hf Hd Hs _].
  destruct (captureTaint_frame (sv_captureGaps v') "the score"
    (set_ScoredFills (rp_TotalFills (sv_rep v')) (sv_rep v'))) as (H1 & H2 & H3 & H4 & H5 & H6 & _ & H8).
  rewrite H2, H4, H5, H6, H8. split_and!; try done.
  apply (quiet_ok (sv_rep v')); [done|by rewrite H1|by rewrite H3].
Qed.

Lemma new_acc : acc [] NewStreamValidator.
Proof. split; try done. Qed.

(** The report accounts for the session exactly, whatever is reported and
    however the book behaves: every counted fill has exactly one outcome, the
    violation total is the sum of the classes, each class keeps at most 100
    examples, only orders of the session are dirty, and one order is in the
    denominator per order applied or lost. (Counters are [uint64]: the
    equations hold modulo 2^64.) *)
Theorem stream_accounting evs :
  let r := session evs in
  rp_TotalFills r ≡64 fill_classes r /\ rp_ScoredFills r = rp_TotalFills r /\
  ViolationCount r ≡64 classes r /\
  (forall t, examples t r <= maxViolationExamplesPerType) /\
  rp_DirtyOrders r = u64 (Z.of_nat (size (rp_dirtyByOrder r))) /\
  rp_dirtyByOrder r ⊆ list_to_set (graded_ids evs) /\
  rp_ScoredOrders r = u64 (Z.of_nat (length (graded_ids evs))).
Proof.
  unfold session. destruct (finish_acc _ _ (run_acc _ _ evs new_acc)) as ([H1 H2 H3 H4] & H5 & H6 & H7 & H8).
  split_and!; done.
Qed.

(** The score's denominator is never smaller than its count of dirty
    orders, so the defensive clamp is never taken and the clean count is exact:
    the number of orders of the session minus the number of distinct orders
    that violated something. *)
Theorem score_well_defined evs :
  Z.of_nat (length (graded_ids evs)) < 2 ^ 64 ->
  let r := session evs in
  rp_DirtyOrders r <= rp_ScoredOrders r /\
  cleanOrders r = Z.of_nat (length (graded_ids evs)) - Z.of_nat (size (rp_dirtyByOrder r)).
Proof.
  intros Hlt. unfold session.
  destruct (finish_acc _ _ (run_acc _ _ evs new_acc)) as ([_ H2 _ _] & _ & _ & H7 & H8).
  change ([] ++ graded_ids evs) with (graded_ids evs) in H7, H8.
  set (r := (sv_Finish _).2) in *. cbv zeta.
  assert (Hsz : (size (rp_dirtyByOrder r) <= length (graded_ids evs))%nat).
  { etrans; [by apply subseteq_size|]. apply size_list_to_set_le. }
  rewrite u64_small in H8 by lia. rewrite u64_small in H2 by lia. unfold cleanOrders. rewrite H2, H8.
  split; [lia|]. rewrite (proj2 (Z.ltb_ge _ _)) by lia. apply u64_small. lia.
Qed.

(** The verdict on an order. Its grading leaves it clean exactly when the
    fills reported for it are the reference's: prices the reference traded it
    at, in total the reference quantity, within the order's own quantity; an
    order the reference never matched must report none. It becomes queue-jump
    evidence exactly when it was under-reported. *)
Theorem scoreOrder_verdict v o ref :
  0 <= match ref with Some rf => or_qty rf | None => 0 end -> reported (o_Responses o) < 2 ^ 64 ->
  let '(shorted, r) := scoreOrder v o ref in
  (faithful o ref -> rp_dirtyByOrder r = rp_dirtyByOrder (sv_rep v)) /\
  (~ faithful o ref -> o_OrderID o ∈ rp_dirtyByOrder r) /\
  (shorted = true <-> exists rf, ref = Some rf /\ reported (o_Responses o) < or_qty rf).
Proof.
  intros Hq Hlt. pose proof (fills_fine_faithful o ref Hq) as Hff. unfold scoreOrder.
  pose proof (scoreResponses_spec v o ref 0 (sv_rep v) (o_Responses o) ltac:(lia) Hlt) as Hs.
  destruct (foldl _ _ _) as [cum r]. destruct Hs as (-> & _ & Hd). rewrite Z.add_0_l.
  destruct ref as [rf|]; simpl in *.
  - destruct (Z.ltb_spec (reported (o_Responses o)) (or_qty rf)).
    + rewrite <-Hff. destruct (radd_spec V_MissedFill (o_OrderID o) (reported (o_Responses o)) 0
        ("reference engine filled " +:+ fmt_d (or_qty rf) +:+
         " for this order; contestant reported " +:+ fmt_d (reported (o_Responses o)))
        (set_MissedFills (inc (rp_MissedFills r)) r)) as (_ & _ & Hrd). rewrite Hrd. simpl. split_and!.
      * intros [_ ?]. lia.
      * set_solver.
      * naive_solver.
    + rewrite <-Hff, Hd. destruct (fills_fine _ _ _ _); split_and!; [set_solver|naive_solver|naive_solver lia
        |by intros [? _]|set_solver|naive_solver lia].
  - rewrite <-Hff, Hd. destruct (fills_fine _ _ _ _); split_and!; [set_solver|naive_solver|naive_solver
        |by intros [? _]|set_solver|naive_solver].
Qed.

End grading.

(** ** Every order is graded exactly once *)

Section once.
Context {T : Type} `{!BTreeG T} `{SortSliceLaws} `{MapRangeLaws}.
Implicit Types (v : StreamValidator T).

(** Fills reported for orders not graded yet. *)
Definition open_fills (m : gmap string order_ref) : Z :=
  sumZ (map (fun p => fill_count (op_o p.2)) (map_to_list m)).

Definition ev_orders (ev : event) : list order_ref := match ev with EvApply o => [o] | _ => [] end.
Definition applied (evs : list event) : list order_ref := evs ≫= ev_orders.

Lemma open_fills_insert m id o :
  m !! id = None -> open_fills (<[id := o]> m) = fill_count (op_o o) + open_fills m.
Proof.
  intros Hm. unfold open_fills.
  rewrite (sumZ_perm _ _ (Permutation_map _ (map_to_list_insert m id o Hm))). done.
Qed.

Lemma open_fills_delete m id o :
  m !! id = Some o -> open_fills m = fill_count (op_o o) + open_fills (delete id m).
Proof.
  intros Hm. unfold open_fills.
  rewrite (sumZ_perm _ _ (Permutation_map _ (Permutation_sym (map_to_list_delete m id o Hm)))). done.
Qed.

(** What is counted plus what is open. *)
Definition fills_seen v : Z := rp_TotalFills (sv_rep v) + open_fills (sv_pending v).

Lemma finalize_seen v id : fills_seen (finalize v id) ≡64 fills_seen v.
Proof.
  pose proof (finalize_spec v id) as Hs. destruct (sv_pending v !! id) as [o|] eqn:Ho; [|by rewrite Hs].
  destruct Hs as (Hp & _ & [_ Ht _ _ _]). unfold fills_seen.
  rewrite Hp, (open_fills_delete _ _ _ Ho), Ht. apply eq64_refl. lia.
Qed.

Lemma finalize_pending v id : sv_pending (finalize v id) = delete id (sv_pending v).
Proof.
  pose proof (finalize_spec v id) as Hs. destruct (sv_pending v !! id) as [o|] eqn:Ho.
  - by destruct Hs as (? & _).
  - by rewrite Hs, delete_id.
Qed.

Lemma finalizes_seen v l :
  fills_seen (foldl finalize v l) ≡64 fills_seen v /\
  sv_pending (foldl finalize v l) ⊆ sv_pending v /\
  (forall id, id ∈ l -> sv_pending (foldl finalize v l) !! id = None).
Proof.
  revert v. induction l as [|id l IH]; intros v; simpl.
  { split; [done|]. split; [done|]. by intros id ?%elem_of_nil. }
  destruct (IH (finalize v id)) as (H1s & H2s & H3s). rewrite finalize_pending in H2s.
  split; [by rewrite H1s, finalize_seen|].
  split; [etrans; [exact H2s|apply delete_subseteq]|].
  intros id' [->|Hin]%elem_of_cons; [|by apply H3s].
  eapply lookup_weaken_None; [|exact H2s]. apply lookup_delete_eq.
Qed.

Lemma step_seen v ev :
  (forall o, o ∈ ev_orders ev -> sv_pending v !! o_OrderID (op_o o) = None) ->
  fills_seen (step v ev) ≡64 fills_seen v + sumZ (map (fun o => fill_count (op_o o)) (ev_orders ev)) /\
  (forall id, is_Some (sv_pending (step v ev) !! id) ->
     is_Some (sv_pending v !! id) \/ id ∈ map (fun o => o_OrderID (op_o o)) (ev_orders ev)).
Proof.
  intros Hfr. destruct ev as [o|f| |id kind].
  - simpl. rewrite Apply_ingest. cbv zeta. set (v1 := (ingest v o).1).
    assert (Hv1 : fills_seen v1 = fills_seen v + (fill_count (op_o o) + 0)).
    { unfold fills_seen. simpl. rewrite open_fills_insert by (apply Hfr; left). lia. }
    destruct (finalizes_seen v1 (ingest v o).2) as (H1s & H2s & _).
    set (v2 := foldl finalize v1 _) in *.
    assert (Hp : forall id, is_Some (sv_pending v2 !! id) ->
              is_Some (sv_pending v !! id) \/ id ∈ [o_OrderID (op_o o)]).
    { intros id [x Hx]. pose proof (lookup_weaken _ _ _ _ Hx H2s) as Hx1.
      simpl in Hx1. apply lookup_insert_Some in Hx1 as [[<- _]|[_ ?]]; [right; left|left; by eexists]. }
    destruct (_ && _).
    + split; [by rewrite finalize_seen, H1s, Hv1|]. intros id. rewrite finalize_pending.
      intros [_ Hx]%lookup_delete_is_Some. by apply Hp.
    + split; [by rewrite H1s, Hv1|done].
  - simpl. split; [|by left]. unfold fills_seen. simpl. by rewrite Z.add_0_r.
  - simpl. split; [|by left]. unfold fills_seen. simpl. by rewrite Z.add_0_r.
  - simpl. split; [|by left]. unfold fills_seen. simpl. unfold addLostViolation.
    rewrite Z.add_0_r. apply eq64_refl. f_equal.
    rewrite radd_TotalFills.
    unfold countLost. by destruct (bool_decide _).
Qed.

Lemma run_seen v evs :
  NoDup (map (fun o => o_OrderID (op_o o)) (applied evs)) ->
  (forall o, o ∈ applied evs -> sv_pending v !! o_OrderID (op_o o) = None) ->
  fills_seen (foldl step v evs) ≡64 fills_seen v + sumZ (map (fun o => fill_count (op_o o)) (applied evs)).
Proof.
  revert v. induction evs as [|ev evs IH]; intros v Hnd Hfr; simpl; [by rewrite Z.add_0_r|].
  unfold applied in *. simpl in *. rewrite map_app in Hnd. apply NoDup_app in Hnd as (_ & Hdis & Hnd).
  destruct (step_seen v ev) as [Hs Hp].
  { intros o Ho. apply Hfr, elem_of_app. by left. }
  rewrite IH; [|done|].
  - rewrite Hs, map_app, sumZ_app. apply eq64_refl. lia.
  - intros o Ho. apply eq_None_not_Some. intros [Hold|Hin]%Hp.
    + rewrite Hfr in Hold; [by destruct Hold|]. apply elem_of_app. by right.
    + apply (Hdis _ Hin). apply list_elem_of_fmap. by exists o.
Qed.

(** No reported fill escapes grading and none is graded twice. When the
    applied orders have distinct ids, the fills counted by the end of the
    session are exactly the fills reported for them, over every order that
    traded, was cancelled or replaced, or still rested at the end. *)
Theorem every_fill_graded_once evs :
  NoDup (map (fun o => o_OrderID (op_o o)) (applied evs)) ->
  rp_TotalFills (@session T _ _ _ evs) ≡64 sumZ (map (fun o => fill_count (op_o o)) (applied evs)).
Proof.
  intros Hnd. pose proof (run_seen NewStreamValidator evs Hnd ltac:(done)) as Hseen.
  pose proof (run_acc _ _ evs (@new_acc T _)) as [_ _ _ _ Hkeys].
  unfold session, sv_Finish. set (v := foldl step _ evs) in *. simpl.
  set (rest := sort_slice _ _).
  assert (Hfold : foldl (fun v o => finalize v (o_OrderID (op_o o))) v rest
                  = foldl finalize v (map (fun o => o_OrderID (op_o o)) rest)).
  { generalize v. clear. induction rest; simpl; auto. }
  rewrite Hfold. destruct (finalizes_seen v (map (fun o => o_OrderID (op_o o)) rest)) as (H1s & H2s & H3s).
  set (v' := foldl finalize v _) in *.
  assert (Hempty : sv_pending v' = ∅).
  { apply map_empty. intros id. destruct (sv_pending v' !! id) as [o|] eqn:Ho; [|done].
    pose proof (lookup_weaken _ _ _ _ Ho H2s) as Hv. rewrite H3s in Ho; [done|].
    destruct (Hkeys _ _ Hv) as [<- _]. apply list_elem_of_fmap. exists o. split; [done|].
    unfold rest. rewrite (sort_slice_perm (H:=H)). apply list_elem_of_fmap. exists (o_OrderID (op_o o), o).
    split; [done|]. rewrite map_range_perm. by apply elem_of_map_to_list. }
  rewrite (proj1 (proj2 (captureTaint_frame _ _ _))). simpl.
  unfold fills_seen in H1s, Hseen. rewrite Hempty in H1s. rewrite Z.add_0_r in H1s.
  rewrite H1s, Hseen. done.
Qed.

End once.

(** ** The record of under-reported orders is a sliding window *)

Section shorted.
Context (cap : nat).
Hypothesis Hcap : (0 < cap)%nat.

Definition lastn (ps : list shortedOrder) : list shortedOrder := drop (length ps - cap) ps.

(** The ring read from its oldest entry. *)
Definition unrolled (s : shortedIndex) : list shortedOrder :=
  drop (si_pos s) (si_ring s) ++ take (si_pos s) (si_ring s).

Definition of_level (k : Side * Z) (l : list shortedOrder) : list shortedOrder :=
  filter (fun e => so_key e = k) l.

Record si_ok (ps : list shortedOrder) (s : shortedIndex) : Prop := {
  si_window : unrolled s = lastn ps;
  si_len : length (si_ring s) = Nat.min cap (length ps);
  si_pos_lt : (si_pos s < cap)%nat;
  si_pos_0 : (length (si_ring s) < cap)%nat -> si_pos s = 0%nat;
  si_levels k : default [] (si_byLevel s !! k) = of_level k (lastn ps);
}.

Lemma of_level_app k l1 l2 : of_level k (l1 ++ l2) = of_level k l1 ++ of_level k l2.
Proof. apply list.filter_app. Qed.

Lemma of_level_single k e : of_level k [e] = if decide (so_key e = k) then [e] else [].
Proof.
  unfold of_level. case_decide.
  - by rewrite list.filter_cons_True.
  - by rewrite list.filter_cons_False.
Qed.

Lemma lastn_short ps e : (length ps < cap)%nat -> lastn (ps ++ [e]) = lastn ps ++ [e].
Proof.
  intros Hl. unfold lastn. rewrite length_app. simpl.
  replace (length ps + 1 - cap)%nat with 0%nat by lia.
  replace (length ps - cap)%nat with 0%nat by lia. done.
Qed.

Lemma lastn_full ps e : (cap <= length ps)%nat ->
  exists old l, lastn ps = old :: l /\ lastn (ps ++ [e]) = l ++ [e].
Proof.
  intros Hl. unfold lastn. set (n := (length ps - cap)%nat).
  destruct (drop n ps) as [|old l] eqn:E.
  { apply (f_equal length) in E. rewrite length_drop in E. simpl in E. lia. }
  exists old, l. split; [done|]. rewrite length_app. simpl.
  replace (length ps + 1 - cap)%nat with (S n) by lia.
  rewrite drop_app_le by lia. f_equal.
  replace (S n) with (n + 1)%nat by lia. rewrite <-drop_drop, E. done.
Qed.

Lemma append_levels (m : gmap levelKey (list shortedOrder)) e l k :
  (forall k, default [] (m !! k) = of_level k l) ->
  default [] (<[so_key e := default [] (m !! so_key e) ++ [e]]> m !! k) = of_level k (l ++ [e]).
Proof.
  intros Hm. rewrite of_level_app, of_level_single. case_decide as Hk.
  - rewrite <-Hk, lookup_insert_eq. simpl. by rewrite Hm.
  - by rewrite lookup_insert_ne, Hm, app_nil_r.
Qed.

Lemma evict_levels s old l k :
  (forall k, default [] (si_byLevel s !! k) = of_level k (old :: l)) ->
  default [] (si_byLevel (si_evict old s) !! k) = of_level k l.
Proof.
  intros Hm. unfold si_evict. simpl.
  assert (Hlvl : default [] (si_byLevel s !! so_key old) = old :: of_level (so_key old) l).
  { rewrite Hm. unfold of_level. by rewrite list.filter_cons_True. }
  rewrite Hlvl. simpl. rewrite (bool_decide_eq_true_2 (op_ptr (so_o old) = op_ptr (so_o old)) eq_refl). simpl.
  rewrite lookup_insert_eq. simpl.
  assert (Hoth : so_key old <> k -> default [] (si_byLevel s !! k) = of_level k l).
  { intros Hne. rewrite Hm. unfold of_level. by rewrite list.filter_cons_False. }
  case_bool_decide as Hnil.
  - destruct (decide (so_key old = k)) as [<-|Hne].
    + rewrite lookup_delete_eq. by rewrite Hnil.
    + rewrite lookup_delete_ne, lookup_insert_ne by done. by apply Hoth.
  - destruct (decide (so_key old = k)) as [<-|Hne].
    + by rewrite lookup_insert_eq.
    + rewrite lookup_insert_ne by done. by apply Hoth.
Qed.

(** Overwriting the oldest slot and advancing is rotation. *)
Lemma unroll_push (ring : list shortedOrder) pos old e :
  length ring = cap -> (pos < cap)%nat -> ring !! pos = Some old ->
  let ring' := <[pos := e]> ring in let pos' := ((pos + 1) mod cap)%nat in
  drop pos ring ++ take pos ring = old :: (drop (S pos) ring ++ take pos ring) /\
  drop pos' ring' ++ take pos' ring' = (drop (S pos) ring ++ take pos ring) ++ [e].
Proof.
  intros Hlen Hpos Hold ring' pos'. split.
  - by rewrite (drop_S _ _ _ Hold).
  - assert (Hr' : ring' = take pos ring ++ e :: drop (S pos) ring).
    { apply insert_take_drop. lia. }
    assert (Htl : length (take pos ring) = pos) by (rewrite length_take; lia).
    unfold pos'. destruct (decide (pos + 1 = cap)%nat) as [Heq|Hne].
    + rewrite Heq, Nat.Div0.mod_same. simpl. rewrite app_nil_r, Hr'.
      rewrite (drop_ge ring (S pos)) by lia. done.
    + rewrite Nat.mod_small by lia. rewrite Hr'.
      replace (pos + 1)%nat with (length (take pos ring ++ [e])) by (rewrite length_app, Htl; simpl; lia).
      change (e :: drop (S pos) ring) with ([e] ++ drop (S pos) ring). rewrite app_assoc.
      rewrite drop_app_length, take_app_length. by rewrite app_assoc.
Qed.

Lemma push_ok ps s o seq :
  si_ok ps s -> si_ok (ps ++ [mkShorted o seq]) (si_push_cap cap o seq s).
Proof.
  intros [Hw Hl Hp Hp0 Hm]. set (e := mkShorted o seq). unfold si_push_cap. fold e.
  destruct (Nat.ltb_spec (length (si_ring s)) cap) as [Hlt|Hge].
  - specialize (Hp0 Hlt). assert (Hps : (length ps < cap)%nat) by lia.
    split; simpl; try done.
    + rewrite lastn_short by done. rewrite <-Hw. unfold unrolled. simpl. rewrite Hp0. simpl.
      by rewrite !app_nil_r.
    + rewrite !length_app. simpl. lia.
    + intros k. rewrite lastn_short by done. by apply append_levels.
  - assert (Hps : (cap <= length ps)%nat) by lia.
    destruct (lastn_full ps e Hps) as (old & l & Hold & Hnew).
    assert (Hring : length (si_ring s) = cap) by lia.
    destruct (lookup_lt_is_Some_2 (si_ring s) (si_pos s) ltac:(lia)) as [old' Hlk]. rewrite Hlk.
    destruct (unroll_push (si_ring s) (si_pos s) old' e Hring Hp Hlk) as [Hu1 Hu2].
    fold (unrolled s) in Hu1. rewrite Hw, Hold in Hu1. injection Hu1 as <- Hl'.
    assert (Hlv : forall k, default [] (si_byLevel (si_evict old s) !! k) = of_level k l).
    { intros k. apply evict_levels. intros k'. by rewrite Hm, Hold. }
    split; simpl.
    + rewrite Hnew. unfold unrolled. simpl. by rewrite Hu2, Hl'.
    + rewrite length_insert, length_app. simpl. lia.
    + apply Nat.mod_upper_bound. lia.
    + rewrite length_insert. lia.
    + intros k. rewrite Hnew. by apply append_levels.
Qed.

Lemma pushes_ok ps s0 ps0 :
  si_ok ps0 s0 ->
  si_ok (ps0 ++ ps) (foldl (fun s e => si_push_cap cap (so_o e) (so_seq e) s) s0 ps).
Proof.
  revert s0 ps0. induction ps as [|[o seq] ps IH]; intros s0 ps0 Hok; simpl; [by rewrite app_nil_r|].
  change (mkShorted o seq :: ps) with ([mkShorted o seq] ++ ps). rewrite app_assoc.
  apply IH. by apply push_ok.
Qed.

Lemma new_ok : si_ok [] newShortedIndex.
Proof. split; simpl; try done. unfold lastn. simpl. lia. Qed.

End shorted.

(** Queue-jump evidence. However many under-reported orders are recorded,
    at most 65536 are kept, and what is looked up for a price level is exactly
    the entries of that level among the last 65536 recorded, oldest first. *)
Theorem shorted_window ps side price :
  let s := foldl (fun s e => si_push (so_o e) (so_seq e) s) newShortedIndex ps in
  (length (si_ring s) <= shortedCapacity)%nat /\
  si_at side price s = of_level (side, price) (lastn shortedCapacity ps).
Proof.
  assert (Hc : (0 < shortedCapacity)%nat) by (unfold shortedCapacity; change (Z.shiftl 1 16) with 65536; lia).
  pose proof (pushes_ok shortedCapacity Hc ps _ [] (new_ok shortedCapacity Hc)) as [_ Hl _ _ Hm].
  unfold si_push. cbv zeta. rewrite Hl. split; [lia|]. unfold si_at. by rewrite Hm.
Qed.

(** ** A concrete session: the maker's fill is never reported. *)

Definition wire (p : optr) (id : string) (s : Side) (price qty : Z) (rs : list Response) : order_ref :=
  mkORef p (mkOrder id (mkFlow 1 (Z.pos p)) 0 0 (Z.pos p * 1000) s price qty NewLimit "" 0 false rs).

Definition ack : Response := mkResponse "0" 0 0 1.
Definition fill (q p : Z) : Response := mkResponse "2" q p 1.

Definition demo_events : list event :=
  [EvApply (wire 1 "a" Sell 100 5 [ack]); EvApply (wire 2 "b" Buy 100 5 [ack; fill 5 100]);
   EvLost "c" NewLimit; EvGap].

Definition demo_session : Report := @session ListTree _ SortSlice_stable MapRange_id demo_events.

Lemma score_well_defined_witness :
  rp_ScoredOrders demo_session = 3 /\ rp_dirtyByOrder demo_session = {["a"; "c"]} /\
  rp_DirtyOrders demo_session <= rp_ScoredOrders demo_session.
Proof.
  split; [vm_compute; reflexivity|]. split; [apply (bool_decide_unpack _); vm_compute; exact I|].
  apply (@score_well_defined ListTree _ SortSlice_stable MapRange_id demo_events).
  vm_compute. reflexivity.
Defined.

Lemma every_fill_graded_once_witness :
  rp_TotalFills demo_session = 1 /\
  rp_TotalFills demo_session ≡64 sumZ (map (fun o => fill_count (op_o o)) (applied demo_events)).
Proof.
  split; [vm_compute; reflexivity|].
  apply (@every_fill_graded_once ListTree _ SortSlice_stable SortSlice_stable_laws MapRange_id MapRange_id_laws).
  apply (bool_decide_unpack _). vm_compute. exact I.
Defined.

Lemma scoreOrder_verdict_witness :
  let o := op_o (wire 1 "a" Sell 100 5 [ack]) in
  "a" ∈ rp_dirtyByOrder (@scoreOrder ListTree _ MapRange_id NewStreamValidator o (Some (mkOrderRef 5 {[100]}))).2.
Proof.
  intros o.
  pose proof (@scoreOrder_verdict ListTree _ MapRange_id NewStreamValidator o (Some (mkOrderRef 5 {[100]}))
    ltac:(done) ltac:(vm_compute; reflexivity)) as Hw.
  destruct (scoreOrder _ _ _) as [sh r]. apply Hw. intros (_ & Hr & _). vm_compute in Hr. discriminate Hr.
Defined.
