(* ===== verification/Invariants.v ===== *)
(** * correctness-validator: [internal/validate/invariants.go]

    Pass-2 mode: no reference book. Per-order accounting, then per-flow FIFO
    and cross-flow priority checks on the orders in processing order, which a
    bounded reorder window on the first response time restores. *)

From stdpp Require Import prelude gmap strings sorting.
From S2P Require Import Prelude GoSort Float64 Model Replay Report StreamVal.

Open Scope Z_scope.

(** ** Constants *)

Definition DefaultCrossFlowWindowUs : Z := 500.
Definition DefaultT7ReorderWindow : Z := Z.shiftl 1 16.
Definition DefaultT7AnomalyCapNs : Z := 15000000000.
Definition DefaultLateTaintRate : float64 := flit 1 1000.

(** ** The inversion predicate *)

(** Results: is an inversion, is a violation, jitter. *)
Definition CrossFlowPredicate (t3ANs t3BNs windowUs : Z) : bool * bool * Z :=
  if t3BNs <=? t3ANs then (false, false, 0)
  else
    let jitterNs := t3BNs -u64 t3ANs in
    (true, windowUs *u64 1000 <? jitterNs, jitterNs).

Definition seqLE (a b : Z) : bool := (a =? b) || (i32 (a -u32 b) <? 0).

(** ** The jitter histogram *)

Record jitterHistogram := mkJitter { jh_buckets : list Z; jh_count : Z; jh_maxNs : Z }.

Definition newJitter : jitterHistogram := mkJitter (replicate 65 0) 0 0.

(** [bits.Len64]. *)
Definition Len64 (x : Z) : Z := if x =? 0 then 0 else Z.log2 x + 1.

Definition jh_record (ns : Z) (h : jitterHistogram) : jitterHistogram :=
  let idx := Z.to_nat (Len64 ns) in
  mkJitter (alter inc idx (jh_buckets h)) (inc (jh_count h))
    (if jh_maxNs h <? ns then ns else jh_maxNs h).

(** The scan for the bucket that holds the rank; [i] is the bucket's index. *)
Fixpoint percentile_scan (rank cum : Z) (i : Z) (buckets : list Z) (maxNs : Z) : Z :=
  match buckets with
  | [] => maxNs
  | c :: buckets =>
      let cum := cum +u64 c in
      if rank <? cum then (if i =? 0 then 0 else Z.shiftl 1 (i - 1))
      else percentile_scan rank cum (i + 1) buckets maxNs
  end.

Definition percentileNs (p : float64) (h : jitterHistogram) : Z :=
  if jh_count h =? 0 then 0
  else
    let rank := f_to_Z (fmul p (f64 (jh_count h -u64 1))) in
    percentile_scan rank 0 0 (jh_buckets h) (jh_maxNs h).

Definition jh_stats (totalProcessed : Z) (h : jitterHistogram) : JitterStats :=
  if jh_count h =? 0 then zeroJitter
  else
    let rate := if 0 <? totalProcessed then fdiv (f64 (jh_count h)) (f64 totalProcessed) else f64 0 in
    mkJitterStats (jh_count h) rate
      (fdiv (f64 (percentileNs (flit 50 100) h)) (f64 1000))
      (fdiv (f64 (percentileNs (flit 99 100) h)) (f64 1000))
      (fdiv (f64 (percentileNs (flit 999 1000) h)) (f64 1000))
      (fdiv (f64 (jh_maxNs h)) (f64 1000)).

(** ** The reorder window on the first response time *)

Record invRec := mkInvRec {
  ir_orderID : string;
  ir_flow : Flow;
  ir_tcpSeq : Z;
  ir_t3Ns : Z;
  ir_minT7Ns : Z;
}.

(** The callbacks [emit] and [late] are the caller's: [push] and [release]
    return what they are called with. *)
Record t7Reorderer := mkT7 {
  t7_window : Z;
  t7_buf : list invRec;
  t7_watermark : Z;
  t7_started : bool;
}.

Definition newT7Reorderer (window : Z) : t7Reorderer :=
  mkT7 (if window <? 1 then 1 else window) [] 0 false.

Definition sortInvRecs : list invRec -> list invRec :=
  sort_stable (fun a b => ir_minT7Ns a <? ir_minT7Ns b).

(** The watermark after emitting a record. *)
Definition t7_mark '(w, started) (rec : invRec) : Z * bool :=
  if (w <? ir_minT7Ns rec) || negb started then (ir_minT7Ns rec, true) else (w, started).

Definition t7_release (n : Z) (r : t7Reorderer) : t7Reorderer * list invRec :=
  if (n <=? 0) || bool_decide (t7_buf r = []) then (r, [])
  else
    let n := if Z.of_nat (length (t7_buf r)) <? n then length (t7_buf r) else Z.to_nat n in
    let buf := sortInvRecs (t7_buf r) in
    let '(w, started) := foldl t7_mark (t7_watermark r, t7_started r) (take n buf) in
    (mkT7 (t7_window r) (drop n buf) w started, take n buf).

(** The third component: [late] was called.  Twice the window is taken without
    wrap-around: a window is a buffer size, far below 2^62. *)
Definition t7_push (r : t7Reorderer) (rec : invRec) : t7Reorderer * list invRec * bool :=
  if t7_started r && (ir_minT7Ns rec <? t7_watermark r) then (r, [], true)
  else
    let r := mkT7 (t7_window r) (t7_buf r ++ [rec]) (t7_watermark r) (t7_started r) in
    if 2 * t7_window r <=? Z.of_nat (length (t7_buf r)) then (t7_release (t7_window r) r, false)
    else (r, [], false).

Definition t7_flush (r : t7Reorderer) : t7Reorderer * list invRec :=
  t7_release (Z.of_nat (length (t7_buf r))) r.

(** ** The validator *)

Record InvariantsValidator := mkIV {
  iv_windowUs : Z;
  iv_rep : Report;
  iv_win : t7Reorderer;
  iv_lastSeq : gmap Flow Z;
  iv_lastSeqSet : gmap Flow bool;
  iv_max1T3 : Z;
  iv_max2T3 : Z;
  iv_max1Flow : Flow;
  iv_max1Set : bool;
  iv_max2Set : bool;
  iv_jitter : jitterHistogram;
  iv_processed : Z;
  iv_anomalyCapNs : Z;
  iv_lateTaintRate : float64;
  iv_applied : Z;
  iv_captureGaps : Z;
}.

Definition NewInvariantsValidatorWithWindow (windowUs t7Window : Z) : InvariantsValidator :=
  let windowUs := if windowUs =? 0 then DefaultCrossFlowWindowUs else windowUs in
  let t7Window := if t7Window <=? 0 then DefaultT7ReorderWindow else t7Window in
  mkIV windowUs zeroReport (newT7Reorderer t7Window) ∅ ∅ 0 0 (mkFlow 0 0) false false newJitter 0
    DefaultT7AnomalyCapNs DefaultLateTaintRate 0 0.

Definition NewInvariantsValidator (windowUs : Z) : InvariantsValidator :=
  NewInvariantsValidatorWithWindow windowUs DefaultT7ReorderWindow.

Definition iv_set_rep (r : Report) (v : InvariantsValidator) : InvariantsValidator :=
  mkIV (iv_windowUs v) r (iv_win v) (iv_lastSeq v) (iv_lastSeqSet v) (iv_max1T3 v) (iv_max2T3 v)
    (iv_max1Flow v) (iv_max1Set v) (iv_max2Set v) (iv_jitter v) (iv_processed v)
    (iv_anomalyCapNs v) (iv_lateTaintRate v) (iv_applied v) (iv_captureGaps v).
Definition iv_set_win (w : t7Reorderer) (v : InvariantsValidator) : InvariantsValidator :=
  mkIV (iv_windowUs v) (iv_rep v) w (iv_lastSeq v) (iv_lastSeqSet v) (iv_max1T3 v) (iv_max2T3 v)
    (iv_max1Flow v) (iv_max1Set v) (iv_max2Set v) (iv_jitter v) (iv_processed v)
    (iv_anomalyCapNs v) (iv_lateTaintRate v) (iv_applied v) (iv_captureGaps v).
Definition iv_set_applied (n : Z) (v : InvariantsValidator) : InvariantsValidator :=
  mkIV (iv_windowUs v) (iv_rep v) (iv_win v) (iv_lastSeq v) (iv_lastSeqSet v) (iv_max1T3 v) (iv_max2T3 v)
    (iv_max1Flow v) (iv_max1Set v) (iv_max2Set v) (iv_jitter v) (iv_processed v)
    (iv_anomalyCapNs v) (iv_lateTaintRate v) n (iv_captureGaps v).

Definition SetT7AnomalyCapNs (capNs : Z) (v : InvariantsValidator) : InvariantsValidator :=
  if 0 <? capNs then
    mkIV (iv_windowUs v) (iv_rep v) (iv_win v) (iv_lastSeq v) (iv_lastSeqSet v) (iv_max1T3 v) (iv_max2T3 v)
      (iv_max1Flow v) (iv_max1Set v) (iv_max2Set v) (iv_jitter v) (iv_processed v)
      capNs (iv_lateTaintRate v) (iv_applied v) (iv_captureGaps v)
  else v.

Definition SetLateTaintRate (rate : float64) (v : InvariantsValidator) : InvariantsValidator :=
  if fltb (f64 0) rate then
    mkIV (iv_windowUs v) (iv_rep v) (iv_win v) (iv_lastSeq v) (iv_lastSeqSet v) (iv_max1T3 v) (iv_max2T3 v)
      (iv_max1Flow v) (iv_max1Set v) (iv_max2Set v) (iv_jitter v) (iv_processed v)
      (iv_anomalyCapNs v) rate (iv_applied v) (iv_captureGaps v)
  else v.

(** The running maxima of [onEmit]: [max1T3], [max1Flow], [max1Set], [max2T3],
    [max2Set]. *)
Record maxima := mkMaxima {
  mx_max1T3 : Z; mx_max1Flow : Flow; mx_max1Set : bool; mx_max2T3 : Z; mx_max2Set : bool }.

(** The largest arrival time processed so far on another flow. *)
Definition cand (m : maxima) (f : Flow) : Z * bool :=
  if mx_max1Set m && bool_decide (f = mx_max1Flow m) then (mx_max2T3 m, mx_max2Set m)
  else (mx_max1T3 m, mx_max1Set m).

Definition track (m : maxima) (f : Flow) (t3Ns : Z) : maxima :=
  if negb (mx_max1Set m) || (mx_max1T3 m <? t3Ns) then
    let '(max2T3, max2Set) :=
      if mx_max1Set m && negb (bool_decide (mx_max1Flow m = f)) &&
         (negb (mx_max2Set m) || (mx_max2T3 m <? mx_max1T3 m))
      then (mx_max1T3 m, true) else (mx_max2T3 m, mx_max2Set m) in
    mkMaxima t3Ns f true max2T3 max2Set
  else if negb (bool_decide (f = mx_max1Flow m)) && (negb (mx_max2Set m) || (mx_max2T3 m <? t3Ns)) then
    mkMaxima (mx_max1T3 m) (mx_max1Flow m) (mx_max1Set m) t3Ns true
  else m.

Definition iv_maxima (v : InvariantsValidator) : maxima :=
  mkMaxima (iv_max1T3 v) (iv_max1Flow v) (iv_max1Set v) (iv_max2T3 v) (iv_max2Set v).

(** The per-flow FIFO check. *)
Definition fifoCheck (v : InvariantsValidator) (rec : invRec) (r : Report) : Report :=
  if default false (iv_lastSeqSet v !! ir_flow rec) &&
     seqLE (ir_tcpSeq rec) (default 0 (iv_lastSeq v !! ir_flow rec)) then
    radd V_Time (ir_orderID rec) 0 0 "out-of-order TCPSeq within one flow"
      (set_TimeViolations (inc (rp_TimeViolations r)) r)
  else r.

(** The cross-flow check against the candidate. *)
Definition crossCheck (windowUs : Z) (m : maxima) (rec : invRec) (jr : jitterHistogram * Report)
    : jitterHistogram * Report :=
  let '(j, r) := jr in
  let '(candT3, candSet) := cand m (ir_flow rec) in
  if candSet then
    let '(isInv, violation, jitterNs) := CrossFlowPredicate (ir_t3Ns rec) candT3 windowUs in
    if isInv then
      (jh_record jitterNs j,
       if violation then
         radd V_Time (ir_orderID rec) 0 0 "cross-flow processed after a later-arriving order beyond window W"
           (set_TimeViolations (inc (rp_TimeViolations r)) r)
       else r)
    else (j, r)
  else (j, r).

Definition onEmit (v : InvariantsValidator) (rec : invRec) : InvariantsValidator :=
  let r := fifoCheck v rec (iv_rep v) in
  let '(j, r) := crossCheck (iv_windowUs v) (iv_maxima v) rec (iv_jitter v, r) in
  let m := track (iv_maxima v) (ir_flow rec) (ir_t3Ns rec) in
  mkIV (iv_windowUs v) r (iv_win v)
    (<[ir_flow rec := ir_tcpSeq rec]> (iv_lastSeq v)) (<[ir_flow rec := true]> (iv_lastSeqSet v))
    (mx_max1T3 m) (mx_max2T3 m) (mx_max1Flow m) (mx_max1Set m) (mx_max2Set m)
    j (inc (iv_processed v)) (iv_anomalyCapNs v) (iv_lateTaintRate v) (iv_applied v) (iv_captureGaps v).

Definition onLate (v : InvariantsValidator) : InvariantsValidator :=
  iv_set_rep (set_T7ReorderLate (inc (rp_T7ReorderLate (iv_rep v))) (iv_rep v)) v.

(** The loop of [Apply] over the fills. *)
Definition ownQtyCheck (o : Order) '(cumFilled, r) (resp : Response) : Z * Report :=
  if negb (isFill (ExecType resp) (FillQty resp)) then (cumFilled, r)
  else
    let r := set_TotalFills (inc (rp_TotalFills r)) r in
    let cumFilled := cumFilled +u64 FillQty resp in
    (cumFilled,
     if o_Qty o <? cumFilled then
       radd V_Overfill (o_OrderID o) (FillQty resp) (i64 (FillPrice resp))
         "cumulative reported fill qty exceeds order qty (book-free own-qty check)"
         (set_Overfills (inc (rp_Overfills r)) r)
     else set_ValidFills (inc (rp_ValidFills r)) r).

(** The loop of [Apply] over the response times: the smallest plausible one. *)
Definition minT7 (capNs : Z) (o : Order) '(best, r) (resp : Response) : option Z * Report :=
  if T7Ns resp =? 0 then (best, r)
  else if (T7Ns resp <? o_T3Ns o) || (capNs <? T7Ns resp -u64 o_T3Ns o) then
    (best, set_T7Anomalies (inc (rp_T7Anomalies r)) r)
  else
    (match best with
     | Some t => if T7Ns resp <? t then Some (T7Ns resp) else best
     | None => Some (T7Ns resp)
     end, r).

Definition iv_Apply (v : InvariantsValidator) (o : Order) : InvariantsValidator :=
  let '(_, r) := foldl (ownQtyCheck o) (0, iv_rep v) (o_Responses o) in
  let '(best, r) := foldl (minT7 (iv_anomalyCapNs v) o) (None, r) (o_Responses o) in
  match best with
  | None => iv_set_rep (countLost (o_Kind o) (addLostViolation (o_OrderID o) (o_Kind o) r)) v
  | Some minT7Ns =>
      let v := iv_set_rep r v in
      let v := iv_set_applied (inc (iv_applied v)) v in
      let '(w, emitted, late) :=
        t7_push (iv_win v) (mkInvRec (o_OrderID o) (o_Flow o) (o_TCPSeq o) (o_T3Ns o) minT7Ns) in
      let v := if late then onLate v else v in
      foldl onEmit (iv_set_win w v) emitted
  end.

Definition AddUnmatched (v : InvariantsValidator) (_ : string) (_ _ : Z) : InvariantsValidator :=
  iv_set_rep (set_PhantomFills (inc (rp_PhantomFills (iv_rep v))) (iv_rep v)) v.

Definition iv_AddCaptureGap (v : InvariantsValidator) : InvariantsValidator :=
  mkIV (iv_windowUs v) (iv_rep v) (iv_win v) (iv_lastSeq v) (iv_lastSeqSet v) (iv_max1T3 v) (iv_max2T3 v)
    (iv_max1Flow v) (iv_max1Set v) (iv_max2Set v) (iv_jitter v) (iv_processed v)
    (iv_anomalyCapNs v) (iv_lateTaintRate v) (iv_applied v) (inc (iv_captureGaps v)).

Definition iv_AddLost (v : InvariantsValidator) (orderID : string) (kind : Kind) : InvariantsValidator :=
  iv_set_rep (addLostViolation orderID kind (countLost kind (iv_rep v))) v.

Definition iv_Finish (v : InvariantsValidator) : InvariantsValidator * Report :=
  let '(w, emitted) := t7_flush (iv_win v) in
  let v := foldl onEmit (iv_set_win w v) emitted in
  let r := set_Jitter (jh_stats (iv_processed v) (iv_jitter v)) (iv_rep v) in
  let r := set_ScoredFills (rp_TotalFills r) r in
  let r := set_ScoredOrders (iv_applied v +u64 rp_LostOrders r +u64 rp_LostCancels r) r in
  let suspect := rp_T7ReorderLate r +u64 rp_T7Anomalies r in
  let r :=
    if (0 <? iv_applied v) && fltb (iv_lateTaintRate v) (fdiv (f64 suspect) (f64 (iv_applied v))) then
      set_TaintReason
        ("t7 stream unreliable: " +:+ fmt_d (rp_T7ReorderLate r) +:+ " late + " +:+
         fmt_d (rp_T7Anomalies r) +:+ " anomalous of " +:+ fmt_d (iv_applied v) +:+
         " orders exceeds rate " +:+ fmt_f 4 (iv_lateTaintRate v))
        (set_Tainted true r)
    else r in
  let r := captureTaint (iv_captureGaps v) "grading" r in
  (iv_set_rep r v, r).
