(* ===== verification/InvProps.v ===== *)
(** * Book-free validation: processing order, priority and jitter

    The reorder window, the constant-space cross-flow tracker and the
    constant-space histogram of pass-2 mode, each against the quadratic or
    unbounded definition it replaces. *)

From stdpp Require Import prelude gmap strings sorting.
From S2P Require Import Prelude GoSort Float64 Model Replay Report StreamVal StreamProps Invariants.

Open Scope Z_scope.

(** ** The reorder window *)

Definition t7_le (a b : invRec) : Prop := ir_minT7Ns a <= ir_minT7Ns b.

Lemma sortInvRecs_perm l : sortInvRecs l ≡ₚ l.
Proof. apply sort_stable_perm. Qed.

Lemma sortInvRecs_sorted l : StronglySorted t7_le (sortInvRecs l).
Proof.
  assert (Hs : sorted_by (fun a b => ir_minT7Ns a <? ir_minT7Ns b) (sortInvRecs l)).
  { apply (sort_stable_sorted (fun _ => True)); [|by apply Forall_forall].
    split; intros; rewrite ?Z.ltb_lt, ?Z.ltb_ge in *; lia. }
  eapply StronglySorted_impl_in; [|exact Hs]. intros a b _ _ Hab. apply Z.ltb_ge in Hab. exact Hab.
Qed.

(** A window with what it has emitted and rejected so far. *)
Record t7_run := mkT7Run { tr_win : t7Reorderer; tr_out : list invRec; tr_late : list invRec }.

Definition t7_step (s : t7_run) (rec : invRec) : t7_run :=
  let '(w, out, late) := t7_push (tr_win s) rec in
  mkT7Run w (tr_out s ++ out) (tr_late s ++ if late : bool then [rec] else []).

Definition t7_finish (s : t7_run) : t7_run :=
  let '(w, out) := t7_flush (tr_win s) in mkT7Run w (tr_out s ++ out) (tr_late s).

Definition t7_session (window : Z) (recs : list invRec) : t7_run :=
  t7_finish (foldl t7_step (mkT7Run (newT7Reorderer window) [] []) recs).

Record t7_ok (s : t7_run) : Prop := {
  t7_sorted : StronglySorted t7_le (tr_out s);
  t7_unstarted : t7_started (tr_win s) = false -> tr_out s = [];
  t7_behind rec : rec ∈ tr_out s -> ir_minT7Ns rec <= t7_watermark (tr_win s);
  t7_ahead rec : t7_started (tr_win s) = true -> rec ∈ t7_buf (tr_win s) ->
    t7_watermark (tr_win s) <= ir_minT7Ns rec;
  t7_win_pos : 1 <= t7_window (tr_win s);
  t7_bounded : Z.of_nat (length (t7_buf (tr_win s))) < 2 * t7_window (tr_win s);
}.

(** The watermark after emitting a sorted run that starts at or above it. *)
Lemma t7_mark_fold l w st :
  StronglySorted t7_le l -> (st = true -> forall rec, rec ∈ l -> w <= ir_minT7Ns rec) ->
  l <> [] ->
  let '(w', st') := foldl t7_mark (w, st) l in
  st' = true /\ (forall rec, rec ∈ l -> ir_minT7Ns rec <= w') /\ (exists rec, rec ∈ l /\ w' = ir_minT7Ns rec).
Proof.
  intros Hs. revert w st. induction Hs as [|x l Hs IH Hx]; intros w st Hw Hne; [done|]. clear Hne.
  rewrite Forall_forall in Hx. cbn [foldl].
  assert (Hm : t7_mark (w, st) x = (ir_minT7Ns x, true)).
  { unfold t7_mark. destruct st; simpl; [|by rewrite orb_true_r].
    rewrite orb_false_r. destruct (Z.ltb_spec w (ir_minT7Ns x)); [done|].
    specialize (Hw eq_refl x ltac:(left)). f_equal. lia. }
  rewrite Hm. destruct l as [|y l].
  { simpl. split; [done|]. split; [|by exists x; split; [left|]].
    intros rec ->%list_elem_of_singleton. lia. }
  specialize (IH (ir_minT7Ns x) true ltac:(intros _ rec Hr; by apply Hx) ltac:(done)).
  destruct (foldl t7_mark _ _) as [w' st']. destruct IH as (H1 & H2 & rec & Hrec & ->).
  split; [done|]. split; [|exists rec; split; [by right|done]].
  intros z [->|Hz]%elem_of_cons; [|by apply H2]. by apply Hx.
Qed.

Definition release_run (n : Z) (s : t7_run) : t7_run :=
  let '(w, out) := t7_release n (tr_win s) in mkT7Run w (tr_out s ++ out) (tr_late s).

(** The invariant but for the size of the buffer. *)
Record t7_core (s : t7_run) : Prop := {
  tc_sorted : StronglySorted t7_le (tr_out s);
  tc_unstarted : t7_started (tr_win s) = false -> tr_out s = [];
  tc_behind rec : rec ∈ tr_out s -> ir_minT7Ns rec <= t7_watermark (tr_win s);
  tc_ahead rec : t7_started (tr_win s) = true -> rec ∈ t7_buf (tr_win s) ->
    t7_watermark (tr_win s) <= ir_minT7Ns rec;
}.

Lemma release_run_spec n s :
  t7_core s ->
  t7_core (release_run n s) /\
  tr_out (release_run n s) ++ t7_buf (tr_win (release_run n s)) ≡ₚ tr_out s ++ t7_buf (tr_win s) /\
  tr_late (release_run n s) = tr_late s /\
  t7_window (tr_win (release_run n s)) = t7_window (tr_win s) /\
  length (t7_buf (tr_win (release_run n s))) = (length (t7_buf (tr_win s)) - Z.to_nat n)%nat.
Proof.
  intros C. pose proof C as [Hs Hu Hb Ha]. unfold release_run, t7_release.
  destruct ((n <=? 0) || bool_decide (t7_buf (tr_win s) = [])) eqn:Hc; simpl.
  { rewrite app_nil_r. split; [by destruct s|]. split_and!; try done.
    apply orb_true_iff in Hc as [Hc|Hc]; zify_bool; [lia|]. apply bool_decide_eq_true in Hc.
    by rewrite Hc. }
  apply orb_false_iff in Hc as [Hn0 Hne]. apply bool_decide_eq_false in Hne. zify_bool.
  set (k := if _ <? n then _ else _). set (buf := sortInvRecs (t7_buf (tr_win s))).
  assert (Hp : buf ≡ₚ t7_buf (tr_win s)) by apply sortInvRecs_perm.
  assert (Hlen : length buf = length (t7_buf (tr_win s))) by by rewrite Hp.
  assert (Hk : (1 <= k <= length buf)%nat /\ (length buf - k = length (t7_buf (tr_win s)) - Z.to_nat n)%nat).
  { unfold k. destruct (t7_buf (tr_win s)); [done|]. simpl in *. break_if; zify_bool; lia. }
  pose proof (sortInvRecs_sorted (t7_buf (tr_win s))) as Hsb. fold buf in Hsb.
  rewrite <-(take_drop k buf) in Hsb. apply StronglySorted_app_iff in Hsb as (Hs1 & Hs2 & Hs3).
  assert (Hsub : forall rec, rec ∈ take k buf -> rec ∈ t7_buf (tr_win s)).
  { intros rec Hr. rewrite <-Hp. eapply elem_of_sublist; [exact Hr|apply sublist_take]. }
  pose proof (t7_mark_fold (take k buf) (t7_watermark (tr_win s)) (t7_started (tr_win s)) Hs1) as Hm.
  destruct (foldl t7_mark _ _) as [w' st'].
  destruct Hm as (-> & Hle & last & Hlast & ->).
  { intros Hst rec Hr. by apply Ha; [|apply Hsub]. }
  { intros Hnil. apply (f_equal length) in Hnil. rewrite length_take in Hnil. simpl in Hnil. lia. }
  simpl. split.
  - split; simpl.
    + apply StronglySorted_app_iff. split_and!; [done..|]. intros a b Hina Hinb. unfold t7_le.
      destruct (t7_started (tr_win s)) eqn:Est.
      * etrans; [by apply Hb|]. by apply Ha; [|apply Hsub].
      * rewrite Hu in Hina by done. by apply elem_of_nil in Hina.
    + done.
    + intros rec [Hr|Hr]%elem_of_app; [|by apply Hle]. destruct (t7_started (tr_win s)) eqn:Est.
      * etrans; [by apply Hb|]. by apply Ha; [|apply Hsub].
      * rewrite Hu in Hr by done. by apply elem_of_nil in Hr.
    + intros rec _ Hr. by apply Hs3.
  - split_and!; try done.
    + rewrite <-app_assoc, take_drop, Hp. done.
    + rewrite length_drop. lia.
Qed.

Lemma t7_ok_core s : t7_ok s <-> t7_core s /\ 1 <= t7_window (tr_win s) /\
  Z.of_nat (length (t7_buf (tr_win s))) < 2 * t7_window (tr_win s).
Proof. split; [intros []; split_and!; try done; by split|intros ([] & ? & ?); by split]. Qed.

Lemma t7_step_ok s rec :
  t7_ok s -> t7_ok (t7_step s rec) /\
  (tr_out (t7_step s rec) ++ t7_buf (tr_win (t7_step s rec))) ++ tr_late (t7_step s rec)
  ≡ₚ ((tr_out s ++ t7_buf (tr_win s)) ++ tr_late s) ++ [rec] /\
  t7_window (tr_win (t7_step s rec)) = t7_window (tr_win s).
Proof.
  intros Hok. pose proof Hok as [Hs Hu Hb Ha Hw Hbd]. unfold t7_step, t7_push.
  destruct (_ && _) eqn:Hlate; simpl.
  { rewrite app_nil_r. split; [by destruct Hok; split|]. split; [by rewrite app_assoc|done]. }
  set (s1 := mkT7Run (mkT7 (t7_window (tr_win s)) (t7_buf (tr_win s) ++ [rec])
               (t7_watermark (tr_win s)) (t7_started (tr_win s))) (tr_out s) (tr_late s)).
  assert (C1 : t7_core s1).
  { split; simpl; try done. intros r Hst [Hr| ->%list_elem_of_singleton]%elem_of_app; [by apply Ha|].
    rewrite Hst in Hlate. simpl in Hlate. zify_bool. simpl. lia. }
  destruct (_ <=? _) eqn:Hfull; zify_bool; simpl.
  - pose proof (release_run_spec (t7_window (tr_win s)) s1 C1) as Hrel. unfold release_run in Hrel.
    simpl in Hrel. destruct (t7_release _ _) as [w out]. simpl in *.
    destruct Hrel as (C2 & Hp & Hl & Hwd & Hln).
    rewrite app_nil_r. split; [|split; [|done]].
    + apply t7_ok_core. simpl. split; [by destruct C2; split|]. rewrite Hwd, Hln.
      rewrite length_app in *. simpl in *. lia.
    + rewrite Hp. rewrite <-!app_assoc. f_equiv. f_equiv. apply Permutation_app_comm.
  - rewrite !app_nil_r. split; [|split; [|done]].
    + apply t7_ok_core. simpl. split; [by destruct C1; split|]. lia.
    + rewrite <-!app_assoc. f_equiv. f_equiv. apply Permutation_app_comm.
Qed.

Lemma t7_steps_ok s recs :
  t7_ok s -> t7_ok (foldl t7_step s recs) /\
  (tr_out (foldl t7_step s recs) ++ t7_buf (tr_win (foldl t7_step s recs))) ++ tr_late (foldl t7_step s recs)
  ≡ₚ ((tr_out s ++ t7_buf (tr_win s)) ++ tr_late s) ++ recs.
Proof.
  revert s. induction recs as [|rec recs IH]; intros s Hok; simpl; [by rewrite app_nil_r|].
  destruct (t7_step_ok s rec Hok) as (Hok1 & Hp1 & _). destruct (IH _ Hok1) as [Hok2 Hp2].
  split; [done|]. rewrite Hp2, Hp1, <-app_assoc. done.
Qed.

(** The processing-order window. Whatever the input order, records come
    out in non-decreasing order of first response time, every record is either
    emitted or counted late (never both, never neither), and fewer than twice
    the window are ever held. *)
Theorem t7_window_correct window recs :
  let s := t7_session window recs in
  StronglySorted t7_le (tr_out s) /\ tr_out s ++ tr_late s ≡ₚ recs /\
  forall n, Z.of_nat (length (t7_buf (tr_win
              (foldl t7_step (mkT7Run (newT7Reorderer window) [] []) (take n recs)))))
            < 2 * Z.max 1 window.
Proof.
  assert (H0 : t7_ok (mkT7Run (newT7Reorderer window) [] [])).
  { split; simpl; try done; try (destruct (Z.ltb_spec window 1); lia).
    - constructor.
    - intros rec Hr. by apply elem_of_nil in Hr. }
  assert (Hw : forall l, t7_window (tr_win (foldl t7_step (mkT7Run (newT7Reorderer window) [] []) l)) = Z.max 1 window).
  { intros l. assert (Hg : forall s, t7_ok s ->
              t7_window (tr_win (foldl t7_step s l)) = t7_window (tr_win s)).
    { induction l as [|r l IH]; intros s Hs; simpl; [done|].
      destruct (t7_step_ok s r Hs) as (Hs1 & _ & <-). by apply IH. }
    rewrite Hg by done. simpl. destruct (Z.ltb_spec window 1); lia. }
  split.
  - destruct (t7_steps_ok _ recs H0) as [Hok _]. unfold t7_session, t7_finish, t7_flush.
    set (s := foldl _ _ _) in *. apply t7_ok_core in Hok as (C & _).
    destruct (release_run_spec (Z.of_nat (length (t7_buf (tr_win s)))) s C) as ([? _ _ _] & _).
    unfold release_run in *. by destruct (t7_release _ _).
  - split.
    + destruct (t7_steps_ok _ recs H0) as [Hok Hp]. unfold t7_session, t7_finish, t7_flush.
      set (s := foldl _ _ _) in *. apply t7_ok_core in Hok as (C & _).
      destruct (release_run_spec (Z.of_nat (length (t7_buf (tr_win s)))) s C) as (_ & Hpr & Hl & _ & Hln).
      unfold release_run in *. destruct (t7_release _ _) as [w out]. simpl in *.
      assert (Hnil : t7_buf w = []) by (apply length_zero_iff_nil; lia).
      rewrite Hnil, app_nil_r in Hpr. rewrite Hpr. done.
    + intros n. rewrite <-(Hw (take n recs)). apply t7_steps_ok, H0.
Qed.

(** ** The cross-flow tracker *)

(** [c] is the largest arrival time among the records of [recs] on flows
    satisfying [P]; there is none when [set] is false. *)
Definition is_max (recs : list invRec) (P : Flow -> Prop) (c : Z) (set : bool) : Prop :=
  if set then
    (exists rec, rec ∈ recs /\ P (ir_flow rec) /\ ir_t3Ns rec = c) /\
    (forall rec, rec ∈ recs -> P (ir_flow rec) -> ir_t3Ns rec <= c)
  else forall rec, rec ∈ recs -> ~ P (ir_flow rec).

Definition maxima0 : maxima := mkMaxima 0 (mkFlow 0 0) false 0 false.
Definition track_rec (m : maxima) (rec : invRec) : maxima := track m (ir_flow rec) (ir_t3Ns rec).

Record maxima_ok (recs : list invRec) (m : maxima) : Prop := {
  mo_first : is_max recs (fun _ => True) (mx_max1T3 m) (mx_max1Set m);
  mo_flow : mx_max1Set m = true ->
    exists rec, rec ∈ recs /\ ir_flow rec = mx_max1Flow m /\ ir_t3Ns rec = mx_max1T3 m;
  mo_second : is_max recs (fun f => f <> mx_max1Flow m) (mx_max2T3 m) (mx_max2Set m) \/ mx_max1Set m = false;
  mo_none : mx_max1Set m = false -> mx_max2Set m = false;
}.

#[local] Arguments is_max : simpl never.

Lemma is_max_grow recs rec P c (set : bool) :
  is_max recs P c set -> P (ir_flow rec) ->
  is_max (recs ++ [rec]) P (if set then Z.max c (ir_t3Ns rec) else ir_t3Ns rec) true.
Proof.
  intros Hm HP. unfold is_max in *. destruct set.
  - destruct Hm as [(x & Hx & HPx & <-) Hle]. split.
    + destruct (Z.max_spec (ir_t3Ns x) (ir_t3Ns rec)) as [[_ ->]|[_ ->]].
      * exists rec. rewrite elem_of_app, list_elem_of_singleton. auto.
      * exists x. rewrite elem_of_app. auto.
    + intros y [Hy| ->%list_elem_of_singleton]%elem_of_app HPy; [|lia]. specialize (Hle y Hy HPy). lia.
  - split.
    + exists rec. rewrite elem_of_app, list_elem_of_singleton. auto.
    + intros y [Hy| ->%list_elem_of_singleton]%elem_of_app HPy; [|lia]. by destruct (Hm y Hy).
Qed.

Lemma is_max_keep recs rec P c (set : bool) :
  is_max recs P c set -> ~ P (ir_flow rec) -> is_max (recs ++ [rec]) P c set.
Proof.
  intros Hm HP. unfold is_max in *. destruct set.
  - destruct Hm as [(x & Hx & HPx & Hc) Hle]. split; [exists x; rewrite elem_of_app; auto|].
    intros y [Hy| ->%list_elem_of_singleton]%elem_of_app HPy; [auto|tauto].
  - intros y [Hy| ->%list_elem_of_singleton]%elem_of_app; auto.
Qed.

(** The overall maximum is also the maximum over any set of flows that
    contains the flow it was attained on. *)
Lemma is_max_restrict recs P c rec :
  is_max recs (fun _ => True) c true -> rec ∈ recs -> ir_t3Ns rec = c -> P (ir_flow rec) ->
  is_max recs P c true.
Proof. intros [_ Hle] Hin Hc HP. split; [by exists rec|]. intros; by apply Hle. Qed.

Lemma track_ok recs m rec : maxima_ok recs m -> maxima_ok (recs ++ [rec]) (track_rec m rec).
Proof.
  intros [H1 Hf H2 Hn]. unfold track_rec, track.
  pose proof (is_max_grow recs rec (fun _ => True) _ _ H1 I) as Hg.
  destruct (mx_max1Set m) eqn:E1; simpl in *.
  2:{ (* the first record *)
    assert (Hnil : forall x, x ∈ recs -> False) by (intros x Hx; by apply (H1 x Hx)).
    rewrite (Hn eq_refl). split; simpl; try done.
    - intros _. exists rec. rewrite elem_of_app, list_elem_of_singleton. auto.
    - left. intros x [Hx| ->%list_elem_of_singleton]%elem_of_app Hne; [by destruct (Hnil x)|done]. }
  destruct H2 as [H2|]; [|done]. destruct (Hf eq_refl) as (top & Htop & Hft & Htt).
  destruct (Z.ltb_spec (mx_max1T3 m) (ir_t3Ns rec)) as [Hgt|Hle].
  - (* a new overall maximum *)
    rewrite Z.max_r in Hg by lia.
    case_bool_decide as Hfl; simpl.
    + (* on the same flow: the second maximum stands *)
      split; simpl; try done.
      * intros _. exists rec. rewrite elem_of_app, list_elem_of_singleton. auto.
      * left. rewrite <-Hfl. by apply is_max_keep; [|rewrite Hfl; tauto].
    + (* on another flow: the old maximum is the new second *)
      assert (Hsec : is_max recs (fun f => f <> ir_flow rec) (mx_max1T3 m) true).
      { apply (is_max_restrict _ _ _ top H1 Htop Htt). congruence. }
      assert (Hval : (if negb (mx_max2Set m) || (mx_max2T3 m <? mx_max1T3 m)
                      then (mx_max1T3 m, true) else (mx_max2T3 m, mx_max2Set m)) = (mx_max1T3 m, true)).
      { destruct (mx_max2Set m); simpl; [|done]. destruct (Z.ltb_spec (mx_max2T3 m) (mx_max1T3 m)); [done|].
        destruct H2 as [(x & Hx & _ & Hx2) _]. destruct H1 as [_ H1]. specialize (H1 x Hx I). f_equal. lia. }
      rewrite Hval. split; simpl; try done.
      * intros _. exists rec. rewrite elem_of_app, list_elem_of_singleton. auto.
      * left. apply (is_max_keep _ _ _ _ true Hsec). tauto.
  - (* the overall maximum stands *)
    rewrite Z.max_l in Hg by lia.
    assert (Hfl' : exists x, x ∈ recs ++ [rec] /\ ir_flow x = mx_max1Flow m /\ ir_t3Ns x = mx_max1T3 m).
    { exists top. rewrite elem_of_app. auto. }
    case_bool_decide as Hfl; simpl.
    + split; rewrite ?E1; simpl; try done. left. apply is_max_keep; [done|tauto].
    + pose proof (is_max_grow recs rec _ _ _ H2 Hfl) as Hg2.
      destruct (mx_max2Set m) eqn:E2; simpl in *.
      * destruct (Z.ltb_spec (mx_max2T3 m) (ir_t3Ns rec)).
        -- rewrite Z.max_r in Hg2 by lia. split; simpl; rewrite ?E1; try done. by left.
        -- rewrite Z.max_l in Hg2 by lia. split; rewrite ?E1, ?E2; simpl; try done. by left.
      * split; simpl; rewrite ?E1; try done. by left.
Qed.

Lemma tracked_ok recs : maxima_ok recs (foldl track_rec maxima0 recs).
Proof.
  induction recs as [|rec recs IH] using rev_ind.
  - split; simpl; try done; [by intros rec ?%elem_of_nil|by right].
  - rewrite foldl_app. simpl. by apply track_ok.
Qed.

Lemma tracker_spec recs f :
  let '(c, set) := cand (foldl track_rec maxima0 recs) f in
  is_max recs (fun g => g <> f) c set.
Proof.
  destruct (tracked_ok recs) as [H1 Hf H2 Hn]. unfold cand.
  set (m := foldl _ _ _) in *. destruct (mx_max1Set m) eqn:E; simpl.
  - case_bool_decide as Hfl; [destruct H2 as [H2|]; [by subst|done]|].
    destruct (Hf eq_refl) as (x & Hx & Hfx & Hxt). apply (is_max_restrict _ _ _ x H1 Hx Hxt). congruence.
  - intros rec Hr _. by apply (H1 rec).
Qed.

(** The cross-flow check in constant space. After any sequence of
    processed orders, the two running maxima give, for every flow, the largest
    arrival time processed so far on any other flow, or none if there is none:
    a maximum on an order's own flow never masks one on another. *)
Theorem tracker_correct recs f :
  let '(c, set) := cand (foldl track_rec maxima0 recs) f in
  is_max recs (fun g => g <> f) c set.
Proof. apply tracker_spec. Qed.

(** ** What the emission loop counts *)

(** The last order processed on a flow. *)
Definition last_of (f : Flow) (pre : list invRec) : option invRec :=
  last (filter (fun r => ir_flow r = f) pre).

(** Declarative readings of the checks on [rec], with [pre] processed before. *)
Definition fifo_breach (pre : list invRec) (rec : invRec) : bool :=
  match last_of (ir_flow rec) pre with
  | Some l => seqLE (ir_tcpSeq rec) (ir_tcpSeq l)
  | None => false
  end.

(** Some order that arrived more than [w] later, on another flow, was processed first. *)
Definition overtaken (w : Z) (pre : list invRec) (rec : invRec) : bool :=
  existsb (fun x => negb (bool_decide (ir_flow x = ir_flow rec)) && (ir_t3Ns rec + w <? ir_t3Ns x)) pre.

Definition b2z (b : bool) : Z := if b then 1 else 0.

Fixpoint tally (f : list invRec -> invRec -> Z) (pre recs : list invRec) : Z :=
  match recs with
  | [] => 0
  | rec :: recs => f pre rec + tally f (pre ++ [rec]) recs
  end.

Lemma overtaken_max w pre rec c (set : bool) :
  is_max pre (fun g => g <> ir_flow rec) c set ->
  overtaken w pre rec = set && (ir_t3Ns rec + w <? c).
Proof.
  intros Hm. apply eq_iff_eq_true. unfold overtaken. rewrite existsb_exists, andb_true_iff, Z.ltb_lt.
  destruct set.
  - destruct Hm as [(x & Hx & Hf & <-) Hle]. split.
    + intros (y & Hy & Hy'). apply andb_true_iff in Hy' as [Hfy Hty].
      rewrite negb_true_iff, bool_decide_eq_false in Hfy. apply Z.ltb_lt in Hty.
      specialize (Hle y ltac:(by apply list_elem_of_In) Hfy). split; [done|lia].
    + intros [_ Ht]. exists x. split; [by apply list_elem_of_In|].
      rewrite bool_decide_eq_false_2 by done. by apply Z.ltb_lt.
  - split; [|by intros [? _]]. intros (y & Hy & Hy'). apply andb_true_iff in Hy' as [Hfy _].
    rewrite negb_true_iff, bool_decide_eq_false in Hfy.
    by destruct (Hm y ltac:(by apply list_elem_of_In)).
Qed.

(** The validator's state after processing [pre]. *)
Record emitted_ok (windowUs : Z) (pre : list invRec) (v : InvariantsValidator) : Prop := {
  eo_window : iv_windowUs v = windowUs;
  eo_maxima : iv_maxima v = foldl track_rec maxima0 pre;
  eo_lastSeq f : iv_lastSeq v !! f = ir_tcpSeq <$> last_of f pre;
  eo_lastSet f : iv_lastSeqSet v !! f = (fun _ => true) <$> last_of f pre;
}.

Lemma last_of_snoc f pre rec :
  last_of f (pre ++ [rec]) = if decide (ir_flow rec = f) then Some rec else last_of f pre.
Proof.
  unfold last_of. rewrite list.filter_app. case_decide.
  - rewrite list.filter_cons_True by done. by rewrite list.filter_nil, last_snoc.
  - rewrite list.filter_cons_False by done. by rewrite list.filter_nil, app_nil_r.
Qed.

Lemma onEmit_state w pre v rec : emitted_ok w pre v -> emitted_ok w (pre ++ [rec]) (onEmit v rec).
Proof.
  intros [Hw Hm H1 H2]. unfold onEmit.
  destruct (crossCheck _ _ _ _) as [j r]. split; simpl.
  - done.
  - rewrite foldl_app. simpl. rewrite <-Hm. unfold track_rec. by destruct (track _ _ _).
  - intros f. rewrite last_of_snoc. case_decide; subst; [by rewrite lookup_insert_eq|].
    by rewrite lookup_insert_ne, H1.
  - intros f. rewrite last_of_snoc. case_decide; subst; [by rewrite lookup_insert_eq|].
    by rewrite lookup_insert_ne, H2.
Qed.

Lemma radd_TimeViolations t id q p d r : rp_TimeViolations (radd t id q p d r) = rp_TimeViolations r.
Proof. pose proof (proj1 (radd_spec t id q p d r)) as Htal. unfold tallies in Htal. congruence. Qed.

Lemma fifoCheck_count w pre v rec r :
  emitted_ok w pre v ->
  rp_TimeViolations (fifoCheck v rec r) ≡64 rp_TimeViolations r + b2z (fifo_breach pre rec).
Proof.
  intros [_ _ H1 H2]. unfold fifoCheck, fifo_breach. rewrite H1, H2.
  destruct (last_of (ir_flow rec) pre) as [l|]; simpl; [|by rewrite Z.add_0_r].
  destruct (seqLE _ _); simpl; [|by rewrite Z.add_0_r]. rewrite radd_TimeViolations. simpl.
  unfold inc. eq64_lia.
Qed.

Lemma crossCheck_count w pre v rec j r :
  emitted_ok w pre v -> 0 <= w * 1000 < 2 ^ 64 -> 0 <= ir_t3Ns rec ->
  Forall (fun x => ir_t3Ns x < 2 ^ 64) pre ->
  let '(j', r') := crossCheck (iv_windowUs v) (iv_maxima v) rec (j, r) in
  rp_TimeViolations r' ≡64 rp_TimeViolations r + b2z (overtaken (w * 1000) pre rec) /\
  jh_count j' ≡64 jh_count j + b2z (overtaken 0 pre rec).
Proof.
  intros [Hw Hm _ _] Hwr Ht HF. unfold crossCheck. rewrite Hm, Hw.
  pose proof (tracker_spec pre (ir_flow rec)) as Hmax.
  destruct (cand _ _) as [c set].
  rewrite !(overtaken_max _ pre rec c set Hmax). destruct set; simpl; [|by rewrite !Z.add_0_r].
  rewrite Z.add_0_r.
  assert (Hc : c < 2 ^ 64).
  { destruct Hmax as [(x & Hx & _ & <-) _]. rewrite Forall_forall in HF. by apply HF. }
  unfold CrossFlowPredicate. rewrite (u64_small (w * 1000)) by lia.
  destruct (Z.leb_spec c (ir_t3Ns rec)).
  - rewrite (proj2 (Z.ltb_ge _ c)), (proj2 (Z.ltb_ge _ c)) by lia. simpl. by rewrite !Z.add_0_r.
  - rewrite u64_small by lia. rewrite (proj2 (Z.ltb_lt (ir_t3Ns rec) c)) by lia.
    replace (w * 1000 <? c - ir_t3Ns rec) with (ir_t3Ns rec + w * 1000 <? c).
    2:{ destruct (Z.ltb_spec (ir_t3Ns rec + w * 1000) c), (Z.ltb_spec (w * 1000) (c - ir_t3Ns rec)); lia. }
    destruct (_ + _ <? c); simpl; split.
    + rewrite radd_TimeViolations. simpl. unfold inc. eq64_lia.
    + unfold inc. eq64_lia.
    + by rewrite Z.add_0_r.
    + unfold inc. eq64_lia.
Qed.

Lemma onEmit_count w pre v rec :
  emitted_ok w pre v -> 0 <= w * 1000 < 2 ^ 64 -> 0 <= ir_t3Ns rec ->
  Forall (fun x => ir_t3Ns x < 2 ^ 64) pre ->
  rp_TimeViolations (iv_rep (onEmit v rec)) ≡64
    rp_TimeViolations (iv_rep v) + (b2z (fifo_breach pre rec) + b2z (overtaken (w * 1000) pre rec)) /\
  jh_count (iv_jitter (onEmit v rec)) ≡64 jh_count (iv_jitter v) + b2z (overtaken 0 pre rec) /\
  iv_processed (onEmit v rec) ≡64 iv_processed v + 1.
Proof.
  intros Hok Hwr Ht HF. unfold onEmit.
  pose proof (crossCheck_count w pre v rec (iv_jitter v) (fifoCheck v rec (iv_rep v)) Hok Hwr Ht HF) as Hc.
  destruct (crossCheck _ _ _ _) as [j r]. simpl. destruct Hc as [Hc1 Hc2]. split_and!.
  - rewrite Hc1, (fifoCheck_count w pre) by done. apply eq64_refl. lia.
  - done.
  - unfold inc. eq64_lia.
Qed.

Lemma emits_count w pre v recs :
  0 <= w * 1000 < 2 ^ 64 -> Forall (fun x => 0 <= ir_t3Ns x < 2 ^ 64) recs ->
  Forall (fun x => 0 <= ir_t3Ns x < 2 ^ 64) pre -> emitted_ok w pre v ->
  let v' := foldl onEmit v recs in
  rp_TimeViolations (iv_rep v') ≡64 rp_TimeViolations (iv_rep v) +
    tally (fun pre rec => b2z (fifo_breach pre rec) + b2z (overtaken (w * 1000) pre rec)) pre recs /\
  jh_count (iv_jitter v') ≡64 jh_count (iv_jitter v) + tally (fun pre rec => b2z (overtaken 0 pre rec)) pre recs.
Proof.
  intros Hw HF. revert pre v.
  induction HF as [|rec recs Hr HF IH]; intros pre v Hpre Hok; simpl; [by rewrite !Z.add_0_r|].
  destruct (onEmit_count w pre v rec Hok Hw ltac:(lia)) as (Hc1 & Hc2 & _).
  { eapply Forall_impl; [exact Hpre|]. simpl. lia. }
  destruct (IH (pre ++ [rec]) (onEmit v rec)) as [IH1 IH2].
  { apply Forall_app. split; [done|]. by constructor. }
  { by apply onEmit_state. }
  split; [rewrite IH1, Hc1|rewrite IH2, Hc2]; apply eq64_refl; lia.
Qed.

(** What pass 2 counts. Over the orders in processing order, the time
    violations are the per-flow sequence breaches plus the orders overtaken by
    an order of another flow that arrived more than the window later, and the
    jitter samples are the orders overtaken at all: exactly the quadratic
    definition, computed in one pass with a bounded state. *)
Theorem processing_order_counts windowUs t7Window recs :
  0 < windowUs -> windowUs * 1000 < 2 ^ 64 -> Forall (fun x => 0 <= ir_t3Ns x < 2 ^ 64) recs ->
  let v := foldl onEmit (NewInvariantsValidatorWithWindow windowUs t7Window) recs in
  rp_TimeViolations (iv_rep v) ≡64
    tally (fun pre rec => b2z (fifo_breach pre rec) + b2z (overtaken (windowUs * 1000) pre rec)) [] recs /\
  jh_count (iv_jitter v) ≡64 tally (fun pre rec => b2z (overtaken 0 pre rec)) [] recs.
Proof.
  intros Hw0 Hw HF.
  apply (emits_count windowUs [] (NewInvariantsValidatorWithWindow windowUs t7Window) recs);
    [lia|done|constructor|].
  unfold NewInvariantsValidatorWithWindow. rewrite (proj2 (Z.eqb_neq windowUs 0)) by lia.
  by split.
Qed.

(** ** Accounting *)

Inductive iv_event :=
  | IvApply (o : Order)
  | IvUnmatched (orderID : string) (qty price : Z)
  | IvGap
  | IvLost (orderID : string) (kind : Kind).

Definition iv_step (v : InvariantsValidator) (ev : iv_event) : InvariantsValidator :=
  match ev with
  | IvApply o => iv_Apply v o
  | IvUnmatched id q p => AddUnmatched v id q p
  | IvGap => iv_AddCaptureGap v
  | IvLost id kind => iv_AddLost v id kind
  end.

Definition iv_ids (ev : iv_event) : list string :=
  match ev with IvApply o => [o_OrderID o] | IvLost id _ => [id] | _ => [] end.

(** Two reports that differ by violations of orders in [ids] only. *)
Record grows (ids : list string) (r r' : Report) : Prop := {
  gw_ok : report_ok r -> report_ok r';
  gw_fills : rp_TotalFills r' - (rp_ValidFills r' + rp_Overfills r')
             ≡64 rp_TotalFills r - (rp_ValidFills r + rp_Overfills r);
  gw_dirty : rp_dirtyByOrder r' ⊆ list_to_set ids ∪ rp_dirtyByOrder r;
  gw_lost : rp_LostOrders r' + rp_LostCancels r' = rp_LostOrders r + rp_LostCancels r;
}.

Lemma grows_refl ids r : grows ids r r.
Proof. split; try done. set_solver. Qed.

Lemma grows_trans ids r1 r2 r3 : grows ids r1 r2 -> grows ids r2 r3 -> grows ids r1 r3.
Proof. intros [] []. split; [auto|by rewrite gw_fills1|set_solver|congruence]. Qed.

Lemma grows_radd ids t id q p d r r1 :
  id ∈ ids -> books r1 = books r -> classes r1 ≡64 classes r + 1 ->
  rp_TotalFills r1 - (rp_ValidFills r1 + rp_Overfills r1)
    ≡64 rp_TotalFills r - (rp_ValidFills r + rp_Overfills r) ->
  rp_LostOrders r1 + rp_LostCancels r1 = rp_LostOrders r + rp_LostCancels r ->
  grows ids r (radd t id q p d r1).
Proof.
  intros Hid Hb Hc Hf Hl. destruct (radd_spec t id q p d r1) as (Htal & _ & Hd).
  assert (Hok : report_ok r -> report_ok (radd t id q p d r1)) by (intros Hr; by apply (radd_ok _ _ _ _ _ r)).
  unfold tallies in Htal. injection Htal. intros. unfold books in Hb. injection Hb as _ _ Hb3 _ _.
  split.
  - exact Hok.
  - etrans; [|exact Hf]. apply eq64_refl. congruence.
  - rewrite Hd, Hb3. apply union_mono; [|done]. by apply singleton_subseteq_l, elem_of_list_to_set.
  - congruence.
Qed.

Ltac count_quiet := simpl; unfold classes, inc; simpl; try done; try eq64_lia.

Lemma onEmit_grows ids v rec : ir_orderID rec ∈ ids -> grows ids (iv_rep v) (iv_rep (onEmit v rec)).
Proof.
  intros Hid. unfold onEmit.
  assert (H1 : grows ids (iv_rep v) (fifoCheck v rec (iv_rep v))).
  { unfold fifoCheck. destruct (_ && _); [|apply grows_refl]. apply grows_radd; count_quiet. }
  set (r1 := fifoCheck v rec (iv_rep v)) in *. unfold crossCheck.
  destruct (cand _ _) as [c [|]]; [|done].
  destruct (CrossFlowPredicate _ _ _) as [[[|] [|]] jn]; simpl; try done.
  eapply grows_trans; [exact H1|]. apply grows_radd; count_quiet.
Qed.

Definition iv_frame (v v' : InvariantsValidator) : Prop :=
  iv_applied v' = iv_applied v /\ iv_win v' = iv_win v /\ iv_captureGaps v' = iv_captureGaps v.

Lemma onEmit_frame v rec : iv_frame v (onEmit v rec).
Proof. unfold onEmit. by destruct (crossCheck _ _ _ _). Qed.

Lemma onEmits_grow ids v recs :
  Forall (fun rec => ir_orderID rec ∈ ids) recs ->
  grows ids (iv_rep v) (iv_rep (foldl onEmit v recs)) /\ iv_frame v (foldl onEmit v recs).
Proof.
  intros HF. revert v. induction HF as [|rec recs Hr _ IH]; intros v; simpl; [split; [apply grows_refl|done]|].
  destruct (IH (onEmit v rec)) as [Hg (Ha & Hw & Hc)]. destruct (onEmit_frame v rec) as (Ha1 & Hw1 & Hc1).
  split; [eapply grows_trans; [by apply onEmit_grows|done]|]. split_and!; congruence.
Qed.

Record iv_acc (ids : list string) (v : InvariantsValidator) : Prop := {
  ia_ok : report_ok (iv_rep v);
  ia_fills : rp_TotalFills (iv_rep v) ≡64 rp_ValidFills (iv_rep v) + rp_Overfills (iv_rep v);
  ia_dirty : rp_dirtyByOrder (iv_rep v) ⊆ list_to_set ids;
  ia_count : iv_applied v + (rp_LostOrders (iv_rep v) + rp_LostCancels (iv_rep v)) ≡64 Z.of_nat (length ids);
  ia_buf : Forall (fun rec => ir_orderID rec ∈ ids) (t7_buf (iv_win v));
}.

Lemma grows_fills ids r r' :
  grows ids r r' -> rp_TotalFills r ≡64 rp_ValidFills r + rp_Overfills r ->
  rp_TotalFills r' ≡64 rp_ValidFills r' + rp_Overfills r'.
Proof.
  intros [_ Hf _ _] H.
  assert (H0 : rp_TotalFills r' - (rp_ValidFills r' + rp_Overfills r') ≡64 0).
  { rewrite Hf, H. apply eq64_refl. lia. }
  transitivity ((rp_TotalFills r' - (rp_ValidFills r' + rp_Overfills r')) + (rp_ValidFills r' + rp_Overfills r')).
  - apply eq64_refl. lia.
  - rewrite H0. done.
Qed.

Lemma ownQty_grows ids o cum r rs :
  o_OrderID o ∈ ids -> grows ids r (foldl (ownQtyCheck o) (cum, r) rs).2.
Proof.
  intros Hid. revert cum r. induction rs as [|resp rs IH]; intros cum r; [apply grows_refl|].
  cbn [foldl]. unfold ownQtyCheck at 2. destruct (isFill _ _); simpl; [|apply IH].
  eapply grows_trans; [|apply IH]. destruct (_ <? _).
  - apply grows_radd; count_quiet.
  - split; simpl; try done; [intros Hr; by apply (quiet_ok r)|unfold inc; eq64_lia|set_solver].
Qed.

Lemma minT7_grows ids cap o best r rs : grows ids r (foldl (minT7 cap o) (best, r) rs).2.
Proof.
  revert best r. induction rs as [|resp rs IH]; intros best r; [apply grows_refl|].
  cbn [foldl]. unfold minT7 at 2. destruct (_ =? _); [apply IH|].
  destruct (_ || _); [|apply IH]. eapply grows_trans; [|apply IH].
  split; simpl; try done; [intros Hr; by apply (quiet_ok r)|set_solver].
Qed.

Lemma iv_acc_weaken ids id v :
  iv_acc ids v -> forall rs, grows (ids ++ [id]) (iv_rep v) rs ->
  report_ok rs /\ rp_TotalFills rs ≡64 rp_ValidFills rs + rp_Overfills rs /\
  rp_dirtyByOrder rs ⊆ list_to_set (ids ++ [id]) /\
  Forall (fun rec => ir_orderID rec ∈ ids ++ [id]) (t7_buf (iv_win v)) /\
  iv_applied v + (rp_LostOrders rs + rp_LostCancels rs) ≡64 Z.of_nat (length ids).
Proof.
  intros [Hok Hf Hd Hc Hb] rs Hg. pose proof Hg as [Gok _ Gd Gl]. split_and!.
  - auto.
  - by eapply grows_fills.
  - rewrite list_to_set_app_L in *. set_solver.
  - eapply Forall_impl; [exact Hb|]. intros rec Hr. apply elem_of_app. by left.
  - by rewrite Gl.
Qed.

Lemma t7_release_elems n w : forall w' out, t7_release n w = (w', out) ->
  (forall P, Forall P (t7_buf w) -> Forall P out /\ Forall P (t7_buf w')).
Proof.
  intros w' out Hr P HF. unfold t7_release in Hr. destruct (_ || _); [by simplify_eq|].
  set (k := if _ <? n then _ else _) in *. destruct (foldl t7_mark _ _) as [wm st]. simplify_eq. simpl.
  assert (HF' : Forall P (sortInvRecs (t7_buf w))) by by rewrite sortInvRecs_perm.
  split; [by apply Forall_take|by apply Forall_drop].
Qed.

Lemma t7_push_elems w rec w' out late : t7_push w rec = (w', out, late) ->
  forall P : invRec -> Prop, P rec -> Forall P (t7_buf w) -> Forall P out /\ Forall P (t7_buf w').
Proof.
  intros Hp P HP HF. unfold t7_push in Hp. destruct (_ && _); [by simplify_eq|].
  destruct (_ <=? _); [|simplify_eq; split; [constructor|]; simpl; apply Forall_app; by repeat constructor].
  destruct (t7_release _ _) as [w1 out1] eqn:Hr. simplify_eq.
  eapply t7_release_elems; [exact Hr|]. simpl. apply Forall_app. split; [done|]. by constructor.
Qed.

Lemma radd_lost t id q p d r :
  rp_LostOrders (radd t id q p d r) = rp_LostOrders r /\ rp_LostCancels (radd t id q p d r) = rp_LostCancels r.
Proof. pose proof (proj1 (radd_spec t id q p d r)) as Htal. unfold tallies in Htal. split; congruence. Qed.

(** Counting and flagging an unanswered order, in either order. *)
Lemma lost_grows id kind r r' :
  r' = countLost kind (addLostViolation id kind r) \/ r' = addLostViolation id kind (countLost kind r) ->
  (report_ok r -> report_ok r') /\
  rp_TotalFills r' = rp_TotalFills r /\ rp_ValidFills r' = rp_ValidFills r /\ rp_Overfills r' = rp_Overfills r /\
  rp_dirtyByOrder r' = {[id]} ∪ rp_dirtyByOrder r /\
  rp_LostOrders r' + rp_LostCancels r' ≡64 rp_LostOrders r + rp_LostCancels r + 1.
Proof.
  unfold addLostViolation. set (d := "order/cancel sent but never received any response").
  intros Hr'.
  assert (Hb : report_ok r -> report_ok (radd (lostViolationType kind) id 0 0 d (countLost kind r))).
  { intros Hr. apply (radd_ok _ _ _ _ _ r); [done|unfold countLost; by destruct (bool_decide _)|].
    unfold countLost. destruct (bool_decide _); count_quiet. }
  assert (Hcomm : countLost kind (radd (lostViolationType kind) id 0 0 d r)
                  = radd (lostViolationType kind) id 0 0 d (countLost kind r)).
  { unfold countLost, radd, MarkDirty.
    destruct (bool_decide (kind = Cancel)); simpl; case_decide; simpl; by destruct (_ <=? _). }
  assert (Hr : r' = radd (lostViolationType kind) id 0 0 d (countLost kind r)) by naive_solver congruence.
  rewrite Hr. split; [done|].
  pose proof (radd_spec (lostViolationType kind) id 0 0 d (countLost kind r)) as (Htal & _ & Hd).
  destruct (radd_lost (lostViolationType kind) id 0 0 d (countLost kind r)) as [Hl1 Hl2].
  unfold tallies in Htal. injection Htal. intros.
  rewrite Hl1, Hl2, Hd. split_and!.
  - rewrite radd_TotalFills. unfold countLost. by destruct (bool_decide _).
  - transitivity (rp_ValidFills (countLost kind r)); [congruence|]. unfold countLost. by destruct (bool_decide _).
  - transitivity (rp_Overfills (countLost kind r)); [congruence|]. unfold countLost. by destruct (bool_decide _).
  - unfold countLost. by destruct (bool_decide _).
  - unfold countLost, inc. destruct (bool_decide _); simpl; eq64_lia.
Qed.

Lemma lost_acc ids id kind v r r' :
  iv_acc ids v -> grows (ids ++ [id]) (iv_rep v) r ->
  r' = countLost kind (addLostViolation id kind r) \/ r' = addLostViolation id kind (countLost kind r) ->
  iv_acc (ids ++ [id]) (iv_set_rep r' v).
Proof.
  intros Ha Hg Hr'. destruct (iv_acc_weaken ids id v Ha r Hg) as (Hok & Hf & Hd & Hb & Hc).
  destruct (lost_grows id kind r r' Hr') as (Lok & Lt & Lv & Lo & Ld & Ll).
  split; simpl; auto.
  - by rewrite Lt, Lv, Lo.
  - rewrite Ld, list_to_set_app_L in *. set_solver.
  - rewrite Ll, length_app. simpl.
    transitivity ((iv_applied v + (rp_LostOrders r + rp_LostCancels r)) + 1); [apply eq64_refl; lia|].
    rewrite Hc. apply eq64_refl. lia.
Qed.

Lemma apply_acc ids v o : iv_acc ids v -> iv_acc (ids ++ [o_OrderID o]) (iv_Apply v o).
Proof.
  intros Ha. assert (Hid : o_OrderID o ∈ ids ++ [o_OrderID o]) by (apply elem_of_app; right; left).
  unfold iv_Apply. pose proof (ownQty_grows _ o 0 (iv_rep v) (o_Responses o) Hid) as Hg1.
  destruct (foldl (ownQtyCheck o) _ _) as [cum r1]. simpl in Hg1.
  pose proof (minT7_grows (ids ++ [o_OrderID o]) (iv_anomalyCapNs v) o None r1 (o_Responses o)) as Hg2.
  destruct (foldl (minT7 _ o) _ _) as [best r2]. simpl in Hg2.
  pose proof (grows_trans _ _ _ _ Hg1 Hg2) as Hg.
  destruct best as [t|]; [|eapply lost_acc; [done|done|by left]].
  destruct (iv_acc_weaken ids _ v Ha r2 Hg) as (Hok & Hf & Hd & Hb & Hc). simpl.
  destruct (t7_push (iv_win v) _) as [[w out] late] eqn:Hp.
  destruct (t7_push_elems _ _ _ _ _ Hp (fun rec => ir_orderID rec ∈ ids ++ [o_OrderID o]) Hid Hb) as [Hout Hbuf].
  set (v1 := if late then _ else _).
  assert (Hv1 : iv_applied v1 = inc (iv_applied v) /\ report_ok (iv_rep v1) /\
            rp_TotalFills (iv_rep v1) = rp_TotalFills r2 /\ rp_ValidFills (iv_rep v1) = rp_ValidFills r2 /\
            rp_Overfills (iv_rep v1) = rp_Overfills r2 /\ rp_dirtyByOrder (iv_rep v1) = rp_dirtyByOrder r2 /\
            rp_LostOrders (iv_rep v1) = rp_LostOrders r2 /\ rp_LostCancels (iv_rep v1) = rp_LostCancels r2).
  { unfold v1. destruct late; simpl; split_and!; try done. by apply (quiet_ok r2). }
  destruct Hv1 as (V1 & V2 & V3 & V4 & V5 & V6 & V7 & V8).
  destruct (onEmits_grow (ids ++ [o_OrderID o]) (iv_set_win w v1) out Hout) as [Hge (Hfa & Hfw & _)].
  simpl in *. pose proof Hge as [Gok _ Gd Gl]. simpl in *. split.
  - auto.
  - eapply grows_fills; [exact Hge|]. simpl. by rewrite V3, V4, V5.
  - rewrite V6 in Gd. set_solver.
  - rewrite Hfa, Gl, V1, V7, V8, length_app. unfold inc. rewrite eq64_u64. simpl.
    transitivity ((iv_applied v + (rp_LostOrders r2 + rp_LostCancels r2)) + 1); [apply eq64_refl; lia|].
    rewrite Hc. apply eq64_refl. lia.
  - by rewrite Hfw.
Qed.

Lemma iv_step_acc ids v ev : iv_acc ids v -> iv_acc (ids ++ iv_ids ev) (iv_step v ev).
Proof.
  intros Ha. pose proof Ha as [Hok Hf Hd Hc Hb]. destruct ev as [o|id q p| |id kind]; simpl.
  - by apply apply_acc.
  - rewrite app_nil_r. split; simpl; try done. by apply (quiet_ok (iv_rep v)).
  - rewrite app_nil_r. by split.
  - eapply lost_acc; [done|apply grows_refl|by right].
Qed.

Lemma iv_run_acc ids v evs :
  iv_acc ids v -> iv_acc (ids ++ (evs ≫= iv_ids)) (foldl iv_step v evs).
Proof.
  revert ids v. induction evs as [|ev evs IH]; intros ids v Ha; simpl; [by rewrite app_nil_r|].
  rewrite app_assoc. apply IH. by apply iv_step_acc.
Qed.

Lemma captureTaint_iv g t r :
  books (captureTaint g t r) = books r /\ classes (captureTaint g t r) = classes r /\
  rp_TotalFills (captureTaint g t r) = rp_TotalFills r /\
  rp_ValidFills (captureTaint g t r) = rp_ValidFills r /\
  rp_Overfills (captureTaint g t r) = rp_Overfills r /\
  rp_ScoredFills (captureTaint g t r) = rp_ScoredFills r /\
  rp_ScoredOrders (captureTaint g t r) = rp_ScoredOrders r.
Proof. unfold captureTaint. by destruct (_ && _). Qed.

Lemma iv_session_books v0 evs :
  iv_acc [] v0 ->
  Z.of_nat (length (evs ≫= iv_ids)) < 2 ^ 64 ->
  let r := (iv_Finish (foldl iv_step v0 evs)).2 in
  ViolationCount r ≡64 classes r /\
  rp_TotalFills r ≡64 rp_ValidFills r + rp_Overfills r /\ rp_ScoredFills r = rp_TotalFills r /\
  rp_ScoredOrders r = Z.of_nat (length (evs ≫= iv_ids)) /\
  rp_DirtyOrders r <= rp_ScoredOrders r /\
  cleanOrders r = Z.of_nat (length (evs ≫= iv_ids)) - Z.of_nat (size (rp_dirtyByOrder r)).
Proof.
  intros H0 Hlt.
  pose proof (iv_run_acc [] _ evs H0) as Ha. cbn [app] in Ha. set (ids := evs ≫= iv_ids) in *.
  set (v := foldl iv_step _ evs) in *. destruct Ha as [Hok Hf Hd Hc Hb]. unfold iv_Finish.
  destruct (t7_flush (iv_win v)) as [w out] eqn:Hfl. unfold t7_flush in Hfl.
  destruct (t7_release_elems _ _ _ _ Hfl _ Hb) as [Hout _].
  destruct (onEmits_grow ids (iv_set_win w v) out Hout) as [Hg (Hfa & _ & _)].
  set (v' := foldl onEmit _ out) in *. pose proof Hg as [Gok _ Gd Gl]. simpl in Gok, Gd, Gl, Hfa.
  specialize (Gok Hok). pose proof (grows_fills _ _ _ Hg Hf) as Gf.
  cbv zeta. set (so := _ +u64 _ +u64 _).
  assert (Hso : so = Z.of_nat (length ids)).
  { unfold so. simpl. apply eq64_small; [apply u64_range|lia|].
    rewrite !eq64_u64, <-Hc, <-Gl, Hfa. apply eq64_refl. lia. }
  cbn [snd]. set (r0 := set_ScoredOrders so _). set (r1 := if _ && _ then _ else _).
  assert (Hr1 : books r1 = books r0 /\ classes r1 = classes r0 /\ rp_TotalFills r1 = rp_TotalFills r0 /\
            rp_ValidFills r1 = rp_ValidFills r0 /\ rp_Overfills r1 = rp_Overfills r0 /\
            rp_ScoredFills r1 = rp_ScoredFills r0 /\ rp_ScoredOrders r1 = rp_ScoredOrders r0).
  { unfold r1. by destruct (_ && _). }
  destruct Hr1 as (B1 & B2 & B3 & B4 & B5 & B6 & B7).
  pose proof (captureTaint_iv (iv_captureGaps v') "grading" r1) as Hct.
  set (r := captureTaint _ _ r1) in *. destruct Hct as (D1 & D2 & D3 & D4 & D5 & D6 & D7).
  assert (Hrok : report_ok r) by (apply (quiet_ok (iv_rep v')); [done|by rewrite D1, B1|by rewrite D2, B2]).
  assert (Hsz : (size (rp_dirtyByOrder r) <= length ids)%nat).
  { assert (Heq : rp_dirtyByOrder r = rp_dirtyByOrder (iv_rep v')).
    { rewrite B1 in D1. unfold books in D1. injection D1 as _ _ D1 _ _. by rewrite D1. }
    rewrite Heq. etrans; [apply (subseteq_size _ (list_to_set ids))|apply size_list_to_set_le]. set_solver. }
  pose proof (ok_dirty _ Hrok) as Hdo. rewrite u64_small in Hdo by lia.
  assert (Hscore : rp_ScoredOrders r = Z.of_nat (length ids)) by by rewrite D7, B7.
  split_and!.
  - apply Hrok.
  - by rewrite D3, D4, D5, B3, B4, B5.
  - by rewrite D6, D3, B6, B3.
  - done.
  - rewrite Hscore, Hdo. lia.
  - unfold cleanOrders. rewrite Hscore, Hdo, (proj2 (Z.ltb_ge _ _)) by lia. apply u64_small. lia.
Qed.

Lemma iv_new_acc windowUs t7Window capNs rate :
  iv_acc [] (SetLateTaintRate rate (SetT7AnomalyCapNs capNs (NewInvariantsValidatorWithWindow windowUs t7Window))).
Proof. split; unfold SetLateTaintRate, SetT7AnomalyCapNs; repeat case_match; done. Qed.

(** Pass-2 accounting. Whatever is fed to it, the report's violation total
    is the sum of its classes, every counted fill is valid or an overfill, the
    score's denominator counts each applied or lost order once, and only such
    orders are dirty, so the clean count is never clamped. *)
Theorem invariants_accounting windowUs t7Window evs :
  Z.of_nat (length (evs ≫= iv_ids)) < 2 ^ 64 ->
  let r := (iv_Finish (foldl iv_step (NewInvariantsValidatorWithWindow windowUs t7Window) evs)).2 in
  ViolationCount r ≡64 classes r /\
  rp_TotalFills r ≡64 rp_ValidFills r + rp_Overfills r /\ rp_ScoredFills r = rp_TotalFills r /\
  rp_ScoredOrders r = Z.of_nat (length (evs ≫= iv_ids)) /\
  rp_DirtyOrders r <= rp_ScoredOrders r /\
  cleanOrders r = Z.of_nat (length (evs ≫= iv_ids)) - Z.of_nat (size (rp_dirtyByOrder r)).
Proof. apply iv_session_books. by split. Qed.

(** ** The histogram *)

Definition jitter_of (l : list Z) : jitterHistogram := foldl (fun h x => jh_record x h) newJitter l.

(** Samples whose bucket satisfies [f]. *)
Definition in_buckets (f : Z -> bool) (l : list Z) : Z := Z.of_nat (countb (fun x => f (Len64 x)) l).

Lemma Len64_range x : 0 <= x < 2 ^ 64 -> 0 <= Len64 x <= 64.
Proof.
  intros Hx. unfold Len64. destruct (Z.eqb_spec x 0); [lia|].
  pose proof (Z.log2_nonneg x). assert (Z.log2 x < 64); [|lia]. apply Z.log2_lt_pow2; lia.
Qed.

Lemma Len64_mono x y : 0 <= x <= y -> Len64 x <= Len64 y.
Proof.
  intros Hx. unfold Len64. destruct (Z.eqb_spec x 0), (Z.eqb_spec y 0); try lia.
  - pose proof (Z.log2_nonneg y). lia.
  - pose proof (Z.log2_le_mono x y ltac:(lia)). lia.
Qed.

Lemma in_buckets_snoc f l x : in_buckets f (l ++ [x]) = in_buckets f l + b2z (f (Len64 x)).
Proof.
  unfold in_buckets. rewrite countb_app. unfold countb at 2. simpl.
  destruct (f (Len64 x)); simpl; lia.
Qed.

Lemma in_buckets_le f l : 0 <= in_buckets f l <= Z.of_nat (length l).
Proof. unfold in_buckets, countb. pose proof (List.filter_length_le (fun x => f (Len64 x)) l). lia. Qed.

Lemma jitter_of_spec l :
  Forall (fun x => 0 <= x < 2 ^ 64) l -> Z.of_nat (length l) < 2 ^ 64 ->
  length (jh_buckets (jitter_of l)) = 65%nat /\ jh_count (jitter_of l) = Z.of_nat (length l) /\
  (forall i, (i < 65)%nat -> jh_buckets (jitter_of l) !! i = Some (in_buckets (Z.eqb (Z.of_nat i)) l)) /\
  (forall x, x ∈ l -> x <= jh_maxNs (jitter_of l)) /\
  (l = [] \/ jh_maxNs (jitter_of l) ∈ l).
Proof.
  unfold jitter_of. induction l as [|x l IH] using rev_ind; intros HF Hlen.
  { simpl. split_and!; try done; [|by intros x ?%elem_of_nil|by left].
    intros i Hi. apply (lookup_replicate_2 65 0 i Hi). }
  apply Forall_app in HF as [HF Hx]. apply Forall_cons in Hx as [Hx _]. rewrite length_app in Hlen. simpl in Hlen.
  rewrite foldl_app. simpl. set (h := foldl _ _ l) in *.
  destruct (IH HF ltac:(lia)) as (H1 & H2 & H3 & H4 & H5).
  pose proof (Len64_range x Hx) as Hr. split_and!.
  - by rewrite length_alter.
  - rewrite H2, length_app. unfold inc. rewrite u64_small by lia. simpl. lia.
  - intros i Hi. rewrite in_buckets_snoc. destruct (decide (i = Z.to_nat (Len64 x))) as [->|Hne].
    + rewrite list_lookup_alter, decide_True, H3 by (done || lia). simpl. f_equal.
      rewrite Z2Nat.id by lia. rewrite Z.eqb_refl. unfold inc. simpl.
      pose proof (in_buckets_le (Z.eqb (Len64 x)) l). apply u64_small. lia.
    + rewrite list_lookup_alter, decide_False, H3 by done. f_equal.
      rewrite (proj2 (Z.eqb_neq (Z.of_nat i) (Len64 x))) by lia. simpl. lia.
  - intros y [Hy| ->%list_elem_of_singleton]%elem_of_app; destruct (Z.ltb_spec (jh_maxNs h) x); try lia.
    + specialize (H4 y Hy). lia.
    + auto.
  - right. destruct (Z.ltb_spec (jh_maxNs h) x); [apply elem_of_app; right; left|].
    destruct H5 as [->|H5]; [|apply elem_of_app; by left].
    assert (jh_maxNs h = 0) by done. assert (x = 0) by lia. subst x. rewrite H0. left.
Qed.

(** The scan stops at bucket [L] when the rank falls in it. *)
Lemma percentile_scan_spec buckets rank L maxNs :
  (forall i, (i < length buckets)%nat -> exists c, buckets !! i = Some c /\ 0 <= c) ->
  sumZ buckets < 2 ^ 64 -> (Z.to_nat L < length buckets)%nat -> 0 <= L ->
  sumZ (take (Z.to_nat L) buckets) <= rank < sumZ (take (S (Z.to_nat L)) buckets) ->
  forall i cum, 0 <= cum -> 0 <= i ->
    cum + sumZ buckets < 2 ^ 64 ->
    percentile_scan (cum + rank) cum i buckets maxNs = if L + i =? 0 then 0 else Z.shiftl 1 (L + i - 1).
Proof.
  intros Hc. revert L rank. induction buckets as [|c buckets IH]; intros L rank Hsum HL HL0 Hrank i cum Hcum Hi Hlt.
  { simpl in HL. lia. }
  assert (Hc0 : 0 <= c) by (destruct (Hc 0%nat ltac:(simpl; lia)) as (c' & [= <-] & ?); done).
  assert (Hc' : forall i, (i < length buckets)%nat -> exists c, buckets !! i = Some c /\ 0 <= c).
  { intros j Hj. apply (Hc (S j)). simpl. lia. }
  assert (Hnn : 0 <= sumZ buckets).
  { apply sumZ_nonneg, Forall_forall. intros z [j Hj]%list_elem_of_lookup_1.
    destruct (Hc' j (lookup_lt_Some _ _ _ Hj)) as (z' & Hz & ?). congruence. }
  cbn [sumZ foldr] in Hsum, Hlt. fold (sumZ buckets) in Hsum, Hlt.
  cbn [percentile_scan]. rewrite (u64_small (cum + c)) by lia.
  destruct (Z.eq_dec L 0) as [->|HLne].
  - change (Z.to_nat 0) with 0%nat in Hrank. simpl in Hrank. unfold sumZ in Hrank. simpl in Hrank.
    rewrite (proj2 (Z.ltb_lt _ _)) by lia. done.
  - assert (HS : Z.to_nat L = S (Z.to_nat (L - 1))) by lia. rewrite HS in Hrank. cbn [take] in Hrank.
    unfold sumZ in Hrank. cbn [foldr] in Hrank. fold (sumZ (take (Z.to_nat (L - 1)) buckets)) in Hrank.
    change (foldr Z.add 0 (take (S (Z.to_nat (L - 1))) buckets)) with
      (sumZ (take (S (Z.to_nat (L - 1))) buckets)) in Hrank.
    assert (Htk : 0 <= sumZ (take (Z.to_nat (L - 1)) buckets)).
    { apply sumZ_nonneg, Forall_take, Forall_forall. intros z [j Hj]%list_elem_of_lookup_1.
      destruct (Hc' j (lookup_lt_Some _ _ _ Hj)) as (z' & Hz & ?). congruence. }
    rewrite (proj2 (Z.ltb_ge _ _)) by lia.
    replace (cum + rank) with ((cum + c) + (rank - c)) by lia.
    rewrite (IH Hc' (L - 1) (rank - c)); try lia; [|simpl in HL; lia].
    replace (L - 1 + (i + 1)) with (L + i) by lia. done.
Qed.

Lemma in_buckets_next k l :
  in_buckets (fun b => b <? k + 1) l = in_buckets (fun b => b <? k) l + in_buckets (Z.eqb k) l.
Proof.
  induction l as [|x l IH] using rev_ind; [done|]. rewrite !in_buckets_snoc, IH. unfold b2z.
  destruct (Z.ltb_spec (Len64 x) (k + 1)), (Z.ltb_spec (Len64 x) k), (Z.eqb_spec k (Len64 x)); lia.
Qed.

Lemma in_buckets_perm f l k : l ≡ₚ k -> in_buckets f l = in_buckets f k.
Proof.
  intros Hp. unfold in_buckets, countb. f_equal.
  induction Hp as [|x l k Hp IH|x y l|l k m _ IH1 _ IH2]; simpl; try done; [|..|congruence].
  - destruct (f (Len64 x)); simpl; congruence.
  - destruct (f (Len64 x)), (f (Len64 y)); done.
Qed.

Lemma in_buckets_app f l k : in_buckets f (l ++ k) = in_buckets f l + in_buckets f k.
Proof. unfold in_buckets. rewrite countb_app. lia. Qed.

Lemma in_buckets_all f l : (forall x, x ∈ l -> f (Len64 x) = true) -> in_buckets f l = Z.of_nat (length l).
Proof.
  intros H. unfold in_buckets, countb. f_equal. induction l as [|x l IH]; simpl; [done|].
  rewrite H by left. simpl. f_equal. apply IH. intros; apply H. by right.
Qed.

Lemma in_buckets_none f l : (forall x, x ∈ l -> f (Len64 x) = false) -> in_buckets f l = 0.
Proof.
  intros H. unfold in_buckets, countb. induction l as [|x l IH]; simpl; [done|].
  rewrite H by left. apply IH. intros; apply H. by right.
Qed.

(** The rank-th smallest sample falls in its own bucket's range of ranks. *)
Lemma rank_bucket l s rank x :
  Forall (fun x => 0 <= x < 2 ^ 64) l -> s ≡ₚ l -> StronglySorted Z.le s -> s !! rank = Some x ->
  in_buckets (fun b => b <? Len64 x) l <= Z.of_nat rank < in_buckets (fun b => b <? Len64 x + 1) l.
Proof.
  intros HF Hp Hs Hx. assert (HF' : Forall (fun x => 0 <= x < 2 ^ 64) s) by by rewrite Hp.
  rewrite <-!(in_buckets_perm _ _ _ Hp). pose proof (lookup_lt_Some _ _ _ Hx) as Hlt.
  rewrite <-(take_drop_middle s rank x Hx) in Hs, HF' |- *. rewrite Forall_forall in HF'.
  apply StronglySorted_app_iff in Hs as (_ & Hs2 & Hs3). inversion Hs2 as [|?? _ HF2]; subst.
  rewrite Forall_forall in HF2.
  assert (Hlen : length (take rank s) = rank) by (rewrite length_take; lia).
  assert (Hx0 : 0 <= x) by (apply HF', elem_of_app; right; left).
  rewrite !in_buckets_app. change (x :: drop (S rank) s) with ([x] ++ drop (S rank) s).
  rewrite !in_buckets_app. split.
  - rewrite (in_buckets_none _ [x]), (in_buckets_none _ (drop _ _)).
    + pose proof (in_buckets_le (fun b => b <? Len64 x) (take rank s)). lia.
    + intros y Hy. apply Z.ltb_ge, Len64_mono. specialize (HF2 y Hy). lia.
    + intros y ->%list_elem_of_singleton. apply Z.ltb_irrefl.
  - rewrite (in_buckets_all _ (take rank s)), (in_buckets_all _ [x]).
    + pose proof (in_buckets_le (fun b => b <? Len64 x + 1) (drop (S rank) s)). simpl. lia.
    + intros y ->%list_elem_of_singleton. apply Z.ltb_lt. lia.
    + intros y Hy. apply Z.ltb_lt. specialize (Hs3 y x Hy ltac:(left)).
      assert (0 <= y) by (apply HF', elem_of_app; by left). pose proof (Len64_mono y x ltac:(lia)). lia.
Qed.

Lemma buckets_sum l k :
  Forall (fun x => 0 <= x < 2 ^ 64) l -> Z.of_nat (length l) < 2 ^ 64 -> (k <= 65)%nat ->
  sumZ (take k (jh_buckets (jitter_of l))) = in_buckets (fun b => b <? Z.of_nat k) l.
Proof.
  intros HF Hlen. destruct (jitter_of_spec l HF Hlen) as (Hl65 & _ & Hb & _).
  induction k as [|k IH]; intros Hk.
  { simpl. rewrite in_buckets_none; [done|]. intros x Hx. rewrite Forall_forall in HF.
    pose proof (Len64_range x (HF x Hx)). apply Z.ltb_ge. lia. }
  rewrite (take_S_r _ _ _ (Hb k ltac:(lia))), sumZ_app, IH by lia.
  replace (Z.of_nat (S k)) with (Z.of_nat k + 1) by lia. rewrite in_buckets_next. unfold sumZ. simpl. lia.
Qed.

(** The fixed-size histogram. For any samples, the percentile it reports
    is the true order statistic rounded down to a power of two: with [x] the
    sample of that rank, it returns 0 for [x = 0] and otherwise [b] with
    [b <= x < 2 * b]. The count and the maximum are exact. *)
Theorem percentile_bucket l s p x :
  Forall (fun x => 0 <= x < 2 ^ 64) l -> Z.of_nat (length l) < 2 ^ 64 ->
  s ≡ₚ l -> StronglySorted Z.le s ->
  let h := jitter_of l in
  let rank := f_to_Z (fmul p (f64 (jh_count h - 1))) in
  0 <= rank -> s !! Z.to_nat rank = Some x ->
  jh_count h = Z.of_nat (length l) /\ (forall y, y ∈ l -> y <= jh_maxNs h) /\ jh_maxNs h ∈ l /\
  let b := percentileNs p h in
  if x =? 0 then b = 0 else b <= x < 2 * b.
Proof.
  intros HF Hlen Hp Hs h rank Hr0 Hx.
  destruct (jitter_of_spec l HF Hlen) as (Hl65 & Hcnt & Hb & Hmax & Hin).
  assert (Hne : (0 < length l)%nat).
  { rewrite <-Hp. apply lookup_lt_Some in Hx. lia. }
  assert (Hxl : x ∈ l) by (rewrite <-Hp; by eapply list_elem_of_lookup_2).
  assert (Hxr : 0 <= x < 2 ^ 64) by (rewrite Forall_forall in HF; by apply HF).
  split; [done|]. split; [done|]. split; [destruct Hin as [Hl0|?]; [rewrite Hl0 in Hne; simpl in Hne; lia|done]|]. cbv zeta.
  unfold percentileNs. fold h in Hcnt |- *. rewrite (proj2 (Z.eqb_neq (jh_count h) 0)) by lia.
  rewrite (u64_small (jh_count h - 1)) by lia. fold rank.
  pose proof (Len64_range x Hxr) as HL. pose proof (rank_bucket l s _ x HF Hp Hs Hx) as Hrb.
  rewrite Z2Nat.id in Hrb by lia.
  assert (Hsum : sumZ (jh_buckets h) = Z.of_nat (length l)).
  { rewrite <-(take_ge (jh_buckets h) 65) by (unfold h; lia). unfold h. rewrite buckets_sum by (done || lia).
    apply in_buckets_all. intros y Hy. rewrite Forall_forall in HF. pose proof (Len64_range y (HF y Hy)).
    apply Z.ltb_lt. lia. }
  change rank with (0 + rank). rewrite (percentile_scan_spec _ rank (Len64 x)).
  - rewrite Z.add_0_r. unfold Len64 in *. destruct (Z.eqb_spec x 0) as [->|Hx0]; [done|].
    pose proof (Z.log2_nonneg x). rewrite (proj2 (Z.eqb_neq (Z.log2 x + 1) 0)) by lia.
    replace (Z.log2 x + 1 - 1) with (Z.log2 x) by lia. rewrite Z.shiftl_1_l.
    pose proof (Z.log2_spec x ltac:(lia)) as [H1 H2]. rewrite Z.pow_succ_r in H2 by lia. lia.
  - intros i Hi. unfold h in Hi |- *. rewrite Hl65 in Hi. rewrite Hb by done. eexists. split; [done|].
    apply in_buckets_le.
  - lia.
  - unfold h. rewrite Hl65. lia.
  - lia.
  - unfold h. rewrite !buckets_sum by (done || lia).
    replace (Z.of_nat (S (Z.to_nat (Len64 x)))) with (Len64 x + 1) by lia. rewrite Z2Nat.id by lia. done.
  - lia.
  - lia.
  - lia.
Qed.

(** ** Concrete runs *)

Definition drec (id : string) (f seq t t7 : Z) : invRec := mkInvRec id (mkFlow f 1) seq t t7.

(** "b" arrived 2 us after "a" on another flow and was processed first. *)
Definition demo_recs : list invRec := [drec "b" 2 1 3000 10; drec "a" 1 1 1000 20].

Lemma processing_order_counts_witness :
  rp_TimeViolations (iv_rep (foldl onEmit (NewInvariantsValidatorWithWindow 1 8) demo_recs)) ≡64 1 /\
  jh_count (iv_jitter (foldl onEmit (NewInvariantsValidatorWithWindow 1 8) demo_recs)) ≡64 1.
Proof.
  apply (processing_order_counts 1 8 demo_recs); [lia|lia|]. repeat constructor; simpl; lia.
Defined.

Definition demo_iv_events : list iv_event :=
  [IvApply (mkOrder "a" (mkFlow 1 1) 1 1000 0 Buy 100 5 NewLimit "" 0 false [mkResponse "2" 6 100 1500]);
   IvLost "b" Cancel; IvGap].

Lemma invariants_accounting_witness :
  let r := (iv_Finish (foldl iv_step (NewInvariantsValidatorWithWindow 500 8) demo_iv_events)).2 in
  rp_ScoredOrders r = 2 /\ cleanOrders r = 0 /\ rp_DirtyOrders r <= rp_ScoredOrders r.
Proof.
  cbv zeta.
  pose proof (invariants_accounting 500 8 demo_iv_events ltac:(vm_compute; reflexivity)) as Hw.
  split; [vm_compute; reflexivity|]. split; [vm_compute; reflexivity|]. apply Hw.
Defined.

Lemma percentile_bucket_witness :
  percentileNs (flit 1 2) (jitter_of [300; 5; 0]) <= 5 < 2 * percentileNs (flit 1 2) (jitter_of [300; 5; 0]).
Proof.
  apply (percentile_bucket [300; 5; 0] [0; 5; 300] (flit 1 2) 5).
  - repeat constructor; lia.
  - simpl. lia.
  - apply (bool_decide_unpack _). vm_compute. exact I.
  - repeat constructor; lia.
  - vm_compute. discriminate.
  - vm_compute. reflexivity.
Defined.
