(* ===== verification/Topics.v ===== *)
(** * Shared schema contracts (schemas/go/topics/topics.go)

    The events the services exchange, the protocol declaration of a
    submission, and the placement of orders on Kafka partitions.  Go strings
    are byte strings.  The non-ASCII branches of [strings.ToUpper] and
    [strings.TrimSpace] consult the Unicode tables, which are a parameter
    [Unicode]: every theorem below holds whatever they contain. *)

From Stdlib Require Import Ascii.
From stdpp Require Import prelude gmap strings list.
From S2P Require Import Prelude.

Open Scope Z_scope.

(** ** Constants *)

Definition TelemetryPriceScale : Z := 1000000000.
Definition PortFIX : Z := 9898.
Definition PortHTTPWS : Z := 8080.
Definition ProtocolAll : string := "ALL".
Definition OrderBandUnset : Z := MaxUint32.
Definition SMPIDNone : Z := MaxUint32.

(** ** The standard library's string functions *)

(** What [strings.ToUpper] and [strings.TrimSpace] do once a byte outside
    ASCII shows up: they decode UTF-8 and consult the Unicode tables. *)
Class Unicode := { map_ToUpper : string -> string; trim_Space : string -> string }.

Definition isASCII (c : ascii) : bool := (N_of_ascii c <? 128)%N.

Definition upper (c : ascii) : ascii :=
  if ((97 <=? N_of_ascii c) && (N_of_ascii c <=? 122))%N
  then ascii_of_N (N_of_ascii c - 32) else c.

(** [asciiSpace]: tab, newline, vertical tab, form feed, return, blank. *)
Definition asciiSpace (c : ascii) : bool :=
  ((9 <=? N_of_ascii c) && (N_of_ascii c <=? 13) || (N_of_ascii c =? 32))%N.

Fixpoint forall_bytes (f : ascii -> bool) (s : string) : bool :=
  match s with EmptyString => true | String c s => f c && forall_bytes f s end.

Fixpoint map_bytes (f : ascii -> ascii) (s : string) : string :=
  match s with EmptyString => EmptyString | String c s => String (f c) (map_bytes f s) end.

Fixpoint trim_left (s : string) : string :=
  match s with
  | String c s' => if asciiSpace c then trim_left s' else s
  | EmptyString => EmptyString
  end.

Definition trim (s : string) : string := String.rev (trim_left (String.rev (trim_left s))).

(** [strings.Split(s, ",")]: the fields between separators, never empty. *)
Fixpoint split_on (sep : ascii) (s : string) : list string :=
  match s with
  | EmptyString => [""%string]
  | String c s =>
      if Ascii.eqb c sep then ""%string :: split_on sep s
      else match split_on sep s with
           | w :: ws => String c w :: ws
           | [] => [String c ""]
           end
  end.

Definition comma : ascii := ","%char.

(** [strings.Join(ws, ",")], how a declaration is written. *)
Fixpoint join_comma (ws : list string) : string :=
  match ws with
  | [] => ""
  | [w] => w
  | w :: ws => w +:+ String comma (join_comma ws)
  end.

Section Strings.
Context `{Unicode}.

Definition ToUpper (s : string) : string :=
  if forall_bytes isASCII s then map_bytes upper s else map_ToUpper s.

Definition TrimSpace (s : string) : string :=
  if forall_bytes isASCII s then trim s else trim_Space s.

End Strings.

(** ** Protocol declarations *)

Inductive ProtoError :=
  | InvalidElement (p decl : string)
  | DuplicateProtocol (p decl : string)
  | EmptyDeclaration.

Definition knownProtocol (p : string) : bool :=
  bool_decide (p = "FIX"%string) || bool_decide (p = "REST"%string) || bool_decide (p = "WS"%string).

Section Protocols.
Context `{Unicode}.

(** The loop over the comma-separated parts; [seen] is the set of the
    elements of [out]. *)
Fixpoint parse_parts (decl : string) (parts : list string) (seen : gset string)
    (out : list string) : ProtoError + list string :=
  match parts with
  | [] => if (length out =? 0)%nat then inl EmptyDeclaration else inr out
  | p :: parts =>
      let p := TrimSpace (ToUpper p) in
      if negb (knownProtocol p) then inl (InvalidElement p decl)
      else if bool_decide (p ∈ seen) then inl (DuplicateProtocol p decl)
      else parse_parts decl parts ({[p]} ∪ seen) (out ++ [p])
  end.

Definition ParseProtocols (decl : string) : ProtoError + list string :=
  if bool_decide (TrimSpace (ToUpper decl) = ProtocolAll)
  then inr ["FIX"; "REST"; "WS"]%string
  else parse_parts decl (split_on comma decl) ∅ [].

End Protocols.

Definition PortForProtocol (protocol : string) : Z :=
  if bool_decide (protocol = "FIX"%string) then PortFIX else PortHTTPWS.

(** ** Partition placement *)

Fixpoint fnv1a64_from (hash : Z) (s : string) : Z :=
  match s with
  | EmptyString => hash
  | String c s => fnv1a64_from (u64 (Z.lxor hash (Z.of_N (N_of_ascii c)) * 0x100000001b3)) s
  end.

Definition fnv1a64 (s : string) : Z := fnv1a64_from 0xcbf29ce484222325 s.

(** The two guards both placement functions put on the band width. *)
Definition clampWidth (numPartitions bandWidth : Z) : Z :=
  let bandWidth := if bandWidth <? 1 then 1 else bandWidth in
  if numPartitions <? bandWidth then numPartitions else bandWidth.

Definition BandPartition (band : Z) (orderID : string) (numPartitions bandWidth : Z) : Z :=
  if numPartitions <=? 1 then 0 else
  let bandWidth := clampWidth numPartitions bandWidth in
  let base := i32 (i64 (band * bandWidth)) in
  let within := i32 (fnv1a64 orderID mod bandWidth) in
  Z.rem (i32 (base + within)) numPartitions.

Definition SessionBandPartition (sessionID orderID : string) (numPartitions bandWidth : Z) : Z :=
  if numPartitions <=? 1 then 0 else
  let bandWidth := clampWidth numPartitions bandWidth in
  let numBands := Z.quot (i32 (i32 (numPartitions + bandWidth) - 1)) bandWidth in
  let numBands := if numBands <? 1 then 1 else numBands in
  let band := i32 (fnv1a64 sessionID mod numBands) in
  let base := i32 (band * bandWidth) in
  let within := i32 (fnv1a64 orderID mod bandWidth) in
  Z.rem (i32 (base + within)) numPartitions.

(** ** Events *)

Definition RunStatusRequested : string := "requested".
Definition RunStatusQueued : string := "queued".
Definition RunStatusDeploying : string := "deploying".
Definition RunStatusWaitingReady : string := "waiting_ready".
Definition RunStatusBarrierFired : string := "barrier_fired".
Definition RunStatusRunning : string := "running".
Definition RunStatusCompleted : string := "completed".
Definition RunStatusFailed : string := "failed".

Record BenchmarkStatusUpdated := mkStatus {
  bs_SessionID : string; bs_SubmissionID : string; bs_RunGroupID : string; bs_Status : string;
  bs_Message : string; bs_UpdatedAt : Z }.

Record BenchmarkRequested := {
  br_SessionID : string; br_SubmissionID : string; br_ContestantID : string;
  br_RunGroupID : string; br_ScenarioID : string; br_RequestedAt : Z }.

Record TargetSpec := { tg_Protocol : string; tg_Port : Z }.

Record TaskSpec := {
  ts_TaskID : Z; ts_Profile : string; ts_TargetRPS : Z; ts_StartOffsetNs : Z;
  ts_DurationNs : Z; ts_MarketPct : Z; ts_CancelPct : Z; ts_ReplacePct : Z;
  ts_TargetIdx : Z; ts_SMPIDCount : Z }.

Record WorkloadSpec := {
  ws_SessionID : string; ws_SubmissionID : string; ws_ContestantID : string;
  ws_TargetHost : string; ws_TargetPort : Z; ws_Protocol : string;
  ws_Targets : list TargetSpec; ws_WorkerIndex : Z; ws_WorkerCount : Z;
  ws_GlobalSeed : Z; ws_FIXVersion : string; ws_ConnectTimeoutMS : Z;
  ws_WriteTimeoutMS : Z; ws_PublishedAtUnixNS : Z; ws_OrderBand : Z;
  ws_Tasks : list TaskSpec }.

Definition ResolvedTargets (w : WorkloadSpec) : list TargetSpec :=
  if (0 <? length (ws_Targets w))%nat then ws_Targets w
  else [{| tg_Protocol := ws_Protocol w; tg_Port := ws_TargetPort w |}].

Record Scenario := {
  sc_ScenarioID : string; sc_Name : string; sc_DurationNs : Z; sc_TaskSpecs : list TaskSpec }.

Record BarrierEvent := { be_SessionID : string; be_TargetEpochUnixNanos : Z }.

Record ReadySignal := {
  rs_SessionID : string; rs_SubmissionID : string; rs_WorkerID : string;
  rs_WorkerIndex : Z; rs_WorkerCount : Z; rs_TaskCount : Z; rs_ConnectedCount : Z;
  rs_ReadyAtUnixNanos : Z }.

Record OrderSentEvent := {
  os_SessionID : string; os_SubmissionID : string; os_WorkerID : string; os_TaskID : Z;
  os_OrderID : string; os_TargetSendTSNS : Z; os_SendTSNS : Z; os_RecvDoneTSNS : Z;
  os_TimedOut : bool; os_Price : Z; os_Qty : Z; os_Side : string; os_PayloadType : string;
  os_OrdType : string; os_OrigOrderID : string; os_BarrierEpochNs : Z; os_SMPID : Z }.

Record OrderSentEventFields := {
  of_TaskID : Z; of_OrderID : string; of_TargetSendTSNS : Z; of_SendTSNS : Z;
  of_RecvDoneTSNS : Z; of_TimedOut : bool; of_Price : Z; of_Qty : Z; of_Side : string;
  of_PayloadType : string; of_OrdType : string; of_OrigOrderID : string;
  of_BarrierEpochNs : Z; of_SMPID : Z }.

Record OrderSentBatchV2 := {
  sb_SessionID : string; sb_SubmissionID : string; sb_WorkerID : string;
  sb_Events : list OrderSentEventFields }.

Definition into_event (b : OrderSentBatchV2) (f : OrderSentEventFields) : OrderSentEvent :=
  {| os_SessionID := sb_SessionID b; os_SubmissionID := sb_SubmissionID b;
     os_WorkerID := sb_WorkerID b; os_TaskID := of_TaskID f; os_OrderID := of_OrderID f;
     os_TargetSendTSNS := of_TargetSendTSNS f; os_SendTSNS := of_SendTSNS f;
     os_RecvDoneTSNS := of_RecvDoneTSNS f; os_TimedOut := of_TimedOut f;
     os_Price := of_Price f; os_Qty := of_Qty f; os_Side := of_Side f;
     os_PayloadType := of_PayloadType f; os_OrdType := of_OrdType f;
     os_OrigOrderID := of_OrigOrderID f; os_BarrierEpochNs := of_BarrierEpochNs f;
     os_SMPID := of_SMPID f |}.

Definition IntoEvents (b : OrderSentBatchV2) : list OrderSentEvent :=
  map (into_event b) (sb_Events b).

Record OrderAckedEvent := {
  oa_SessionID : string; oa_ContestantID : string; oa_OrderID : string; oa_SrcIP : Z;
  oa_SrcPort : Z; oa_TCPSeq : Z; oa_T3XDPIngressNS : Z; oa_T7XDPEgressNS : Z;
  oa_PodServiceTimeNS : Z; oa_ExecType : string; oa_FillQty : Z; oa_FillPrice : Z;
  oa_OrigOrderID : string; oa_ReorderingDetected : bool; oa_RetransmissionCount : Z }.

Record OrderAckedBatch := {
  ab_SessionID : string; ab_ContestantID : string; ab_Events : list OrderAckedEvent }.

(** ** Lemmas *)

Lemma split_on_nonempty sep s : split_on sep s <> [].
Proof. induction s as [|c s IH]; simpl; [done|]. destruct (Ascii.eqb c sep); [done|].
  by destruct (split_on sep s). Qed.

Lemma split_on_app sep w s :
  forall_bytes (fun c => negb (Ascii.eqb c sep)) w = true ->
  split_on sep (w +:+ String sep s) = w :: split_on sep s.
Proof.
  induction w as [|c w IH]; simpl; intros Hw.
  - by rewrite Ascii.eqb_refl.
  - apply andb_true_iff in Hw as [Hc Hw]. apply negb_true_iff in Hc. by rewrite Hc, IH.
Qed.

Lemma split_on_none sep w :
  forall_bytes (fun c => negb (Ascii.eqb c sep)) w = true -> split_on sep w = [w].
Proof.
  induction w as [|c w IH]; simpl; intros Hw; [done|].
  apply andb_true_iff in Hw as [Hc Hw]. apply negb_true_iff in Hc. by rewrite Hc, IH.
Qed.

Lemma split_on_join ws :
  ws <> [] ->
  Forall (fun w => forall_bytes (fun c => negb (Ascii.eqb c comma)) w = true) ws ->
  split_on comma (join_comma ws) = ws.
Proof.
  intros Hne Hws. induction Hws as [|w ws Hw Hws IH]; [done|].
  destruct ws as [|w' ws].
  - simpl. by apply split_on_none.
  - change (join_comma (w :: w' :: ws)) with (w +:+ String comma (join_comma (w' :: ws))).
    rewrite split_on_app by done. f_equal. by apply IH.
Qed.

Lemma knownProtocol_iff p :
  knownProtocol p = true <-> p ∈ ["FIX"; "REST"; "WS"]%string.
Proof.
  unfold knownProtocol. rewrite !orb_true_iff, !bool_decide_eq_true. set_solver.
Qed.

Section ParseFacts.
Context `{Unicode}.

Definition declared (parts : list string) : list string := map (fun p => TrimSpace (ToUpper p)) parts.

(** The loop accepts exactly the lists of distinct known elements. *)
Lemma parse_parts_ok decl parts seen out r :
  (forall p, p ∈ seen <-> p ∈ out) ->
  parse_parts decl parts seen out = inr r <->
  (r = out ++ declared parts /\ r <> [] /\ (NoDup out -> NoDup r) /\
   NoDup (declared parts) /\ (forall p, p ∈ declared parts -> p ∉ out) /\
   Forall (fun p => p ∈ ["FIX"; "REST"; "WS"]%string) (declared parts)).
Proof.
  revert seen out. induction parts as [|p parts IH]; intros seen out Hseen; simpl.
  - rewrite app_nil_r. destruct out; simpl; split; try done.
    + naive_solver.
    + intros [= <-]. repeat split; try done; [constructor|set_solver].
    + naive_solver.
  - set (q := TrimSpace (ToUpper p)).
    destruct (knownProtocol q) eqn:Hk; simpl; last first.
    { split; [done|]. intros (_ & _ & _ & _ & _ & Hf). apply Forall_cons in Hf as [Hq _].
      apply knownProtocol_iff in Hq. congruence. }
    apply knownProtocol_iff in Hk.
    case_bool_decide as Hq.
    { split; [done|]. intros (_ & _ & _ & _ & Hd & _). exfalso.
      apply (Hd q); [left|by apply Hseen]. }
    rewrite IH by set_solver. rewrite <- app_assoc. simpl.
    rewrite NoDup_cons, Forall_cons. split.
    + intros (-> & Hne & Hnd & Hnd' & Hd & Hf).
      assert (q ∉ out) by (by rewrite <- Hseen).
      repeat split; try done.
      * intros Hout. apply Hnd. apply NoDup_app; repeat split; [done| |apply NoDup_singleton].
        set_solver.
      * intros Hin. apply (Hd q Hin). set_solver.
      * set_solver.
    + intros (-> & Hne & Hnd & [Hq' Hnd'] & Hd & _ & Hf). repeat split; try done.
      * intros Hout%NoDup_app. apply Hnd. naive_solver.
      * set_solver.
Qed.

Lemma parse_parts_nonempty decl parts seen out :
  parts <> [] \/ out <> [] -> parse_parts decl parts seen out <> inl EmptyDeclaration.
Proof.
  revert seen out. induction parts as [|p parts IH]; intros seen out Hor; simpl.
  - destruct out; [naive_solver|done].
  - repeat case_match; try done. apply IH. right. by destruct out.
Qed.

End ParseFacts.

(** The three transports parse to themselves. *)
Lemma declared_known `{Unicode} ws :
  Forall (fun p => p ∈ ["FIX"; "REST"; "WS"]%string) ws -> declared ws = ws.
Proof.
  induction 1 as [|w ws Hw Hws IH]; [done|]. unfold declared in *. simpl. rewrite IH. f_equal.
  rewrite !elem_of_cons, elem_of_nil in Hw. destruct Hw as [->|[->|[->|[]]]]; reflexivity.
Qed.

Lemma known_no_comma ws :
  Forall (fun p => p ∈ ["FIX"; "REST"; "WS"]%string) ws ->
  Forall (fun w => forall_bytes (fun c => negb (Ascii.eqb c comma)) w = true) ws.
Proof.
  intros Hf. eapply Forall_impl; [exact Hf|]. intros w Hw.
  rewrite !elem_of_cons, elem_of_nil in Hw. destruct Hw as [->|[->|[->|[]]]]; reflexivity.
Qed.

Lemma known_length ws :
  NoDup ws -> Forall (fun p => p ∈ ["FIX"; "REST"; "WS"]%string) ws -> (length ws <= 3)%nat.
Proof.
  intros Hnd Hf. change 3%nat with (length ["FIX"; "REST"; "WS"]%string).
  apply submseteq_length, NoDup_submseteq; [done|]. rewrite Forall_forall in Hf. exact Hf.
Qed.

(** A declaration of known transports is not the alias. *)
Lemma join_not_all `{Unicode} ws :
  NoDup ws -> Forall (fun p => p ∈ ["FIX"; "REST"; "WS"]%string) ws ->
  TrimSpace (ToUpper (join_comma ws)) <> ProtocolAll.
Proof.
  intros Hnd Hf. pose proof (known_length ws Hnd Hf) as Hl. clear Hnd.
  destruct ws as [|w1 [|w2 [|w3 [|w4 ws]]]]; [..|simpl in Hl; lia];
    repeat match goal with Hf : Forall _ (_ :: _) |- _ => apply Forall_cons in Hf as [Hw Hf];
      rewrite !elem_of_cons, elem_of_nil in Hw; destruct Hw as [->|[->|[->|[]]]] end;
    vm_compute; discriminate.
Qed.

Section ParseTheorems.
Context `{Unicode}.

(** A protocol declaration is accepted exactly when it is the alias ALL
    or a comma-separated list of distinct transports, whose order is kept; the
    "empty declaration" error can never be returned; and writing a list of
    distinct transports as a declaration and parsing it gives the list back. *)
Theorem ParseProtocols_correct decl :
  (forall r, ParseProtocols decl = inr r <->
     (TrimSpace (ToUpper decl) = ProtocolAll /\ r = ["FIX"; "REST"; "WS"]%string) \/
     (TrimSpace (ToUpper decl) <> ProtocolAll /\ r = declared (split_on comma decl) /\ r <> [] /\ NoDup r /\
      Forall (fun p => p ∈ ["FIX"; "REST"; "WS"]%string) r)) /\
  ParseProtocols decl <> inl EmptyDeclaration /\
  (forall ws, ws <> [] -> NoDup ws -> Forall (fun p => p ∈ ["FIX"; "REST"; "WS"]%string) ws ->
     ParseProtocols (join_comma ws) = inr ws).
Proof.
  split_and!.
  - intros r. unfold ParseProtocols. case_bool_decide as Hall.
    + split; [intros [= <-]; by left|]. naive_solver.
    + rewrite (parse_parts_ok decl _ ∅ [] r) by set_solver. simpl. split.
      * intros (-> & Hne & Hnd & Hnd' & _ & Hf). right. by split_and!.
      * intros [[? _]|(_ & -> & Hne & Hnd & Hf)]; [done|]. split_and!; try done. set_solver.
  - unfold ParseProtocols. case_bool_decide; [done|]. apply parse_parts_nonempty. left. apply split_on_nonempty.
  - intros ws Hne Hnd Hf. unfold ParseProtocols. rewrite bool_decide_false by (by apply join_not_all).
    rewrite split_on_join; [|done|by apply known_no_comma].
    apply parse_parts_ok; [set_solver|]. rewrite declared_known by done. simpl.
    split_and!; try done. set_solver.
Qed.

End ParseTheorems.
