(* ===== verification/Pipeline.v ===== *)
(** * correctness-validator: [internal/pipeline/pipeline.go]

    Joining one sent event with the captured responses of the same order into
    the order the validators grade. *)

From stdpp Require Import prelude gmap strings list.
From S2P Require Import Prelude Model Topics.

Open Scope Z_scope.

Definition hasSMPID (id : Z) : bool := negb (id =? SMPIDNone).

Fixpoint firstOrig (acks : list OrderAckedEvent) : string :=
  match acks with
  | [] => ""
  | a :: acks => if bool_decide (oa_OrigOrderID a = ""%string) then firstOrig acks else oa_OrigOrderID a
  end.

Definition preferOrig (sentOrig : string) (acks : list OrderAckedEvent) : string :=
  if bool_decide (sentOrig = ""%string) then firstOrig acks else sentOrig.

Definition response (a : OrderAckedEvent) : Response :=
  mkResponse (oa_ExecType a) (oa_FillQty a) (oa_FillPrice a) (oa_T7XDPEgressNS a).

Definition responses (acks : list OrderAckedEvent) : list Response := map response acks.

(** [EffectiveT3] is left zero for the promotion pass. *)
Definition AssembleOrder (s : OrderSentEvent) (acks : list OrderAckedEvent) : option Order :=
  match acks with
  | [] => None
  | first :: _ =>
      Some (mkOrder (os_OrderID s) (mkFlow (oa_SrcIP first) (oa_SrcPort first)) (oa_TCPSeq first)
        (oa_T3XDPIngressNS first) 0 (SideFrom (os_Side s))
        (i64 (i64 (os_Price s) * TelemetryPriceScale)) (os_Qty s)
        (KindFrom (os_PayloadType s) (os_OrdType s))
        (preferOrig (os_OrigOrderID s) acks) (os_SMPID s) (hasSMPID (os_SMPID s))
        (responses acks))
  end.
