(* ===== verification/Source.v ===== *)
(** * correctness-validator: reading a session off Kafka
    ([internal/source/stream.go], [band.go], [offsets.go])

    One reader per partition decodes the session's batches; a single consumer
    merges the readers by event time, joins each sent order with its captured
    responses, and hands the joined orders to the streaming reorderer.

    The broker connection and the message decoder (segmentio/kafka-go,
    vmihailenco/msgpack) are parameters.  A reader goroutine influences the
    consumer only through the channel it fills and closes, so a reader is the
    list of batches it sends before closing; the callbacks [apply],
    [addPhantom], [addLost] and [addCaptureGap] are recorded as a log in call
    order. *)

From Stdlib Require Import Ascii.
From stdpp Require Import prelude gmap strings list sorting.
From S2P Require Import Prelude GoSort Model Replay Reorder Topics Pipeline.

Open Scope Z_scope.

(** ** Constants and data *)

Definition DefaultReorderWindow : Z := Z.shiftl 1 20.
Definition DefaultJoinWindowNS : Z := 500 * 1000 * 1000.
Definition maxGapSamples : Z := 200000.
Definition second_ns : Z := 1000000000.

Record StreamCounts := mkCounts {
  SentEvents : Z; AckedEvents : Z; MatchedOrders : Z; LostOrders : Z;
  CaptureGapLastSecond : Z; CaptureGapSpreadNs : Z; CaptureGaps : Z }.

Definition zeroCounts : StreamCounts := mkCounts 0 0 0 0 0 0 0.

(** [isAck] is the constructor. *)
Inductive tsBatch :=
  | SentBatch (ts : Z) (sent : list OrderSentEvent)
  | AckBatch (ts : Z) (acks : list OrderAckedEvent).

Definition b_ts (b : tsBatch) : Z := match b with SentBatch ts _ | AckBatch ts _ => ts end.

(** [p_sent] is [Some] exactly when [hasSent]. *)
Record pendingOrder := mkPending {
  p_sent : option OrderSentEvent; p_acks : list OrderAckedEvent; p_t3 : Z; p_sendTS : Z }.

Definition newPending : pendingOrder := mkPending None [] 0 0.

Inductive pendingOutcome := outcomeMatched | outcomeLost | outcomeCaptureGap | outcomeUnsent.

Definition outcome (p : pendingOrder) : pendingOutcome :=
  match p_sent p with
  | None => outcomeUnsent
  | Some sent =>
      if (0 <? length (p_acks p))%nat then outcomeMatched
      else if os_TimedOut sent then outcomeLost
      else outcomeCaptureGap
  end.

(** The key a redelivery shares with the ack already held. *)
Definition sameAck (held a : OrderAckedEvent) : bool :=
  bool_decide (oa_ExecType held = oa_ExecType a) && (oa_T7XDPEgressNS held =? oa_T7XDPEgressNS a) &&
  (oa_FillQty held =? oa_FillQty a) && (oa_FillPrice held =? oa_FillPrice a).

Definition addAck (p : pendingOrder) (a : OrderAckedEvent) : pendingOrder * bool :=
  if existsb (fun held => sameAck held a) (p_acks p) then (p, false)
  else (mkPending (p_sent p) (p_acks p ++ [a]) (p_t3 p) (p_sendTS p), true).

(** ** Bands *)

Definition bandPartitionSet (band numPartitions bandWidth : Z) : gset Z :=
  if numPartitions <=? 1 then {[0]} else
  let bandWidth := clampWidth numPartitions bandWidth in
  let base := i32 (i64 (band * bandWidth)) in
  list_to_set (map (fun i => Z.rem (i32 (base + i)) numPartitions) (seqZ 0 bandWidth)).

(** A [kafka.Partition] is its id; [None] is the nil set. *)
Definition filterPartitions (parts : list Z) (allowed : option (gset Z)) : list Z :=
  match allowed with
  | None => parts
  | Some allowed => List.filter (fun p => bool_decide (p ∈ allowed)) parts
  end.

Record SessionMeta := mkMeta { m_Band : Z; m_MaxRate : bool }.

Abbreviation BandCache := (gmap string SessionMeta).

Definition NewBandCache : BandCache := ∅.

Definition bc_Set (c : BandCache) (sessionID : string) (meta : SessionMeta) : BandCache :=
  <[sessionID := meta]> c.

Definition GetAndDelete (c : BandCache) (sessionID : string) : SessionMeta * BandCache :=
  match c !! sessionID with
  | None => (mkMeta OrderBandUnset false, c)
  | Some meta => (meta, delete sessionID c)
  end.

(** ** Where a session starts in a partition *)

Definition startMargin_ms : Z := 60000.

(** [strings.ReplaceAll(s, "-", "")] *)
Fixpoint strip_hyphens (s : string) : string :=
  match s with
  | EmptyString => EmptyString
  | String c s => if Ascii.eqb c "-"%char then strip_hyphens s else String c (strip_hyphens s)
  end.

Definition fromHexChar (c : ascii) : option Z :=
  let n := Z.of_N (N_of_ascii c) in
  if (48 <=? n) && (n <=? 57) then Some (n - 48)
  else if (97 <=? n) && (n <=? 102) then Some (n - 97 + 10)
  else if (65 <=? n) && (n <=? 70) then Some (n - 65 + 10)
  else None.

(** [hex.DecodeString] *)
Fixpoint decode_hex (s : string) : option (list Z) :=
  match s with
  | EmptyString => Some []
  | String a (String b s) =>
      match fromHexChar a, fromHexChar b, decode_hex s with
      | Some x, Some y, Some l => Some (Z.lor (Z.shiftl x 4) y :: l)
      | _, _, _ => None
      end
  | String _ EmptyString => None
  end.

(** The creation time of a UUIDv7 session id, in Unix milliseconds. *)
Definition sessionStartFromID (sessionID : string) : option Z :=
  let hexDigits := strip_hyphens sessionID in
  if negb (String.length hexDigits =? 32)%nat then None else
  match decode_hex hexDigits with
  | None => None
  | Some raw =>
      if negb (Z.shiftr (nth 6 raw 0) 4 =? 7) then None else
      let ms := foldl (fun ms b => Z.lor (i64 (Z.shiftl ms 8)) b) 0 (take 6 raw) in
      if ms <=? 0 then None else Some ms
  end.

(** [kafka.FirstOffset], the symbolic earliest offset. *)
Definition FirstOffset : Z := -2.

(** A partition leader's connection: offset lookups that can fail. *)
Record Conn := { ReadOffset : Z -> string + Z; ReadFirstOffset : string + Z; ReadLastOffset : string + Z }.

Definition startOffsetForSession (sessionID : string) (lookup : Z -> string + Z) : string + Z :=
  match sessionStartFromID sessionID with
  | None => inr FirstOffset
  | Some start => lookup (start - startMargin_ms)
  end.

Definition resolveStart (seek last : Z) : Z := if seek <? 0 then last else seek.

Definition partitionOffsets (conn : string + Conn) (sessionID : string) : string + (Z * Z) :=
  match conn with
  | inl err => inl err
  | inr conn =>
      match startOffsetForSession sessionID (ReadOffset conn) with
      | inl err => inl err
      | inr start =>
          match ReadLastOffset conn with
          | inl err => inl err
          | inr last =>
              if start =? FirstOffset then
                match ReadFirstOffset conn with
                | inl err => inl err
                | inr earliest => inr (earliest, last)
                end
              else inr (resolveStart start last, last)
          end
      end
  end.

(** ** Partition readers *)

(** [msgpack.Unmarshal] of the two envelopes; [None] is a decode error. *)
Class Msgpack := {
  unmarshal_acked : list Byte.byte -> option OrderAckedBatch;
  unmarshal_sent : list Byte.byte -> option OrderSentBatchV2 }.

Record Message := { m_Offset : Z; m_Value : list Byte.byte }.

Definition decodeBatch `{Msgpack} (m : Message) (sessionID : string) (isAck : bool) : option tsBatch :=
  if isAck then
    match unmarshal_acked (m_Value m) with
    | None => None
    | Some b =>
        if negb (bool_decide (ab_SessionID b = sessionID)) then None else
        match ab_Events b with
        | [] => None
        | a :: _ => Some (AckBatch (oa_T3XDPIngressNS a) (ab_Events b))
        end
    end
  else
    match unmarshal_sent (m_Value m) with
    | None => None
    | Some b =>
        if negb (bool_decide (sb_SessionID b = sessionID)) then None else
        match IntoEvents b with
        | [] => None
        | e :: _ => Some (SentBatch (os_SendTSNS e) (IntoEvents b))
        end
    end.

(** The read loop over what [ReadMessage] returns from the start offset on;
    the log of messages ends in a read error when it is exhausted. *)
Fixpoint read_loop `{Msgpack} (ms : list Message) (last : Z) (sessionID : string) (isAck : bool)
    : list tsBatch * option string :=
  match ms with
  | [] => ([], Some "read"%string)
  | m :: ms =>
      let out := match decodeBatch m sessionID isAck with Some b => [b] | None => [] end in
      if last - 1 <=? m_Offset m then (out, None)
      else let '(bs, err) := read_loop ms last sessionID isAck in (out ++ bs, err)
  end.

(** [log_from o] is what the partition holds from offset [o] on. *)
Definition streamPartition `{Msgpack} (conn : string + Conn) (log_from : Z -> list Message)
    (sessionID : string) (isAck : bool) : list tsBatch * option string :=
  match partitionOffsets conn sessionID with
  | inl err => ([], Some err)
  | inr (start, last) =>
      if last <=? start then ([], None) else read_loop (log_from start) last sessionID isAck
  end.

(** ** The join *)

Definition streamIsFill (execType : string) (qty : Z) : bool :=
  (0 <? qty) && (bool_decide (execType = "1"%string) || bool_decide (execType = "2"%string) ||
                 bool_decide (execType = "F"%string)).

(** The calls [StreamSession] makes to its callbacks. *)
Inductive SinkCall :=
  | CApply (p : optr) (o : Order)
  | CPhantom (orderID : string) (qty price : Z)
  | CLost (orderID : string) (kind : Kind)
  | CGap.

(** The consumer's local variables. *)
Record Join := mkJoin {
  j_counts : StreamCounts; j_gapSendTS : list Z; j_maxSendTS : Z;
  j_pending : gmap string pendingOrder; j_order : list string;
  j_contestant : string; j_duplicateAcks : Z; j_r : Reorderer; j_calls : list SinkCall }.

Definition newJoin (window : Z) : Join :=
  mkJoin zeroCounts [] 0 ∅ [] "" 0 (NewReorderer window ∅) [].

Definition on_counts (f : StreamCounts -> StreamCounts) (j : Join) : Join :=
  mkJoin (f (j_counts j)) (j_gapSendTS j) (j_maxSendTS j) (j_pending j) (j_order j)
    (j_contestant j) (j_duplicateAcks j) (j_r j) (j_calls j).
Definition set_gapSendTS (l : list Z) (j : Join) : Join :=
  mkJoin (j_counts j) l (j_maxSendTS j) (j_pending j) (j_order j)
    (j_contestant j) (j_duplicateAcks j) (j_r j) (j_calls j).
Definition set_maxSendTS (t : Z) (j : Join) : Join :=
  mkJoin (j_counts j) (j_gapSendTS j) t (j_pending j) (j_order j)
    (j_contestant j) (j_duplicateAcks j) (j_r j) (j_calls j).
Definition set_pending (m : gmap string pendingOrder) (j : Join) : Join :=
  mkJoin (j_counts j) (j_gapSendTS j) (j_maxSendTS j) m (j_order j)
    (j_contestant j) (j_duplicateAcks j) (j_r j) (j_calls j).
Definition set_order (l : list string) (j : Join) : Join :=
  mkJoin (j_counts j) (j_gapSendTS j) (j_maxSendTS j) (j_pending j) l
    (j_contestant j) (j_duplicateAcks j) (j_r j) (j_calls j).
Definition set_contestant (c : string) (j : Join) : Join :=
  mkJoin (j_counts j) (j_gapSendTS j) (j_maxSendTS j) (j_pending j) (j_order j)
    c (j_duplicateAcks j) (j_r j) (j_calls j).
Definition set_duplicateAcks (n : Z) (j : Join) : Join :=
  mkJoin (j_counts j) (j_gapSendTS j) (j_maxSendTS j) (j_pending j) (j_order j)
    (j_contestant j) n (j_r j) (j_calls j).
Definition set_r (r : Reorderer) (j : Join) : Join :=
  mkJoin (j_counts j) (j_gapSendTS j) (j_maxSendTS j) (j_pending j) (j_order j)
    (j_contestant j) (j_duplicateAcks j) r (j_calls j).
Definition call (c : SinkCall) (j : Join) : Join :=
  mkJoin (j_counts j) (j_gapSendTS j) (j_maxSendTS j) (j_pending j) (j_order j)
    (j_contestant j) (j_duplicateAcks j) (j_r j) (j_calls j ++ [c]).
Definition calls (cs : list SinkCall) (j : Join) : Join :=
  mkJoin (j_counts j) (j_gapSendTS j) (j_maxSendTS j) (j_pending j) (j_order j)
    (j_contestant j) (j_duplicateAcks j) (j_r j) (j_calls j ++ cs).

Definition inc_SentEvents (c : StreamCounts) : StreamCounts :=
  mkCounts (SentEvents c +u64 1) (AckedEvents c) (MatchedOrders c) (LostOrders c)
    (CaptureGapLastSecond c) (CaptureGapSpreadNs c) (CaptureGaps c).
Definition inc_AckedEvents (c : StreamCounts) : StreamCounts :=
  mkCounts (SentEvents c) (AckedEvents c +u64 1) (MatchedOrders c) (LostOrders c)
    (CaptureGapLastSecond c) (CaptureGapSpreadNs c) (CaptureGaps c).
Definition inc_MatchedOrders (c : StreamCounts) : StreamCounts :=
  mkCounts (SentEvents c) (AckedEvents c) (MatchedOrders c +u64 1) (LostOrders c)
    (CaptureGapLastSecond c) (CaptureGapSpreadNs c) (CaptureGaps c).
Definition inc_LostOrders (c : StreamCounts) : StreamCounts :=
  mkCounts (SentEvents c) (AckedEvents c) (MatchedOrders c) (LostOrders c +u64 1)
    (CaptureGapLastSecond c) (CaptureGapSpreadNs c) (CaptureGaps c).
Definition inc_CaptureGaps (c : StreamCounts) : StreamCounts :=
  mkCounts (SentEvents c) (AckedEvents c) (MatchedOrders c) (LostOrders c)
    (CaptureGapLastSecond c) (CaptureGapSpreadNs c) (CaptureGaps c +u64 1).

(** Running a reorderer operation: the orders it emits are [apply] calls. *)
Definition run_r (f : Reorderer -> Reorderer) (j : Join) : Join :=
  let r := f (j_r j) in
  calls (map (fun '(p, o) => CApply p o) (drop (length (r_out (j_r j))) (r_out r))) (set_r r j).

(** [&model.Order{...}]: a fresh pointer of the heap. *)
Definition alloc_order (o : Order) (j : Join) : optr * Join :=
  let st := r_store (j_r j) in
  let p := fresh (dom st) in
  (p, set_r (mkReorderer (r_window (j_r j)) (r_buf (j_r j)) (r_carry (j_r j))
               (<[p := o]> st) (r_out (j_r j))) j).

Section Session.
Context `{MapRange}.

(** The switch of [emitReady] on what the join decided about [id]. *)
Definition emit_outcome (id : string) (po : pendingOrder) (j : Join) : Join :=
  match outcome po, p_sent po with
  | outcomeMatched, Some sent =>
      match AssembleOrder sent (p_acks po) with
      | Some o =>
          let '(p, j) := alloc_order o (on_counts inc_MatchedOrders j) in
          run_r (fun r => Push r p) j
      | None => j
      end
  | outcomeLost, Some sent =>
      call (CLost id (KindFrom (os_PayloadType sent) (os_OrdType sent))) (on_counts inc_LostOrders j)
  | outcomeCaptureGap, Some sent =>
      let j := on_counts inc_CaptureGaps j in
      let j := if negb (os_SendTSNS sent =? 0) && (Z.of_nat (length (j_gapSendTS j)) <? maxGapSamples)
               then set_gapSendTS (j_gapSendTS j ++ [os_SendTSNS sent]) j else j in
      call CGap j
  | _, _ =>
      calls (flat_map (fun a => if streamIsFill (oa_ExecType a) (oa_FillQty a)
                                then [CPhantom id (oa_FillQty a) (i64 (oa_FillPrice a))] else [])
               (p_acks po)) j
  end.

(** The loop of [emitReady]: the state and the number of ids to cut. *)
Fixpoint emit_loop (watermark : Z) (flushAll : bool) (ids : list string) (j : Join) : Join * nat :=
  match ids with
  | [] => (j, 0%nat)
  | id :: ids =>
      match j_pending j !! id with
      | None => let '(j, cut) := emit_loop watermark flushAll ids j in (j, S cut)
      | Some po =>
          let ref := if p_sendTS po =? 0 then p_t3 po else p_sendTS po in
          if negb flushAll && (watermark <? (ref +u64 DefaultJoinWindowNS)) then (j, 0%nat)
          else
            let j := emit_outcome id po j in
            let j := set_pending (delete id (j_pending j)) j in
            let '(j, cut) := emit_loop watermark flushAll ids j in (j, S cut)
      end
  end.

Definition emitReady (watermark : Z) (flushAll : bool) (j : Join) : Join :=
  let '(j', cut) := emit_loop watermark flushAll (j_order j) j in
  if (0 <? cut)%nat then set_order (drop cut (j_order j)) j' else j'.

(** [pending[id]], created and queued if absent. *)
Definition lookup_pending (id : string) (j : Join) : pendingOrder * Join :=
  match j_pending j !! id with
  | Some po => (po, j)
  | None => (newPending, set_order (j_order j ++ [id]) (set_pending (<[id := newPending]> (j_pending j)) j))
  end.

Definition put_pending (id : string) (po : pendingOrder) (j : Join) : Join :=
  set_pending (<[id := po]> (j_pending j)) j.

Definition on_ack (j : Join) (a : OrderAckedEvent) : Join :=
  let j := on_counts inc_AckedEvents j in
  let j := if bool_decide (j_contestant j = ""%string) then set_contestant (oa_ContestantID a) j else j in
  let '(po, j) := lookup_pending (oa_OrderID a) j in
  let '(po, fresh) := addAck po a in
  if negb fresh then set_duplicateAcks (j_duplicateAcks j + 1) j
  else
    let po := if p_t3 po =? 0 then mkPending (p_sent po) (p_acks po) (oa_T3XDPIngressNS a) (p_sendTS po)
              else po in
    put_pending (oa_OrderID a) po j.

Definition on_sent (j : Join) (s : OrderSentEvent) : Join :=
  let j := on_counts inc_SentEvents j in
  let j := if j_maxSendTS j <? os_SendTSNS s then set_maxSendTS (os_SendTSNS s) j else j in
  let '(po, j) := lookup_pending (os_OrderID s) j in
  put_pending (os_OrderID s) (mkPending (Some s) (p_acks po) (p_t3 po) (os_SendTSNS s)) j.

Definition process_batch (b : tsBatch) (j : Join) : Join :=
  let j := match b with
           | AckBatch _ acks => foldl on_ack j acks
           | SentBatch _ sent => foldl on_sent j sent
           end in
  emitReady (b_ts b) false j.

(** ** The merge *)

(** A reader as the consumer sees it: the head it holds, if live, and the
    batches still to come through the channel. *)
Record stream_st := mkStream { s_head : option tsBatch; s_rest : list tsBatch }.

(** [<-s.ch] *)
Definition refill (s : stream_st) : stream_st :=
  match s_rest s with
  | b :: rest => mkStream (Some b) rest
  | [] => mkStream None []
  end.

(** The live stream with the smallest head time, the first one on a tie. *)
Fixpoint pick_from (i : nat) (best : option (nat * tsBatch)) (ss : list stream_st) : option (nat * tsBatch) :=
  match ss with
  | [] => best
  | s :: ss =>
      let best := match s_head s, best with
                  | Some h, None => Some (i, h)
                  | Some h, Some (_, hb) => if b_ts h <? b_ts hb then Some (i, h) else best
                  | None, _ => best
                  end in
      pick_from (S i) best ss
  end.

Definition pick (ss : list stream_st) : option (nat * tsBatch) := pick_from 0 None ss.

(** The merge loop; [None] is running out of fuel. *)
Fixpoint merge_loop (fuel : nat) (ss : list stream_st) (j : Join) : option Join :=
  match fuel with
  | O => None
  | S fuel =>
      match pick ss with
      | None => Some j
      | Some (i, b) => merge_loop fuel (alter refill i ss) (process_batch b j)
      end
  end.

Definition batches_left (s : stream_st) : nat :=
  match s_head s with Some _ => 1 | None => 0 end + length (s_rest s).

Definition total_left (ss : list stream_st) : nat := sum_list_with batches_left ss.

(** Where the capture gaps lie in the session. *)
Definition gap_stats (j : Join) : StreamCounts :=
  let c := j_counts j in
  match j_gapSendTS j with
  | [] => c
  | ts0 :: _ =>
      if 0 <? j_maxSendTS j then
        let '(lo, hi, n) := foldl (fun '(lo, hi, n) ts =>
            let lo := if ts <? lo then ts else lo in
            let hi := if hi <? ts then ts else hi in
            (lo, hi, if (j_maxSendTS j -u64 ts) <=? second_ns then n +u64 1 else n))
          (ts0, ts0, CaptureGapLastSecond c) (j_gapSendTS j) in
        mkCounts (SentEvents c) (AckedEvents c) (MatchedOrders c) (LostOrders c) n (hi -u64 lo) (CaptureGaps c)
      else c
  end.

Fixpoint first_error (errs : list (option string)) : option string :=
  match errs with
  | [] => None
  | Some e :: _ => Some e
  | None :: errs => first_error errs
  end.

(** What the broker has for a session: the partitions of the two topics and,
    per topic and partition, what its reader sends and how it ends. *)
Record Broker := {
  bk_sentParts : string + list Z; bk_ackParts : string + list Z;
  bk_reader : bool -> Z -> list tsBatch * option string }.

Record SessionResult := mkResult {
  sr_counts : StreamCounts; sr_contestant : string; sr_err : option string; sr_calls : list SinkCall }.

Definition restrict (orderBand bandWidth : Z) (parts : list Z) : list Z :=
  if orderBand =? OrderBandUnset then parts
  else filterPartitions parts (Some (bandPartitionSet orderBand (Z.of_nat (length parts)) bandWidth)).

Definition StreamSession (brokers : list (string + Broker)) (window orderBand bandWidth : Z)
    : option SessionResult :=
  let window := if window <=? 0 then DefaultReorderWindow else window in
  let fail err := Some (mkResult zeroCounts "" (Some err) []) in
  match brokers with
  | [] => fail "no kafka brokers configured"%string
  | inl err :: _ => fail err
  | inr bk :: _ =>
      match bk_sentParts bk, bk_ackParts bk with
      | inl err, _ => fail err
      | _, inl err => fail err
      | inr sentParts, inr ackParts =>
          let readers := map (bk_reader bk false) (restrict orderBand bandWidth sentParts) ++
                         map (bk_reader bk true) (restrict orderBand bandWidth ackParts) in
          let ss := map (fun '(bs, _) => refill (mkStream None bs)) readers in
          match merge_loop (S (total_left ss)) ss (newJoin window) with
          | None => None
          | Some j =>
              let j := run_r Flush (emitReady 0 true j) in
              match first_error (map snd readers) with
              | Some err => Some (mkResult (j_counts j) (j_contestant j) (Some err) (j_calls j))
              | None => Some (mkResult (gap_stats j) (j_contestant j) None (j_calls j))
              end
          end
      end
  end.

End Session.
