(* ===== verification/SourceProps.v ===== *)
(** * Theorems about the session source

    The consumer loop is shown to be a run of a small automaton ([reach])
    whose moves are "a sent event", "a captured response" and "emit the oldest
    pending order"; its invariants are proved once, by induction on runs. *)

From Stdlib Require Import Ascii.
From stdpp Require Import prelude gmap strings list sorting.
From S2P Require Import Prelude GoSort Model Replay Reorder Topics Pipeline Source.

Open Scope Z_scope.

(** ** Reorderer facts the join needs *)

Lemma with_EffectiveT3_at_id st p : with_EffectiveT3 (at_ st p) (o_EffectiveT3 (at_ st p)) = at_ st p.
Proof. by destruct (at_ st p). Qed.

Lemma promote_run_raw st prev started ps :
  same_raw st (promote_run st prev started ps) /\ dom st ⊆ dom (promote_run st prev started ps).
Proof.
  revert st prev started. induction ps as [|p ps IH]; intros st prev started; simpl.
  - split; [apply same_raw_refl|done].
  - set (o := at_ st p). set (t := if negb started || _ then o_T3Ns o else prev).
    destruct (IH (<[p := with_EffectiveT3 o t]> st) t true) as [Hraw Hdom]. split.
    + eapply same_raw_trans; [|exact Hraw]. intros q. rewrite at_insert. case_decide as Hq; subst.
      * by exists t.
      * exists (o_EffectiveT3 (at_ st q)). by rewrite with_EffectiveT3_at_id.
    + etrans; [|exact Hdom]. rewrite dom_insert. set_solver.
Qed.

Lemma promote_groups_raw sorter carry st groups :
  same_raw st (promote_groups sorter carry st groups) /\
  dom st ⊆ dom (promote_groups sorter carry st groups).
Proof.
  unfold promote_groups. revert st. induction groups as [|[f l] groups IH]; intros st; simpl.
  - split; [apply same_raw_refl|done].
  - destruct (carry !! f) as [c|].
    + destruct (promote_run_raw st c true (sorter (by_seq st) l)) as [H1 H2].
      destruct (IH (promote_run st c true (sorter (by_seq st) l))) as [H3 H4].
      split; [by eapply same_raw_trans|set_solver].
    + destruct (promote_run_raw st 0 false (sorter (by_seq st) l)) as [H1 H2].
      destruct (IH (promote_run st 0 false (sorter (by_seq st) l))) as [H3 H4].
      split; [by eapply same_raw_trans|set_solver].
Qed.

(** What holds of every order up to its [EffectiveT3]. *)
Class RawPred (Q : Order -> Prop) := raw_pred : forall o t, Q o -> Q (with_EffectiveT3 o t).

(** The heap of a reorderer: every buffered pointer is allocated, and [Q]
    holds of every buffered order and of every order emitted. *)
Definition heap_ok (Q : Order -> Prop) (r : Reorderer) : Prop :=
  Forall (fun p => p ∈ dom (r_store r) /\ Q (at_ (r_store r) p)) (r_buf r) /\
  Forall (fun po => Q po.2) (r_out r).

Section ReordererFacts.
Context `{MapRange} (Q : Order -> Prop) `{!RawPred Q}.

Lemma release_heap n r : heap_ok Q r -> heap_ok Q (release n r).
Proof.
  intros [Hbuf Hout]. unfold release. destruct (_ || _); [done|]. simpl.
  set (k := if _ <? _ then _ else _). set (buf := sort_stable _ _).
  destruct (emit_all_out (take k buf) (promote r)) as (Eo & Es & _). unfold heap_ok. simpl.
  rewrite Eo, Es. simpl.
  destruct (promote_groups_raw sort_stable (r_carry r) (r_store r)
              (map_range (map_to_list (group (r_store r) (r_buf r))))) as [Hraw Hdom].
  assert (Hb : Forall (fun p => p ∈ dom (r_store (promote r)) /\ Q (at_ (r_store (promote r)) p)) buf).
  { rewrite Forall_forall in *. intros p Hp. unfold buf in Hp. rewrite sort_stable_perm in Hp.
    destruct (Hbuf p Hp) as [Hd Hq]. split; [by apply Hdom|].
    destruct (Hraw p) as [t Ht]. simpl. rewrite Ht. by apply raw_pred. }
  split; [by apply Forall_drop|]. apply Forall_app. split; [done|].
  rewrite Forall_forall. intros [p o] (q & [= -> ->] & Hq)%list_elem_of_fmap. simpl.
  rewrite Forall_forall in Hb. apply Hb. rewrite <-(take_drop k buf). set_solver.
Qed.

Lemma Push_heap r p :
  heap_ok Q r -> p ∈ dom (r_store r) -> Q (at_ (r_store r) p) -> heap_ok Q (Push r p).
Proof.
  intros [Hbuf Hout] Hp Hq. unfold Push. simpl.
  assert (Hok : heap_ok Q (mkReorderer (r_window r) (r_buf r ++ [p]) (r_carry r) (r_store r) (r_out r))).
  { split; simpl; [|done]. apply Forall_app. split; [done|]. by repeat constructor. }
  break_if; [by apply release_heap|done].
Qed.

Lemma release_out n r : exists l, r_out (release n r) = r_out r ++ l.
Proof.
  unfold release. destruct (_ || _); [exists []; by rewrite app_nil_r|]. simpl.
  eexists. by rewrite (proj1 (emit_all_out _ _)).
Qed.

Lemma Push_out r p : exists l, r_out (Push r p) = r_out r ++ l.
Proof.
  unfold Push. break_if; [|exists []; by rewrite app_nil_r].
  apply (release_out _ (mkReorderer _ _ _ _ _)).
Qed.

Lemma Push_size r p :
  (length (r_out (Push r p)) + length (r_buf (Push r p)) = S (length (r_out r) + length (r_buf r)))%nat.
Proof.
  pose proof (Push_perm r p) as Hp. apply Permutation_length in Hp.
  rewrite !length_app in Hp. unfold emitted in Hp. rewrite !length_fmap in Hp. simpl in Hp. lia.
Qed.

Lemma Flush_size r :
  (length (r_out (Flush r)) = length (r_out r) + length (r_buf r))%nat /\ r_buf (Flush r) = [].
Proof.
  unfold Flush. set (n := Z.of_nat _).
  assert (Hnil : r_buf (release n r) = []).
  { apply length_zero_iff_nil. rewrite release_length. unfold n. lia. }
  pose proof (release_perm n r) as Hp. rewrite Hnil, app_nil_r in Hp.
  apply Permutation_length in Hp. rewrite length_app in Hp. unfold emitted in Hp.
  by rewrite !length_fmap in Hp.
Qed.

End ReordererFacts.

(** ** The join as an automaton *)

Section Automaton.
Context `{MapRange}.

Definition emit_step (j : Join) (id : string) : Join :=
  match j_pending j !! id with
  | None => j
  | Some po => let j' := emit_outcome id po j in set_pending (delete id (j_pending j')) j'
  end.

(** Emit the oldest pending order. *)
Definition pop (j : Join) : Join :=
  match j_order j with
  | [] => j
  | id :: ids => set_order ids (emit_step j id)
  end.

(** [reach w ss as j]: the consumer can be in [j] after receiving [ss] and [as]. *)
Inductive reach (w : Z) : list OrderSentEvent -> list OrderAckedEvent -> Join -> Prop :=
  | reach_new : reach w [] [] (newJoin w)
  | reach_sent ss ak j s : reach w ss ak j -> reach w (ss ++ [s]) ak (on_sent j s)
  | reach_ack ss ak j a : reach w ss ak j -> reach w ss (ak ++ [a]) (on_ack j a)
  | reach_pop ss ak j : reach w ss ak j -> reach w ss ak (pop j).

(** The queue of ids and the map of pending orders agree. *)
Definition queue_ok (j : Join) : Prop :=
  NoDup (j_order j) /\ forall id, id ∈ j_order j <-> is_Some (j_pending j !! id).

Lemma emit_outcome_frame id po j :
  let j' := emit_outcome id po j in
  j_pending j' = j_pending j /\ j_order j' = j_order j /\ j_maxSendTS j' = j_maxSendTS j /\
  j_contestant j' = j_contestant j /\ j_duplicateAcks j' = j_duplicateAcks j /\
  SentEvents (j_counts j') = SentEvents (j_counts j) /\
  AckedEvents (j_counts j') = AckedEvents (j_counts j).
Proof.
  unfold emit_outcome. destruct (outcome po), (p_sent po); simpl; try done.
  - by destruct (AssembleOrder _ _).
  - by destruct (_ && _).
Qed.

Lemma emit_outcome_set_order id po l j :
  emit_outcome id po (set_order l j) = set_order l (emit_outcome id po j).
Proof.
  unfold emit_outcome. destruct (outcome po), (p_sent po); try done.
  - by destruct (AssembleOrder _ _).
  - simpl. by destruct (_ && _).
Qed.

Lemma emit_step_set_order l j id : emit_step (set_order l j) id = set_order l (emit_step j id).
Proof.
  unfold emit_step. simpl. destruct (j_pending j !! id) as [po|]; [|done].
  cbv zeta. by rewrite emit_outcome_set_order.
Qed.

Lemma emit_step_pending j id : j_pending (emit_step j id) = delete id (j_pending j).
Proof.
  unfold emit_step. destruct (j_pending j !! id) as [po|] eqn:E; simpl.
  - by rewrite (proj1 (emit_outcome_frame id po j)).
  - by rewrite delete_id.
Qed.

Lemma emit_step_order j id : j_order (emit_step j id) = j_order j.
Proof.
  unfold emit_step. destruct (j_pending j !! id) as [po|]; [|done]. simpl.
  apply (proj1 (proj2 (emit_outcome_frame id po j))).
Qed.

Lemma emit_loop_steps wm fl ids j :
  NoDup ids -> (forall id, id ∈ ids -> is_Some (j_pending j !! id)) ->
  exists cut, (cut <= length ids)%nat /\ (fl = true -> cut = length ids) /\
    emit_loop wm fl ids j = (foldl emit_step j (take cut ids), cut).
Proof.
  revert j. induction ids as [|id ids IH]; intros j Hnd Hin; simpl.
  - exists 0%nat. done.
  - destruct (Hin id) as [po Hpo]; [left|]. rewrite Hpo. apply NoDup_cons in Hnd as [Hid Hnd].
    destruct (negb fl && _) eqn:E.
    + exists 0%nat. apply andb_true_iff in E as [E _]. apply negb_true_iff in E. subst. split_and!; [lia|done|done].
    + assert (Hstep : set_pending (delete id (j_pending (emit_outcome id po j))) (emit_outcome id po j)
                      = emit_step j id) by (unfold emit_step; by rewrite Hpo).
      rewrite Hstep. destruct (IH (emit_step j id)) as (cut & Hle & Hfl & ->); [done| |].
      * intros id' Hid'. rewrite emit_step_pending, lookup_delete_ne; [apply Hin; by right|].
        intros ->. done.
      * exists (S cut). simpl. split_and!; [lia| |done]. intros Hf. rewrite Hfl; auto.
Qed.

Lemma iter_pop n j :
  (n <= length (j_order j))%nat ->
  Nat.iter n pop j = set_order (drop n (j_order j)) (foldl emit_step j (take n (j_order j))).
Proof.
  revert j. induction n as [|n IH]; intros j Hn.
  - simpl. by destruct j.
  - rewrite Nat.iter_succ_r. destruct (j_order j) as [|id ids] eqn:E; simpl in Hn; [lia|].
    assert (Hpop : pop j = set_order ids (emit_step j id)) by (unfold pop; by rewrite E).
    rewrite IH; rewrite Hpop; simpl; [|lia].
    generalize (emit_step j id). intros j1. generalize (take n ids), (drop n ids). clear.
    intros l k. revert j1. induction l as [|x l IH]; intros j1; simpl; [done|].
    rewrite emit_step_set_order. apply IH.
Qed.

Lemma emitReady_pops wm fl j :
  queue_ok j -> exists n, emitReady wm fl j = Nat.iter n pop j /\
    (n <= length (j_order j))%nat /\ (fl = true -> n = length (j_order j)).
Proof.
  intros [Hnd Hin]. unfold emitReady.
  destruct (emit_loop_steps wm fl (j_order j) j) as (cut & Hle & Hfl & ->); [done|naive_solver|].
  exists cut. split_and!; [|done|done]. rewrite iter_pop by done.
  destruct cut as [|cut]; simpl; [by destruct j|done].
Qed.

Lemma pop_queue j : queue_ok j -> queue_ok (pop j).
Proof.
  intros [Hnd Hin]. unfold pop, queue_ok. destruct (j_order j) as [|id ids] eqn:E; simpl; [by rewrite E|].
  apply NoDup_cons in Hnd as [Hid Hnd]. split; [done|]. intros id'. rewrite emit_step_pending.
  specialize (Hin id'). rewrite elem_of_cons in Hin.
  destruct (decide (id' = id)) as [->|Hne].
  - rewrite lookup_delete_eq. split; [done|intros [? ?]; done].
  - rewrite lookup_delete_ne by done. naive_solver.
Qed.

Lemma lookup_pending_queue id po po' j j' :
  queue_ok j -> lookup_pending id j = (po, j') -> queue_ok (put_pending id po' j').
Proof.
  intros [Hnd Hin] E. unfold lookup_pending in E. unfold queue_ok.
  destruct (j_pending j !! id) as [po0|] eqn:Hp; simplify_eq; simpl.
  - split; [done|]. intros id'. rewrite Hin. destruct (decide (id' = id)) as [->|].
    + rewrite Hp, lookup_insert_eq. naive_solver.
    + by rewrite lookup_insert_ne.
  - assert (id ∉ j_order j) by (rewrite Hin, Hp; by intros [? ?]).
    split; [apply NoDup_app; split_and!; [done|set_solver|apply NoDup_singleton]|].
    intros id'. rewrite insert_insert_eq. destruct (decide (id' = id)) as [->|].
    + rewrite lookup_insert_eq. set_solver.
    + rewrite lookup_insert_ne by done. rewrite <-Hin. set_solver.
Qed.

(** *** Accounting *)

Definition isApply (c : SinkCall) : bool := match c with CApply _ _ => true | _ => false end.
Definition isLost (c : SinkCall) : bool := match c with CLost _ _ => true | _ => false end.
Definition isGap (c : SinkCall) : bool := match c with CGap => true | _ => false end.

(** The pending orders whose sent event has been seen. *)
Definition nsent (m : gmap string pendingOrder) : nat :=
  size (filter (fun kv : string * pendingOrder => is_Some (p_sent kv.2)) m).

Definition hs (o : option pendingOrder) : nat :=
  match o with Some po => match p_sent po with Some _ => 1 | None => 0 end | None => 0 end.

Lemma nsent_delete id m : (nsent (delete id m) + hs (m !! id) = nsent m)%nat.
Proof.
  unfold nsent. rewrite map_filter_delete.
  destruct (m !! id) as [po|] eqn:E; [destruct (p_sent po) as [s|] eqn:Es|]; simpl; rewrite ?Es; simpl.
  - assert (Hf : filter (fun kv : string * pendingOrder => is_Some (p_sent kv.2)) m !! id = Some po).
    { apply map_lookup_filter_Some. split; [done|]. simpl. by rewrite Es. }
    rewrite <-(insert_delete_id _ _ _ Hf) at 2.
    rewrite map_size_insert_None by apply lookup_delete_eq. lia.
  - rewrite delete_id; [lia|]. apply map_lookup_filter_None. right. intros po' ?. simplify_eq/=.
    rewrite Es. by intros [? ?].
  - rewrite delete_id; [lia|]. apply map_lookup_filter_None. by left.
Qed.

Lemma nsent_insert id po m : (nsent (<[id := po]> m) + hs (m !! id) = nsent m + hs (Some po))%nat.
Proof.
  rewrite <-(nsent_delete id m), <-(nsent_delete id (<[id := po]> m)).
  rewrite delete_insert_eq, lookup_insert_eq. lia.
Qed.

(** Where what the consumer hands over comes from. *)
Definition pend_ok (ss : list OrderSentEvent) (ak : list OrderAckedEvent) (id : string) (po : pendingOrder) : Prop :=
  (forall s, p_sent po = Some s -> s ∈ ss /\ os_OrderID s = id) /\
  Forall (fun a => a ∈ ak /\ oa_OrderID a = id) (p_acks po) /\ NoDup (responses (p_acks po)).

(** An order assembled from one sent event and distinct responses of the same
    id; the reorderer only assigns its effective arrival time. *)
Definition origin (ss : list OrderSentEvent) (ak : list OrderAckedEvent) (o : Order) : Prop :=
  exists s acks o' t, AssembleOrder s acks = Some o' /\ o = with_EffectiveT3 o' t /\ s ∈ ss /\
    Forall (fun a => a ∈ ak /\ oa_OrderID a = os_OrderID s) acks /\ NoDup (responses acks).

Definition call_ok (ss : list OrderSentEvent) (ak : list OrderAckedEvent) (c : SinkCall) : Prop :=
  match c with
  | CApply _ o => origin ss ak o
  | CPhantom id qty price =>
      exists a, a ∈ ak /\ oa_OrderID a = id /\ qty = oa_FillQty a /\ price = i64 (oa_FillPrice a) /\
        streamIsFill (oa_ExecType a) (oa_FillQty a) = true
  | CLost id kind =>
      exists s, s ∈ ss /\ os_OrderID s = id /\ os_TimedOut s = true /\
        kind = KindFrom (os_PayloadType s) (os_OrdType s)
  | CGap => True
  end.

#[export] Instance origin_raw ss ak : RawPred (origin ss ak).
Proof.
  intros o t (s & acks & o' & t' & Ha & -> & Hs & Hacks & Hnd). exists s, acks, o', t. by split_and!.
Qed.

Record jinv (ss : list OrderSentEvent) (ak : list OrderAckedEvent) (j : Join) : Prop := {
  ji_queue : queue_ok j;
  ji_sent : SentEvents (j_counts j) ≡64 Z.of_nat (length ss);
  ji_acked : AckedEvents (j_counts j) ≡64 Z.of_nat (length ak);
  ji_matched : MatchedOrders (j_counts j) ≡64 Z.of_nat (length (r_out (j_r j)) + length (r_buf (j_r j)));
  ji_applies : List.filter isApply (j_calls j) = map (fun po => CApply po.1 po.2) (r_out (j_r j));
  ji_lost : LostOrders (j_counts j) ≡64 Z.of_nat (countb isLost (j_calls j));
  ji_gaps : CaptureGaps (j_counts j) ≡64 Z.of_nat (countb isGap (j_calls j));
  ji_pend : forall id po, j_pending j !! id = Some po -> pend_ok ss ak id po;
  ji_heap : heap_ok (origin ss ak) (j_r j);
  ji_calls : Forall (call_ok ss ak) (j_calls j);
  ji_once : NoDup (map os_OrderID ss) ->
    length ss = (length (r_out (j_r j)) + length (r_buf (j_r j)) + countb isLost (j_calls j) +
                 countb isGap (j_calls j) + nsent (j_pending j))%nat }.

Lemma origin_mono ss ss' ak ak' o : ss ⊆ ss' -> ak ⊆ ak' -> origin ss ak o -> origin ss' ak' o.
Proof.
  intros Hs Ha (s & acks & o' & t & H1 & H2 & H3 & H4 & H5). exists s, acks, o', t.
  split_and!; auto. eapply Forall_impl; [exact H4|]. naive_solver.
Qed.

Lemma pend_ok_mono ss ss' ak ak' id po : ss ⊆ ss' -> ak ⊆ ak' -> pend_ok ss ak id po -> pend_ok ss' ak' id po.
Proof.
  intros Hs Ha (H1 & H2 & H3). split_and!; [|eapply Forall_impl; [exact H2|]|done]; naive_solver.
Qed.

Lemma call_ok_mono ss ss' ak ak' c : ss ⊆ ss' -> ak ⊆ ak' -> call_ok ss ak c -> call_ok ss' ak' c.
Proof.
  intros Hs Ha. destruct c; simpl; [by apply origin_mono|naive_solver..].
Qed.

Lemma heap_ok_mono (Q Q' : Order -> Prop) r : (forall o, Q o -> Q' o) -> heap_ok Q r -> heap_ok Q' r.
Proof.
  intros HQ [H1 H2]. split; eapply Forall_impl; [exact H1|naive_solver|exact H2|naive_solver].
Qed.

(** *** Every move keeps the invariant *)

Definition same_core (j j1 : Join) : Prop :=
  j_pending j1 = j_pending j /\ j_order j1 = j_order j /\ j_r j1 = j_r j /\ j_calls j1 = j_calls j /\
  MatchedOrders (j_counts j1) = MatchedOrders (j_counts j) /\
  LostOrders (j_counts j1) = LostOrders (j_counts j) /\
  CaptureGaps (j_counts j1) = CaptureGaps (j_counts j).

Lemma lookup_pending_spec id j po j2 :
  lookup_pending id j = (po, j2) ->
  same_core j (set_pending (j_pending j) (set_order (j_order j) j2)) /\
  j_counts j2 = j_counts j /\ j_calls j2 = j_calls j /\ j_r j2 = j_r j /\
  (j_pending j !! id = Some po /\ j2 = j \/
   j_pending j !! id = None /\ po = newPending /\ j_pending j2 = <[id := newPending]> (j_pending j)).
Proof.
  unfold lookup_pending. intros E. destruct (j_pending j !! id) as [po0|] eqn:Hp; simplify_eq; simpl.
  - split_and!; try done. by left.
  - split_and!; try done. by right.
Qed.

Lemma jinv_update ss ak ss' ak' j j1 id po po' j2 :
  jinv ss ak j -> ss ⊆ ss' -> ak ⊆ ak' -> same_core j j1 ->
  SentEvents (j_counts j1) ≡64 Z.of_nat (length ss') ->
  AckedEvents (j_counts j1) ≡64 Z.of_nat (length ak') ->
  lookup_pending id j1 = (po, j2) ->
  (pend_ok ss ak id po -> pend_ok ss' ak' id po') ->
  (pend_ok ss ak id po -> NoDup (map os_OrderID ss') ->
   NoDup (map os_OrderID ss) /\ (length ss' + hs (Some po) = length ss + hs (Some po'))%nat) ->
  jinv ss' ak' (put_pending id po' j2).
Proof.
  intros HI Hss Hak Hcore Hsent Hacked Hl Hpo Honce.
  destruct Hcore as (Cp & Co & Cr & Cc & Cm & Cl & Cg).
  assert (Hq : queue_ok j1) by (destruct (ji_queue _ _ _ HI); split; [by rewrite Co|by rewrite Co, Cp]).
  pose proof (lookup_pending_queue id po po' j1 j2 Hq Hl) as Hq2.
  destruct (lookup_pending_spec _ _ _ _ Hl) as (_ & E1 & E2 & E3 & Hcase).
  assert (Hold : pend_ok ss ak id po).
  { destruct Hcase as [[Hp _]|(_ & -> & _)].
    - rewrite Cp in Hp. by apply (ji_pend _ _ _ HI).
    - split_and!; simpl; [done|constructor|constructor]. }
  assert (Hins : <[id := po']> (j_pending j2) = <[id := po']> (j_pending j)).
  { destruct Hcase as [[_ ->]|(_ & _ & ->)]; rewrite Cp; [done|by rewrite insert_insert_eq]. }
  assert (Hhs : hs (j_pending j !! id) = hs (Some po)).
  { rewrite <-Cp. destruct Hcase as [[-> _]|(-> & -> & _)]; done. }
  split; simpl; rewrite ?E1, ?E2, ?E3, ?Cc, ?Cr, ?Cm, ?Cl, ?Cg; try done; try apply HI.
  - rewrite Hins. intros id' po0. destruct (decide (id' = id)) as [->|].
    + rewrite lookup_insert_eq. intros [= <-]. auto.
    + rewrite lookup_insert_ne by done. intros Hp. by eapply pend_ok_mono, HI.
  - eapply heap_ok_mono, HI. intros o. by apply origin_mono.
  - eapply Forall_impl; [apply HI|]. intros c. by apply call_ok_mono.
  - intros Hnd. destruct (Honce Hold Hnd) as [Hnd' Hlen]. pose proof (ji_once _ _ _ HI Hnd') as Hold1.
    pose proof (nsent_insert id po' (j_pending j)) as Hn. rewrite Hhs in Hn. rewrite Hins. lia.
Qed.

Lemma sameAck_iff held a : sameAck held a = true <-> response held = response a.
Proof.
  unfold sameAck, response. rewrite !andb_true_iff, bool_decide_eq_true, !Z.eqb_eq.
  split; [intros [[[-> ->] ->] ->]; done|]. intros [= -> -> -> ->]. done.
Qed.

Lemma addAck_spec po a :
  (addAck po a = (po, false) /\ p_acks po <> []) \/
  (addAck po a = (mkPending (p_sent po) (p_acks po ++ [a]) (p_t3 po) (p_sendTS po), true) /\
   response a ∉ responses (p_acks po)).
Proof.
  unfold addAck. destruct (existsb _ _) eqn:E; [left|right]; split; try done.
  - by intros Hn; rewrite Hn in E.
  - intros (held & Hr & Hin)%list_elem_of_fmap.
    apply not_true_iff_false in E. apply E. apply existsb_exists. exists held.
    split; [by apply list_elem_of_In|]. by apply sameAck_iff.
Qed.

Lemma jinv_new w : jinv [] [] (newJoin w).
Proof.
  split; simpl; try done; try constructor; try constructor.
  - by intros Hx%elem_of_nil.
  - simpl. rewrite lookup_empty. by intros [? ?].
Qed.

Lemma length_snoc64 {A} n (l : list A) x :
  n ≡64 Z.of_nat (length l) -> n +u64 1 ≡64 Z.of_nat (length (l ++ [x])).
Proof. intros Hn. rewrite eq64_u64, Hn, length_app. apply eq64_refl. simpl. lia. Qed.

Lemma jinv_sent ss ak j s : jinv ss ak j -> jinv (ss ++ [s]) ak (on_sent j s).
Proof.
  intros HI. unfold on_sent. set (j1 := if _ <? _ then _ else _).
  destruct (lookup_pending (os_OrderID s) j1) as [po j2] eqn:Hl.
  assert (Hcore : same_core j j1) by (unfold j1; by destruct (_ <? _)).
  assert (HS : SentEvents (j_counts j1) = SentEvents (j_counts j) +u64 1) by (unfold j1; by destruct (_ <? _)).
  assert (HA : AckedEvents (j_counts j1) = AckedEvents (j_counts j)) by (unfold j1; by destruct (_ <? _)).
  eapply jinv_update; [exact HI|set_solver|done|exact Hcore| | |exact Hl| |].
  - rewrite HS. apply length_snoc64, HI.
  - rewrite HA. apply HI.
  - intros Hpo. destruct (pend_ok_mono ss (ss ++ [s]) ak ak _ _ ltac:(set_solver) ltac:(done) Hpo) as (H1 & H2 & H3).
    split_and!; simpl; [|done|done]. intros s' [= <-]. set_solver.
  - intros (Hs & _ & _) Hnd. rewrite map_app in Hnd. apply NoDup_app in Hnd as (Hnd & Hdis & _).
    split; [done|]. rewrite length_app. simpl.
    destruct (p_sent po) as [s'|] eqn:Es; [|lia]. exfalso.
    destruct (Hs s' eq_refl) as [Hin Hid]. apply (Hdis (os_OrderID s')).
    + apply list_elem_of_fmap. by exists s'.
    + simpl. rewrite Hid. by left.
Qed.

Lemma jinv_ack ss ak j a : jinv ss ak j -> jinv ss (ak ++ [a]) (on_ack j a).
Proof.
  intros HI. unfold on_ack. set (j1 := if bool_decide _ then _ else _).
  assert (Hcore : same_core j j1) by (unfold j1; by destruct (bool_decide _)).
  assert (HS : SentEvents (j_counts j1) = SentEvents (j_counts j)) by (unfold j1; by destruct (bool_decide _)).
  assert (HA : AckedEvents (j_counts j1) = AckedEvents (j_counts j) +u64 1) by (unfold j1; by destruct (bool_decide _)).
  destruct (lookup_pending (oa_OrderID a) j1) as [po j2] eqn:Hl.
  assert (Hput : forall po', (pend_ok ss ak (oa_OrderID a) po -> pend_ok ss (ak ++ [a]) (oa_OrderID a) po') ->
            p_sent po' = p_sent po -> jinv ss (ak ++ [a]) (put_pending (oa_OrderID a) po' j2)).
  { intros po' Hok Hps. eapply jinv_update; [exact HI|done|set_solver|exact Hcore| | |exact Hl|done|].
    - rewrite HS. apply HI.
    - rewrite HA. apply length_snoc64, HI.
    - intros _ Hnd. split; [done|]. simpl. by rewrite Hps. }
  destruct (addAck_spec po a) as [[-> Hne]|[-> Hnew]]; simpl.
  - destruct (lookup_pending_spec _ _ _ _ Hl) as (_ & _ & _ & _ & [[Hp ->]|(_ & -> & _)]); [|done].
    specialize (Hput po ltac:(apply pend_ok_mono; set_solver) eq_refl).
    assert (Heq : put_pending (oa_OrderID a) po j1 = j1).
    { unfold put_pending. rewrite insert_id by done. by destruct j1. }
    rewrite Heq in Hput. destruct Hput as [P1 P2 P3 P4 P5 P6 P7 P8 P9 P10 P11]. by split.
  - apply Hput; [|by destruct (_ =? _)].
    intros (H1 & H2 & H3). split_and!; destruct (_ =? _); simpl; try done.
    1,2: apply Forall_app; split; [eapply Forall_impl; [exact H2|]; set_solver|];
         repeat constructor; set_solver.
    1,2: unfold responses in *; rewrite map_app; simpl; apply NoDup_app; split_and!;
         [done|intros x Hx Hx'%list_elem_of_singleton; congruence|apply NoDup_singleton].
Qed.

Lemma filter_none {A} (f : A -> bool) l : Forall (fun x => f x = false) l -> List.filter f l = [].
Proof. induction 1 as [|x l Hx Hl IH]; simpl; [done|]. by rewrite Hx. Qed.

Lemma filter_all {A} (f : A -> bool) l : Forall (fun x => f x = true) l -> List.filter f l = l.
Proof. induction 1 as [|x l Hx Hl IH]; simpl; [done|]. by rewrite Hx, IH. Qed.

(** Handing [p] to the reorderer: what the calls and its state become. *)
Lemma run_r_spec f j l :
  r_out (f (j_r j)) = r_out (j_r j) ++ l ->
  j_calls (run_r f j) = j_calls j ++ map (fun po => CApply po.1 po.2) l /\ j_r (run_r f j) = f (j_r j) /\
  countb isLost (j_calls (run_r f j)) = countb isLost (j_calls j) /\
  countb isGap (j_calls (run_r f j)) = countb isGap (j_calls j).
Proof.
  intros E.
  assert (Hc : j_calls (run_r f j) = j_calls j ++ map (fun po => CApply po.1 po.2) l).
  { unfold run_r. simpl. rewrite E, drop_app_length. f_equal. apply map_ext. by intros []. }
  assert (Hz : forall g, (forall p o, g (CApply p o) = false) -> countb g (map (fun po : optr * Order => CApply po.1 po.2) l) = 0%nat).
  { intros g Hg. unfold countb. rewrite filter_none; [done|]. apply Forall_map, Forall_forall. auto. }
  rewrite Hc, !countb_app, !Hz by done. split_and!; [done|done|lia|lia].
Qed.

(** The parts of the invariant a pop can change, on the state after the
    switch and before the id is dropped. *)
Definition emitted_ok ss ak (j j' : Join) (po : pendingOrder) : Prop :=
  MatchedOrders (j_counts j') ≡64 Z.of_nat (length (r_out (j_r j')) + length (r_buf (j_r j'))) /\
  List.filter isApply (j_calls j') = map (fun po => CApply po.1 po.2) (r_out (j_r j')) /\
  LostOrders (j_counts j') ≡64 Z.of_nat (countb isLost (j_calls j')) /\
  CaptureGaps (j_counts j') ≡64 Z.of_nat (countb isGap (j_calls j')) /\
  heap_ok (origin ss ak) (j_r j') /\ Forall (call_ok ss ak) (j_calls j') /\
  (length (r_out (j_r j')) + length (r_buf (j_r j')) + countb isLost (j_calls j') + countb isGap (j_calls j') =
   length (r_out (j_r j)) + length (r_buf (j_r j)) + countb isLost (j_calls j) + countb isGap (j_calls j)
   + hs (Some po))%nat.

Lemma alloc_heap ss ak o j p j' :
  alloc_order o j = (p, j') -> heap_ok (origin ss ak) (j_r j) -> origin ss ak o ->
  heap_ok (origin ss ak) (j_r j') /\ p ∈ dom (r_store (j_r j')) /\ at_ (r_store (j_r j')) p = o /\
  r_out (j_r j') = r_out (j_r j) /\ r_buf (j_r j') = r_buf (j_r j) /\
  j_calls j' = j_calls j /\ j_counts j' = j_counts j.
Proof.
  unfold alloc_order. intros [= <- <-] [Hbuf Hout] Ho. simpl.
  pose proof (is_fresh (dom (r_store (j_r j)))) as Hf.
  split_and!; try done; [split; [|done]|set_solver|by rewrite at_insert, decide_True].
  eapply Forall_impl; [exact Hbuf|]. intros q [Hq1 Hq2]. simpl. split; [set_solver|].
  rewrite at_insert. case_decide; [|done]. subst. done.
Qed.

Lemma emit_matched ss ak po j s o :
  jinv ss ak j -> origin ss ak o -> p_sent po = Some s ->
  let '(p, j1) := alloc_order o (on_counts inc_MatchedOrders j) in
  emitted_ok ss ak j (run_r (fun r => Push r p) j1) po.
Proof.
  intros HI Ho Hs. destruct (alloc_order _ _) as [p j1] eqn:Ea.
  destruct (alloc_heap ss ak _ _ _ _ Ea (ji_heap _ _ _ HI) Ho) as (Hh & Hp & Hat & Eo & Eb & Ec & En).
  destruct (Push_out (j_r j1) p) as [l Hl].
  destruct (run_r_spec (fun r => Push r p) j1 l Hl) as (R1 & R2 & R3 & R4).
  pose proof (Push_size (j_r j1) p) as Hsz. rewrite Eo, Eb in Hsz.
  unfold emitted_ok. rewrite R3, R4, R1, R2, Ec. simpl in Ec, Eo, Eb.
  change (j_counts (run_r (fun r => Push r p) j1)) with (j_counts j1). rewrite En. simpl.
  assert (Hheap : heap_ok (origin ss ak) (Push (j_r j1) p)) by (apply Push_heap; [apply _|done|done|by rewrite Hat]).
  split_and!; try apply HI; try done.
  - rewrite eq64_u64, (ji_matched _ _ _ HI). apply eq64_refl. simpl in Hsz. lia.
  - rewrite List.filter_app, (ji_applies _ _ _ HI), Hl, map_app, Eo. f_equal.
    apply filter_all, Forall_map, Forall_forall. done.
  - apply Forall_app. split; [apply HI|]. destruct Hheap as [_ Hout]. rewrite Hl, Forall_app in Hout.
    apply Forall_map. eapply Forall_impl; [apply Hout|]. done.
  - simpl in *. rewrite Hs. simpl in Hsz. lia.
Qed.

Lemma countb_snoc {A} (f : A -> bool) l c : countb f (l ++ [c]) = (countb f l + if f c then 1 else 0)%nat.
Proof. rewrite countb_app. f_equal. unfold countb. simpl. by destruct (f c). Qed.

Lemma emit_outcome_ok ss ak id po j :
  jinv ss ak j -> pend_ok ss ak id po -> emitted_ok ss ak j (emit_outcome id po j) po.
Proof.
  intros HI (Hs & Hacks & Hnd). unfold emit_outcome, outcome.
  destruct (p_sent po) as [s|] eqn:Es.
  - destruct (Hs s eq_refl) as [Hin Hid]. destruct (p_acks po) as [|a acks] eqn:Ea.
    + simpl. destruct (os_TimedOut s) eqn:Et.
      * unfold emitted_ok. simpl. rewrite !countb_snoc, List.filter_app, Es. simpl. rewrite app_nil_r.
        split_and!; try apply HI; try lia.
        -- rewrite eq64_u64, (ji_lost _ _ _ HI). apply eq64_refl. lia.
        -- rewrite Nat.add_0_r. apply HI.
        -- apply Forall_app. split; [apply HI|]. repeat constructor. simpl. by exists s.
      * set (j1 := if _ && _ then _ else _).
        assert (E1 : j_counts j1 = inc_CaptureGaps (j_counts j) /\ j_calls j1 = j_calls j /\ j_r j1 = j_r j)
          by (unfold j1; by destruct (_ && _)).
        destruct E1 as (E1 & E2 & E3). unfold emitted_ok. simpl.
        rewrite E1, E2, E3, !countb_snoc, List.filter_app, Es. simpl. rewrite app_nil_r.
        split_and!; try apply HI; try lia.
        -- rewrite Nat.add_0_r. apply HI.
        -- rewrite eq64_u64, (ji_gaps _ _ _ HI). apply eq64_refl. lia.
        -- apply Forall_app. split; [apply HI|]. by repeat constructor.
    + change ((0 <? length (a :: acks))%nat) with true. cbv iota.
      destruct (AssembleOrder s (a :: acks)) as [o|] eqn:Eas; [|done].
      assert (Ho : origin ss ak o).
      { exists s, (a :: acks), o, (o_EffectiveT3 o). split_and!; try done; [by destruct o|by rewrite Hid]. }
      exact (emit_matched ss ak po j s o HI Ho Es).
  - set (l := flat_map _ _).
    assert (Hl : forall g, (forall i q p, g (CPhantom i q p) = false) -> List.filter g l = []).
    { intros g Hg. apply filter_none, Forall_forall. intros c Hc.
      unfold l in Hc. apply list_elem_of_In, in_flat_map in Hc as (a & _ & Hc).
      destruct (streamIsFill _ _); simpl in Hc; naive_solver. }
    unfold emitted_ok, countb. simpl. rewrite !List.filter_app, !length_app, !Hl by done. simpl.
    rewrite !Nat.add_0_r, app_nil_r, Es. split_and!; try apply HI; try lia.
    apply Forall_app. split; [apply HI|]. apply Forall_forall. intros c Hc.
    apply list_elem_of_In, in_flat_map in Hc as (a & Ha & Hc). apply list_elem_of_In in Ha.
    rewrite Forall_forall in Hacks. destruct (streamIsFill _ _) eqn:Ef; simpl in Hc; [|done].
    destruct Hc as [<-|[]]. simpl. exists a. destruct (Hacks a Ha). by split_and!.
Qed.

Lemma jinv_pop ss ak j : jinv ss ak j -> jinv ss ak (pop j).
Proof.
  intros HI. pose proof (pop_queue j (ji_queue _ _ _ HI)) as Hq. unfold pop in *.
  destruct (j_order j) as [|id ids] eqn:Eo; [done|].
  destruct (ji_queue _ _ _ HI) as [_ Hdom].
  destruct (proj1 (Hdom id)) as [po Hpo]; [rewrite Eo; left|].
  unfold emit_step in *. rewrite Hpo in *. cbv zeta in *.
  pose proof (ji_pend _ _ _ HI id po Hpo) as Hok.
  destruct (emit_outcome_ok _ _ _ _ _ HI Hok) as (E1 & E2 & E3 & E4 & E5 & E6 & E7).
  destruct (emit_outcome_frame id po j) as (F1 & F2 & F3 & F4 & F5 & F6 & F7).
  split; [exact Hq|..]; simpl; rewrite ?F6, ?F7, ?F1; try done; try apply HI.
  - intros id' po' [_ Hp]%lookup_delete_Some. by apply (ji_pend _ _ _ HI).
  - intros Hnd. pose proof (ji_once _ _ _ HI Hnd) as Hone.
    pose proof (nsent_delete id (j_pending j)) as Hn. rewrite Hpo in Hn. lia.
Qed.

Lemma reach_inv w ss ak j : reach w ss ak j -> jinv ss ak j.
Proof. induction 1; auto using jinv_new, jinv_sent, jinv_ack, jinv_pop. Qed.

(** The counters are [uint64]. *)
Definition counts_range (c : StreamCounts) : Prop :=
  0 <= SentEvents c < 2 ^ 64 /\ 0 <= AckedEvents c < 2 ^ 64 /\ 0 <= MatchedOrders c < 2 ^ 64 /\
  0 <= LostOrders c < 2 ^ 64 /\ 0 <= CaptureGaps c < 2 ^ 64.

Lemma counts_range_inc c :
  counts_range c ->
  counts_range (inc_SentEvents c) /\ counts_range (inc_AckedEvents c) /\ counts_range (inc_MatchedOrders c) /\
  counts_range (inc_LostOrders c) /\ counts_range (inc_CaptureGaps c).
Proof.
  intros (H1 & H2 & H3 & H4 & H5). unfold counts_range. cbn.
  pose proof u64_range as Hu. split_and!; (apply Hu || lia).
Qed.

Lemma reach_range w ss ak j : reach w ss ak j -> counts_range (j_counts j).
Proof.
  induction 1 as [|ss ak j s Hr IH|ss ak j a Hr IH|ss ak j Hr IH]; [split_and!; done|..];
    destruct (counts_range_inc _ IH) as (I1 & I2 & I3 & I4 & I5).
  - unfold on_sent, lookup_pending. repeat case_match; simplify_eq; cbn; done.
  - unfold on_ack, lookup_pending, addAck. repeat case_match; simplify_eq; cbn; done.
  - unfold pop, emit_step, emit_outcome. repeat case_match; simplify_eq; cbn; try done.
    all: unfold alloc_order in *; simplify_eq; cbn; done.
Qed.

End Automaton.

(** ** The merge *)

Definition contents (s : stream_st) : list tsBatch := option_list (s_head s) ++ s_rest s.

(** A stream whose channel is closed has nothing left. *)
Definition stream_wf (s : stream_st) : Prop := s_head s = None -> s_rest s = [].

(** The batches in the order the consumer takes them. *)
Fixpoint merged (fuel : nat) (ss : list stream_st) : list tsBatch :=
  match fuel with
  | O => []
  | S fuel => match pick ss with
              | None => []
              | Some (i, b) => b :: merged fuel (alter refill i ss)
              end
  end.

Lemma pick_from_spec ss i best :
  match pick_from i best ss with
  | None => best = None /\ forall s, s ∈ ss -> s_head s = None
  | Some (k, b) =>
      (best = Some (k, b) \/ exists s, (i <= k)%nat /\ ss !! (k - i)%nat = Some s /\ s_head s = Some b) /\
      (forall k' b', best = Some (k', b') -> b_ts b <= b_ts b') /\
      (forall s h, s ∈ ss -> s_head s = Some h -> b_ts b <= b_ts h)
  end.
Proof.
  revert i best. induction ss as [|s ss IH]; intros i best; simpl.
  - destruct best as [[k b]|]; [split_and!|split]; try set_solver; naive_solver lia.
  - set (best' := match s_head s, best with Some h, None => Some (i, h) | _, _ => _ end).
    specialize (IH (S i) best'). destruct (pick_from (S i) best' ss) as [[k b]|].
    + destruct IH as (Hk & Hbest & Hss).
      assert (Hshift : forall s', (S i <= k)%nat -> ss !! (k - S i)%nat = Some s' -> (s :: ss) !! (k - i)%nat = Some s').
      { intros s' Hle Hs'. replace (k - i)%nat with (S (k - S i)) by lia. done. }
      assert (Hle : forall h, s_head s = Some h -> b_ts b <= b_ts h).
      { intros h Hh. unfold best' in Hbest. rewrite Hh in Hbest.
        destruct best as [[k0 b0]|]; [|by eapply Hbest].
        destruct (Z.ltb_spec (b_ts h) (b_ts b0)); [by eapply Hbest|]. specialize (Hbest _ _ eq_refl). lia. }
      split_and!.
      * destruct Hk as [Hk|(s' & Hk1 & Hk2 & Hk3)]; [|right; exists s'; naive_solver lia].
        unfold best' in Hk. destruct (s_head s) as [h|] eqn:Eh; [|by left].
        destruct best as [[k0 b0]|]; [destruct (_ <? _); [|by left]|]; right; exists s; simplify_eq;
          rewrite Nat.sub_diag; done.
      * intros k' b' ->. unfold best' in Hbest. destruct (s_head s) as [h|] eqn:Eh; [|by eapply Hbest].
        destruct (Z.ltb_spec (b_ts h) (b_ts b')); [specialize (Hbest _ _ eq_refl); lia|by eapply Hbest].
      * intros s' h [->|Hs']%elem_of_cons; [auto|by apply Hss].
    + destruct IH as [Hb Hss]. unfold best' in Hb. destruct (s_head s) as [h|] eqn:Eh.
      * destruct best as [[k0 b0]|]; [destruct (_ <? _)|]; done.
      * subst. split; [done|]. intros s' [->|Hs']%elem_of_cons; auto.
Qed.

Lemma pick_Some ss i b :
  pick ss = Some (i, b) ->
  exists s, ss !! i = Some s /\ s_head s = Some b /\
    forall s' h, s' ∈ ss -> s_head s' = Some h -> b_ts b <= b_ts h.
Proof.
  unfold pick. intros E. pose proof (pick_from_spec ss 0 None) as Hs. rewrite E in Hs.
  destruct Hs as ([?|(s & _ & Hs & Hh)] & _ & Hle); [done|].
  rewrite Nat.sub_0_r in Hs. by exists s.
Qed.

Lemma pick_None ss : pick ss = None -> forall s, s ∈ ss -> s_head s = None.
Proof.
  unfold pick. intros E. pose proof (pick_from_spec ss 0 None) as Hs. rewrite E in Hs. naive_solver.
Qed.

(** Taking the head of stream [i] splits the list around it. *)
Lemma alter_refill_split ss i s b :
  ss !! i = Some s -> s_head s = Some b ->
  exists l r, ss = l ++ s :: r /\ alter refill i ss = l ++ refill s :: r /\
    contents s = b :: contents (refill s) /\ stream_wf (refill s) /\ batches_left s = S (batches_left (refill s)).
Proof.
  intros Hs Hh. apply list_elem_of_split_length in Hs as (l & r & -> & ->).
  exists l, r. split_and!; [done| | | |].
  - rewrite alter_app_r_alt by lia. by rewrite Nat.sub_diag.
  - unfold contents, refill. rewrite Hh. simpl. by destruct (s_rest s).
  - unfold stream_wf, refill. by destruct (s_rest s).
  - unfold batches_left, refill. rewrite Hh. by destruct (s_rest s).
Qed.

Definition left_of (ss : list stream_st) : list tsBatch := concat (map contents ss).

Lemma left_none ss :
  Forall stream_wf ss -> (forall s, s ∈ ss -> s_head s = None) -> left_of ss = [].
Proof.
  unfold left_of. induction 1 as [|s ss Hwf Hss IH]; intros Hn; simpl; [done|].
  rewrite IH by (intros; apply Hn; by right). unfold contents.
  assert (Hh : s_head s = None) by (apply Hn; left). by rewrite Hh, (Hwf Hh).
Qed.

Lemma total_left_length ss : total_left ss = length (left_of ss).
Proof.
  unfold total_left, left_of. induction ss as [|s ss IH]; simpl; [done|].
  rewrite length_app, IH. f_equal. unfold contents, batches_left. rewrite length_app. by destruct (s_head s).
Qed.

Lemma left_of_split l s r : left_of (l ++ s :: r) = left_of l ++ contents s ++ left_of r.
Proof. unfold left_of. by rewrite map_app, concat_app. Qed.

Lemma elem_of_left x ss : x ∈ left_of ss <-> exists s, s ∈ ss /\ x ∈ contents s.
Proof.
  unfold left_of. induction ss as [|s ss IH]; simpl; [set_solver|].
  rewrite elem_of_app, IH. set_solver.
Qed.

Lemma merged_perm fuel ss :
  Forall stream_wf ss -> (length (left_of ss) < fuel)%nat -> merged fuel ss ≡ₚ left_of ss.
Proof.
  revert ss. induction fuel as [|fuel IH]; intros ss Hwf Hf; [lia|]. simpl.
  destruct (pick ss) as [[i b]|] eqn:Ep.
  - destruct (pick_Some _ _ _ Ep) as (s & Hs & Hh & _).
    destruct (alter_refill_split _ _ _ _ Hs Hh) as (l & r & -> & -> & Hc & Hw & _).
    apply Forall_app in Hwf as [Hwl Hwr]. apply Forall_cons in Hwr as [_ Hwr].
    rewrite !left_of_split, Hc, !length_app in *. simpl in Hf.
    rewrite IH; [|by repeat (apply Forall_app; split) || constructor|
                  rewrite left_of_split, !length_app; lia].
    rewrite left_of_split. simpl. apply Permutation_middle.
  - by rewrite (left_none ss Hwf (pick_None _ Ep)).
Qed.

(** Each reader's batches are taken in the order it sent them. *)
Lemma merged_fifo fuel ss s :
  Forall stream_wf ss -> (length (left_of ss) < fuel)%nat -> s ∈ ss -> contents s `sublist_of` merged fuel ss.
Proof.
  revert ss s. induction fuel as [|fuel IH]; intros ss s Hwf Hf Hin; [lia|]. simpl.
  destruct (pick ss) as [[i b]|] eqn:Ep.
  - destruct (pick_Some _ _ _ Ep) as (s0 & Hs & Hh & _).
    destruct (alter_refill_split _ _ _ _ Hs Hh) as (l & r & -> & -> & Hc & Hw & _).
    apply Forall_app in Hwf as [Hwl Hwr]. apply Forall_cons in Hwr as [_ Hwr].
    rewrite !left_of_split, Hc, !length_app in *. simpl in Hf.
    assert (Hwf' : Forall stream_wf (l ++ refill s0 :: r)) by (apply Forall_app; by repeat constructor).
    assert (Hf' : (length (left_of (l ++ refill s0 :: r)) < fuel)%nat)
      by (rewrite left_of_split, !length_app; lia).
    apply elem_of_app in Hin as [Hin|[->|Hin]%elem_of_cons].
    + apply sublist_cons, IH; auto. set_solver.
    + rewrite Hc. apply sublist_skip, IH; auto. set_solver.
    + apply sublist_cons, IH; auto. set_solver.
  - pose proof (left_none ss Hwf (pick_None _ Ep)) as Hn.
    apply list_elem_of_split in Hin as (l & r & ->). rewrite left_of_split in Hn.
    destruct (contents s); [apply sublist_nil_l|]. by destruct (left_of l).
Qed.

Definition by_ts (a b : tsBatch) : Prop := b_ts a <= b_ts b.

Lemma merged_sorted fuel ss :
  Forall stream_wf ss -> Forall (fun s => StronglySorted by_ts (contents s)) ss ->
  (length (left_of ss) < fuel)%nat -> StronglySorted by_ts (merged fuel ss).
Proof.
  revert ss. induction fuel as [|fuel IH]; intros ss Hwf Hso Hf; simpl; [lia|].
  destruct (pick ss) as [[i b]|] eqn:Ep; [|constructor].
  destruct (pick_Some _ _ _ Ep) as (s & Hs & Hh & Hmin).
  destruct (alter_refill_split _ _ _ _ Hs Hh) as (l & r & -> & -> & Hc & Hw & _).
  assert (Hall : forall x, x ∈ left_of (l ++ s :: r) -> by_ts b x).
  { intros x (s' & Hs' & Hx)%elem_of_left.
    rewrite Forall_forall in Hso, Hwf. specialize (Hso s' Hs'). specialize (Hwf s' Hs').
    unfold contents in Hx, Hso. destruct (s_head s') as [h|] eqn:Eh; simpl in *.
    - pose proof (Hmin s' h Hs' Eh) as Hbh. inversion Hso as [|?? _ Hf2]; subst.
      rewrite Forall_forall in Hf2. apply elem_of_cons in Hx as [->|Hx]; [done|].
      specialize (Hf2 x Hx). unfold by_ts in *. lia.
    - rewrite (Hwf Eh) in Hx. set_solver. }
  apply Forall_app in Hwf as [Hwl Hwr]. apply Forall_cons in Hwr as [_ Hwr].
  apply Forall_app in Hso as [Hsl Hsr]. apply Forall_cons in Hsr as [Hss Hsr].
  rewrite Hc in Hss. apply StronglySorted_inv in Hss as [Hss _].
  rewrite !left_of_split, Hc, !length_app in Hf. simpl in Hf.
  assert (Hwf' : Forall stream_wf (l ++ refill s :: r)) by (apply Forall_app; by repeat constructor).
  assert (Hf' : (length (left_of (l ++ refill s :: r)) < fuel)%nat)
    by (rewrite left_of_split, !length_app; lia).
  constructor.
  - apply IH; auto. apply Forall_app. by repeat constructor.
  - apply Forall_forall. intros x Hx. rewrite merged_perm in Hx by done. apply Hall.
    rewrite left_of_split in *. rewrite Hc. set_solver.
Qed.

Lemma merge_loop_merged `{MapRange} fuel ss j :
  Forall stream_wf ss -> (length (left_of ss) < fuel)%nat ->
  merge_loop fuel ss j = Some (foldl (fun j b => process_batch b j) j (merged fuel ss)).
Proof.
  revert ss j. induction fuel as [|fuel IH]; intros ss j Hwf Hf; [lia|]. simpl.
  destruct (pick ss) as [[i b]|] eqn:Ep; [|done].
  destruct (pick_Some _ _ _ Ep) as (s & Hs & Hh & _).
  destruct (alter_refill_split _ _ _ _ Hs Hh) as (l & r & -> & -> & Hc & Hw & _).
  apply Forall_app in Hwf as [Hwl Hwr]. apply Forall_cons in Hwr as [_ Hwr].
  rewrite !left_of_split, Hc, !length_app in *. simpl in Hf. simpl.
  apply IH; [apply Forall_app; by repeat constructor|]. rewrite left_of_split, !length_app. lia.
Qed.

(** ** The session *)

Definition sent_of (b : tsBatch) : list OrderSentEvent := match b with SentBatch _ s => s | AckBatch _ _ => [] end.
Definition acks_of (b : tsBatch) : list OrderAckedEvent := match b with AckBatch _ a => a | SentBatch _ _ => [] end.

(** The readers of a session and everything they send. *)
Definition session_readers (bk : Broker) (orderBand bandWidth : Z) (sentParts ackParts : list Z)
    : list (list tsBatch * option string) :=
  map (bk_reader bk false) (restrict orderBand bandWidth sentParts) ++
  map (bk_reader bk true) (restrict orderBand bandWidth ackParts).

Definition session_batches (readers : list (list tsBatch * option string)) : list tsBatch :=
  concat (map fst readers).

Section SessionRun.
Context `{MapRange}.

Lemma reach_fold_sent w ss ak j l : reach w ss ak j -> reach w (ss ++ l) ak (foldl on_sent j l).
Proof.
  revert ss j. induction l as [|s l IH]; intros ss j Hr; simpl; [by rewrite app_nil_r|].
  rewrite cons_middle, app_assoc. apply IH. by constructor.
Qed.

Lemma reach_fold_ack w ss ak j l : reach w ss ak j -> reach w ss (ak ++ l) (foldl on_ack j l).
Proof.
  revert ak j. induction l as [|a l IH]; intros ak j Hr; simpl; [by rewrite app_nil_r|].
  rewrite cons_middle, app_assoc. apply IH. by constructor.
Qed.

Lemma reach_emitReady w ss ak j wm fl :
  reach w ss ak j -> reach w ss ak (emitReady wm fl j) /\ (fl = true -> j_order (emitReady wm fl j) = []).
Proof.
  intros Hr. destruct (emitReady_pops wm fl j (ji_queue _ _ _ (reach_inv _ _ _ _ Hr))) as (n & -> & Hn & Hfl).
  split.
  - clear Hn Hfl. induction n as [|n IH]; simpl; [done|by constructor].
  - intros Hf. rewrite iter_pop by done. simpl. rewrite Hfl by done. apply drop_all.
Qed.

Lemma reach_batches w bs ss ak j :
  reach w ss ak j ->
  reach w (ss ++ flat_map sent_of bs) (ak ++ flat_map acks_of bs) (foldl (fun j b => process_batch b j) j bs).
Proof.
  revert ss ak j. induction bs as [|b bs IH]; intros ss ak j Hr; simpl; [by rewrite !app_nil_r|].
  rewrite !app_assoc. apply IH. unfold process_batch. apply reach_emitReady.
  destruct b as [ts l|ts l]; simpl; rewrite app_nil_r; [by apply reach_fold_sent|by apply reach_fold_ack].
Qed.

(** What the consumer has done when all readers are drained. *)
Definition drained (w : Z) (readers : list (list tsBatch * option string)) : Join :=
  let ss := map (fun '(bs, _) => refill (mkStream None bs)) readers in
  run_r Flush (emitReady 0 true (foldl (fun j b => process_batch b j) (newJoin w)
                                   (merged (S (total_left ss)) ss))).

Lemma contents_refill bs : contents (refill (mkStream None bs)) = bs /\ stream_wf (refill (mkStream None bs)).
Proof. unfold contents, refill, stream_wf. simpl. by destruct bs. Qed.

Lemma streams_left (readers : list (list tsBatch * option string)) :
  let ss := map (fun '(bs, _) => refill (mkStream None bs)) readers in
  left_of ss = session_batches readers /\ Forall stream_wf ss.
Proof.
  simpl. unfold left_of, session_batches. split.
  - f_equal. rewrite map_map. apply map_ext. intros [bs e]. simpl. apply contents_refill.
  - apply Forall_map, Forall_forall. intros [bs e] _. apply contents_refill.
Qed.

(** [StreamSession] returns, and its callbacks saw what [drained] did. *)
Lemma StreamSession_drained bk bks w band bw sp ap :
  bk_sentParts bk = inr sp -> bk_ackParts bk = inr ap ->
  let readers := session_readers bk band bw sp ap in
  let j := drained (if w <=? 0 then DefaultReorderWindow else w) readers in
  StreamSession (inr bk :: bks) w band bw =
  Some (mkResult (match first_error (map snd readers) with Some _ => j_counts j | None => gap_stats j end)
          (j_contestant j) (first_error (map snd readers)) (j_calls j)).
Proof.
  intros Hsp Hap. unfold StreamSession. cbv beta iota zeta. rewrite Hsp, Hap. fold (session_readers bk band bw sp ap).
  destruct (streams_left (session_readers bk band bw sp ap)) as [Hl Hwf].
  set (ss := map _ _) in *. rewrite merge_loop_merged; [|done|rewrite total_left_length; lia].
  fold (drained (if w <=? 0 then DefaultReorderWindow else w) (session_readers bk band bw sp ap)).
  by destruct (first_error _).
Qed.

Lemma gap_stats_frame j :
  SentEvents (gap_stats j) = SentEvents (j_counts j) /\ AckedEvents (gap_stats j) = AckedEvents (j_counts j) /\
  MatchedOrders (gap_stats j) = MatchedOrders (j_counts j) /\ LostOrders (gap_stats j) = LostOrders (j_counts j) /\
  CaptureGaps (gap_stats j) = CaptureGaps (j_counts j).
Proof.
  unfold gap_stats. destruct (j_gapSendTS j); [done|]. destruct (0 <? _); [|done].
  by destruct (foldl _ _ _) as [[lo hi] n].
Qed.

(** The invariant at the end of the session: nothing is pending, and every
    matched order has been applied. *)
Lemma drained_inv w readers :
  exists ss ak, ss ≡ₚ flat_map sent_of (session_batches readers) /\
    ak ≡ₚ flat_map acks_of (session_batches readers) /\
    let j := drained w readers in
    SentEvents (j_counts j) ≡64 Z.of_nat (length ss) /\ AckedEvents (j_counts j) ≡64 Z.of_nat (length ak) /\
    MatchedOrders (j_counts j) ≡64 Z.of_nat (countb isApply (j_calls j)) /\
    LostOrders (j_counts j) ≡64 Z.of_nat (countb isLost (j_calls j)) /\
    CaptureGaps (j_counts j) ≡64 Z.of_nat (countb isGap (j_calls j)) /\
    Forall (call_ok ss ak) (j_calls j) /\ counts_range (j_counts j) /\
    (NoDup (map os_OrderID ss) ->
     length ss = (countb isApply (j_calls j) + countb isLost (j_calls j) + countb isGap (j_calls j))%nat).
Proof.
  destruct (streams_left readers) as [Hl Hwf]. unfold drained.
  set (str := map _ readers) in *. set (bs := merged _ _). set (j0 := foldl _ _ bs).
  assert (Hbs : bs ≡ₚ session_batches readers).
  { unfold bs. rewrite merged_perm; [by rewrite Hl|done|rewrite total_left_length; lia]. }
  exists (flat_map sent_of bs), (flat_map acks_of bs). split; [by apply Permutation_flat_map|].
  split; [by apply Permutation_flat_map|].
  assert (Hr : reach w (flat_map sent_of bs) (flat_map acks_of bs) j0)
    by exact (reach_batches w bs [] [] _ (reach_new w)).
  destruct (reach_emitReady _ _ _ _ 0 true Hr) as [Hr1 Hnil]. specialize (Hnil eq_refl).
  set (j1 := emitReady 0 true j0) in *. pose proof (reach_inv _ _ _ _ Hr1) as HI.
  assert (Hpend : j_pending j1 = ∅).
  { apply map_empty. intros id. destruct (ji_queue _ _ _ HI) as [_ Hdom]. specialize (Hdom id).
    rewrite Hnil in Hdom. apply eq_None_not_Some. intros Hs. apply Hdom in Hs. by apply elem_of_nil in Hs. }
  destruct (release_out (Z.of_nat (length (r_buf (j_r j1)))) (j_r j1)) as [l Ho]. fold (Flush (j_r j1)) in Ho.
  destruct (run_r_spec Flush j1 l Ho) as (R1 & R2 & R3 & R4).
  destruct (Flush_size (j_r j1)) as [Hsz _].
  assert (Happ : countb isApply (j_calls (run_r Flush j1)) = length (r_out (Flush (j_r j1)))).
  { unfold countb. rewrite R1, List.filter_app, (ji_applies _ _ _ HI), Ho.
    rewrite filter_all by (by apply Forall_map, Forall_forall).
    by rewrite length_app, !length_map, length_app. }
  cbv zeta. change (j_counts (run_r Flush j1)) with (j_counts j1).
  rewrite R3, R4, Happ, Hsz. split_and!; try apply HI.
  - rewrite R1. apply Forall_app. split; [apply HI|].
    pose proof (release_heap _ (Z.of_nat (length (r_buf (j_r j1)))) _ (ji_heap _ _ _ HI)) as [_ Hout].
    fold (Flush (j_r j1)) in Hout. rewrite Ho, Forall_app in Hout.
    apply Forall_map. eapply Forall_impl; [apply Hout|]. done.
  - by eapply reach_range.
  - intros Hnd. rewrite (ji_once _ _ _ HI Hnd), Hpend. unfold nsent. rewrite map_filter_empty, map_size_empty. lia.
Qed.

End SessionRun.

(** ** Theorems *)

(** The books of a session. *)
Lemma session_balance `{MapRange} bk bks w band bw sentParts ackParts :
  bk_sentParts bk = inr sentParts -> bk_ackParts bk = inr ackParts ->
  let batches := session_batches (session_readers bk band bw sentParts ackParts) in
  let sent := flat_map sent_of batches in
  exists res, StreamSession (inr bk :: bks) w band bw = Some res /\
    SentEvents (sr_counts res) ≡64 Z.of_nat (length sent) /\
    AckedEvents (sr_counts res) ≡64 Z.of_nat (length (flat_map acks_of batches)) /\
    MatchedOrders (sr_counts res) ≡64 Z.of_nat (countb isApply (sr_calls res)) /\
    LostOrders (sr_counts res) ≡64 Z.of_nat (countb isLost (sr_calls res)) /\
    CaptureGaps (sr_counts res) ≡64 Z.of_nat (countb isGap (sr_calls res)) /\ counts_range (sr_counts res) /\
    (NoDup (map os_OrderID sent) ->
     length sent = (countb isApply (sr_calls res) + countb isLost (sr_calls res) + countb isGap (sr_calls res))%nat).
Proof.
  intros Hsp Hap. cbv zeta. eexists. split; [by apply StreamSession_drained|]. simpl.
  set (readers := session_readers _ _ _ _ _). set (j := drained _ readers).
  destruct (drained_inv (if w <=? 0 then DefaultReorderWindow else w) readers)
    as (ss & ak & Hss & Hak & H1 & H2 & H3 & H4 & H5 & _ & Hrange & H7). fold j in H1, H2, H3, H4, H5, Hrange, H7.
  rewrite (Permutation_length Hss) in H1. rewrite (Permutation_length Hak) in H2.
  destruct (gap_stats_frame j) as (G1 & G2 & G3 & G4 & G5).
  assert (Hone : NoDup (map os_OrderID (flat_map sent_of (session_batches readers))) ->
    length (flat_map sent_of (session_batches readers)) =
    (countb isApply (j_calls j) + countb isLost (j_calls j) + countb isGap (j_calls j))%nat).
  { intros Hnd. rewrite <-(Permutation_length Hss). apply H7. by rewrite Hss. }
  unfold counts_range in *. destruct Hrange as ([] & [] & [] & [] & []). destruct (first_error _); rewrite ?G1, ?G2, ?G3, ?G4, ?G5; by split_and!.
Qed.

(** C12: nothing the callbacks receive is made up.  An applied order is
    assembled from a delivered sent event and delivered responses of the same
    id, no two of which carry the same report (a redelivered batch counts
    once); an order is reported lost only when the bot itself timed out on
    it; a phantom fill is a delivered fill of that id. *)
Theorem session_calls_sound `{MapRange} bk bks w band bw sentParts ackParts res :
  bk_sentParts bk = inr sentParts -> bk_ackParts bk = inr ackParts ->
  StreamSession (inr bk :: bks) w band bw = Some res ->
  let batches := session_batches (session_readers bk band bw sentParts ackParts) in
  Forall (call_ok (flat_map sent_of batches) (flat_map acks_of batches)) (sr_calls res).
Proof.
  intros Hsp Hap. rewrite (StreamSession_drained _ _ _ _ _ _ _ Hsp Hap). intros [= <-]. cbv zeta.
  cbn [sr_calls]. set (readers := session_readers _ _ _ _ _).
  destruct (drained_inv (if w <=? 0 then DefaultReorderWindow else w) readers)
    as (ss & ak & Hss & Hak & _ & _ & _ & _ & _ & H6 & _ & _).
  eapply Forall_impl; [exact H6|]. intros c. apply call_ok_mono.
  - intros s. by rewrite Hss.
  - intros a. by rewrite Hak.
Qed.

(** C24: the merge of the partition readers is complete and in order.  Whatever the number of readers and of their
    batches, and whichever has the next batch, the loop ends with all of them drained: every batch of every reader is
    processed exactly once, each reader's in the order it sent them, and in event-time order whenever each reader's
    are. *)
Theorem merge_complete `{MapRange} (readers : list (list tsBatch * option string)) j :
  let ss := map (fun '(bs, _) => refill (mkStream None bs)) readers in
  exists order, merge_loop (S (total_left ss)) ss j = Some (foldl (fun j b => process_batch b j) j order) /\
    order ≡ₚ session_batches readers /\
    (forall r, r ∈ readers -> r.1 `sublist_of` order) /\
    (Forall (fun r => StronglySorted by_ts r.1) readers -> StronglySorted by_ts order).
Proof.
  destruct (streams_left readers) as [Hl Hwf]. set (ss := map _ _) in *.
  assert (Hf : (length (left_of ss) < S (total_left ss))%nat) by (rewrite total_left_length; lia).
  exists (merged (S (total_left ss)) ss). split_and!.
  - by apply merge_loop_merged.
  - by rewrite merged_perm, Hl.
  - intros [bs e] Hr. cbn [fst]. rewrite <-(proj1 (contents_refill bs)) at 1. apply merged_fifo; [done|done|].
    apply list_elem_of_fmap. by exists (bs, e).
  - intros Hso. apply merged_sorted; [done| |done]. apply Forall_map. eapply Forall_impl; [exact Hso|].
    intros [bs e]. simpl. by rewrite (proj1 (contents_refill bs)).
Qed.

(** *** Bands *)

Lemma clampWidth_bounds n bw : 1 <= n -> 1 <= clampWidth n bw <= n.
Proof. intros Hn. unfold clampWidth. repeat (break_if; zify_bool); lia. Qed.

Lemma fnv1a64_nonneg s : 0 <= fnv1a64 s.
Proof.
  unfold fnv1a64. assert (Hgen : forall h, 0 <= h -> 0 <= fnv1a64_from h s); [|by apply Hgen].
  induction s as [|c s IH]; intros h Hh; simpl; [done|]. apply IH. apply u64_range.
Qed.

Lemma elem_bandPartitionSet p band n bw :
  2 <= n < 2 ^ 31 -> 0 <= band -> (band + 1) * clampWidth n bw <= n ->
  p ∈ bandPartitionSet band n bw <-> band * clampWidth n bw <= p < (band + 1) * clampWidth n bw.
Proof.
  intros Hn Hb Hfit. pose proof (clampWidth_bounds n bw ltac:(lia)) as Hw.
  unfold bandPartitionSet. destruct (Z.leb_spec n 1); [lia|]. cbv zeta. set (w := clampWidth n bw) in *.
  rewrite (i64_small (band * w)) by nia. rewrite (i32_small (band * w)) by nia.
  rewrite elem_of_list_to_set, list_elem_of_fmap. split.
  - intros (i & -> & Hi%elem_of_seqZ). rewrite i32_small by nia. rewrite Z.rem_small by nia. lia.
  - intros Hp. exists (p - band * w). rewrite elem_of_seqZ, i32_small by nia. rewrite Z.rem_small by nia. lia.
Qed.

Lemma BandPartition_in band id n bw :
  n < 2 ^ 31 -> BandPartition band id n bw ∈ bandPartitionSet band n bw.
Proof.
  intros Hn. unfold BandPartition, bandPartitionSet. destruct (Z.leb_spec n 1); [set_solver|].
  cbv zeta. pose proof (clampWidth_bounds n bw ltac:(lia)) as Hw. set (w := clampWidth n bw) in *.
  rewrite elem_of_list_to_set, list_elem_of_fmap. exists (fnv1a64 id mod w).
  pose proof (Z.mod_pos_bound (fnv1a64 id) w ltac:(lia)).
  rewrite (i32_small (fnv1a64 id mod w)) by lia. split; [done|]. apply elem_of_seqZ. lia.
Qed.

Lemma elem_restrict p band bw parts :
  parts ≡ₚ seqZ 0 (Z.of_nat (length parts)) -> 1 <= Z.of_nat (length parts) < 2 ^ 31 -> 0 <= band ->
  (band + 1) * clampWidth (Z.of_nat (length parts)) bw <= Z.of_nat (length parts) ->
  p ∈ restrict band bw parts <-> p ∈ bandPartitionSet band (Z.of_nat (length parts)) bw.
Proof.
  intros Hp Hn Hb Hfit. set (n := Z.of_nat (length parts)) in *.
  pose proof (clampWidth_bounds n bw ltac:(lia)) as Hw. unfold restrict, OrderBandUnset, MaxUint32.
  destruct (Z.eqb_spec band (2 ^ 32 - 1)); [nia|]. unfold filterPartitions. rewrite list_elem_of_In, filter_In.
  rewrite <-list_elem_of_In, bool_decide_eq_true. fold n. split; [by intros []|]. intros Hin.
  split; [|done]. rewrite Hp, elem_of_seqZ. destruct (decide (n = 1)) as [H1|H1].
  - unfold bandPartitionSet in Hin. destruct (Z.leb_spec n 1); [set_solver by lia|lia].
  - apply elem_bandPartitionSet in Hin; [nia|lia|done|done].
Qed.

(** C13: a session that leased a band reads exactly the partitions its orders
    are placed on: with bands that fit the topic, every order of the session
    lands on a partition the reader keeps, and no order of another leased
    band does. *)
Theorem band_exclusive band bw parts :
  parts ≡ₚ seqZ 0 (Z.of_nat (length parts)) -> 1 <= Z.of_nat (length parts) < 2 ^ 31 -> 0 <= band ->
  (band + 1) * clampWidth (Z.of_nat (length parts)) bw <= Z.of_nat (length parts) ->
  (forall id, BandPartition band id (Z.of_nat (length parts)) bw ∈ restrict band bw parts) /\
  (forall band' id, 0 <= band' -> band' <> band ->
     (band' + 1) * clampWidth (Z.of_nat (length parts)) bw <= Z.of_nat (length parts) ->
     BandPartition band' id (Z.of_nat (length parts)) bw ∉ restrict band bw parts).
Proof.
  intros Hp Hn Hb Hfit. pose proof (clampWidth_bounds _ bw (proj1 Hn)) as Hw. split.
  - intros id. apply elem_restrict; try done. apply BandPartition_in. lia.
  - intros band' id Hb' Hne Hfit'. rewrite elem_restrict by done.
    pose proof (BandPartition_in band' id _ bw (proj2 Hn)) as Hin.
    set (n := Z.of_nat (length parts)) in *. destruct (decide (n = 1)) as [H1|H1]; [nia|].
    rewrite elem_bandPartitionSet in * by (done || lia). nia.
Qed.

(** *** The session's start time *)

Definition hexDigit (x : Z) : ascii :=
  ascii_of_N (Z.to_N (if x <? 10 then 48 + x else 87 + x)).

Fixpoint encode_hex (raw : list Z) : string :=
  match raw with
  | [] => EmptyString
  | b :: raw => String (hexDigit (Z.shiftr b 4)) (String (hexDigit (Z.land b 15)) (encode_hex raw))
  end.

(** The usual text of a UUID: 8-4-4-4-12 hexadecimal digits. *)
Definition uuid_string (raw : list Z) : string :=
  encode_hex (take 4 raw) +:+ "-" +:+ encode_hex (take 2 (drop 4 raw)) +:+ "-" +:+
  encode_hex (take 2 (drop 6 raw)) +:+ "-" +:+ encode_hex (take 2 (drop 8 raw)) +:+ "-" +:+
  encode_hex (drop 10 raw).

(** The big-endian number the first six bytes of a UUIDv7 hold. *)
Definition unix_ms (raw : list Z) : Z := foldl (fun ms b => ms * 256 + b) 0 (take 6 raw).

Definition is_byte (b : Z) : Prop := 0 <= b < 256.

Definition byte_ok (b : Z) : bool :=
  match fromHexChar (hexDigit (Z.shiftr b 4)), fromHexChar (hexDigit (Z.land b 15)) with
  | Some x, Some y => Z.lor (Z.shiftl x 4) y =? b
  | _, _ => false
  end && negb (Ascii.eqb (hexDigit (Z.shiftr b 4)) "-"%char) && negb (Ascii.eqb (hexDigit (Z.land b 15)) "-"%char).

Lemma byte_ok_all b : is_byte b -> byte_ok b = true.
Proof.
  intros Hb. assert (Hall : forallb byte_ok (seqZ 0 256) = true) by (vm_compute; reflexivity).
  rewrite forallb_forall in Hall. apply Hall. apply list_elem_of_In, elem_of_seqZ. unfold is_byte in Hb. lia.
Qed.

Lemma decode_encode raw : Forall is_byte raw -> decode_hex (encode_hex raw) = Some raw.
Proof.
  induction 1 as [|b raw Hb Hraw IH]; [done|]. cbn [encode_hex decode_hex].
  pose proof (byte_ok_all b Hb) as Hok. unfold byte_ok in Hok.
  apply andb_true_iff in Hok as [[Hok _]%andb_true_iff _].
  destruct (fromHexChar (hexDigit (Z.shiftr b 4))) as [x|]; [|done].
  destruct (fromHexChar (hexDigit (Z.land b 15))) as [y|]; [|done].
  rewrite IH. apply Z.eqb_eq in Hok. by rewrite Hok.
Qed.

Lemma strip_hyphens_app s1 s2 : strip_hyphens (s1 +:+ s2) = strip_hyphens s1 +:+ strip_hyphens s2.
Proof. induction s1 as [|c s1 IH]; simpl; [done|]. destruct (Ascii.eqb c _); simpl; by rewrite IH. Qed.

Lemma strip_encode raw : Forall is_byte raw -> strip_hyphens (encode_hex raw) = encode_hex raw.
Proof.
  induction 1 as [|b raw Hb Hraw IH]; [done|]. cbn [encode_hex strip_hyphens].
  pose proof (byte_ok_all b Hb) as Hok. unfold byte_ok in Hok.
  apply andb_true_iff in Hok as [[_ H1]%andb_true_iff H2]. apply negb_true_iff in H1, H2.
  by rewrite H1, H2, IH.
Qed.

Lemma encode_app r1 r2 : encode_hex (r1 ++ r2) = encode_hex r1 +:+ encode_hex r2.
Proof. induction r1 as [|b r1 IH]; simpl; [done|]. by rewrite IH. Qed.

Lemma encode_length raw : String.length (encode_hex raw) = (2 * length raw)%nat.
Proof. induction raw as [|b raw IH]; simpl in *; [done|]. rewrite IH. lia. Qed.

Lemma strip_uuid raw : Forall is_byte raw -> strip_hyphens (uuid_string raw) = encode_hex raw.
Proof.
  intros Hraw. unfold uuid_string. rewrite !strip_hyphens_app.
  rewrite !strip_encode by (auto using Forall_take, Forall_drop).
  assert (Hnil : forall s, strip_hyphens "-" +:+ s = s) by done. rewrite !Hnil, <-!encode_app. f_equal.
  replace (drop 10 raw) with (drop 2 (drop 8 raw)) by (by rewrite drop_drop).
  rewrite take_drop. replace (drop 8 raw) with (drop 2 (drop 6 raw)) by (by rewrite drop_drop).
  rewrite take_drop. replace (drop 6 raw) with (drop 2 (drop 4 raw)) by (by rewrite drop_drop).
  by rewrite !take_drop.
Qed.

Lemma lor_byte ms b : 0 <= ms -> is_byte b -> Z.lor (Z.shiftl ms 8) b = ms * 256 + b.
Proof.
  intros Hms Hb. rewrite <-Z.add_nocarry_lor; [rewrite Z.shiftl_mul_pow2 by lia; lia|].
  apply Z.bits_inj'. intros n Hn. rewrite Z.land_spec, Z.bits_0. destruct (Z.ltb_spec n 8).
  - by rewrite Z.shiftl_spec_low.
  - replace (Z.testbit b n) with false; [apply andb_false_r|]. symmetry. unfold is_byte in Hb.
    destruct (decide (b = 0)) as [->|]; [apply Z.bits_0|]. apply Z.bits_above_log2; [lia|].
    assert (Z.log2 b < 8); [apply Z.log2_lt_pow2; lia|lia].
Qed.

Lemma ms_fold l ms k :
  Forall is_byte l -> 0 <= ms < 2 ^ (8 * Z.of_nat k) -> (k + length l <= 7)%nat ->
  foldl (fun ms b => Z.lor (i64 (Z.shiftl ms 8)) b) ms l = foldl (fun ms b => ms * 256 + b) ms l.
Proof.
  intros Hl. revert ms k. induction Hl as [|b l Hb Hl IH]; intros ms k Hms Hk; [done|]. simpl in *.
  assert (Hp : 2 ^ (8 * Z.of_nat (S k)) = 256 * 2 ^ (8 * Z.of_nat k)).
  { replace (8 * Z.of_nat (S k)) with (8 + 8 * Z.of_nat k) by lia. rewrite Z.pow_add_r by lia. lia. }
  assert (Hm : 2 ^ (8 * Z.of_nat (S k)) <= 2 ^ 56) by (apply Z.pow_le_mono_r; lia).
  rewrite i64_small by (rewrite Z.shiftl_mul_pow2 by lia; lia). rewrite lor_byte by (done || lia).
  apply (IH _ (S k)); [|lia]. unfold is_byte in Hb. rewrite Hp. lia.
Qed.

(** The start time of a session id is the one its UUIDv7 was minted
    with, and the partition offset is looked up a minute before it; an id of
    any other version is read from the earliest offset. *)
Theorem session_start_roundtrip raw lookup :
  length raw = 16%nat -> Forall is_byte raw ->
  sessionStartFromID (uuid_string raw) =
    (if (Z.shiftr (nth 6 raw 0) 4 =? 7) && (0 <? unix_ms raw) then Some (unix_ms raw) else None) /\
  startOffsetForSession (uuid_string raw) lookup =
    (if (Z.shiftr (nth 6 raw 0) 4 =? 7) && (0 <? unix_ms raw) then lookup (unix_ms raw - 60000) else inr FirstOffset).
Proof.
  intros Hlen Hraw. unfold startOffsetForSession.
  assert (Hs : sessionStartFromID (uuid_string raw) =
    (if (Z.shiftr (nth 6 raw 0) 4 =? 7) && (0 <? unix_ms raw) then Some (unix_ms raw) else None)).
  { unfold sessionStartFromID. rewrite strip_uuid, encode_length, Hlen, decode_encode by done.
    cbv zeta. change (negb (2 * 16 =? 32)%nat) with false. cbv iota.
    rewrite (ms_fold (take 6 raw) 0 0); [|by apply Forall_take|done|rewrite length_take; lia].
    fold (unix_ms raw). destruct (Z.shiftr (nth 6 raw 0) 4 =? 7); simpl; [|done].
    destruct (Z.leb_spec (unix_ms raw) 0), (Z.ltb_spec 0 (unix_ms raw)); done || lia. }
  split; [exact Hs|]. rewrite Hs. by destruct (_ && _).
Qed.

(** ** Witnesses *)

Definition demo_sent (id : string) (ts : Z) (timedOut : bool) : OrderSentEvent :=
  {| os_SessionID := "s"; os_SubmissionID := "sub"; os_WorkerID := "w"; os_TaskID := 0;
     os_OrderID := id; os_TargetSendTSNS := ts; os_SendTSNS := ts; os_RecvDoneTSNS := 0;
     os_TimedOut := timedOut; os_Price := 100; os_Qty := 5; os_Side := "BUY";
     os_PayloadType := "NEW"; os_OrdType := "LIMIT"; os_OrigOrderID := "";
     os_BarrierEpochNs := 0; os_SMPID := SMPIDNone |}.

Definition demo_ack (id : string) (t3 : Z) (exec : string) : OrderAckedEvent :=
  {| oa_SessionID := "s"; oa_ContestantID := "c"; oa_OrderID := id; oa_SrcIP := 1;
     oa_SrcPort := 2; oa_TCPSeq := 3; oa_T3XDPIngressNS := t3; oa_T7XDPEgressNS := t3 + 10;
     oa_PodServiceTimeNS := 10; oa_ExecType := exec; oa_FillQty := 5; oa_FillPrice := 100000000000;
     oa_OrigOrderID := ""; oa_ReorderingDetected := false; oa_RetransmissionCount := 0 |}.

(** One matched order whose fill is delivered twice, one lost order, one
    capture gap and one phantom fill. *)
Definition demo_broker : Broker :=
  {| bk_sentParts := inr [0]; bk_ackParts := inr [0];
     bk_reader := fun isAck _ =>
       if isAck then ([AckBatch 1000 [demo_ack "a" 1000 "F"; demo_ack "z" 1005 "F"];
                       AckBatch 1000 [demo_ack "a" 1000 "F"]], None)
       else ([SentBatch 900 [demo_sent "a" 900 false; demo_sent "b" 950 true];
              SentBatch 2000 [demo_sent "g" 2000 false]], None) |}.

Definition demo_sent_events : list OrderSentEvent :=
  flat_map sent_of (session_batches (session_readers demo_broker OrderBandUnset 1 [0] [0])).

Lemma session_calls_sound_witness :
  exists res, @StreamSession MapRange_id [inr demo_broker] 8 OrderBandUnset 1 = Some res /\
    length (sr_calls res) = 4%nat /\
    Forall (call_ok demo_sent_events
      (flat_map acks_of (session_batches (session_readers demo_broker OrderBandUnset 1 [0] [0])))) (sr_calls res).
Proof.
  destruct (@StreamSession MapRange_id [inr demo_broker] 8 OrderBandUnset 1) as [res|] eqn:E;
    [|vm_compute in E; discriminate].
  exists res. split; [reflexivity|]. split.
  - vm_compute in E. injection E as <-. reflexivity.
  - exact (@session_calls_sound MapRange_id demo_broker [] 8 OrderBandUnset 1 [0] [0] res eq_refl eq_refl E).
Defined.

Lemma band_exclusive_witness :
  BandPartition 1 "order-7" 4 2 ∈ restrict 1 2 [0; 1; 2; 3] /\
  BandPartition 0 "order-7" 4 2 ∉ restrict 1 2 [0; 1; 2; 3].
Proof.
  destruct (band_exclusive 1 2 [0; 1; 2; 3]) as [H1 H2];
    [apply (bool_decide_unpack _); vm_compute; exact I|vm_compute; split; congruence|lia|vm_compute; congruence|].
  split; [apply H1|apply H2; [lia|lia|vm_compute; congruence]].
Defined.

Definition demo_uuid : list Z := [1; 145; 32; 66; 167; 9; 112; 1; 128; 2; 3; 4; 5; 6; 7; 8].

Lemma session_start_roundtrip_witness : sessionStartFromID (uuid_string demo_uuid) = Some 1722823124745.
Proof.
  destruct (session_start_roundtrip demo_uuid (fun t => inr t)) as [H1 _];
    [reflexivity|repeat constructor; unfold is_byte; lia|].
  rewrite H1. vm_compute. reflexivity.
Defined.
