(* ===== verification/SourceFates.v ===== *)
(** * The fate of every sent order

    Which orders of a session are applied, reported lost or reported as
    capture gaps: counted order by order, also when the broker delivers an
    event more than once. *)

From stdpp Require Import prelude gmap strings list sorting.
From S2P Require Import Prelude GoSort Model Replay Reorder Topics Pipeline Source SourceProps.

Open Scope Z_scope.

(** ** The ids in a reorderer *)

Definition key (r : Reorderer) (p : optr) : string := o_OrderID (at_ (r_store r) p).

(** Of the orders handed over and of those held. *)
Definition keys (r : Reorderer) : list string := map (key r) (emitted r ++ r_buf r).

Definition keys_ok (r : Reorderer) : Prop :=
  Forall (fun po => po.1 ∈ dom (r_store r) /\ o_OrderID po.2 = key r po.1) (r_out r) /\
  Forall (fun p => p ∈ dom (r_store r)) (r_buf r).

Lemma keys_same r r' ps :
  same_raw (r_store r) (r_store r') -> map (key r') ps = map (key r) ps.
Proof. intros Hraw. apply map_ext. intros p. unfold key. destruct (Hraw p) as [t ->]. done. Qed.

Section Keys.
Context `{MapRange}.

Lemma release_keys n r : keys_ok r -> keys_ok (release n r) /\ keys (release n r) ≡ₚ keys r /\ same_raw (r_store r) (r_store (release n r)) /\
  dom (r_store r) ⊆ dom (r_store (release n r)).
Proof.
  intros [Ho Hb]. pose proof (release_perm n r) as Hp.
  assert (Hs : same_raw (r_store r) (r_store (release n r)) /\ dom (r_store r) ⊆ dom (r_store (release n r))).
  { unfold release. destruct (_ || _); [split; [apply same_raw_refl|done]|]. cbn.
    rewrite (proj1 (proj2 (emit_all_out _ _))). apply promote_groups_raw. }
  destruct Hs as [Hraw Hdom]. split; [|split_and!; [|done|done]].
  - assert (Hout : Forall (fun po => o_OrderID po.2 = key (release n r) po.1) (r_out (release n r))).
    { unfold key, release. destruct (_ || _); [eapply Forall_impl; [exact Ho|by intros po []]|]. simpl. set (k := if _ <? _ then _ else _).
      set (buf := sort_stable _ _). destruct (emit_all_out (take k buf) (promote r)) as (Eo & Es & _). rewrite Eo, Es. apply Forall_app. split.
      - eapply Forall_impl; [exact Ho|]. intros po [_ ->]. unfold key.
        destruct (proj1 (promote_groups_raw sort_stable (r_carry r) (r_store r) (map_range (map_to_list (group (r_store r) (r_buf r))))) po.1) as [t Ht].
        cbn. by rewrite Ht.
      - apply Forall_map, Forall_forall. done. }
    assert (Hall : Forall (fun p => p ∈ dom (r_store (release n r))) (emitted (release n r) ++ r_buf (release n r))).
    { rewrite Hp. apply Forall_app. split.
      - unfold emitted. apply Forall_map. eapply Forall_impl; [exact Ho|]. intros po [Hd _]. by apply Hdom.
      - eapply Forall_impl; [exact Hb|]. intros p. apply Hdom. }
    apply Forall_app in Hall as [Ha1 Ha2]. split; [|done]. unfold emitted in Ha1. apply Forall_map in Ha1.
    eapply Forall_impl; [apply Forall_and; split; [exact Ha1|exact Hout]|]. done.
  - unfold keys. rewrite (keys_same r (release n r)) by done. by rewrite Hp.
Qed.

Lemma Push_keys r p : keys_ok r -> p ∈ dom (r_store r) -> keys_ok (Push r p) /\ keys (Push r p) ≡ₚ keys r ++ [key r p].
Proof.
  intros [Ho Hb] Hp. unfold Push. cbn. set (r1 := mkReorderer _ (r_buf r ++ [p]) _ _ _).
  assert (Hok : keys_ok r1) by (split; [done|]; apply Forall_app; by repeat constructor).
  assert (Hk : keys r1 = keys r ++ [key r p]) by (unfold keys; cbn; by rewrite app_assoc, map_app).
  destruct (_ <=? _); [|by rewrite Hk]. destruct (release_keys (r_window r) r1 Hok) as (H1 & H2 & _). split; [done|]. by rewrite H2, Hk.
Qed.

Lemma alloc_keys o j p j' :
  alloc_order o j = (p, j') -> keys_ok (j_r j) ->
  keys_ok (j_r j') /\ keys (j_r j') = keys (j_r j) /\ p ∈ dom (r_store (j_r j')) /\ key (j_r j') p = o_OrderID o.
Proof.
  unfold alloc_order. intros [= <- <-] [Ho Hb]. set (st := r_store (j_r j)). pose proof (is_fresh (dom st)) as Hf.
  assert (Hsame : forall q, q ∈ dom st -> at_ (<[fresh (dom st) := o]> st) q = at_ st q).
  { intros q Hq. rewrite at_insert. case_decide; [|done]. by subst. }
  unfold keys_ok, keys, key, emitted. cbn. fold st. rewrite dom_insert_L. split_and!.
  - eapply Forall_impl; [exact Ho|]. intros po [Hd Hk]. split; [set_solver|]. by rewrite Hsame.
  - eapply Forall_impl; [exact Hb|]. set_solver.
  - apply map_ext_in. intros q Hq. rewrite Hsame; [done|]. apply list_elem_of_In, elem_of_app in Hq as [Hq|Hq].
    + apply list_elem_of_fmap in Hq as (po & -> & Hpo). rewrite Forall_forall in Ho. by apply Ho.
    + rewrite Forall_forall in Hb. by apply Hb.
  - set_solver.
  - by rewrite at_insert, decide_True.
Qed.

End Keys.

(** ** The join *)

Definition lost_ids (cs : list SinkCall) : list string := omap (fun c => match c with CLost id _ => Some id | _ => None end) cs.
Definition applied_ids (cs : list SinkCall) : list string := omap (fun c => match c with CApply _ o => Some (o_OrderID o) | _ => None end) cs.

(** The pending orders whose sent event is there. *)
Definition waiting (m : gmap string pendingOrder) : list string :=
  map fst (map_to_list (filter (fun kv : string * pendingOrder => is_Some (p_sent kv.2)) m)).

Definition here (id : string) (o : option pendingOrder) : list string :=
  match o with Some po => match p_sent po with Some _ => [id] | None => [] end | None => [] end.

Lemma waiting_delete id m : waiting m ≡ₚ here id (m !! id) ++ waiting (delete id m).
Proof.
  unfold waiting. rewrite map_filter_delete. destruct (m !! id) as [po|] eqn:E; [destruct (p_sent po) as [s|] eqn:Es|]; cbn; rewrite ?Es; cbn.
  - assert (Hf : filter (fun kv : string * pendingOrder => is_Some (p_sent kv.2)) m !! id = Some po).
    { apply map_lookup_filter_Some. split; [done|]. cbn. by rewrite Es. }
    by rewrite <-(map_to_list_delete _ _ _ Hf).
  - rewrite delete_id; [done|]. apply map_lookup_filter_None. right. intros po' ?. simplify_eq/=. rewrite Es. by intros [? ?].
  - rewrite delete_id; [done|]. apply map_lookup_filter_None. by left.
Qed.

Lemma waiting_insert id po m : waiting (<[id := po]> m) ≡ₚ here id (Some po) ++ waiting (delete id m).
Proof. by rewrite (waiting_delete id), lookup_insert_eq, delete_insert_eq. Qed.

Section Fates.
Context `{MapRange}.

(** The orders whose fate is decided: handed to the reorderer, reported lost,
    or (in [gaps]) reported as capture gaps. *)
Definition fates (gaps : list string) (j : Join) : list string := keys (j_r j) ++ lost_ids (j_calls j) ++ gaps.

Definition gap_ok (ss : list OrderSentEvent) (id : string) : Prop := exists s, s ∈ ss /\ os_OrderID s = id /\ os_TimedOut s = false.

Record finv (ss : list OrderSentEvent) (gaps : list string) (j : Join) : Prop := {
  fi_keys : keys_ok (j_r j);
  fi_gaps : length gaps = countb isGap (j_calls j) /\ Forall (gap_ok ss) gaps;
  fi_most : fates gaps j ++ waiting (j_pending j) ⊆+ map os_OrderID ss;
  fi_least : forall s, s ∈ ss -> os_OrderID s ∈ fates gaps j ++ waiting (j_pending j) }.

(** A pending order changed; a sent event came, or none. *)
Lemma finv_update ss new gaps j j1 id po po' j2 :
  finv ss gaps j -> same_core j j1 -> lookup_pending id j1 = (po, j2) ->
  (new = [] /\ p_sent po' = p_sent po \/ exists s, new = [s] /\ os_OrderID s = id /\ p_sent po' = Some s) ->
  finv (ss ++ new) gaps (put_pending id po' j2).
Proof.
  intros [Hk [Hg1 Hg2] Hm Hl] (Cp & Co & Cr & Cc & _) Hlook Hnew.
  destruct (lookup_pending_spec _ _ _ _ Hlook) as (_ & _ & E2 & E3 & Hcase).
  assert (Hins : <[id := po']> (j_pending j2) = <[id := po']> (j_pending j)).
  { destruct Hcase as [[_ ->]|(_ & _ & ->)]; rewrite Cp; [done|by rewrite insert_insert_eq]. }
  assert (Hold : here id (j_pending j !! id) = here id (Some po)).
  { rewrite <-Cp. destruct Hcase as [[-> _]|(-> & -> & _)]; done. }
  assert (Hf : fates gaps (put_pending id po' j2) = fates gaps j) by (unfold fates; cbn; by rewrite E2, E3, Cr, Cc).
  pose proof (waiting_delete id (j_pending j)) as Hw. rewrite Hold in Hw. pose proof (waiting_insert id po' (j_pending j)) as Hw'.
  split; cbn [put_pending set_pending j_r j_calls j_pending]; rewrite ?E3, ?E2, ?Cr, ?Cc; [done| | |].
  - split; [done|]. eapply Forall_impl; [exact Hg2|]. intros g (s & Hs & Hrest). exists s. split; [|done]. apply elem_of_app. by left.
  - change (fates gaps _) with (fates gaps (put_pending id po' j2)). rewrite Hf, Hins, Hw', map_app. rewrite Hw in Hm.
    destruct Hnew as [[-> Hs]|(s & -> & Hid & Hs)]; cbn [here] in *; rewrite Hs in *; [by rewrite app_nil_r|].
    destruct (p_sent po); cbn [map app] in *.
    + by apply submseteq_inserts_r.
    + rewrite <-Permutation_middle, Hid, (Permutation_app_comm (map _ ss)). by apply submseteq_skip.
  - change (fates gaps _) with (fates gaps (put_pending id po' j2)). rewrite Hf, Hins. intros s Hs. rewrite Hw'.
    apply elem_of_app in Hs as [Hs|Hs].
    + specialize (Hl s Hs). rewrite Hw in Hl. destruct Hnew as [[-> Hsn]|(s' & -> & Hid & Hsn)]; cbn [here] in *; rewrite Hsn; [done|].
      destruct (p_sent po); set_solver.
    + destruct Hnew as [[-> _]|(s' & -> & Hid & Hsn)]; [by apply elem_of_nil in Hs|]. apply list_elem_of_singleton in Hs as ->.
      cbn [here]. rewrite Hsn, Hid. set_solver.
Qed.

Lemma lost_ids_app cs cs' : lost_ids (cs ++ cs') = lost_ids cs ++ lost_ids cs'.
Proof. apply omap_app. Qed.

Lemma lost_ids_none cs : Forall (fun c => isLost c = false) cs -> lost_ids cs = [].
Proof. unfold lost_ids. induction 1 as [|c cs Hc _ IH]; [done|]. cbn. by destruct c. Qed.

(** Deciding the fate of a pending order. *)
Lemma emit_fates ss ak gaps id po j :
  pend_ok ss ak id po -> finv ss gaps j ->
  let j' := emit_outcome id po j in
  exists gaps', keys_ok (j_r j') /\ length gaps' = countb isGap (j_calls j') /\ Forall (gap_ok ss) gaps' /\
    fates gaps' j' ≡ₚ here id (Some po) ++ fates gaps j.
Proof.
  intros (Hs & _) [Hk [Hg1 Hg2] _ _]. cbv zeta. unfold emit_outcome, outcome. cbn [here]. destruct (p_sent po) as [s|].
  - destruct (Hs s eq_refl) as [Hin Hid]. destruct (p_acks po) as [|a acks]; cbn [length Nat.ltb Nat.leb].
    + destruct (os_TimedOut s) eqn:Et; cbn [j_r j_calls call on_counts].
      * exists gaps. unfold fates. cbn [j_r j_calls call on_counts]. rewrite countb_snoc, Nat.add_0_r, lost_ids_app. split_and!; [done..|]. cbn. solve_Permutation.
      * exists (gaps ++ [id]). set (j1 := if _ && _ then _ else _). cbn [call j_r j_calls].
        assert (E : j_r j1 = j_r j /\ j_calls j1 = j_calls j) by (unfold j1; by destruct (_ && _)). destruct E as [E1 E2].
        unfold fates. cbn [call j_r j_calls]. rewrite E1, E2, countb_snoc, length_app, lost_ids_app, Hg1. split_and!; [done|done| |cbn; rewrite app_nil_r; solve_Permutation].
        apply Forall_app. split; [done|]. repeat constructor. by exists s.
    + destruct (AssembleOrder s (a :: acks)) as [o|] eqn:Ea; [|done]. destruct (alloc_order _ _) as [p j1] eqn:El.
      destruct (alloc_keys _ _ _ _ El) as (K1 & K2 & K3 & K4); [done|]. destruct (Push_keys (j_r j1) p K1 K3) as [K5 K6].
      destruct (Push_out (j_r j1) p) as [l Hl]. destruct (run_r_spec (fun r => Push r p) j1 l Hl) as (R1 & R2 & R3 & R4).
      assert (Hc : j_calls j1 = j_calls j) by (unfold alloc_order in El; by simplify_eq).
      exists gaps. unfold fates. rewrite R4, R2, R1, Hc, lost_ids_app, K6, K2, K4, (lost_ids_none (map _ l)) by (by apply Forall_map, Forall_forall).
      split_and!; [done..|]. injection Ea as <-. cbn [o_OrderID]. rewrite Hid, app_nil_r. cbn [j_r on_counts]. solve_Permutation.
  - exists gaps. unfold fates. cbn [calls j_r j_calls]. set (l := flat_map _ _).
    assert (Hl : Forall (fun c => isLost c = false /\ isGap c = false) l).
    { apply Forall_forall. intros c Hc. apply list_elem_of_In, in_flat_map in Hc as (a & _ & Hc). destruct (streamIsFill _ _); cbn in Hc; [|done].
      by destruct Hc as [<-|[]]. }
    apply Forall_and in Hl as [Hl1 Hl2]. rewrite lost_ids_app, (lost_ids_none l), countb_app by done. unfold countb at 2. rewrite filter_none by done.
    cbn. rewrite Nat.add_0_r, app_nil_r. by split_and!.
Qed.

Lemma finv_pop ss ak gaps j : jinv ss ak j -> finv ss gaps j -> exists gaps', finv ss gaps' (pop j).
Proof.
  intros HI Hf. unfold pop. destruct (j_order j) as [|id ids] eqn:Eo; [by exists gaps|]. destruct (ji_queue _ _ _ HI) as [_ Hdom].
  destruct (proj1 (Hdom id)) as [po Hpo]; [rewrite Eo; left|]. unfold emit_step. rewrite Hpo. cbv zeta.
  destruct (emit_fates ss ak gaps id po j) as (gaps' & K & G1 & G2 & Hp); [by apply (ji_pend _ _ _ HI)|done|].
  destruct (emit_outcome_frame id po j) as (F1 & _). destruct Hf as [_ _ Hm Hl]. exists gaps'.
  assert (Hall : fates gaps' (emit_outcome id po j) ++ waiting (delete id (j_pending j)) ≡ₚ fates gaps j ++ waiting (j_pending j)).
  { rewrite Hp, (waiting_delete id (j_pending j)), Hpo. solve_Permutation. }
  split; cbn [set_order set_pending j_r j_calls j_pending]; rewrite ?F1; [done|done| |].
  - change (fates gaps' _) with (fates gaps' (emit_outcome id po j)). by rewrite Hall.
  - intros s Hs. change (fates gaps' _) with (fates gaps' (emit_outcome id po j)). rewrite Hall. by apply Hl.
Qed.

Lemma reach_fates w ss ak j : reach w ss ak j -> exists gaps, finv ss gaps j.
Proof.
  induction 1 as [|ss ak j s Hr [gaps IH]|ss ak j a Hr [gaps IH]|ss ak j Hr [gaps IH]].
  - exists []. split; [by split|by split|done|]. intros s Hs. by apply elem_of_nil in Hs.
  - exists gaps. unfold on_sent. set (j1 := if _ <? _ then _ else _). destruct (lookup_pending (os_OrderID s) j1) as [po j2] eqn:El.
    eapply (finv_update ss [s] gaps j j1); [done|unfold j1; by destruct (_ <? _)|done|]. right. by exists s.
  - exists gaps. unfold on_ack. set (j1 := if bool_decide _ then _ else _). destruct (lookup_pending (oa_OrderID a) j1) as [po j2] eqn:El.
    assert (Hcore : same_core j j1) by (unfold j1; by destruct (bool_decide _)).
    assert (Hput : forall po', p_sent po' = p_sent po -> finv ss gaps (put_pending (oa_OrderID a) po' j2)).
    { intros po' Hp. rewrite <-(app_nil_r ss). eapply finv_update; [done|exact Hcore|done|by left]. }
    destruct (addAck_spec po a) as [[-> Hne]|[-> _]]; cbn [negb].
    + specialize (Hput po eq_refl). destruct (lookup_pending_spec _ _ _ _ El) as (_ & _ & _ & _ & [[Hp ->]|(_ & -> & _)]); [|done].
      destruct Hput as [P1 P2 P3 P4]. cbn [put_pending set_pending j_r j_calls j_pending] in *. rewrite insert_id in P3, P4 by done. by split.
    + apply Hput. by destruct (_ =? _).
  - by eapply finv_pop; [eapply reach_inv|].
Qed.

End Fates.

(** ** The session *)

(** What became of every sent order: [gaps] are the orders behind the reported
    capture gaps, each of them answered to its bot.  Every order has a fate, and
    none has more than its sent event has deliveries. *)
Definition fates_of (sent : list OrderSentEvent) (cs : list SinkCall) (gaps : list string) : Prop :=
  length gaps = countb isGap cs /\ Forall (gap_ok sent) gaps /\
  applied_ids cs ++ lost_ids cs ++ gaps ⊆+ map os_OrderID sent /\
  forall s, s ∈ sent -> os_OrderID s ∈ applied_ids cs ++ lost_ids cs ++ gaps.

Lemma applied_ids_filter cs : applied_ids cs = applied_ids (List.filter isApply cs).
Proof. unfold applied_ids. induction cs as [|c cs IH]; [done|]. destruct c; cbn; by rewrite IH. Qed.

Lemma applied_ids_map (l : list (optr * Order)) : applied_ids (map (fun po => CApply po.1 po.2) l) = map (fun po => o_OrderID po.2) l.
Proof. unfold applied_ids. induction l as [|po l IH]; [done|]. cbn. by rewrite IH. Qed.

Lemma drained_fates `{MapRange} w readers :
  exists gaps, fates_of (flat_map sent_of (session_batches readers)) (j_calls (drained w readers)) gaps.
Proof.
  destruct (streams_left readers) as [Hl Hwf]. unfold drained. set (str := map _ readers) in *. set (bs := merged _ _). set (j0 := foldl _ _ bs).
  assert (Hbs : bs ≡ₚ session_batches readers) by (unfold bs; rewrite merged_perm; [by rewrite Hl|done|rewrite total_left_length; lia]).
  assert (Hr : reach w (flat_map sent_of bs) (flat_map acks_of bs) j0) by exact (reach_batches w bs [] [] _ (reach_new w)).
  assert (Hsent : flat_map sent_of bs ≡ₚ flat_map sent_of (session_batches readers)) by (by apply Permutation_flat_map).
  destruct (reach_emitReady _ _ _ _ 0 true Hr) as [Hr1 Hnil]. specialize (Hnil eq_refl). set (j1 := emitReady 0 true j0) in *.
  pose proof (reach_inv _ _ _ _ Hr1) as HI. destruct (reach_fates _ _ _ _ Hr1) as (gaps & [Hk [Hg1 Hg2] Hm Hle]).
  assert (Hpend : j_pending j1 = ∅).
  { apply map_empty. intros id. destruct (ji_queue _ _ _ HI) as [_ Hdom]. specialize (Hdom id).
    rewrite Hnil in Hdom. apply eq_None_not_Some. intros Hs. apply Hdom in Hs. by apply elem_of_nil in Hs. }
  rewrite Hpend, app_nil_r in Hm, Hle. set (n := Z.of_nat (length (r_buf (j_r j1)))).
  destruct (release_out n (j_r j1)) as [l Ho]. change (release n (j_r j1)) with (Flush (j_r j1)) in Ho.
  destruct (run_r_spec Flush j1 l Ho) as (R1 & R2 & R3 & R4). destruct (Flush_size (j_r j1)) as [_ Hbuf].
  destruct (release_keys n (j_r j1) Hk) as ([Kout _] & Kp & _). change (release n (j_r j1)) with (Flush (j_r j1)) in Kout, Kp.
  assert (Happ : applied_ids (j_calls (run_r Flush j1)) ≡ₚ keys (j_r j1)).
  { rewrite <-Kp, applied_ids_filter, R1, List.filter_app, (ji_applies _ _ _ HI), filter_all by (by apply Forall_map, Forall_forall).
    rewrite <-map_app, <-Ho, applied_ids_map. unfold keys. rewrite Hbuf, app_nil_r. unfold emitted. rewrite map_map.
    erewrite map_ext_in; [done|]. intros po Hpo. rewrite Forall_forall in Kout. apply Kout. by apply list_elem_of_In. }
  assert (Hlost : lost_ids (j_calls (run_r Flush j1)) = lost_ids (j_calls j1)).
  { rewrite R1, lost_ids_app, (lost_ids_none (map _ l)) by (by apply Forall_map, Forall_forall). apply app_nil_r. }
  exists gaps. unfold fates_of. rewrite Happ, Hlost, R4. split_and!; [done| |by rewrite <-Hsent|].
  - eapply Forall_impl; [exact Hg2|]. intros g (s & Hs & Hrest). exists s. by rewrite <-Hsent.
  - intros s Hs. rewrite Happ. apply Hle. by rewrite Hsent.
Qed.

Lemma session_fates `{MapRange} bk bks w band bw sentParts ackParts res :
  bk_sentParts bk = inr sentParts -> bk_ackParts bk = inr ackParts ->
  StreamSession (inr bk :: bks) w band bw = Some res ->
  exists gaps, fates_of (flat_map sent_of (session_batches (session_readers bk band bw sentParts ackParts))) (sr_calls res) gaps.
Proof. intros Hsp Hap. rewrite (StreamSession_drained _ _ _ _ _ _ _ Hsp Hap). intros [= <-]. apply drained_fates. Qed.

Lemma ids_count cs : length (applied_ids cs) = countb isApply cs /\ length (lost_ids cs) = countb isLost cs.
Proof. unfold applied_ids, lost_ids, countb. induction cs as [|c cs [IH1 IH2]]; [done|]. destruct c; cbn; rewrite ?IH1, ?IH2; done. Qed.

(** Each fate is one call. *)
Lemma fates_count sent cs gaps :
  fates_of sent cs gaps -> length (applied_ids cs ++ lost_ids cs ++ gaps) = (countb isApply cs + countb isLost cs + countb isGap cs)%nat.
Proof.
  intros (<- & _). rewrite !length_app. destruct (ids_count cs) as [-> ->]. lia.
Qed.

(** Never fewer fates than different orders, never more than deliveries. *)
Lemma fates_bounds sent cs gaps :
  fates_of sent cs gaps ->
  (size (list_to_set (map os_OrderID sent) : gset string) <= countb isApply cs + countb isLost cs + countb isGap cs <= length sent)%nat.
Proof.
  intros Hf. rewrite <-(fates_count _ _ _ Hf). destruct Hf as (_ & _ & Hm & Hl). split.
  - etrans; [|apply size_list_to_set_le]. apply subseteq_size. intros id (s & -> & Hs)%elem_of_list_to_set%list_elem_of_fmap.
    apply elem_of_list_to_set. by apply Hl.
  - apply submseteq_length in Hm. by rewrite length_map in Hm.
Qed.

Lemma fates_once sent cs gaps :
  fates_of sent cs gaps -> NoDup (map os_OrderID sent) -> applied_ids cs ++ lost_ids cs ++ gaps ≡ₚ map os_OrderID sent.
Proof.
  intros (_ & _ & Hm & Hl) Hnd. symmetry. apply submseteq_length_Permutation; [|by apply submseteq_length].
  apply NoDup_submseteq; [done|]. intros id (s & -> & Hs)%list_elem_of_fmap. by apply Hl.
Qed.

(** C11: reading a session always completes, and its books balance.  The sent
    and acked counters are the events the readers deliver, each delivery
    counted, duplicates included; the matched, lost and capture-gap counters
    are the orders applied, reported lost and reported as gaps (modulo 2^64,
    as all of them are [uint64]).  Every order that was sent is applied, lost
    or a gap, no order is more often than its sent event was delivered, and so
    exactly once when every sent event was delivered once. *)
Theorem session_accounting `{MapRange} bk bks w band bw sentParts ackParts :
  bk_sentParts bk = inr sentParts -> bk_ackParts bk = inr ackParts ->
  let batches := session_batches (session_readers bk band bw sentParts ackParts) in
  let sent := flat_map sent_of batches in
  exists res gaps, StreamSession (inr bk :: bks) w band bw = Some res /\
    SentEvents (sr_counts res) ≡64 Z.of_nat (length sent) /\
    AckedEvents (sr_counts res) ≡64 Z.of_nat (length (flat_map acks_of batches)) /\
    MatchedOrders (sr_counts res) ≡64 Z.of_nat (length (applied_ids (sr_calls res))) /\
    LostOrders (sr_counts res) ≡64 Z.of_nat (length (lost_ids (sr_calls res))) /\
    CaptureGaps (sr_counts res) ≡64 Z.of_nat (length gaps) /\
    fates_of sent (sr_calls res) gaps /\
    (NoDup (map os_OrderID sent) -> applied_ids (sr_calls res) ++ lost_ids (sr_calls res) ++ gaps ≡ₚ map os_OrderID sent).
Proof.
  intros Hsp Hap. destruct (session_balance bk bks w band bw sentParts ackParts Hsp Hap) as (res & Hres & H1 & H2 & H3 & H4 & H5 & _).
  destruct (session_fates bk bks w band bw sentParts ackParts res Hsp Hap Hres) as (gaps & Hf). exists res, gaps.
  destruct (ids_count (sr_calls res)) as [-> ->]. rewrite (proj1 Hf). split_and!; try done; try apply Hf. by apply fates_once.
Qed.

Lemma session_accounting_witness :
  exists res gaps, @StreamSession MapRange_id [inr demo_broker] 8 OrderBandUnset 1 = Some res /\
    length demo_sent_events = 3%nat /\ applied_ids (sr_calls res) ++ lost_ids (sr_calls res) ++ gaps ≡ₚ map os_OrderID demo_sent_events.
Proof.
  destruct (@session_accounting MapRange_id demo_broker [] 8 OrderBandUnset 1 [0] [0] eq_refl eq_refl)
    as (res & gaps & Hres & _ & _ & _ & _ & _ & _ & Hone).
  exists res, gaps. split; [exact Hres|]. split; [vm_compute; reflexivity|].
  apply Hone. apply (bool_decide_unpack _). vm_compute. exact I.
Defined.
