(* ===== verification/Score.v ===== *)
(** * score-computer: [internal/score/score.go]

    Grading a run group: correctness and telemetry gates, the throughput ramp
    wave by wave, recovery after the spike, and the leaderboard order. *)

From Stdlib Require Import Floats.SpecFloat.
From stdpp Require Import prelude gmap strings list sorting.
From S2P Require Import Prelude GoSort Replay Float64 Topics.

Open Scope Z_scope.

(** ** Floating-point functions of the standard library used here *)

Definition fIsNaN (f : float64) : bool := match f with S754_nan => true | _ => false end.
Definition fIsInf (f : float64) : bool := match f with S754_infinity _ => true | _ => false end.

(** The builtin [min] on [float64]: NaN is contagious, [-0] is below [0]. *)
Definition fmin (x y : float64) : float64 :=
  if fIsNaN x || fIsNaN y then S754_nan
  else if fltb x y then x else if fltb y x then y
  else match x with S754_zero true => x | _ => y end.

(** [math.Max]: an infinity wins over NaN, [0] is above [-0]. *)
Definition fmax (x y : float64) : float64 :=
  match x, y with
  | S754_infinity false, _ => x
  | _, S754_infinity false => y
  | _, _ =>
      if fIsNaN x || fIsNaN y then S754_nan
      else if fltb y x then x else if fltb x y then y
      else match x with S754_zero true => y | _ => x end
  end.

(** [math.Round]: to the nearest integer, halves away from zero. *)
Definition fround (f : float64) : float64 :=
  match f with
  | S754_finite s m e =>
      if 0 <=? e then f
      else let d := 2 ^ (- e) in
           let n := (2 * Zpos m + d) / (2 * d) in
           binary_normalize 53 1024 (if s then - n else n) 0 s
  | _ => f
  end.

(** ** Data *)

Definition DefaultCorrectnessDQThreshold : float64 := flit 95 100.
Definition DefaultMaxErrorRate : float64 := flit 1 100.
Definition DefaultMaxP99NS : Z := 1000000.
Definition DefaultWaveDurationNS : Z := 20000000000.
Definition DefaultMaxScheduledWaves : Z := 10000.
Definition DefaultMinCoverage : float64 := flit 90 100.

Record Config := mkConfig {
  CorrectnessDQThreshold : float64; MaxErrorRate : float64; MaxP99NS : Z;
  WaveDurationNS : Z; MinCoverage : float64 }.

Definition isPositiveFinite (v : float64) : bool := fltb (f64 0) v && negb (fIsNaN v) && negb (fIsInf v).

Definition WithDefaults (c : Config) : Config :=
  mkConfig
    (if negb (isPositiveFinite (CorrectnessDQThreshold c)) || fltb (f64 1) (CorrectnessDQThreshold c)
     then DefaultCorrectnessDQThreshold else CorrectnessDQThreshold c)
    (if negb (isPositiveFinite (MaxErrorRate c)) then DefaultMaxErrorRate else MaxErrorRate c)
    (if MaxP99NS c =? 0 then DefaultMaxP99NS else MaxP99NS c)
    (if WaveDurationNS c =? 0 then DefaultWaveDurationNS else WaveDurationNS c)
    (if negb (isPositiveFinite (MinCoverage c)) || fltb (f64 1) (MinCoverage c)
     then DefaultMinCoverage else MinCoverage c).

Record Correctness := {
  c_SessionID : string; c_ValidFills : Z; c_TotalFills : Z; c_ViolationCount : Z;
  c_SentCount : Z; c_AckedCount : Z; c_MatchedCount : Z;
  c_JitterP50US : float64; c_JitterP99US : float64; c_JitterP999US : float64;
  c_JitterMaxUS : float64; c_JitterInvRate : float64 }.

Record MetricRow := { mr_WaveIndex : Z; mr_P99NS : Z; mr_TPS1S : float64; mr_ErrorRate : float64 }.

Record Session := {
  s_SessionID : string; s_Scenario : string; s_TaskSpecs : list TaskSpec;
  s_Correct : Correctness; s_Metrics : list MetricRow; s_DurationNS : Z }.

Record Input := {
  in_RunGroupID : string; in_SubmissionID : string; in_ContestantID : string;
  in_TeamName : string; in_Sessions : list Session; in_Config : Config }.

Record WaveResult := mkWave {
  wr_WaveIndex : Z; wr_OfferedRPS : Z; wr_P99NS : Z; wr_Passed : bool; wr_Reason : string }.

(** What the message of an incomplete-telemetry result reports. *)
Inductive TelemetryReason :=
  | NoReason
  | CoverageBelow (sessionID : string) (coverage : float64) (matched sent : Z) (minCoverage : float64).

Record Result := mkScore {
  res_RunGroupID : string; res_SubmissionID : string; res_ContestantID : string; res_TeamName : string;
  res_PeakSustainedTPS : Z; res_P99AtPeakNS : Z; res_SpikeRecoveryNS : Z;
  res_TotalCorrectness : float64; res_Disqualified : bool; res_DisqualificationCode : string;
  res_IncompleteTelemetry : bool; res_IncompleteTelemetryReason : TelemetryReason;
  res_JitterP50US : float64; res_JitterP99US : float64; res_JitterP999US : float64;
  res_JitterMaxUS : float64; res_JitterInvRate : float64;
  res_Waves : list WaveResult; res_MaxRateOnly : bool }.

Definition ScenarioCorrectness : string := "correctness".

(** ** Aggregation *)

Definition aggregateCorrectness (sessions : list Session) : float64 :=
  let '(valid, total) := foldl (fun '(valid, total) s =>
      if negb (bool_decide (s_Scenario s = ScenarioCorrectness)) then (valid, total)
      else (fadd valid (f64 (c_ValidFills (s_Correct s))), fadd total (f64 (c_TotalFills (s_Correct s)))))
    (f64 0, f64 0) sessions in
  if feqb total (f64 0) then f64 0 else fmin (fdiv valid total) (f64 1).

Definition aggregateJitter (sessions : list Session) : float64 * float64 * float64 * float64 * float64 :=
  foldl (fun '(p50, p99, p999, maxUS, invRate) s =>
      let c := s_Correct s in
      (fmax p50 (c_JitterP50US c), fmax p99 (c_JitterP99US c), fmax p999 (c_JitterP999US c),
       fmax maxUS (c_JitterMaxUS c), fmax invRate (c_JitterInvRate c)))
    (f64 0, f64 0, f64 0, f64 0, f64 0) sessions.

(** ** The offered load of each wave *)

Record WaveOffer := mkOffer { wo_WaveIndex : Z; wo_OfferedRPS : Z }.

Definition saturatingAdd (a b : Z) : Z := if (MaxUint64 -u64 a) <? b then MaxUint64 else a +u64 b.

Definition overlapNS (aStart aEnd bStart bEnd : Z) : Z :=
  let start := Z.max aStart bStart in
  let end_ := Z.min aEnd bEnd in
  if end_ <=? start then 0 else end_ -u64 start.

Definition maxEnd (tasks : list TaskSpec) : Z :=
  foldl (fun m t => let end_ := saturatingAdd (ts_StartOffsetNs t) (ts_DurationNs t) in
                    if m <? end_ then end_ else m) 0 tasks.

Definition waveCount (tasks : list TaskSpec) (waveDurationNS : Z) : Z :=
  let waves64 := ((maxEnd tasks -u64 1) / waveDurationNS) +u64 1 in
  if DefaultMaxScheduledWaves <? waves64 then DefaultMaxScheduledWaves else waves64.

(** The overlap of task [t] with wave [wave]. *)
Definition waveOverlap (waveDurationNS wave : Z) (t : TaskSpec) : Z :=
  let start := wave *u64 waveDurationNS in
  let end_ := saturatingAdd start waveDurationNS in
  overlapNS start end_ (ts_StartOffsetNs t) (saturatingAdd (ts_StartOffsetNs t) (ts_DurationNs t)).

Definition offered (tasks : list TaskSpec) (waveDurationNS wave : Z) : float64 :=
  foldl (fun acc t =>
      if ts_TargetRPS t =? 0 then acc else
      let overlap := waveOverlap waveDurationNS wave t in
      if overlap =? 0 then acc
      else fadd acc (fmul (f64 (ts_TargetRPS t)) (fdiv (f64 overlap) (f64 waveDurationNS))))
    (f64 0) tasks.

Definition WaveSchedule (tasks : list TaskSpec) (waveDurationNS : Z) : list WaveOffer :=
  let waveDurationNS := if waveDurationNS =? 0 then DefaultWaveDurationNS else waveDurationNS in
  if maxEnd tasks =? 0 then [] else
  flat_map (fun wave =>
      let o := offered tasks waveDurationNS wave in
      if fleb o (f64 0) then [] else [mkOffer wave (f_to_Z (fround o))])
    (seqZ 0 (waveCount tasks waveDurationNS)).

(** ** Measured metrics *)

Record MetricSummary := mkSummary {
  ms_Count : Z; ms_MaxP99NS : Z; ms_StableP99NS : Z; ms_MaxErrorRate : float64; ms_p99Samples : list Z }.

Definition zeroSummary : MetricSummary := mkSummary 0 0 0 (f64 0) [].

Section Metrics.
Context `{SortSlice} `{MapRange}.

Definition medianU64 (samples : list Z) : Z :=
  if (length samples =? 0)%nat then 0
  else nth (length samples / 2) (sort_slice Z.ltb samples) 0.

Definition add_row (out : gmap Z MetricSummary) (row : MetricRow) : gmap Z MetricSummary :=
  let m := default zeroSummary (out !! mr_WaveIndex row) in
  <[mr_WaveIndex row :=
      mkSummary (ms_Count m + 1) (Z.max (ms_MaxP99NS m) (mr_P99NS row)) (ms_StableP99NS m)
        (if fltb (ms_MaxErrorRate m) (mr_ErrorRate row) then mr_ErrorRate row else ms_MaxErrorRate m)
        (ms_p99Samples m ++ [mr_P99NS row])]> out.

Definition summarizeMetrics (rows : list MetricRow) : gmap Z MetricSummary :=
  (fun m => mkSummary (ms_Count m) (ms_MaxP99NS m) (medianU64 (ms_p99Samples m)) (ms_MaxErrorRate m)
              (ms_p99Samples m)) <$> foldl add_row ∅ rows.

Definition summary_at (sum : gmap Z MetricSummary) (w : Z) : MetricSummary := default zeroSummary (sum !! w).

Definition spikeRecoveryNS (sessions : list Session) (waveDurationNS : Z) : Z :=
  let waveDurationNS := if waveDurationNS =? 0 then DefaultWaveDurationNS else waveDurationNS in
  match find (fun s => bool_decide (s_Scenario s = "spike"%string)) sessions with
  | None => 0
  | Some spike =>
      let sum := summarizeMetrics (s_Metrics spike) in
      let waves := sort_stable Z.ltb (map_range (map_to_list sum)).*1 in
      match waves with
      | [] => 0
      | w0 :: _ =>
          let p99 w := ms_MaxP99NS (summary_at sum w) in
          let baseline := p99 w0 in
          if baseline =? 0 then 0 else
          let threshold := f_to_Z (fmul (f64 baseline) (flit 110 100)) in
          let '(peakWave, peakP99) := foldl (fun '(pw, pp) w =>
              if pp <? p99 w then (w, p99 w) else (pw, pp)) (w0, p99 w0) waves in
          if peakP99 <=? threshold then 0 else
          match find (fun w => (peakWave <? w) && (p99 w <=? threshold)) waves with
          | Some w => u64 (w - peakWave) *u64 waveDurationNS
          | None => u64 (List.last waves 0 - peakWave + 1) *u64 waveDurationNS
          end
      end
  end.

(** ** The verdict *)

(** The first session whose telemetry covers too little of what was sent. *)
Fixpoint coverage_check (minCoverage : float64) (sessions : list Session) : option TelemetryReason :=
  match sessions with
  | [] => None
  | s :: sessions =>
      let c := s_Correct s in
      if c_SentCount c =? 0 then coverage_check minCoverage sessions else
      let coverage := fmin (fdiv (f64 (c_MatchedCount c)) (f64 (c_SentCount c))) (f64 1) in
      if fltb coverage minCoverage
      then Some (CoverageBelow (s_SessionID s) coverage (c_MatchedCount c) (c_SentCount c) minCoverage)
      else coverage_check minCoverage sessions
  end.

Definition session_below (threshold : float64) (s : Session) : bool :=
  (0 <? c_TotalFills (s_Correct s)) &&
  fltb (fmin (fdiv (f64 (c_ValidFills (s_Correct s))) (f64 (c_TotalFills (s_Correct s)))) (f64 1)) threshold.

(** The loop that settles the disqualification code and finds the ramp. *)
Definition scan_sessions (threshold : float64) (code : string) (sessions : list Session)
    : string * option Session :=
  foldl (fun '(code, ramp) s =>
      ((if session_below threshold s && bool_decide (code = ""%string)
        then "session_correctness_below_threshold"%string else code),
       (if bool_decide (s_Scenario s = "ramp"%string) then Some s else ramp)))
    (code, None) sessions.

(** The wave loop: the waves graded, the peak and its latency. *)
Fixpoint grade_waves (cfg : Config) (metrics : gmap Z MetricSummary) (schedule : list WaveOffer)
    (waves : list WaveResult) (peak p99 : Z) : list WaveResult * Z * Z :=
  match schedule with
  | [] => (waves, peak, p99)
  | wave :: schedule =>
      if wo_WaveIndex wave =? 0 then grade_waves cfg metrics schedule waves peak p99 else
      match metrics !! wo_WaveIndex wave with
      | None => (waves ++ [mkWave (wo_WaveIndex wave) (wo_OfferedRPS wave) 0 false "missing_metrics"], peak, p99)
      | Some m =>
          if ms_Count m =? 0
          then (waves ++ [mkWave (wo_WaveIndex wave) (wo_OfferedRPS wave) 0 false "missing_metrics"], peak, p99)
          else if fltb (MaxErrorRate cfg) (ms_MaxErrorRate m)
          then (waves ++ [mkWave (wo_WaveIndex wave) (wo_OfferedRPS wave) (ms_StableP99NS m) false "error_rate"],
                peak, p99)
          else if MaxP99NS cfg <? ms_StableP99NS m
          then (waves ++ [mkWave (wo_WaveIndex wave) (wo_OfferedRPS wave) (ms_StableP99NS m) false "p99_latency"],
                peak, p99)
          else grade_waves cfg metrics schedule
                 (waves ++ [mkWave (wo_WaveIndex wave) (wo_OfferedRPS wave) (ms_StableP99NS m) true ""])
                 (wo_OfferedRPS wave) (ms_StableP99NS m)
      end
  end.

Definition max_rate_only (tasks : list TaskSpec) : bool :=
  (0 <? length tasks)%nat && forallb (fun t => ts_TargetRPS t =? 0) tasks.

Definition peak_tps (rows : list MetricRow) : float64 :=
  foldl (fun peak m => if fltb peak (mr_TPS1S m) then mr_TPS1S m else peak) (f64 0) rows.

Inductive ScoreError := ErrMissingRampSession.

Definition Compute (inp : Input) : Result * option ScoreError :=
  let cfg := WithDefaults (in_Config inp) in
  let total := aggregateCorrectness (in_Sessions inp) in
  let '(j50, j99, j999, jmax, jinv) := aggregateJitter (in_Sessions inp) in
  let incomplete := coverage_check (MinCoverage cfg) (in_Sessions inp) in
  let result peak p99 spike dq waves maxRate :=
    mkScore (in_RunGroupID inp) (in_SubmissionID inp) (in_ContestantID inp) (in_TeamName inp)
      peak p99 spike total (negb (bool_decide (dq = ""%string))) dq
      (match incomplete with Some _ => true | None => false end)
      (match incomplete with Some r => r | None => NoReason end)
      j50 j99 j999 jmax jinv waves maxRate in
  let code := if fltb total (CorrectnessDQThreshold cfg) then "correctness_below_threshold"%string else ""%string in
  let '(code, ramp) := scan_sessions (CorrectnessDQThreshold cfg) code (in_Sessions inp) in
  match ramp with
  | None =>
      if bool_decide (code = ""%string)
      then (result 0 0 0 "" [] false, Some ErrMissingRampSession)
      else (result 0 0 0 code [] false, None)
  | Some ramp =>
      let spike := spikeRecoveryNS (in_Sessions inp) (WaveDurationNS cfg) in
      if max_rate_only (s_TaskSpecs ramp)
      then (result (f_to_Z (fround (peak_tps (s_Metrics ramp)))) 0 spike code [] true, None)
      else
        let '(waves, peak, p99) := grade_waves cfg (summarizeMetrics (s_Metrics ramp))
          (WaveSchedule (s_TaskSpecs ramp) (WaveDurationNS cfg)) [] 0 0 in
        (result peak p99 spike code waves false, None)
  end.

End Metrics.

(** ** The leaderboard order *)

Definition result_less (a b : Result) : bool :=
  if negb (Bool.eqb (res_Disqualified a) (res_Disqualified b)) then res_Disqualified b
  else if negb (res_PeakSustainedTPS a =? res_PeakSustainedTPS b)
  then res_PeakSustainedTPS b <? res_PeakSustainedTPS a
  else if negb (res_P99AtPeakNS a =? res_P99AtPeakNS b) then res_P99AtPeakNS a <? res_P99AtPeakNS b
  else if negb (res_SpikeRecoveryNS a =? res_SpikeRecoveryNS b)
  then res_SpikeRecoveryNS a <? res_SpikeRecoveryNS b
  else if negb (feqb (res_TotalCorrectness a) (res_TotalCorrectness b))
  then fltb (res_TotalCorrectness b) (res_TotalCorrectness a)
  else String.ltb (res_RunGroupID a) (res_RunGroupID b).

Definition SortResults (results : list Result) : list Result := sort_stable result_less results.
