(* ===== verification/Ordering.v ===== *)
(** * Comparison functions

    Lexicographic comparison, as the sort keys of the services chain it: each
    level is a total preorder given by a three-way comparison, and chains of
    levels are again total preorders.  Includes the orders of [float64]
    (without NaN) and of strings. *)

From Stdlib Require Import Floats.SpecFloat Ascii.
From stdpp Require Import prelude strings list.
From S2P Require Import Prelude GoSort Float64.

Open Scope Z_scope.

(** A total preorder on the elements satisfying [P]. *)
Record CmpLaws {A} (P : A -> Prop) (c : A -> A -> comparison) : Prop := {
  cl_opp a b : P a -> P b -> c b a = CompOpp (c a b);
  cl_le_trans a b d : P a -> P b -> P d -> c a b <> Gt -> c b d <> Gt -> c a d <> Gt }.

Definition lex {A} (c d : A -> A -> comparison) (a b : A) : comparison :=
  match c a b with Eq => d a b | r => r end.

Definition lt_of {A} (c : A -> A -> comparison) (a b : A) : bool :=
  match c a b with Lt => true | _ => false end.

(** Compare by a key, ascending or descending. *)
Definition asc {A} (f : A -> Z) (a b : A) : comparison := f a ?= f b.
Definition desc {A} (f : A -> Z) (a b : A) : comparison := f b ?= f a.

Section Laws.
Context {A : Type} (P : A -> Prop).
Implicit Types c d : A -> A -> comparison.

Lemma cmp_eq_both c a b e :
  CmpLaws P c -> P a -> P b -> P e -> c a b <> Gt -> c b e <> Gt -> c a e = Eq -> c a b = Eq /\ c b e = Eq.
Proof.
  intros L Pa Pb Pd H1 H2 H3.
  assert (Hda : c e a = Eq) by (rewrite (cl_opp _ _ L a e), H3 by done; done).
  assert (H4 : c e b <> Gt) by (apply (cl_le_trans _ _ L e a b); [done..|by rewrite Hda|done]).
  assert (H5 : c b a <> Gt) by (apply (cl_le_trans _ _ L b e a); [done..|by rewrite Hda]).
  rewrite (cl_opp _ _ L b e) in H4 by done. rewrite (cl_opp _ _ L a b) in H5 by done.
  destruct (c a b), (c b e); done.
Qed.

Lemma lex_laws c d : CmpLaws P c -> CmpLaws P d -> CmpLaws P (lex c d).
Proof.
  intros Lc Ld. split.
  - intros a b Pa Pb. unfold lex. rewrite (cl_opp _ _ Lc a b) by done.
    destruct (c a b); simpl; [by apply (cl_opp _ _ Ld)|done|done].
  - intros a b e Pa Pb Pe H1 H2.
    assert (C1 : c a b <> Gt) by (unfold lex in H1; by destruct (c a b)).
    assert (C2 : c b e <> Gt) by (unfold lex in H2; by destruct (c b e)).
    pose proof (cl_le_trans _ _ Lc a b e Pa Pb Pe C1 C2) as C3. unfold lex in *.
    destruct (c a e) eqn:E; [|done|done].
    destruct (cmp_eq_both c a b e Lc Pa Pb Pe C1 C2 E) as [E1 E2].
    rewrite E1 in H1. rewrite E2 in H2. by apply (cl_le_trans _ _ Ld a b e).
Qed.

Lemma asc_laws (f : A -> Z) : CmpLaws P (asc f).
Proof.
  split; unfold asc; [intros; apply Z.compare_antisym|].
  intros a b d _ _ _. intros H1 H2.
  change (f a <= f b) in H1. change (f b <= f d) in H2. change (f a <= f d). lia.
Qed.

Lemma desc_laws (f : A -> Z) : CmpLaws P (desc f).
Proof.
  split; unfold desc; [intros; apply Z.compare_antisym|].
  intros a b e _ _ _ H1 H2. change (f b <= f a) in H1. change (f e <= f b) in H2. change (f e <= f a). lia.
Qed.

Lemma flip_laws c : CmpLaws P c -> CmpLaws P (fun a b => c b a).
Proof.
  intros L. split.
  - intros a b Pa Pb. by apply (cl_opp _ _ L).
  - intros a b e Pa Pb Pe H1 H2. by apply (cl_le_trans _ _ L e b a).
Qed.

Lemma pull_laws {B} (Q : B -> Prop) (c : B -> B -> comparison) (f : A -> B) :
  CmpLaws Q c -> (forall a, P a -> Q (f a)) -> CmpLaws P (fun a b => c (f a) (f b)).
Proof. intros L Hf. split; intros; [apply (cl_opp _ _ L)|eapply (cl_le_trans _ _ L _ (f b))]; auto. Qed.

Lemma lt_of_sw c : CmpLaws P c -> StrictWeakOn P (lt_of c).
Proof.
  intros L. unfold lt_of. split.
  - intros a b Pa Pb. rewrite (cl_opp _ _ L a b) by done. by destruct (c a b).
  - intros a b e Pa Pb Pe H1 H2.
    assert (C1 : c b a <> Gt) by (rewrite (cl_opp _ _ L a b) by done; by destruct (c a b)).
    assert (C2 : c e b <> Gt) by (rewrite (cl_opp _ _ L b e) by done; by destruct (c b e)).
    pose proof (cl_le_trans _ _ L e b a Pe Pb Pa C2 C1) as C3.
    rewrite (cl_opp _ _ L a e) in C3 by done. by destruct (c a e).
Qed.

End Laws.

(** ** [float64] *)

Definition notNaN (f : float64) : Prop := f <> S754_nan.

Definition fcmp (f g : float64) : comparison := default Eq (SFcompare f g).

(** Sign and class, then exponent, then mantissa, all signed. *)
Definition fkey1 (f : float64) : Z :=
  match f with
  | S754_infinity s => if s then -2 else 2
  | S754_finite s _ _ => if s then -1 else 1
  | _ => 0
  end.
Definition fkey2 (f : float64) : Z :=
  match f with S754_finite s _ e => if s then - e else e | _ => 0 end.
Definition fkey3 (f : float64) : Z :=
  match f with S754_finite s m _ => if s then - Zpos m else Zpos m | _ => 0 end.

Lemma fcmp_keys f g :
  notNaN f -> notNaN g -> fcmp f g = lex (asc fkey1) (lex (asc fkey2) (asc fkey3)) f g.
Proof.
  unfold notNaN, fcmp, lex, asc.
  destruct f as [s|s| |s m e], g as [s'|s'| |s' m' e']; try done; intros _ _;
    try (destruct s; done); try (destruct s'; done); try (destruct s, s'; done).
  destruct s, s'; simpl; try done.
  rewrite (Z.compare_opp e e'), (Z.compare_antisym e e'). by destruct (e ?= e').
Qed.

Lemma fcmp_laws : CmpLaws notNaN fcmp.
Proof.
  assert (L : CmpLaws notNaN (lex (asc fkey1) (lex (asc fkey2) (asc fkey3))))
    by (repeat apply lex_laws; apply asc_laws).
  split.
  - intros a b Pa Pb. rewrite !fcmp_keys by done. by apply (cl_opp _ _ L).
  - intros a b d Pa Pb Pd. rewrite !fcmp_keys by done. by apply (cl_le_trans _ _ L).
Qed.

Lemma fcmp_bool f g :
  notNaN f -> notNaN g ->
  feqb f g = (match fcmp f g with Eq => true | _ => false end) /\ fltb f g = lt_of fcmp f g.
Proof.
  unfold notNaN, feqb, fltb, SFeqb, SFltb, lt_of, fcmp. intros Hf Hg.
  destruct f, g; try done; simpl; by repeat case_match.
Qed.

(** ** Strings *)

Lemma string_cmp_laws : CmpLaws (fun _ => True) String.compare.
Proof.
  split; [intros; apply String.compare_antisym|].
  intros a b d _ _ _. revert b d. induction a as [|x a IH]; intros [|y b] [|z d]; simpl; try done.
  unfold Ascii.compare. intros H1 H2.
  destruct (N.compare_spec (N_of_ascii x) (N_of_ascii y)),
    (N.compare_spec (N_of_ascii y) (N_of_ascii z)), (N.compare_spec (N_of_ascii x) (N_of_ascii z));
    try done; try lia. by apply (IH b d).
Qed.
