(* ===== verification/ScoreProps.v ===== *)
(** * Theorems about the score computer *)

From Stdlib Require Import Floats.SpecFloat.
From stdpp Require Import prelude gmap strings list sorting.
From S2P Require Import Prelude GoSort Replay Float64 Topics Ordering Score.

Open Scope Z_scope.

(** ** The throughput ramp *)

(** The verdict on one wave, by itself. *)
Definition wave_verdict (cfg : Config) (metrics : gmap Z MetricSummary) (wave : WaveOffer) : WaveResult :=
  match metrics !! wo_WaveIndex wave with
  | Some m =>
      if ms_Count m =? 0 then mkWave (wo_WaveIndex wave) (wo_OfferedRPS wave) 0 false "missing_metrics"
      else if fltb (MaxErrorRate cfg) (ms_MaxErrorRate m)
      then mkWave (wo_WaveIndex wave) (wo_OfferedRPS wave) (ms_StableP99NS m) false "error_rate"
      else if MaxP99NS cfg <? ms_StableP99NS m
      then mkWave (wo_WaveIndex wave) (wo_OfferedRPS wave) (ms_StableP99NS m) false "p99_latency"
      else mkWave (wo_WaveIndex wave) (wo_OfferedRPS wave) (ms_StableP99NS m) true ""
  | None => mkWave (wo_WaveIndex wave) (wo_OfferedRPS wave) 0 false "missing_metrics"
  end.

(** The waves that count: wave 0 is warm-up. *)
Definition graded (schedule : list WaveOffer) : list WaveOffer :=
  List.filter (fun w => negb (wo_WaveIndex w =? 0)) schedule.

(** [waves] is the passing prefix of [verdicts] and the first failure, if any;
    [peak] and [p99] are those of the last passing wave. *)
Definition ramp_outcome (verdicts waves : list WaveResult) (peak0 p0 peak p99 : Z) : Prop :=
  exists passed rest, verdicts = passed ++ rest /\ Forall (fun w => wr_Passed w = true) passed /\
    match rest with
    | [] => waves = passed
    | w :: _ => wr_Passed w = false /\ waves = passed ++ [w]
    end /\
    peak = match last passed with Some w => wr_OfferedRPS w | None => peak0 end /\
    p99 = match last passed with Some w => wr_P99NS w | None => p0 end.

Lemma ramp_fail v vs peak p99 : wr_Passed v = false -> ramp_outcome (v :: vs) [v] peak p99 peak p99.
Proof. intros Hv. exists [], (v :: vs). by split_and!. Qed.

Lemma ramp_pass v vs waves peak0 p0 peak p99 :
  wr_Passed v = true -> ramp_outcome vs waves (wr_OfferedRPS v) (wr_P99NS v) peak p99 ->
  ramp_outcome (v :: vs) (v :: waves) peak0 p0 peak p99.
Proof.
  intros Hv (passed & rest & -> & Hp & Hr & Hk & Hl). exists (v :: passed), rest. split_and!.
  - done.
  - by constructor.
  - destruct rest; [by subst|]. destruct Hr as [? ->]. done.
  - rewrite Hk. rewrite last_cons. by destruct (last passed).
  - rewrite Hl. rewrite last_cons. by destruct (last passed).
Qed.

Lemma grade_waves_spec cfg metrics schedule acc peak0 p0 :
  let '(waves, peak, p99) := grade_waves cfg metrics schedule acc peak0 p0 in
  exists new, waves = acc ++ new /\
    ramp_outcome (map (wave_verdict cfg metrics) (graded schedule)) new peak0 p0 peak p99.
Proof.
  revert acc peak0 p0. induction schedule as [|wave schedule IH]; intros acc peak0 p0; simpl.
  - exists []. rewrite app_nil_r. split; [done|]. exists [], []. by split_and!.
  - destruct (wo_WaveIndex wave =? 0) eqn:E0; simpl; [apply IH|].
    destruct (metrics !! wo_WaveIndex wave) as [m|] eqn:Em; simpl.
    + assert (Hv : wave_verdict cfg metrics wave = wave_verdict cfg metrics wave) by done.
      unfold wave_verdict at 2 in Hv. rewrite Em in Hv.
      destruct (ms_Count m =? 0); [eexists; split; [done|]; rewrite Hv; by apply ramp_fail|].
      destruct (fltb _ _); [eexists; split; [done|]; rewrite Hv; by apply ramp_fail|].
      destruct (MaxP99NS cfg <? _); [eexists; split; [done|]; rewrite Hv; by apply ramp_fail|].
      match goal with |- context [grade_waves _ _ _ (acc ++ [?w]) ?a ?b] =>
        specialize (IH (acc ++ [w]) a b) end.
      destruct (grade_waves _ _ _ _ _ _) as [[waves peak] p99].
      destruct IH as (new & -> & Hnew). eexists (_ :: new). rewrite <-app_assoc. split; [done|].
      rewrite Hv. by apply ramp_pass.
    + assert (Hv : wave_verdict cfg metrics wave = wave_verdict cfg metrics wave) by done.
      unfold wave_verdict at 2 in Hv. rewrite Em in Hv.
      eexists. split; [done|]. rewrite Hv. by apply ramp_fail.
Qed.

Definition is_ramp (s : Session) : bool := bool_decide (s_Scenario s = "ramp"%string).

(** The session loop: the last ramp wins, and a code is kept once set. *)
Lemma scan_sessions_spec thr code sessions :
  scan_sessions thr code sessions =
  ((if existsb (session_below thr) sessions && bool_decide (code = ""%string)
    then "session_correctness_below_threshold"%string else code),
   last (List.filter is_ramp sessions)).
Proof.
  unfold scan_sessions. assert (Hgen : forall code ramp,
    foldl (fun '(code, ramp) s =>
      ((if session_below thr s && bool_decide (code = ""%string)
        then "session_correctness_below_threshold"%string else code),
       (if bool_decide (s_Scenario s = "ramp"%string) then Some s else ramp))) (code, ramp) sessions =
    ((if existsb (session_below thr) sessions && bool_decide (code = ""%string)
      then "session_correctness_below_threshold"%string else code),
     match last (List.filter is_ramp sessions) with Some s => Some s | None => ramp end)).
  { clear code. induction sessions as [|s sessions IH]; intros code ramp; simpl; [done|].
    rewrite IH. f_equal.
    - destruct (session_below thr s), (existsb _ _), (bool_decide (code = ""%string)) eqn:E; simpl; try done;
        by rewrite E.
    - unfold is_ramp at 2. destruct (bool_decide _); [|done]. rewrite last_cons. by destruct (last _). }
  rewrite Hgen. by destruct (last _).
Qed.

Section Verdict.
Context `{SortSlice} `{MapRange}.

(** C15: the peak of a throughput-graded run group.  The waves of the last
    ramp session are judged in schedule order without the warm-up wave, up to
    and including the first failure; the peak is the load offered in the last
    wave before it (0 if there is none), with the latency measured there. *)
Theorem Compute_ramp inp ramp :
  last (List.filter is_ramp (in_Sessions inp)) = Some ramp -> max_rate_only (s_TaskSpecs ramp) = false ->
  let cfg := WithDefaults (in_Config inp) in
  let res := (Compute inp).1 in
  ramp_outcome
    (map (wave_verdict cfg (summarizeMetrics (s_Metrics ramp)))
       (graded (WaveSchedule (s_TaskSpecs ramp) (WaveDurationNS cfg))))
    (res_Waves res) 0 0 (res_PeakSustainedTPS res) (res_P99AtPeakNS res) /\
  Forall (fun w => wr_Passed w = true -> wr_P99NS w <= MaxP99NS cfg) (res_Waves res).
Proof.
  intros Hramp Hmax. cbv zeta. set (cfg := WithDefaults (in_Config inp)).
  set (schedule := WaveSchedule _ _). set (metrics := summarizeMetrics _).
  assert (Hout : ramp_outcome (map (wave_verdict cfg metrics) (graded schedule)) (res_Waves (Compute inp).1) 0 0
            (res_PeakSustainedTPS (Compute inp).1) (res_P99AtPeakNS (Compute inp).1)).
  { unfold Compute. fold cfg. destruct (aggregateJitter _) as [[[[j50 j99] j999] jmax] jinv].
    rewrite scan_sessions_spec, Hramp, Hmax. fold metrics schedule.
    pose proof (grade_waves_spec cfg metrics schedule [] 0 0) as Hg.
    destruct (grade_waves _ _ _ _ _ _) as [[waves peak] p99]. destruct Hg as (new & -> & Hg). exact Hg. }
  split; [exact Hout|]. destruct Hout as (passed & rest & Hv & Hp & Hr & _ & _).
  assert (Hsub : forall w, w ∈ res_Waves (Compute inp).1 -> w ∈ map (wave_verdict cfg metrics) (graded schedule)).
  { rewrite Hv. destruct rest as [|w rest]; [rewrite Hr; set_solver|]. destruct Hr as [_ ->]. set_solver. }
  apply Forall_forall. intros w Hw. apply Hsub, list_elem_of_fmap in Hw as (o & -> & _).
  unfold wave_verdict. destruct (metrics !! _) as [m|]; [|done]. destruct (_ =? 0); [done|].
  destruct (fltb _ _); [done|]. destruct (Z.ltb_spec (MaxP99NS cfg) (ms_StableP99NS m)); [done|]. done.
Qed.

(** C16: a run group is disqualified exactly when its pass-1 correctness (that
    of the sessions of the correctness scenario, 0 without one), or the
    correctness of some session with fills, whichever pass graded it, is below
    the threshold; and
    the only error, a missing ramp session, is returned exactly when there is
    no ramp session and nothing to disqualify. *)
Theorem Compute_disqualification inp :
  let thr := CorrectnessDQThreshold (WithDefaults (in_Config inp)) in
  let below := fltb (aggregateCorrectness (in_Sessions inp)) thr in
  let res := (Compute inp).1 in
  res_Disqualified res = below || existsb (session_below thr) (in_Sessions inp) /\
  res_DisqualificationCode res =
    (if below then "correctness_below_threshold"
     else if existsb (session_below thr) (in_Sessions inp) then "session_correctness_below_threshold"
     else "")%string /\
  ((Compute inp).2 = Some ErrMissingRampSession <->
   res_Disqualified res = false /\ existsb is_ramp (in_Sessions inp) = false).
Proof.
  cbv zeta. unfold Compute. destruct (aggregateJitter _) as [[[[j50 j99] j999] jmax] jinv].
  rewrite scan_sessions_spec. set (thr := CorrectnessDQThreshold _).
  set (below := fltb (aggregateCorrectness _) thr). set (some := existsb (session_below thr) _).
  assert (Hnone : last (List.filter is_ramp (in_Sessions inp)) = None <-> existsb is_ramp (in_Sessions inp) = false).
  { rewrite last_None. induction (in_Sessions inp) as [|s l IH]; simpl; [done|].
    destruct (is_ramp s); simpl; [done|exact IH]. }
  destruct (last _) as [ramp|] eqn:El.
  - assert (Hex : existsb is_ramp (in_Sessions inp) <> false) by (rewrite <-Hnone; done).
    destruct (max_rate_only _); [|destruct (grade_waves _ _ _ _ _ _) as [[? ?] ?]]; cbn [fst snd];
      destruct below, some; simpl; split_and!; try done; split; naive_solver.
  - pose proof (proj1 Hnone eq_refl) as Hex. rewrite Hex.
    destruct below, some; simpl; split_and!; try done; split; naive_solver.
Qed.

End Verdict.

(** ** The offered load *)

Definition task_ok (t : TaskSpec) : Prop :=
  0 <= ts_StartOffsetNs t /\ 0 <= ts_DurationNs t /\ ts_StartOffsetNs t + ts_DurationNs t <= MaxUint64.

Lemma saturatingAdd_spec a b :
  0 <= a <= MaxUint64 -> 0 <= b -> saturatingAdd a b = Z.min (a + b) MaxUint64.
Proof.
  unfold MaxUint64. intros Ha Hb. unfold saturatingAdd, MaxUint64. rewrite (u64_small (_ - a)) by lia.
  break_if; zify_bool; [lia|]. rewrite u64_small; lia.
Qed.

Lemma waveOverlap_spec w k t :
  0 < w <= MaxUint64 -> 0 <= k -> k * w <= MaxUint64 -> task_ok t ->
  let s := ts_StartOffsetNs t in let e := s + ts_DurationNs t in
  waveOverlap w k t = Z.max 0 (Z.min (k * w + w) e - Z.max (k * w) s).
Proof.
  intros Hw Hk Hkw (Hs & Hd & He). cbv zeta. unfold waveOverlap, overlapNS.
  unfold MaxUint64 in *. rewrite (u64_small (k * w)) by nia.
  rewrite !saturatingAdd_spec by (unfold MaxUint64; nia). unfold MaxUint64.
  break_if; zify_bool; [lia|]. rewrite u64_small; lia.
Qed.

Lemma waveOverlap_sum w t n :
  0 < w <= MaxUint64 -> task_ok t -> (Z.of_nat n - 1) * w <= MaxUint64 ->
  sumZ (map (fun k => waveOverlap w k t) (seqZ 0 (Z.of_nat n))) =
  Z.max 0 (Z.min (Z.of_nat n * w) (ts_StartOffsetNs t + ts_DurationNs t) - ts_StartOffsetNs t).
Proof.
  intros Hw Ht. pose proof Ht as (Hs & Hd & He). induction n as [|n IH]; intros Hn.
  - simpl. unfold sumZ. simpl. lia.
  - replace (Z.of_nat (S n)) with (Z.of_nat n + 1) in * by lia.
    rewrite seqZ_app by lia. simpl. rewrite map_app, sumZ_app, IH by nia. simpl.
    replace (Z.of_nat n + 1 - Z.of_nat n) with 1 by lia.
    unfold sumZ. simpl. rewrite waveOverlap_spec by (done || lia || nia). cbv zeta. lia.
Qed.

Lemma maxEnd_ge tasks t :
  t ∈ tasks -> saturatingAdd (ts_StartOffsetNs t) (ts_DurationNs t) <= maxEnd tasks.
Proof.
  unfold maxEnd. intros Ht.
  assert (Hmono : forall l m, m <= foldl (fun m t => let end_ := saturatingAdd (ts_StartOffsetNs t) (ts_DurationNs t) in
                    if m <? end_ then end_ else m) m l).
  { induction l as [|x l IH]; intros m; simpl; [lia|]. destruct (Z.ltb_spec m (saturatingAdd (ts_StartOffsetNs x) (ts_DurationNs x))).
    - etrans; [|apply IH]. lia.
    - apply IH. }
  generalize 0. induction tasks as [|x l IH]; intros m; simpl; [by apply elem_of_nil in Ht|].
  apply elem_of_cons in Ht as [->|Ht]; [|by apply IH].
  etrans; [|apply Hmono]. destruct (Z.ltb_spec m (saturatingAdd (ts_StartOffsetNs x) (ts_DurationNs x))); lia.
Qed.

(** The waves of a schedule tile the time line: however a task straddles
    wave boundaries, its overlaps with the scheduled waves add up to exactly
    its duration, so no offered load is lost or counted twice (for a schedule
    within the cap of ten thousand waves). *)
Theorem wave_overlaps_tile tasks t w :
  0 < w <= MaxUint64 -> t ∈ tasks -> Forall task_ok tasks -> maxEnd tasks <= MaxUint64 ->
  0 < maxEnd tasks <= DefaultMaxScheduledWaves * w ->
  sumZ (map (fun k => waveOverlap w k t) (seqZ 0 (waveCount tasks w))) = ts_DurationNs t.
Proof.
  intros Hw Ht Htasks Hmax [Hpos Hcap]. rewrite Forall_forall in Htasks. pose proof (Htasks t Ht) as Hok.
  pose proof Hok as (Hs & Hd & He). pose proof (maxEnd_ge tasks t Ht) as Hge.
  rewrite saturatingAdd_spec in Hge by lia.
  assert (Hq : 0 <= (maxEnd tasks - 1) / w <= DefaultMaxScheduledWaves - 1).
  { split; [apply Z.div_pos; lia|]. apply Z.lt_succ_r. apply Z.div_lt_upper_bound; unfold DefaultMaxScheduledWaves in *; nia. }
  assert (Hn : waveCount tasks w = (maxEnd tasks - 1) / w + 1).
  { unfold waveCount, DefaultMaxScheduledWaves, MaxUint64 in *. rewrite (u64_small (maxEnd tasks - 1)) by lia. rewrite u64_small by lia.
    destruct (Z.ltb_spec 10000 ((maxEnd tasks - 1) / w + 1)); lia. }
  pose proof (Z.mul_div_le (maxEnd tasks - 1) w ltac:(lia)) as Hlo.
  pose proof (Z.mul_succ_div_gt (maxEnd tasks - 1) w ltac:(lia)) as Hhi.
  rewrite Hn. replace ((maxEnd tasks - 1) / w + 1) with (Z.of_nat (Z.to_nat ((maxEnd tasks - 1) / w + 1))) by lia.
  rewrite waveOverlap_sum; [|done|done|lia]. rewrite Z2Nat.id by lia.
  replace (((maxEnd tasks - 1) / w + 1) * w) with (w * Z.succ ((maxEnd tasks - 1) / w)) by lia. lia.
Qed.

(** ** The leaderboard *)

Definition dq_key (r : Result) : Z := if res_Disqualified r then 1 else 0.

(** Qualified first, higher peak first, then lower latency, faster recovery,
    higher correctness, and the run group id. *)
Definition result_cmp : Result -> Result -> comparison :=
  lex (asc dq_key) (lex (desc res_PeakSustainedTPS) (lex (asc res_P99AtPeakNS)
    (lex (asc res_SpikeRecoveryNS) (lex (fun a b => fcmp (res_TotalCorrectness b) (res_TotalCorrectness a))
      (fun a b => String.compare (res_RunGroupID a) (res_RunGroupID b)))))).

Definition rankable (r : Result) : Prop := notNaN (res_TotalCorrectness r).

Lemma result_cmp_laws : CmpLaws rankable result_cmp.
Proof.
  unfold result_cmp. repeat apply lex_laws; try apply asc_laws; try apply desc_laws.
  - exact (flip_laws _ _ (pull_laws rankable notNaN fcmp res_TotalCorrectness fcmp_laws (fun a Ha => Ha))).
  - exact (pull_laws rankable _ _ res_RunGroupID string_cmp_laws (fun _ _ => I)).
Qed.

Lemma asc_level (x y : Z) (r1 : bool) (r2 : comparison) :
  r1 = match r2 with Lt => true | _ => false end ->
  (if negb (x =? y) then x <? y else r1) = match match x ?= y with Eq => r2 | r => r end with Lt => true | _ => false end.
Proof. intros ->. destruct (Z.compare_spec x y), (Z.eqb_spec x y), (Z.ltb_spec x y); done || lia. Qed.

Lemma desc_level (x y : Z) (r1 : bool) (r2 : comparison) :
  r1 = match r2 with Lt => true | _ => false end ->
  (if negb (x =? y) then y <? x else r1) = match match y ?= x with Eq => r2 | r => r end with Lt => true | _ => false end.
Proof. intros ->. destruct (Z.compare_spec y x), (Z.eqb_spec x y), (Z.ltb_spec y x); done || lia. Qed.

Lemma result_less_cmp a b : rankable a -> rankable b -> result_less a b = lt_of result_cmp a b.
Proof.
  intros Ha Hb. unfold result_less, lt_of, result_cmp, lex, asc, desc.
  assert (Hlvl : forall r, (if negb (Bool.eqb (res_Disqualified a) (res_Disqualified b)) then res_Disqualified b
                 else r) = (if negb (dq_key a =? dq_key b) then dq_key a <? dq_key b else r)).
  { intros r. unfold dq_key. by destruct (res_Disqualified a), (res_Disqualified b). }
  rewrite Hlvl. apply asc_level, desc_level, asc_level, asc_level.
  destruct (fcmp_bool _ _ Ha Hb) as [-> _]. destruct (fcmp_bool _ _ Hb Ha) as [_ ->].
  unfold lt_of. rewrite (cl_opp _ _ fcmp_laws _ _ Ha Hb). by destruct (fcmp _ _).
Qed.

Lemma result_less_sw : StrictWeakOn rankable result_less.
Proof.
  pose proof (lt_of_sw _ _ result_cmp_laws) as SW. split.
  - intros a b Pa Pb. rewrite !result_less_cmp by done. by apply (sw_asym _ _ SW).
  - intros a b d Pa Pb Pd. rewrite !result_less_cmp by done. by apply (sw_negtrans _ _ SW).
Qed.

(** Only the same run group ties with a result. *)
Lemma result_less_tie a b :
  rankable a -> rankable b -> result_less a b = false -> result_less b a = false ->
  res_RunGroupID a = res_RunGroupID b.
Proof.
  intros Pa Pb. rewrite !result_less_cmp by done. unfold lt_of.
  rewrite (cl_opp _ _ result_cmp_laws a b) by done. intros H1 H2.
  assert (Heq : result_cmp a b = Eq) by (by destruct (result_cmp a b)). clear H1 H2.
  unfold result_cmp, lex in Heq. repeat (case_match; try done).
  by apply String.compare_eq_iff in Heq.
Qed.

(** The leaderboard is a total, reproducible order: [SortResults] returns
    the results it was given, no later one ranks before an earlier one, no
    disqualified group is above a qualified one, higher peaks come first among
    equals, and the order does not depend on the order the groups come in. *)
Theorem leaderboard_order results :
  Forall rankable results -> NoDup (map res_RunGroupID results) ->
  SortResults results ≡ₚ results /\ sorted_by result_less (SortResults results) /\
  (forall l a m b r, SortResults results = l ++ a :: m ++ b :: r ->
     (res_Disqualified a = true -> res_Disqualified b = true) /\
     (res_Disqualified a = res_Disqualified b -> res_PeakSustainedTPS b <= res_PeakSustainedTPS a)) /\
  (forall results', results' ≡ₚ results -> SortResults results' = SortResults results).
Proof.
  intros Hok Hnd. unfold SortResults.
  assert (Hs : forall l, Forall rankable l -> sorted_by result_less (sort_stable result_less l)).
  { intros l Hl. by eapply sort_stable_sorted, Hl; apply result_less_sw. }
  split_and!; [apply sort_stable_perm|by apply Hs| |].
  - intros l a m b r E. pose proof (Hs _ Hok) as Hso. unfold sorted_by in Hso.
    rewrite E in Hso. apply StronglySorted_app_iff in Hso as (_ & Hso & _).
    apply StronglySorted_inv in Hso as [_ Hf]. rewrite Forall_forall in Hf.
    specialize (Hf b ltac:(set_solver)). unfold result_less in Hf.
    destruct (res_Disqualified a), (res_Disqualified b); simpl in Hf; split; try done; intros _;
      destruct (Z.eqb_spec (res_PeakSustainedTPS b) (res_PeakSustainedTPS a)); simpl in Hf; zify_bool; lia.
  - intros results' Hp.
    assert (Hok' : Forall rankable results') by (by rewrite Hp).
    apply (sorted_by_unique (fun x => rankable x /\ x ∈ results) result_less).
    + destruct result_less_sw as [S1 S2]. split; [intros x y [? _] [? _]|intros x y z [? _] [? _] [? _]]; auto.
      by apply S2.
    + intros x y [Px Hx] [Py Hy] H1 H2. pose proof (result_less_tie x y Px Py H1 H2) as Hid.
      apply list_elem_of_lookup in Hx as [i Hi], Hy as [k Hk].
      assert (i = k); [|congruence]. eapply NoDup_lookup; [exact Hnd| |];
        rewrite list_lookup_fmap; [by rewrite Hi|by rewrite Hk, Hid].
    + rewrite sort_stable_perm, Hp. rewrite Forall_forall in *. auto.
    + by apply Hs.
    + by apply Hs.
    + by rewrite !sort_stable_perm.
Qed.

(** ** Witnesses *)

Definition demo_task (start dur rps : Z) : TaskSpec :=
  {| ts_TaskID := 0; ts_Profile := "hft"; ts_TargetRPS := rps; ts_StartOffsetNs := start; ts_DurationNs := dur;
     ts_MarketPct := 0; ts_CancelPct := 0; ts_ReplacePct := 0; ts_TargetIdx := 0; ts_SMPIDCount := 0 |}.

Definition demo_correct : Correctness :=
  {| c_SessionID := "s"; c_ValidFills := 99; c_TotalFills := 100; c_ViolationCount := 1; c_SentCount := 100;
     c_AckedCount := 100; c_MatchedCount := 100; c_JitterP50US := f64 0; c_JitterP99US := f64 0;
     c_JitterP999US := f64 0; c_JitterMaxUS := f64 0; c_JitterInvRate := f64 0 |}.

Definition demo_row (wave p99 : Z) : MetricRow :=
  {| mr_WaveIndex := wave; mr_P99NS := p99; mr_TPS1S := f64 100; mr_ErrorRate := f64 0 |}.

(** A ramp of 100, 200 and 300 orders per second whose third wave is too slow. *)
Definition demo_ramp : Session :=
  {| s_SessionID := "r"; s_Scenario := "ramp";
     s_TaskSpecs := [demo_task 0 40 100; demo_task 20 20 100; demo_task 30 10 100];
     s_Correct := demo_correct;
     s_Metrics := [demo_row 1 500; demo_row 2 700; demo_row 2 900; demo_row 2 800; demo_row 3 2000000];
     s_DurationNS := 40 |}.

Definition demo_input : Input :=
  {| in_RunGroupID := "g"; in_SubmissionID := "sub"; in_ContestantID := "c"; in_TeamName := "t";
     in_Sessions := [{| s_SessionID := "p1"; s_Scenario := "correctness"; s_TaskSpecs := [];
                        s_Correct := demo_correct; s_Metrics := []; s_DurationNS := 1 |}; demo_ramp];
     in_Config := mkConfig (f64 0) (f64 0) 0 10 (f64 0) |}.

Lemma Compute_ramp_witness :
  let res := (@Compute SortSlice_stable MapRange_id demo_input).1 in
  res_PeakSustainedTPS res = 200 /\ res_P99AtPeakNS res = 800 /\ length (res_Waves res) = 3%nat /\
  Forall (fun w => wr_Passed w = true -> wr_P99NS w <= 1000000) (res_Waves res).
Proof.
  destruct (@Compute_ramp SortSlice_stable MapRange_id demo_input demo_ramp eq_refl eq_refl) as [_ Hf].
  split; [vm_compute; reflexivity|]. split; [vm_compute; reflexivity|]. split; [vm_compute; reflexivity|].
  exact Hf.
Defined.

Lemma wave_overlaps_tile_witness :
  sumZ (map (fun k => waveOverlap 10 k (demo_task 7 25 100)) (seqZ 0 (waveCount [demo_task 7 25 100] 10))) = 25.
Proof.
  apply (wave_overlaps_tile [demo_task 7 25 100] (demo_task 7 25 100) 10).
  - split; [lia|vm_compute; congruence].
  - left.
  - repeat constructor; vm_compute; congruence.
  - vm_compute; congruence.
  - split; [vm_compute; reflexivity|vm_compute; congruence].
Defined.

Definition demo_result (id : string) (dq : bool) (peak : Z) : Result :=
  mkScore id "" "" "" peak 0 0 (f64 1) dq "" false NoReason (f64 0) (f64 0) (f64 0) (f64 0) (f64 0) [] false.

Definition demo_results : list Result :=
  [demo_result "a" true 900; demo_result "b" false 100; demo_result "c" false 300].

Lemma leaderboard_order_witness :
  map res_RunGroupID (SortResults demo_results) = ["c"; "b"; "a"]%string /\
  SortResults (rev demo_results) = SortResults demo_results.
Proof.
  destruct (leaderboard_order demo_results) as (_ & _ & _ & Hp).
  - repeat constructor; vm_compute; discriminate.
  - apply (bool_decide_unpack _). vm_compute. exact I.
  - split; [vm_compute; reflexivity|]. apply Hp. symmetry. apply Permutation_rev.
Defined.
