(* ===== verification/Lease.v ===== *)
(** * bot-fleet-controller: [internal/controller/lease.go]

    The allocator that hands out exclusive partitions (and order bands) to
    sessions.  A call of [Acquire] is several critical sections: it returns at
    once, or queues a waiter and later either receives its grant or is
    cancelled.  Each critical section is a function on the allocator's state
    and the calls of concurrent sessions interleave as the steps of [step].

    A waiter is known by its pointer ([w_ptr]); [a_grants] holds what the
    waiters' channels have buffered.  The gauge of [reportLocked] is left
    out. *)

From stdpp Require Import prelude gmap strings list sorting.
From S2P Require Import Prelude GoSort Replay.

Open Scope Z_scope.

Record leaseWaiter := mkWaiter { w_ptr : positive; w_sessionID : string; w_count : Z }.

#[export] Instance leaseWaiter_eq_dec : EqDecision leaseWaiter.
Proof. solve_decision. Defined.

Record PartitionLeaseAllocator := mkAlloc {
  a_total : Z;
  a_free : gset Z;
  a_leasedBy : gmap string (list Z);
  a_queue : list leaseWaiter;
  a_grants : gmap positive (string * list Z);
}.

Definition newLeaseAllocator (total : Z) : PartitionLeaseAllocator :=
  mkAlloc total (list_to_set (seqZ 0 total)) ∅ [] ∅.

Inductive LeaseError :=
  | CountNotPositive (count : Z)
  | ExceedsTotal (count total : Z)
  | AlreadyHolds (sessionID : string).

(** What the first critical section of [Acquire] comes to. *)
Inductive AcquireOutcome :=
  | Refused (e : LeaseError)
  | Granted (parts : list Z)
  | Waiting (w : leaseWaiter).

Section Allocator.
Context `{MapRange}.
Implicit Types a : PartitionLeaseAllocator.

(** [for p := range a.free] stops at [count]; [sort.Ints]. *)
Definition takeLocked a (sessionID : string) (count : Z) : list Z * PartitionLeaseAllocator :=
  let parts := sort_stable Z.ltb (take (Z.to_nat count) (map_range (elements (a_free a)))) in
  (parts, mkAlloc (a_total a) (a_free a ∖ list_to_set parts) (<[sessionID := parts]> (a_leasedBy a))
            (a_queue a) (a_grants a)).

(** The loop over the head of the queue. *)
Fixpoint serve (fuel : nat) a : PartitionLeaseAllocator :=
  match fuel, a_queue a with
  | S fuel, head :: rest =>
      if Z.of_nat (size (a_free a)) <? w_count head then a
      else
        let '(parts, a) := takeLocked a (w_sessionID head) (w_count head) in
        serve fuel (mkAlloc (a_total a) (a_free a) (a_leasedBy a) rest
                      (<[w_ptr head := (w_sessionID head, parts)]> (a_grants a)))
  | _, _ => a
  end.

(** One round per waiter is enough: each round removes the head. *)
Definition serveQueueLocked a : PartitionLeaseAllocator := serve (length (a_queue a)) a.

(** Up to the [select]; [ptr] is the address of a newly allocated waiter. *)
Definition Acquire a (ptr : positive) (sessionID : string) (count : Z)
    : AcquireOutcome * PartitionLeaseAllocator :=
  if count <=? 0 then (Refused (CountNotPositive count), a)
  else if a_total a <? count then (Refused (ExceedsTotal count (a_total a)), a)
  else if bool_decide (is_Some (a_leasedBy a !! sessionID)) then (Refused (AlreadyHolds sessionID), a)
  else if (length (a_queue a) =? 0)%nat && (count <=? Z.of_nat (size (a_free a))) then
    let '(parts, a) := takeLocked a sessionID count in (Granted parts, a)
  else
    let w := mkWaiter ptr sessionID count in
    (Waiting w, mkAlloc (a_total a) (a_free a) (a_leasedBy a) (a_queue a ++ [w]) (a_grants a)).

(** [case parts := <-w.grant] *)
Definition receive a (w : leaseWaiter) : option (list Z * PartitionLeaseAllocator) :=
  match a_grants a !! w_ptr w with
  | None => None
  | Some (_, parts) =>
      Some (parts, mkAlloc (a_total a) (a_free a) (a_leasedBy a) (a_queue a) (delete (w_ptr w) (a_grants a)))
  end.

(** Giving back what [sessionID] holds, and serving the queue. *)
Definition give_back a (sessionID : string) (parts : list Z) : PartitionLeaseAllocator :=
  serveQueueLocked (mkAlloc (a_total a) (a_free a ∪ list_to_set parts) (delete sessionID (a_leasedBy a))
                      (a_queue a) (a_grants a)).

Fixpoint remove_first (w : leaseWaiter) (q : list leaseWaiter) : list leaseWaiter :=
  match q with
  | [] => []
  | x :: q => if bool_decide (x = w) then q else x :: remove_first w q
  end.

(** [case <-ctx.Done()]: still queued, or granted concurrently; [None] is
    waiting on a channel nobody has filled. *)
Definition cancel a (w : leaseWaiter) : option PartitionLeaseAllocator :=
  if bool_decide (w ∈ a_queue a) then
    Some (serveQueueLocked (mkAlloc (a_total a) (a_free a) (a_leasedBy a) (remove_first w (a_queue a)) (a_grants a)))
  else
    match receive a w with
    | None => None
    | Some (parts, a) => Some (give_back a (w_sessionID w) parts)
    end.

Definition Release a (sessionID : string) : PartitionLeaseAllocator :=
  match a_leasedBy a !! sessionID with
  | None => a
  | Some parts => give_back a sessionID parts
  end.

Definition LeasedCount a : Z := a_total a - Z.of_nat (size (a_free a)).

End Allocator.

(** ** Concurrent sessions

    One step is one critical section of some session's call.  A session calls
    [Acquire] only when it is neither waiting nor leased (the runner admits a
    session once), waits at a fresh address, and is released or cancelled by
    itself; the iteration order of Go's map is arbitrary at every step. *)

Definition waiting (a : PartitionLeaseAllocator) (sessionID : string) : Prop :=
  exists w, w ∈ a_queue a /\ w_sessionID w = sessionID.

Inductive step : PartitionLeaseAllocator -> PartitionLeaseAllocator -> Prop :=
  | step_acquire mr (L : @MapRangeLaws mr) a ptr sessionID count out a' :
      ~ waiting a sessionID ->
      a_grants a !! ptr = None -> (forall w, w ∈ a_queue a -> w_ptr w <> ptr) ->
      @Acquire mr a ptr sessionID count = (out, a') -> step a a'
  | step_receive a w parts a' : receive a w = Some (parts, a') -> step a a'
  | step_cancel_waiting mr (L : @MapRangeLaws mr) a w a' :
      w ∈ a_queue a -> @cancel mr a w = Some a' -> step a a'
  | step_cancel_granted mr (L : @MapRangeLaws mr) a w parts a' :
      a_grants a !! w_ptr w = Some (w_sessionID w, parts) -> w ∉ a_queue a ->
      @cancel mr a w = Some a' -> step a a'
  | step_release mr (L : @MapRangeLaws mr) a sessionID :
      (forall ptr s parts, a_grants a !! ptr = Some (s, parts) -> s <> sessionID) ->
      step a (@Release mr a sessionID).

Definition reachable (total : Z) (a : PartitionLeaseAllocator) : Prop := rtc step (newLeaseAllocator total) a.
