(* ===== verification/LeaseProps.v ===== *)
(** * Theorems about the lease allocator

    The invariant of all reachable allocators, by induction on the steps of
    concurrent sessions: leases are exclusive and conserved, nobody waits
    while the head of the queue could be served, and waiters are served in
    order. *)

From stdpp Require Import prelude gmap strings list sorting.
From S2P Require Import Prelude GoSort Replay Lease.

Open Scope Z_scope.

(** ** Exclusive and conserved partitions *)

Definition core_ok (total : Z) (free : gset Z) (leased : gmap string (list Z)) : Prop :=
  (forall p, 0 <= p < total <-> p ∈ free \/ exists s l, leased !! s = Some l /\ p ∈ l) /\
  (forall s l, leased !! s = Some l -> NoDup l /\ l <> [] /\ forall p, p ∈ l -> p ∉ free) /\
  (forall s s' l l' p, leased !! s = Some l -> leased !! s' = Some l' -> p ∈ l -> p ∈ l' -> s = s').

Lemma core_new total : core_ok total (list_to_set (seqZ 0 total)) ∅.
Proof.
  split_and!.
  - intros p. rewrite elem_of_list_to_set, elem_of_seqZ. split; [intros; left; lia|].
    intros [?|(s & l & E & _)]; [lia|by rewrite lookup_empty in E].
  - intros s l E. by rewrite lookup_empty in E.
  - intros s s' l l' p E. by rewrite lookup_empty in E.
Qed.

Lemma core_take total free leased s parts :
  core_ok total free leased -> leased !! s = None -> NoDup parts -> parts <> [] ->
  (forall p, p ∈ parts -> p ∈ free) ->
  core_ok total (free ∖ list_to_set parts) (<[s := parts]> leased).
Proof.
  intros (H1 & H2 & H3) Hs Hnd Hne Hsub. split_and!.
  - intros p. rewrite H1, elem_of_difference, elem_of_list_to_set. split.
    + intros [Hp|(s' & l & E & Hp)].
      * destruct (decide (p ∈ parts)); [|by left]. right. exists s, parts. by rewrite lookup_insert_eq.
      * right. exists s', l. rewrite lookup_insert_ne by congruence. done.
    + intros [[Hp _]|(s' & l & E & Hp)]; [by left|].
      apply lookup_insert_Some in E as [[<- <-]|[_ E]]; [left; auto|right; by exists s', l].
  - intros s' l E. apply lookup_insert_Some in E as [[<- <-]|[_ E]].
    + split_and!; [done|done|set_solver].
    + destruct (H2 s' l E) as (? & ? & Hf). split_and!; [done|done|]. intros p Hp. specialize (Hf p Hp). set_solver.
  - intros s1 s2 l1 l2 p E1 E2 Hp1 Hp2.
    apply lookup_insert_Some in E1 as [[<- <-]|[_ E1]], E2 as [[<- <-]|[_ E2]]; [done| | |by eapply H3].
    + destruct (H2 _ _ E2) as (_ & _ & Hf). destruct (Hf p Hp2). auto.
    + destruct (H2 _ _ E1) as (_ & _ & Hf). destruct (Hf p Hp1). auto.
Qed.

Lemma core_give total free leased s parts :
  core_ok total free leased -> leased !! s = Some parts ->
  core_ok total (free ∪ list_to_set parts) (delete s leased).
Proof.
  intros (H1 & H2 & H3) Hs. split_and!.
  - intros p. rewrite H1, elem_of_union, elem_of_list_to_set. split.
    + intros [Hp|(s' & l & E & Hp)]; [by left; left|].
      destruct (decide (s' = s)) as [->|]; [left; right; naive_solver|].
      right. exists s', l. by rewrite lookup_delete_ne.
    + intros [[Hp|Hp]|(s' & l & E & Hp)]; [by left|right; by exists s, parts|].
      apply lookup_delete_Some in E as [_ E]. right. by exists s', l.
  - intros s' l [Hne E]%lookup_delete_Some. destruct (H2 s' l E) as (? & ? & Hf).
    split_and!; [done|done|]. intros p Hp. rewrite elem_of_union, elem_of_list_to_set.
    intros [Hp'|Hp']; [by eapply Hf|]. apply Hne. by eapply H3.
  - intros s1 s2 l1 l2 p [_ E1]%lookup_delete_Some [_ E2]%lookup_delete_Some. by eapply H3.
Qed.

(** All partitions leased, as one list. *)
Definition leased_parts (leased : gmap string (list Z)) : list Z := concat (map_to_list leased).*2.

Lemma NoDup_concat_keys {K A} (kl : list (K * list A)) :
  NoDup kl.*1 -> (forall k l, (k, l) ∈ kl -> NoDup l) ->
  (forall k k' l l' x, (k, l) ∈ kl -> (k', l') ∈ kl -> x ∈ l -> x ∈ l' -> k = k') ->
  NoDup (concat kl.*2).
Proof.
  induction kl as [|[k l] kl IH]; intros Hk Hl Hd; simpl; [constructor|].
  apply NoDup_cons in Hk as [Hk1 Hk2]. apply NoDup_app. split_and!.
  - apply (Hl k). left.
  - intros x Hx Hx'. apply list_elem_of_In, in_concat in Hx' as (l' & Hl' & Hx').
    apply list_elem_of_In in Hl', Hx'. apply list_elem_of_fmap in Hl' as ([k' l''] & -> & Hin). simpl in *.
    assert (Hkk : k = k').
    { apply (Hd k k' l l'' x); [by apply list_elem_of_here|by apply list_elem_of_further|done|done]. }
    apply Hk1. rewrite Hkk. apply list_elem_of_fmap. by exists (k', l'').
  - apply IH; [done|intros; eapply Hl; by right|]. intros k1 k2 l1 l2 x ??. eapply Hd; by right.
Qed.

Lemma core_count total free leased :
  0 <= total -> core_ok total free leased ->
  Z.of_nat (size free) + Z.of_nat (length (leased_parts leased)) = total.
Proof.
  intros Ht (H1 & H2 & H3). set (all := elements free ++ leased_parts leased).
  assert (Hin : forall p, p ∈ leased_parts leased <-> exists s l, leased !! s = Some l /\ p ∈ l).
  { intros p. unfold leased_parts. rewrite list_elem_of_In, in_concat. split.
    - intros (l & Hl & Hp). apply list_elem_of_In in Hl, Hp.
      apply list_elem_of_fmap in Hl as ([s l'] & -> & Hl). apply elem_of_map_to_list in Hl. by exists s, l'.
    - intros (s & l & E & Hp). exists l. rewrite <-!list_elem_of_In. split; [|done].
      apply list_elem_of_fmap. exists (s, l). split; [done|]. by apply elem_of_map_to_list. }
  assert (Hnd : NoDup all).
  { apply NoDup_app. split_and!; [apply NoDup_elements| |].
    - intros p Hp%elem_of_elements Hp'. apply Hin in Hp' as (s & l & E & Hpl).
      exact (proj2 (proj2 (H2 s l E)) p Hpl Hp).
    - apply NoDup_concat_keys; [apply NoDup_fst_map_to_list| |].
      + intros s l Hl%elem_of_map_to_list. by apply (H2 s l).
      + intros s s' l l' x Hs%elem_of_map_to_list Hs'%elem_of_map_to_list. by apply H3. }
  assert (Hall : all ≡ₚ seqZ 0 total).
  { apply NoDup_Permutation; [done|apply NoDup_seqZ|]. intros p. unfold all.
    rewrite elem_of_app, elem_of_elements, Hin, elem_of_seqZ, <-H1. lia. }
  apply Permutation_length in Hall. unfold all in Hall. rewrite length_app, length_seqZ in Hall.
  change (length (elements free)) with (size free) in Hall. lia.
Qed.

(** ** The invariant *)

Record lease_pre (a : PartitionLeaseAllocator) : Prop := {
  lp_core : core_ok (a_total a) (a_free a) (a_leasedBy a);
  lp_sessions : NoDup (map w_sessionID (a_queue a));
  lp_ptrs : NoDup (map w_ptr (a_queue a));
  lp_queue : forall w, w ∈ a_queue a -> a_leasedBy a !! w_sessionID w = None /\ 1 <= w_count w <= a_total a;
  lp_grants : forall ptr s l, a_grants a !! ptr = Some (s, l) -> a_leasedBy a !! s = Some l;
  lp_fresh : forall w, w ∈ a_queue a -> a_grants a !! w_ptr w = None;
  lp_once : forall ptr ptr' s l l', a_grants a !! ptr = Some (s, l) -> a_grants a !! ptr' = Some (s, l') -> ptr = ptr' }.

(** The head of the queue, if any, does not fit. *)
Definition head_blocked (a : PartitionLeaseAllocator) : Prop :=
  match a_queue a with [] => True | h :: _ => Z.of_nat (size (a_free a)) < w_count h end.

Definition lease_ok (a : PartitionLeaseAllocator) : Prop := lease_pre a /\ head_blocked a.

Section Serve.
Context `{MapRangeLaws}.

Lemma takeLocked_spec a s count :
  lease_pre a -> 1 <= count <= Z.of_nat (size (a_free a)) ->
  let parts := (takeLocked a s count).1 in
  NoDup parts /\ parts <> [] /\ Z.of_nat (length parts) = count /\ (forall p, p ∈ parts -> p ∈ a_free a).
Proof.
  intros HI Hc. simpl. set (l := take _ _).
  assert (Hl : length l = Z.to_nat count).
  { unfold l. rewrite length_take, map_range_perm. change (length (elements (a_free a))) with (size (a_free a)). lia. }
  assert (Hlen : length (sort_stable Z.ltb l) = Z.to_nat count) by (by rewrite sort_stable_perm).
  split_and!.
  - rewrite sort_stable_perm. unfold l. eapply sublist_NoDup; [|apply sublist_take].
    rewrite map_range_perm. apply NoDup_elements.
  - intros E. rewrite E in Hlen. simpl in Hlen. lia.
  - rewrite Hlen. lia.
  - intros p. rewrite sort_stable_perm. unfold l. intros Hp. apply elem_of_take in Hp as (i & Hp & _).
    apply list_elem_of_lookup_2 in Hp. rewrite map_range_perm in Hp. by apply elem_of_elements.
Qed.

(** Granting the head. *)
Lemma grant_head a w q :
  lease_pre a -> a_queue a = w :: q -> w_count w <= Z.of_nat (size (a_free a)) ->
  let '(parts, a1) := takeLocked a (w_sessionID w) (w_count w) in
  lease_pre (mkAlloc (a_total a1) (a_free a1) (a_leasedBy a1) q
               (<[w_ptr w := (w_sessionID w, parts)]> (a_grants a1))).
Proof.
  intros HI Eq Hc. destruct (lp_queue _ HI w) as [Hw Hcnt]; [rewrite Eq; left|].
  pose proof (takeLocked_spec a (w_sessionID w) (w_count w) HI ltac:(lia)) as (Hnd & Hne & _ & Hsub).
  unfold takeLocked in *. cbn [fst] in *. set (parts := sort_stable _ _) in *. cbn -[parts].
  pose proof (lp_sessions _ HI) as Hs. pose proof (lp_ptrs _ HI) as Hp. rewrite Eq in Hs, Hp. simpl in Hs, Hp.
  apply NoDup_cons in Hs as [Hs1 Hs2], Hp as [Hp1 Hp2].
  assert (Hother : forall w', w' ∈ q -> w_sessionID w' <> w_sessionID w /\ w_ptr w' <> w_ptr w).
  { intros w' Hw'. split; intros E; [apply Hs1|apply Hp1]; rewrite <-E; apply list_elem_of_fmap; by exists w'. }
  assert (Hnog : forall ptr l, a_grants a !! ptr = Some (w_sessionID w, l) -> False).
  { intros ptr l E. apply (lp_grants _ HI) in E. congruence. }
  split; cbn -[parts]; try done.
  - apply core_take; auto. apply HI.
  - intros w' Hw'. destruct (Hother w' Hw'). rewrite lookup_insert_ne by congruence.
    apply (lp_queue _ HI). rewrite Eq. by right.
  - intros ptr s l E. apply lookup_insert_Some in E as [[<- Ep]|[_ E]]; [injection Ep as <- <-; by rewrite lookup_insert_eq|].
    pose proof (lp_grants _ HI _ _ _ E) as El. rewrite lookup_insert_ne; [done|]. intros <-. by eapply Hnog.
  - intros w' Hw'. destruct (Hother w' Hw'). rewrite lookup_insert_ne by congruence.
    apply (lp_fresh _ HI). rewrite Eq. by right.
  - intros ptr ptr' s l l' E E'.
    apply lookup_insert_Some in E as [[<- Ep]|[_ E]], E' as [[<- Ep']|[_ E']]; [done| | |].
    + injection Ep as <- <-. by destruct (Hnog _ _ E').
    + injection Ep' as <- <-. by destruct (Hnog _ _ E).
    + by eapply (lp_once _ HI).
Qed.

(** Serving the queue restores the whole invariant, and serves a prefix. *)
Lemma serve_ok fuel a :
  lease_pre a -> (length (a_queue a) <= fuel)%nat ->
  lease_ok (serve fuel a) /\ a_total (serve fuel a) = a_total a /\
  exists served, a_queue a = served ++ a_queue (serve fuel a) /\
    (forall w, w ∈ served -> exists l, a_leasedBy (serve fuel a) !! w_sessionID w = Some l /\
                                       Z.of_nat (length l) = w_count w) /\
    (forall s l, a_leasedBy a !! s = Some l -> a_leasedBy (serve fuel a) !! s = Some l) /\
    (forall s, is_Some (a_leasedBy (serve fuel a) !! s) ->
       is_Some (a_leasedBy a !! s) \/ exists w, w ∈ served /\ w_sessionID w = s) /\
    (forall ptr s l, a_grants (serve fuel a) !! ptr = Some (s, l) ->
       a_grants a !! ptr = Some (s, l) \/ exists w, w ∈ served /\ w_sessionID w = s).
Proof.
  revert a. induction fuel as [|fuel IH]; intros a HI Hf.
  - destruct (a_queue a) eqn:Eq; [|simpl in Hf; lia]. simpl. unfold lease_ok, head_blocked. rewrite Eq.
    split_and!; try done. exists []. split_and!; try done; [set_solver|naive_solver|naive_solver].
  - simpl. destruct (a_queue a) as [|w q] eqn:Eq.
    + unfold lease_ok, head_blocked. rewrite Eq. split_and!; try done. exists [].
      split_and!; try done; [set_solver|naive_solver|naive_solver].
    + destruct (Z.ltb_spec (Z.of_nat (size (a_free a))) (w_count w)) as [Hlt|Hge].
      * unfold lease_ok, head_blocked. rewrite Eq. split_and!; try done. exists [].
        split_and!; try done; [set_solver|naive_solver|naive_solver].
      * pose proof (grant_head a w q HI Eq Hge) as HI2.
        destruct (lp_queue _ HI w) as [Hw Hcnt]; [rewrite Eq; left|].
        pose proof (takeLocked_spec a (w_sessionID w) (w_count w) HI ltac:(lia)) as (_ & _ & Hlen & _).
        unfold takeLocked in *. cbn [fst] in *. set (parts := sort_stable _ _) in *.
        cbn [a_total a_free a_leasedBy a_queue a_grants] in *.
        destruct (IH _ HI2) as (Hok & Htot & served & Hq & Hserved & Hkeep & Hnew & Hgr); [simpl in *; lia|].
        cbn [a_total a_free a_leasedBy a_queue a_grants] in *.
        split_and!; [done|done|]. exists (w :: served). split_and!.
        -- by rewrite Hq at 1.
        -- intros w' [->|Hw']%elem_of_cons; [|by apply Hserved]. exists parts. split; [|done].
           apply Hkeep. by rewrite lookup_insert_eq.
        -- intros s l E. apply Hkeep. rewrite lookup_insert_ne; [done|]. intros <-. congruence.
        -- intros s Hs. destruct (Hnew s Hs) as [Hs'|(w' & Hw' & <-)]; [|right; exists w'; set_solver].
           destruct (decide (s = w_sessionID w)) as [->|]; [right; exists w; set_solver|].
           rewrite lookup_insert_ne in Hs' by done. by left.
        -- intros ptr s l E. destruct (Hgr ptr s l E) as [E'|(w' & Hw' & <-)]; [|right; exists w'; set_solver].
           apply lookup_insert_Some in E' as [[_ Ep]|[_ E']]; [|by left].
           injection Ep as <- _. right. exists w. set_solver.
Qed.

End Serve.

(** ** Every critical section keeps it *)

Lemma give_pre a s parts :
  lease_pre a -> a_leasedBy a !! s = Some parts ->
  (forall ptr s' l, a_grants a !! ptr = Some (s', l) -> s' <> s) ->
  lease_pre (mkAlloc (a_total a) (a_free a ∪ list_to_set parts) (delete s (a_leasedBy a)) (a_queue a) (a_grants a)).
Proof.
  intros HI Hs Hg. split; cbn; try apply HI.
  - apply core_give; [apply HI|done].
  - intros w Hw. destruct (lp_queue _ HI w Hw) as [E Hc]. split; [|done].
    by rewrite lookup_delete_ne by congruence.
  - intros ptr s' l E. pose proof (Hg _ _ _ E). rewrite lookup_delete_ne by done. by eapply (lp_grants _ HI).
Qed.

Lemma receive_pre a w parts a' :
  lease_pre a -> receive a w = Some (parts, a') ->
  lease_pre a' /\ a_queue a' = a_queue a /\ a_total a' = a_total a /\ a_free a' = a_free a /\
  a_leasedBy a' = a_leasedBy a /\ a_grants a' = delete (w_ptr w) (a_grants a).
Proof.
  intros HI. unfold receive. destruct (a_grants a !! w_ptr w) as [[s l]|] eqn:E; [|done].
  intros [= <- <-]. split_and!; try done. split; cbn; try apply HI.
  - intros ptr s' l' [_ E']%lookup_delete_Some. by eapply (lp_grants _ HI).
  - intros w' Hw'. apply lookup_delete_None. right. by apply (lp_fresh _ HI).
  - intros ptr ptr' s' l1 l2 [_ E1]%lookup_delete_Some [_ E2]%lookup_delete_Some. by eapply (lp_once _ HI).
Qed.

Lemma remove_first_sublist w q : remove_first w q `sublist_of` q.
Proof.
  induction q as [|x q IH]; simpl; [done|]. case_bool_decide; [by apply sublist_cons|by apply sublist_skip].
Qed.

Lemma dequeue_pre a w :
  lease_pre a ->
  lease_pre (mkAlloc (a_total a) (a_free a) (a_leasedBy a) (remove_first w (a_queue a)) (a_grants a)).
Proof.
  intros HI. pose proof (remove_first_sublist w (a_queue a)) as Hsub.
  assert (Hin : forall w', w' ∈ remove_first w (a_queue a) -> w' ∈ a_queue a)
    by (intros w' Hw'; by eapply elem_of_sublist).
  split; cbn; try apply HI.
  - eapply sublist_NoDup; [apply HI|]. by apply fmap_sublist.
  - eapply sublist_NoDup; [apply HI|]. by apply fmap_sublist.
  - intros w' Hw'. apply (lp_queue _ HI). auto.
  - intros w' Hw'. apply (lp_fresh _ HI). auto.
Qed.

Lemma acquire_ok `{MapRangeLaws} a ptr s count out a' :
  lease_ok a -> ~ waiting a s -> a_grants a !! ptr = None -> (forall w, w ∈ a_queue a -> w_ptr w <> ptr) ->
  Acquire a ptr s count = (out, a') -> lease_ok a' /\ a_total a' = a_total a.
Proof.
  intros [HI Hb] Hnw Hg Hptr. unfold Acquire.
  destruct (Z.leb_spec count 0); [by intros [= <- <-]|].
  destruct (Z.ltb_spec (a_total a) count); [by intros [= <- <-]|].
  case_bool_decide as Hs; [by intros [= <- <-]|]. rewrite <-eq_None_not_Some in Hs.
  destruct (_ && _) eqn:Ef.
  - apply andb_true_iff in Ef as [Eq Ec]. apply Nat.eqb_eq, length_zero_iff_nil in Eq. apply Z.leb_le in Ec.
    pose proof (takeLocked_spec a s count HI ltac:(lia)) as (Hnd & Hne & _ & Hsub).
    unfold takeLocked in *. cbn [fst] in *. set (parts := sort_stable _ _) in *.
    intros [= <- <-]. split; [|done]. unfold lease_ok, head_blocked. cbn -[parts]. rewrite Eq. split; [|done].
    split; cbn -[parts]; rewrite ?Eq; try apply HI; try (intros w Hw; by apply elem_of_nil in Hw).
    + apply core_take; auto. apply HI.
    + constructor.
    + constructor.
    + intros p s' l E. pose proof (lp_grants _ HI _ _ _ E). rewrite lookup_insert_ne; [done|]. congruence.
  - intros [= <- <-]. split; [|done]. split.
    + split; cbn; try apply HI.
      * rewrite map_app. apply NoDup_app. split_and!; [apply HI| |apply NoDup_singleton].
        intros x Hx Hx'%list_elem_of_singleton. subst. apply list_elem_of_fmap in Hx as (w & E & Hw).
        apply Hnw. by exists w.
      * rewrite map_app. apply NoDup_app. split_and!; [apply HI| |apply NoDup_singleton].
        intros x Hx Hx'%list_elem_of_singleton. subst. apply list_elem_of_fmap in Hx as (w & E & Hw).
        by apply (Hptr w).
      * intros w [Hw| ->%list_elem_of_singleton]%elem_of_app; [by apply (lp_queue _ HI)|]. cbn. split; [done|lia].
      * intros w [Hw| ->%list_elem_of_singleton]%elem_of_app; [by apply (lp_fresh _ HI)|done].
    + unfold head_blocked in *. cbn. destruct (a_queue a) as [|h q]; simpl in *; [|done].
      apply Z.leb_gt in Ef. lia.
Qed.

(** Every step leaves the waiters without a lease, or ends in serving the
    queue of an intermediate state whose waiters were waiting before. *)
Definition served_from (a a' : PartitionLeaseAllocator) : Prop :=
  exists mr (L : @MapRangeLaws mr) a0, a' = @serveQueueLocked mr a0 /\ lease_pre a0 /\
    a_queue a0 `sublist_of` a_queue a /\ a_leasedBy a0 ⊆ a_leasedBy a /\ a_total a0 = a_total a.

Lemma give_back_served `{L : MapRangeLaws} a a1 s parts :
  lease_pre a1 -> a_queue a1 = a_queue a -> a_leasedBy a1 = a_leasedBy a -> a_total a1 = a_total a ->
  a_leasedBy a1 !! s = Some parts -> (forall ptr s' l, a_grants a1 !! ptr = Some (s', l) -> s' <> s) ->
  served_from a (give_back a1 s parts).
Proof.
  intros HI Eq El Et Hs Hg. eexists _, L, _. split_and!; [done|by apply give_pre|cbn; by rewrite Eq| |done].
  cbn. rewrite El. apply delete_subseteq.
Qed.

Lemma step_shape a a' :
  step a a' -> lease_ok a ->
  (lease_ok a' /\ a_total a' = a_total a /\ forall w, w ∈ a_queue a -> a_leasedBy a' !! w_sessionID w = None)
  \/ served_from a a'.
Proof.
  intros Hs [HI Hb]. destruct Hs as [mr L a ptr s count out a' Hnw Hg Hptr E|a w parts a' E|
      mr L a w a' Hw E|mr L a w parts a' Hg Hw E|mr L a s Hg].
  - left. destruct (acquire_ok a ptr s count out a' (conj HI Hb) Hnw Hg Hptr E) as [Hok Ht].
    split_and!; [done|done|]. intros w Hw. destruct (lp_queue _ HI w Hw) as [Hnone _].
    assert (w_sessionID w <> s) by (intros <-; apply Hnw; by exists w).
    unfold Acquire, takeLocked in E. repeat (case_match; simplify_eq; try done). cbn. by rewrite lookup_insert_ne.
  - left. destruct (receive_pre _ _ _ _ HI E) as (HI' & Eq & Et & Ef & El & _). split_and!; [|done|].
    + split; [done|]. unfold head_blocked. by rewrite Eq, Ef.
    + intros w' Hw'. rewrite El. by apply (lp_queue _ HI).
  - right. unfold cancel in E. rewrite bool_decide_true in E by done. injection E as <-.
    eexists _, L, _. split_and!; [done|by apply dequeue_pre|apply remove_first_sublist|done|done].
  - right. unfold cancel in E. rewrite bool_decide_false in E by done.
    destruct (receive a w) as [[parts' a1]|] eqn:Er; [|done]. injection E as <-.
    destruct (receive_pre _ _ _ _ HI Er) as (HI1 & Eq & Et & Ef & El & Eg).
    assert (Hp : parts' = parts) by (unfold receive in Er; rewrite Hg in Er; by injection Er). subst parts'.
    apply give_back_served; try done; [rewrite El; by eapply (lp_grants _ HI)|].
    intros p s' l Hp ->. rewrite Eg in Hp. apply lookup_delete_Some in Hp as [Hne Hp].
    apply Hne. symmetry. by eapply (lp_once _ HI).
  - unfold Release. destruct (a_leasedBy a !! s) as [parts|] eqn:E.
    + right. by apply give_back_served.
    + left. split_and!; [done|done|]. intros w Hw. by apply (lp_queue _ HI).
Qed.

Lemma step_ok a a' : step a a' -> lease_ok a -> lease_ok a' /\ a_total a' = a_total a.
Proof.
  intros Hs Hok. destruct (step_shape a a' Hs Hok) as [(? & ? & _)|(mr & L & a0 & -> & HI & _ & _ & Et)]; [done|].
  destruct (serve_ok (length (a_queue a0)) a0 HI ltac:(done)) as (Hok' & Ht & _).
  split; [done|]. unfold serveQueueLocked. congruence.
Qed.

Lemma new_alloc_ok total : lease_ok (newLeaseAllocator total).
Proof.
  split; [|done]. split; cbn.
  - apply core_new.
  - constructor.
  - constructor.
  - intros w Hw. by apply elem_of_nil in Hw.
  - intros ptr s l E. by rewrite lookup_empty in E.
  - intros w Hw. by apply elem_of_nil in Hw.
  - intros ptr ptr' s l l' E. by rewrite lookup_empty in E.
Qed.

Lemma reachable_ok total a : reachable total a -> lease_ok a /\ a_total a = total.
Proof.
  unfold reachable. intros Hr.
  assert (Hgen : forall x y, rtc step x y -> lease_ok x -> lease_ok y /\ a_total y = a_total x).
  { induction 1 as [x|x y z Hxy Hyz IH]; intros Hx; [done|].
    destruct (step_ok _ _ Hxy Hx) as [Hy Hty]. destruct (IH Hy) as [Hz Htz]. split; [done|congruence]. }
  destruct (Hgen _ _ Hr (new_alloc_ok total)) as [Hok Ht]. done.
Qed.

(** ** Order of service *)

Lemma sublist_pair_app {A} (l1 l2 : list A) x y : x ∈ l1 -> y ∈ l2 -> [x; y] `sublist_of` l1 ++ l2.
Proof.
  intros Hx Hy. change [x; y] with ([x] ++ [y]). apply sublist_app; by apply singleton_sublist_l.
Qed.

Lemma sublist_pair_antisym {A} (l : list A) x y :
  NoDup l -> [x; y] `sublist_of` l -> [y; x] `sublist_of` l -> False.
Proof.
  induction l as [|z l IH]; intros Hnd H1 H2; [by apply sublist_nil_r in H1|].
  apply NoDup_cons in Hnd as [Hz Hnd].
  apply sublist_cons_r in H1 as [H1|(l1 & E1 & H1)], H2 as [H2|(l2 & E2 & H2)]; [auto| | |].
  - injection E2 as -> <-. apply Hz. eapply elem_of_sublist; [|exact H1]. by right; left.
  - injection E1 as -> <-. apply Hz. eapply elem_of_sublist; [|exact H2]. by right; left.
  - injection E1 as -> <-. injection E2 as -> <-. apply Hz. eapply elem_of_sublist; [|exact H2]. by left.
Qed.

Lemma queue_nodup a : lease_pre a -> NoDup (a_queue a).
Proof. intros HI. eapply NoDup_fmap_1, (lp_ptrs _ HI). Qed.

Lemma same_session a w w' :
  lease_pre a -> w ∈ a_queue a -> w' ∈ a_queue a -> w_sessionID w = w_sessionID w' -> w = w'.
Proof.
  intros HI [i Hi]%list_elem_of_lookup [k Hk]%list_elem_of_lookup E.
  assert (i = k); [|congruence]. eapply NoDup_lookup; [apply (lp_sessions _ HI)| |];
    rewrite list_lookup_fmap; [by rewrite Hi|by rewrite Hk; simpl; rewrite E].
Qed.

(** Serving never passes over a waiter: whoever stood ahead of one that is
    served no longer waits. *)
Lemma served_fifo a a' w w' :
  lease_pre a -> served_from a a' -> [w'; w] `sublist_of` a_queue a ->
  is_Some (a_leasedBy a' !! w_sessionID w) -> w' ∉ a_queue a'.
Proof.
  intros HI (mr & L & a0 & -> & HI0 & Hsub & Hle & _) Hbefore Hl Hw'. unfold serveQueueLocked in *.
  destruct (serve_ok (length (a_queue a0)) a0 HI0 ltac:(done)) as (_ & _ & served & Hq & _ & _ & Hnew & _).
  assert (Hw : w ∈ a_queue a) by (eapply elem_of_sublist, Hbefore; by right; left).
  destruct (Hnew _ Hl) as [[l Hold]|(w2 & Hw2 & E2)].
  { destruct (lp_queue _ HI w Hw) as [E _]. pose proof (lookup_weaken _ _ _ _ Hold Hle). congruence. }
  assert (w2 = w) as ->.
  { eapply same_session; [exact HI| |exact Hw|exact E2]. eapply elem_of_sublist, Hsub. rewrite Hq. set_solver. }
  apply (sublist_pair_antisym (a_queue a) w' w (queue_nodup a HI) Hbefore).
  etrans; [|exact Hsub]. rewrite Hq. by apply sublist_pair_app.
Qed.

(** ** Theorems *)

(** C17: however sessions' calls interleave, leases are exclusive and nothing
    leaks: no partition is ever held by two sessions, every partition is free
    or held, and the reported count is the number of partitions held. *)
Theorem lease_exclusive total a :
  0 <= total -> reachable total a ->
  (forall s s' l l' p, a_leasedBy a !! s = Some l -> a_leasedBy a !! s' = Some l' -> p ∈ l -> p ∈ l' -> s = s') /\
  (forall s l, a_leasedBy a !! s = Some l -> NoDup l /\ forall p, p ∈ l -> 0 <= p < total /\ p ∉ a_free a) /\
  LeasedCount a = Z.of_nat (length (leased_parts (a_leasedBy a))).
Proof.
  intros Ht Hr. destruct (reachable_ok _ _ Hr) as [[HI _] Et]. pose proof (lp_core _ HI) as Hc.
  rewrite Et in Hc. pose proof Hc as (H1 & H2 & H3). split_and!; [exact H3| |].
  - intros s l E. destruct (H2 s l E) as (Hnd & _ & Hf). split; [done|]. intros p Hp.
    split; [|auto]. apply H1. right. by exists s, l.
  - unfold LeasedCount. rewrite Et. pose proof (core_count _ _ _ Ht Hc). lia.
Qed.

(** Admission is first come, first served: in any step, a waiter that
    obtains its lease leaves nobody waiting who stood ahead of it, and a
    newcomer is served at once only when nobody waits. *)
Theorem lease_fifo total a a' :
  reachable total a -> step a a' ->
  (forall l w r w', a_queue a = l ++ w :: r -> is_Some (a_leasedBy a' !! w_sessionID w) ->
     w' ∈ l -> w' ∉ a_queue a') /\
  (forall mr ptr s count parts, a_queue a <> [] -> (@Acquire mr a ptr s count).1 <> Granted parts).
Proof.
  intros Hr Hs. destruct (reachable_ok _ _ Hr) as [Hok _]. pose proof Hok as [HI _]. split.
  - intros l w r w' Eq Hl Hw'.
    assert (Hbefore : [w'; w] `sublist_of` a_queue a) by (rewrite Eq; apply sublist_pair_app; [done|by left]).
    destruct (step_shape a a' Hs Hok) as [(_ & _ & Hnone)|Hserved]; [|by eapply served_fifo].
    rewrite (Hnone w) in Hl by (rewrite Eq; set_solver). by destruct Hl.
  - intros mr ptr s count parts Hne. unfold Acquire. destruct (a_queue a) as [|h q] eqn:Eq; [done|].
    repeat (case_match; try done).
Qed.

(** ** Progress *)

(** Releasing one session: what happens to the waiter at the head. *)
Lemma release_head `{MapRangeLaws} b s h q :
  lease_ok b -> (forall ptr s' l, a_grants b !! ptr = Some (s', l) -> s' <> s) -> w_sessionID h <> s ->
  (is_Some (a_leasedBy b !! w_sessionID h) \/ a_queue b = h :: q) ->
  let b' := Release b s in
  lease_ok b' /\ a_total b' = a_total b /\
  (forall ptr s' l, a_grants b' !! ptr = Some (s', l) -> a_grants b !! ptr = Some (s', l) \/ waiting b s') /\
  (is_Some (a_leasedBy b' !! w_sessionID h) \/
   a_queue b = h :: q /\ a_queue b' = a_queue b /\
   forall s', is_Some (a_leasedBy b' !! s') -> is_Some (a_leasedBy b !! s') /\ s' <> s).
Proof.
  intros [HI Hb] Hg Hne Hh. cbv zeta. unfold Release. destruct (a_leasedBy b !! s) as [parts|] eqn:E; last first.
  { split_and!; try done; [naive_solver|]. destruct Hh as [?|Hq]; [by left|]. right. split_and!; [done|done|].
    intros s' Hs'. split; [done|]. intros ->. rewrite E in Hs'. by destruct Hs'. }
  pose proof (give_pre b s parts HI E Hg) as HI2. unfold give_back, serveQueueLocked.
  destruct (serve_ok (length (a_queue b)) _ HI2 ltac:(done)) as (Hok & Ht & served & Hq & Hserved & Hkeep & Hnew & Hgr).
  cbn in Ht, Hq, Hkeep, Hnew, Hgr. cbn [a_queue].
  split_and!; [done|done| |].
  - intros ptr s' l Hp. destruct (Hgr _ _ _ Hp) as [?|(w & Hw & <-)]; [by left|].
    right. exists w. split; [|done]. rewrite Hq. set_solver.
  - destruct Hh as [[l Hl]|Hh].
    + left. exists l. apply Hkeep. by rewrite lookup_delete_ne.
    + rewrite Hh in Hq. destruct served as [|w served].
      * right. split_and!; [done|by rewrite Hh|]. intros s' Hs'. destruct (Hnew s' Hs') as [Hs2|(w & Hw & _)]; [|by apply elem_of_nil in Hw].
        destruct Hs2 as [l [Hn Hl]%lookup_delete_Some]. split; [by exists l|done].
      * left. injection Hq as <- _. destruct (Hserved h) as (l & Hl & _); [left|by exists l].
Qed.

Lemma all_free_no_head a h q :
  lease_ok a -> a_queue a = h :: q -> (forall s, a_leasedBy a !! s = None) -> False.
Proof.
  intros [HI Hb] Eq Hnone. destruct (lp_queue _ HI h) as [_ Hc]; [rewrite Eq; left|].
  pose proof (core_count (a_total a) _ _ ltac:(lia) (lp_core _ HI)) as Hcount.
  assert (a_leasedBy a = ∅) as Hemp by (by apply map_empty). rewrite Hemp in Hcount.
  unfold leased_parts in Hcount. rewrite map_to_list_empty in Hcount. simpl in Hcount.
  unfold head_blocked in Hb. rewrite Eq in Hb. lia.
Qed.

Lemma release_all `{MapRangeLaws} h q ss rest b :
  lease_ok b -> rest ⊆ ss -> w_sessionID h ∉ ss ->
  (forall ptr s l, a_grants b !! ptr = Some (s, l) -> s ∉ ss) -> (forall s, waiting b s -> s ∉ ss) ->
  (is_Some (a_leasedBy b !! w_sessionID h) \/
   a_queue b = h :: q /\ forall s, is_Some (a_leasedBy b !! s) -> s ∈ rest) ->
  is_Some (a_leasedBy (foldl Release b rest) !! w_sessionID h).
Proof.
  revert b. induction rest as [|s rest IH]; intros b Hok Hsub Hh Hg Hw Hcase; simpl.
  - destruct Hcase as [?|[Hq Hn]]; [done|]. exfalso. eapply all_free_no_head; [exact Hok|exact Hq|].
    intros s. apply eq_None_not_Some. intros Hs%Hn. by apply elem_of_nil in Hs.
  - assert (Hs : s ∈ ss) by set_solver.
    destruct (release_head b s h q Hok) as (Hok' & _ & Hg' & Hcase').
    + intros ptr s' l Hp ->. by apply (Hg _ _ _ Hp).
    + intros <-. done.
    + naive_solver.
    + apply IH; [done|set_solver|done| | |].
      * intros ptr s' l Hp. destruct (Hg' _ _ _ Hp); eauto.
      * intros s' (w & Hw1 & <-). apply Hw. exists w. split; [|done].
        unfold Release in Hw1. destruct (a_leasedBy b !! s) as [parts|] eqn:E; [|done].
        pose proof (give_pre b s parts (proj1 Hok) E) as HI2. unfold give_back, serveQueueLocked in Hw1.
        destruct (serve_ok (length (a_queue b)) _ (HI2 ltac:(intros ptr s' l Hp ->; by apply (Hg _ _ _ Hp))) ltac:(done))
          as (_ & _ & served & Hq & _). cbn in Hq, Hw1. rewrite Hq. set_solver.
      * destruct Hcase' as [?|(Hq & Hq' & Hl)]; [by left|]. destruct Hcase as [Hs'|[_ Hn]].
        -- destruct (lp_queue _ (proj1 Hok) h) as [E _]; [rewrite Hq; left|]. rewrite E in Hs'. by destruct Hs'.
        -- right. split; [congruence|]. intros s' Hs'. destruct (Hl s' Hs') as [H1 H2]. specialize (Hn s' H1). set_solver.
Qed.

(** No session waits forever behind leases that are given back: whoever
    is at the head of the queue holds its lease once the sessions holding one
    have released theirs, in whatever order they do. *)
Theorem lease_progress `{MapRangeLaws} total a h q holders :
  reachable total a -> a_queue a = h :: q -> a_grants a = ∅ ->
  (forall s, s ∈ holders <-> is_Some (a_leasedBy a !! s)) ->
  is_Some (a_leasedBy (foldl Release a holders) !! w_sessionID h).
Proof.
  intros Hr Eq Hg Hs. destruct (reachable_ok _ _ Hr) as [Hok _].
  assert (Hwait : forall s, waiting a s -> s ∉ holders).
  { intros s (w & Hw & <-). rewrite Hs. destruct (lp_queue _ (proj1 Hok) w Hw) as [-> _]. by intros []. }
  apply (release_all h q holders); [done|done| | |done|].
  - apply Hwait. exists h. rewrite Eq. split; [left|done].
  - intros ptr s l E. by rewrite Hg, lookup_empty in E.
  - right. split; [done|]. intros s. apply Hs.
Qed.

(** ** Witnesses *)

#[local] Existing Instance MapRange_id.

Definition demo0 : PartitionLeaseAllocator := newLeaseAllocator 3.
Definition demo1 : PartitionLeaseAllocator := (Acquire demo0 1 "a" 2).2.
Definition demo2 : PartitionLeaseAllocator := (Acquire demo1 2 "b" 2).2.
Definition demo3 : PartitionLeaseAllocator := (Acquire demo2 3 "c" 1).2.

Lemma demo_acquire a ptr s count :
  forallb (fun w => negb (bool_decide (w_sessionID w = s)) && negb (bool_decide (w_ptr w = ptr))) (a_queue a) = true ->
  a_grants a !! ptr = None -> step a (Acquire a ptr s count).2.
Proof.
  intros Hq Hg. rewrite forallb_forall in Hq.
  apply (step_acquire MapRange_id MapRange_id_laws a ptr s count (Acquire a ptr s count).1); [|done| |by destruct (Acquire a ptr s count)].
  - intros (w & Hw & E). specialize (Hq w ltac:(by apply list_elem_of_In)).
    apply andb_true_iff in Hq as [Hq _]. by rewrite bool_decide_true in Hq.
  - intros w Hw E. specialize (Hq w ltac:(by apply list_elem_of_In)).
    apply andb_true_iff in Hq as [_ Hq]. by rewrite bool_decide_true in Hq.
Qed.

(** [a] holds two of three partitions; [b] and [c] wait, though [c] would fit. *)
Lemma demo_reachable : reachable 3 demo3.
Proof.
  do 3 (eapply rtc_r; [|by apply demo_acquire; vm_compute; reflexivity]). apply rtc_refl.
Qed.

Lemma lease_exclusive_witness : LeasedCount demo3 = 2.
Proof.
  destruct (lease_exclusive 3 demo3 ltac:(lia) demo_reachable) as (_ & _ & Hc). rewrite Hc. vm_compute. reflexivity.
Defined.

Lemma lease_fifo_witness :
  is_Some (a_leasedBy (Release demo3 "a") !! "c"%string) /\ map w_sessionID (a_queue demo3) = ["b"; "c"]%string /\
  mkWaiter 2 "b" 2 ∉ a_queue (Release demo3 "a").
Proof.
  split; [apply (bool_decide_unpack _); vm_compute; exact I|]. split; [vm_compute; reflexivity|].
  apply (proj1 (lease_fifo 3 demo3 (Release demo3 "a") demo_reachable
           (step_release MapRange_id MapRange_id_laws demo3 "a" ltac:(intros ptr s parts E; vm_compute in E; discriminate)))
           [mkWaiter 2 "b" 2] (mkWaiter 3 "c" 1) [] (mkWaiter 2 "b" 2)).
  - vm_compute. reflexivity.
  - apply (bool_decide_unpack _). vm_compute. exact I.
  - left.
Defined.

Lemma lease_progress_witness : is_Some (a_leasedBy (foldl Release demo3 ["a"%string]) !! "b"%string).
Proof.
  apply (@lease_progress MapRange_id MapRange_id_laws 3 demo3 (mkWaiter 2 "b" 2) [mkWaiter 3 "c" 1] ["a"%string] demo_reachable);
    [vm_compute; reflexivity|vm_compute; reflexivity|].
  intros s. rewrite list_elem_of_singleton.
  assert (E : a_leasedBy demo3 = {[ "a"%string := [1; 2] ]}) by (vm_compute; reflexivity).
  rewrite E, lookup_singleton. case_decide as Hd; split; intros Hs; subst; try done; try (by eexists); by destruct Hs.
Defined.
