(* ===== verification/Service.v ===== *)
(** * correctness-validator: the service
    ([main.go], [internal/store/postgres.go])

    The summary table [correctness_summary] and its statements, the settings,
    the metadata learnt from workload assignments, and the grading of a session:
    the streaming source feeding one of the two validators.  The consumer that
    drives them is [StatusLoop]; metrics and logging are left out. *)

From stdpp Require Import prelude gmap strings list.
From S2P Require Import Prelude GoSort Float64 Model Book Replay Reorder Report StreamVal Invariants Topics Pipeline Source.

Open Scope Z_scope.

(** ** The summary table *)

Definition StatusScored : string := "scored".
Definition StatusTimedOut : string := "timed_out".

Record SummaryRecord := mkRecord {
  rc_SessionID : string; rc_ContestantID : string; rc_Report : Report; rc_Status : string;
  rc_SentCount : Z; rc_AckedCount : Z; rc_MatchedCount : Z; rc_ComputedAtNS : Z }.

(** A row of [correctness_summary]: BIGINT columns hold [int64]. *)
Record Row := mkRow {
  row_contestant : string; row_valid : Z; row_total : Z; row_score : float64; row_violations : Z;
  row_phantom : Z; row_overfills : Z; row_price : Z; row_computed : Z; row_status : string;
  row_sent : Z; row_acked : Z; row_matched : Z; row_time : Z; row_selfTrades : Z; row_crl : Z;
  row_missed : Z; row_lostOrders : Z; row_lostCancels : Z }.

Abbreviation DB := (gmap string Row).

Definition row_of (rec : SummaryRecord) : Row :=
  let r := rc_Report rec in
  let status := if bool_decide (rc_Status rec = ""%string) then StatusScored else rc_Status rec in
  let crlCount := i64 (rp_CancelReplaceLosses r) in
  let timeCount := i64 (i64 (rp_TimeViolations r) - crlCount) in
  let timeCount := if timeCount <? 0 then 0 else timeCount in
  mkRow (rc_ContestantID rec) (i64 (rp_ValidFills r)) (i64 (rp_TotalFills r)) (CorrectnessScore r)
    (i64 (ViolationCount r)) (i64 (rp_PhantomFills r)) (i64 (rp_Overfills r)) (i64 (rp_PriceViolations r))
    (i64 (rc_ComputedAtNS rec)) status (i64 (rc_SentCount rec)) (i64 (rc_AckedCount rec))
    (i64 (rc_MatchedCount rec)) timeCount (i64 (rp_SelfTrades r)) crlCount (i64 (rp_MissedFills r))
    (i64 (rp_LostOrders r)) (i64 (rp_LostCancels r)).

Definition SummaryStatus (db : DB) (sessionID : string) : option string := row_status <$> db !! sessionID.

(** [INSERT ... ON CONFLICT (session_id) DO UPDATE ... WHERE]: the new table and
    whether a row was affected. *)
Definition Save (db : DB) (rec : SummaryRecord) : DB * bool :=
  let row := row_of rec in
  match db !! rc_SessionID rec with
  | None => (<[rc_SessionID rec := row]> db, true)
  | Some old =>
      if bool_decide (row_status old = StatusTimedOut) && bool_decide (row_status row = StatusScored)
      then (<[rc_SessionID rec := row]> db, true)
      else (db, false)
  end.

Record CorrectnessScoreEvent := mkScoreEvent {
  ce_SessionID : string; ce_ContestantID : string; ce_ValidFills : Z; ce_TotalFills : Z;
  ce_CorrectnessScore : float64; ce_ViolationCount : Z; ce_ComputedAtNS : Z; ce_SentCount : Z;
  ce_AckedCount : Z; ce_MatchedCount : Z; ce_JitterP50US : float64; ce_JitterP99US : float64;
  ce_JitterP999US : float64; ce_JitterMaxUS : float64; ce_JitterInvRate : float64;
  ce_T7ReorderLate : Z; ce_T7Anomalies : Z; ce_ResultTainted : bool; ce_TaintReason : string }.

(** The columns [LoadScore] selects; the other fields keep their zero value. *)
Definition LoadScore (db : DB) (sessionID : string) : option CorrectnessScoreEvent :=
  match db !! sessionID with
  | None => None
  | Some r =>
      Some (mkScoreEvent sessionID (row_contestant r) (u64 (row_valid r)) (u64 (row_total r)) (row_score r)
              (u64 (row_violations r)) (u64 (row_computed r)) (u64 (row_sent r)) (u64 (row_acked r))
              (u64 (row_matched r)) (f64 0) (f64 0) (f64 0) (f64 0) (f64 0) 0 0 false "")
  end.

(** ** Modes and configuration *)

Record validator := mkValidator {
  v_reorderWindow : Z; v_mode : string; v_crossFlowWindowUs : Z; v_t7ReorderWindow : Z;
  v_t7AnomalyCapNs : Z; v_lateTaintRate : float64; v_bandWidth : Z }.

Definition sessionMode (v : validator) (meta : SessionMeta) : string :=
  if bool_decide (v_mode v = "full"%string) || bool_decide (v_mode v = "invariants"%string) then v_mode v
  else if m_MaxRate meta then "full" else "invariants".

Inductive TimeoutConfigError := TimeoutNotPositive | TimeoutNotAboveSettle.

Definition checkTimeoutConfig (validationTimeout settleDelay : Z) : option TimeoutConfigError :=
  if validationTimeout <=? 0 then Some TimeoutNotPositive
  else if validationTimeout <=? settleDelay then Some TimeoutNotAboveSettle
  else None.

Definition instanceGroup (base instance : string) : string :=
  if bool_decide (instance = ""%string) then base else base +:+ "-" +:+ instance.

Definition parseBrokers `{Unicode} (s : string) : list string :=
  List.filter (fun b => negb (bool_decide (b = ""%string))) (map TrimSpace (split_on comma s)).

(** What the validator reads of a workload assignment; an absent band is
    [None]. *)
Record workloadSpecOrderBand := mkSpecBand {
  sp_SessionID : string; sp_OrderBand : option Z; sp_TargetRPS : list Z }.

(** The body of the band-learning consumer; [None] is an undecodable message. *)
Definition learn_band (cache : BandCache) (spec : option workloadSpecOrderBand) : BandCache :=
  match spec with
  | None => cache
  | Some spec =>
      if bool_decide (sp_SessionID spec = ""%string) then cache
      else
        let band := default OrderBandUnset (sp_OrderBand spec) in
        let maxRate := (0 <? length (sp_TargetRPS spec))%nat && forallb (fun rps => rps =? 0) (sp_TargetRPS spec) in
        bc_Set cache (sp_SessionID spec) (mkMeta band maxRate)
  end.

(** ** Validating a session *)

Section Validate.
Context {T : Type} `{!BTreeG T} `{!SortSlice} `{!MapRange}.

(** The callbacks handed to [StreamSession] in the two modes. *)
Definition full_callback (v : StreamValidator T) (c : SinkCall) : StreamValidator T :=
  match c with
  | CApply p o => Apply v (mkORef p o)
  | CPhantom id qty price => AddPhantom v (mkReportedFill id qty price)
  | CLost id kind => AddLost v id kind
  | CGap => AddCaptureGap v
  end.

Definition inv_callback (v : InvariantsValidator) (c : SinkCall) : InvariantsValidator :=
  match c with
  | CApply _ o => iv_Apply v o
  | CPhantom id qty price => AddUnmatched v id qty price
  | CLost id kind => iv_AddLost v id kind
  | CGap => iv_AddCaptureGap v
  end.

Definition full_report (cs : list SinkCall) : Report :=
  (sv_Finish (foldl full_callback NewStreamValidator cs)).2.

Definition inv_report (v : validator) (cs : list SinkCall) : Report :=
  (iv_Finish (foldl inv_callback
     (SetLateTaintRate (v_lateTaintRate v) (SetT7AnomalyCapNs (v_t7AnomalyCapNs v)
        (NewInvariantsValidatorWithWindow (v_crossFlowWindowUs v) (v_t7ReorderWindow v)))) cs)).2.

(** Streaming the session through the validator of its mode. *)
Definition grade (v : validator) (brokers : list (string + Broker)) (meta : SessionMeta)
    : option (string + (StreamCounts * string * Report)) :=
  match StreamSession brokers (v_reorderWindow v) (m_Band meta) (v_bandWidth v) with
  | None => None
  | Some res =>
      match sr_err res with
      | Some err => Some (inl err)
      | None =>
          let report := if bool_decide (sessionMode v meta = "invariants"%string)
                        then inv_report v (sr_calls res) else full_report (sr_calls res) in
          Some (inr (sr_counts res, sr_contestant res, report))
      end
  end.

End Validate.

(** What is stored and published for a graded session. *)
Definition scored_record (sessionID contestant : string) (r : Report) (counts : StreamCounts) (nowNS : Z) : SummaryRecord :=
  mkRecord sessionID contestant r StatusScored (SentEvents counts) (AckedEvents counts) (MatchedOrders counts) nowNS.

Definition score_event (sessionID contestant : string) (r : Report) (counts : StreamCounts) (nowNS : Z)
    : CorrectnessScoreEvent :=
  mkScoreEvent sessionID contestant (rp_ValidFills r) (rp_TotalFills r) (CorrectnessScore r) (ViolationCount r)
    nowNS (SentEvents counts) (AckedEvents counts) (MatchedOrders counts)
    (js_P50Us (rp_Jitter r)) (js_P99Us (rp_Jitter r)) (js_P999Us (rp_Jitter r)) (js_MaxUs (rp_Jitter r))
    (js_InversionRate (rp_Jitter r)) (rp_T7ReorderLate r) (rp_T7Anomalies r) (rp_Tainted r) (rp_TaintReason r).

Definition timeoutRecord (sessionID : string) (nowNS : Z) : SummaryRecord :=
  mkRecord sessionID "" zeroReport StatusTimedOut 0 0 0 nowNS.
