(* ===== verification/ServiceProps.v ===== *)
(** * From Kafka to the summary row

    The source, the validators and the summary table composed: what a stored
    score is computed from. *)

From stdpp Require Import prelude gmap strings list.
From S2P Require Import Prelude GoSort Float64 Model Book BTree Replay Reorder Report StreamVal StreamProps Invariants InvProps Topics Pipeline Source SourceProps SourceFates Service.

Open Scope Z_scope.

(** ** From the source to the report *)

Section EndToEnd.
Context {T : Type} `{!BTreeG T} `{!SortSlice} `{!MapRange}.

Definition full_event (c : SinkCall) : event :=
  match c with
  | CApply p o => EvApply (mkORef p o)
  | CPhantom id qty price => EvPhantom (mkReportedFill id qty price)
  | CLost id kind => EvLost id kind
  | CGap => EvGap
  end.

Definition inv_event (c : SinkCall) : iv_event :=
  match c with
  | CApply _ o => IvApply o
  | CPhantom id qty price => IvUnmatched id qty price
  | CLost id kind => IvLost id kind
  | CGap => IvGap
  end.

(** The orders that count: applied or lost. *)
Definition scored_calls (cs : list SinkCall) : nat := (countb isApply cs + countb isLost cs)%nat.

Lemma graded_ids_length cs : length (graded_ids (map full_event cs)) = scored_calls cs.
Proof.
  unfold graded_ids, scored_calls. induction cs as [|c cs IH]; [done|]. cbn [map]. rewrite bind_cons, length_app, IH.
  unfold countb. destruct c; simpl; lia.
Qed.

Lemma iv_ids_length cs : length (map inv_event cs ≫= iv_ids) = scored_calls cs.
Proof.
  unfold scored_calls. induction cs as [|c cs IH]; [done|]. cbn [map]. rewrite bind_cons, length_app, IH.
  unfold countb. destruct c; simpl; lia.
Qed.

Lemma full_report_session cs : full_report cs = session (map full_event cs).
Proof.
  unfold full_report, session. f_equal. f_equal. generalize (@NewStreamValidator T _).
  induction cs as [|c cs IH]; intros v; simpl; [done|]. rewrite IH. by destruct c.
Qed.

Lemma inv_run cs v : foldl inv_callback v cs = foldl iv_step v (map inv_event cs).
Proof. revert v. induction cs as [|c cs IH]; intros v; simpl; [done|]. rewrite IH. by destruct c. Qed.

(** What either mode guarantees about the denominator of the score. *)
Definition denominator_ok (n : Z) (r : Report) : Prop :=
  rp_ScoredOrders r = n /\ rp_DirtyOrders r <= n /\
  cleanOrders r = n - Z.of_nat (size (rp_dirtyByOrder r)).

Lemma full_denominator cs :
  Z.of_nat (scored_calls cs) < 2 ^ 64 -> denominator_ok (Z.of_nat (scored_calls cs)) (full_report cs).
Proof.
  rewrite full_report_session, <-graded_ids_length. set (evs := map full_event cs). intros Hlt. unfold session.
  destruct (finish_acc _ _ (run_acc _ _ evs new_acc)) as ([_ H2 _ _] & _ & _ & H7 & H8).
  change ([] ++ graded_ids evs) with (graded_ids evs) in H7, H8. set (r := (sv_Finish _).2) in *.
  assert (Hsz : (size (rp_dirtyByOrder r) <= length (graded_ids evs))%nat).
  { etrans; [by apply subseteq_size|]. apply size_list_to_set_le. }
  rewrite u64_small in H8 by lia. rewrite u64_small in H2 by lia. unfold denominator_ok, cleanOrders.
  rewrite H2, H8. split_and!; [done|lia|]. rewrite (proj2 (Z.ltb_ge _ _)) by lia. apply u64_small. lia.
Qed.

Lemma inv_denominator v cs :
  Z.of_nat (scored_calls cs) < 2 ^ 64 -> denominator_ok (Z.of_nat (scored_calls cs)) (inv_report v cs).
Proof.
  rewrite <-iv_ids_length. intros Hlt. unfold inv_report. rewrite inv_run.
  destruct (iv_session_books _ _ (iv_new_acc (v_crossFlowWindowUs v) (v_t7ReorderWindow v) (v_t7AnomalyCapNs v)
    (v_lateTaintRate v)) Hlt) as (_ & _ & _ & H4 & H5 & H6). unfold denominator_ok.
  rewrite <-H4 at 2. done.
Qed.

(** The score of [n] orders of which [dirty] are dirty. *)
Definition ratio (n dirty : Z) : float64 := if n =? 0 then f64 1 else fdiv (f64 (n - dirty)) (f64 n).

Lemma denominator_score n r : denominator_ok n r -> CorrectnessScore r = ratio n (Z.of_nat (size (rp_dirtyByOrder r))).
Proof. intros (H1 & _ & H3). unfold CorrectnessScore, ratio. by rewrite H1, H3. Qed.

Lemma Save_claimed db rec db' : Save db rec = (db', true) -> db' !! rc_SessionID rec = Some (row_of rec).
Proof. unfold Save. intros HS. destruct (db !! _); [destruct (_ && _)|]; simplify_eq; apply lookup_insert_eq. Qed.

(** C2: from Kafka to the summary row.  When a session is graded, in either
    mode, and its record is stored, the row is scored; its sent and acked
    counts are the deliveries read from Kafka; and its score is the share of
    clean orders among [n] orders, where [n] is the stored matched count plus the lost
    orders.  Together with the capture gaps these [n] are all the orders that
    were sent: no fewer than the different order ids, no more than the
    deliveries of sent events, and exactly the orders sent when none was
    delivered twice. *)
Theorem graded_end_to_end v bk bks meta sentParts ackParts counts contestant report id now db db' :
  bk_sentParts bk = inr sentParts -> bk_ackParts bk = inr ackParts ->
  grade v (inr bk :: bks) meta = Some (inr (counts, contestant, report)) ->
  Save db (scored_record id contestant report counts now) = (db', true) ->
  let batches := session_batches (session_readers bk (m_Band meta) (v_bandWidth v) sentParts ackParts) in
  let sent := flat_map sent_of batches in
  Z.of_nat (length sent) < 2 ^ 63 ->
  exists row, db' !! id = Some row /\ row_status row = StatusScored /\
    row_sent row = Z.of_nat (length sent) /\ row_acked row = i64 (Z.of_nat (length (flat_map acks_of batches))) /\
    let n := row_matched row + LostOrders counts in
    let dirty := Z.of_nat (size (rp_dirtyByOrder report)) in
    0 <= dirty <= n /\ row_score row = ratio n dirty /\
    Z.of_nat (size (list_to_set (map os_OrderID sent) : gset string)) <= n + CaptureGaps counts <= Z.of_nat (length sent) /\
    (NoDup (map os_OrderID sent) -> n + CaptureGaps counts = Z.of_nat (length sent)).
Proof.
  intros Hsp Hap Hg HS. cbv zeta. intros Hlt.
  destruct (session_balance bk bks (v_reorderWindow v) (m_Band meta) (v_bandWidth v) sentParts ackParts Hsp Hap)
    as (res & Hres & H1 & H2 & H3 & H4 & H5 & (R1 & R2 & R3 & R4 & R5) & Hone).
  destruct (session_fates bk bks (v_reorderWindow v) (m_Band meta) (v_bandWidth v) sentParts ackParts res Hsp Hap Hres) as (gaps & Hf).
  pose proof (fates_bounds _ _ _ Hf) as Hb. set (sent := flat_map sent_of _) in *. apply Save_claimed in HS.
  unfold grade in Hg. rewrite Hres in Hg. destruct (sr_err res); [done|]. injection Hg as <- <- Hrep.
  set (cs := sr_calls res) in *. apply eq64_small in H1, H3, H4, H5; try lia. eexists. split; [exact HS|].
  cbn [row_of scored_record rc_SessionID rc_ContestantID rc_Report rc_Status rc_SentCount rc_AckedCount rc_MatchedCount rc_ComputedAtNS
    row_status row_sent row_acked row_matched row_score].
  rewrite (i64_small (MatchedOrders _)), (i64_small (SentEvents _)) by lia. split; [done|]. split; [done|]. split; [by apply i64_eq64|].
  assert (Hn : MatchedOrders (sr_counts res) + LostOrders (sr_counts res) = Z.of_nat (scored_calls cs)) by (unfold scored_calls; lia).
  rewrite Hn. assert (Hden : denominator_ok (Z.of_nat (scored_calls cs)) report).
  { subst report. destruct (bool_decide _); [apply inv_denominator|apply full_denominator]; lia. }
  rewrite (denominator_score _ _ Hden). split_and!; try done; [lia| |unfold scored_calls; lia..|intros Hnd; specialize (Hone Hnd); unfold scored_calls; lia].
  destruct Hden as (_ & _ & D3). assert (0 <= cleanOrders report); [|lia]. unfold cleanOrders. destruct (_ <? _); [done|apply u64_range].
Qed.

End EndToEnd.

(** ** Witness *)

Definition demo_validator : validator := mkValidator 8 "auto" 0 0 0 (f64 0) 1.
Definition demo_meta : SessionMeta := mkMeta OrderBandUnset true.

Definition demo_grade :=
  @grade ListTree _ SortSlice_stable MapRange_id demo_validator [inr demo_broker] demo_meta.

(** Three orders sent, one lost by the capture: two in the denominator. *)
Lemma graded_end_to_end_witness :
  exists counts contestant report row, demo_grade = Some (inr (counts, contestant, report)) /\
    CaptureGaps counts = 1 /\ row_sent row = 3 /\ row_matched row + LostOrders counts = 2 /\
    row_score row = ratio (row_matched row + LostOrders counts) (Z.of_nat (size (rp_dirtyByOrder report))).
Proof.
  destruct demo_grade as [[err|[[counts contestant] report]]|] eqn:E; [vm_compute in E; discriminate| |vm_compute in E; discriminate].
  assert (HS : Save ∅ (scored_record "s" contestant report counts 0) = (<["s"%string := row_of (scored_record "s" contestant report counts 0)]> ∅, true))
    by (unfold Save; rewrite lookup_empty; reflexivity).
  destruct (@graded_end_to_end ListTree _ SortSlice_stable MapRange_id demo_validator demo_broker [] demo_meta [0] [0]
    counts contestant report "s" 0 ∅ (<["s"%string := row_of (scored_record "s" contestant report counts 0)]> ∅) eq_refl eq_refl E HS) as (row & _ & _ & Hs & _ & _ & Hsc & _ & Hone); [vm_compute; reflexivity|].
  assert (Hg : CaptureGaps counts = 1) by (vm_compute in E; injection E as <- _ _; reflexivity).
  exists counts, contestant, report, row. split; [reflexivity|]. split; [exact Hg|]. split; [rewrite Hs; vm_compute; reflexivity|]. split; [|exact Hsc].
  cbv zeta in Hone. rewrite Hg in Hone. specialize (Hone ltac:(apply (bool_decide_unpack _); vm_compute; exact I)).
  change (Z.of_nat (length (flat_map sent_of _))) with 3 in Hone. lia.
Defined.
