(* ===== verification/StatusLoop.v ===== *)
(** * correctness-validator: the status consumers

    [validateSession], its timeout fallback and [runStatusConsumer] of
    [main.go] as programs over calls to the database, the broker and the
    publisher.  Several consumers run them call by call interleaved, over the
    partitions of benchmark.status.updated with their committed offsets, with
    failing calls, lost answers, rebalances and crashes. *)

From stdpp Require Import prelude gmap strings list relations.
From S2P Require Import Prelude Prog GoSort Float64 Model Book BTree Replay Reorder Report StreamVal Invariants Topics Pipeline Source SourceProps Service ServiceProps.

Open Scope Z_scope.
Open Scope prog_scope.

(** ** Calls *)

(** An error: whether [errors.Is] finds the deadline in it. *)
Inductive VErr := DeadlineExceeded | VFailed (stage : string).

(** [Settle] is the wait before reading, [ReadKafka] what the brokers have for
    the session when it is read, [Stopping] whether the process shuts down. *)
Inductive vcall : Type -> Type :=
  | QStatus (sessionID : string) : vcall (VErr + option string)
  | QLoad (sessionID : string) : vcall (VErr + option CorrectnessScoreEvent)
  | Settle : vcall (option VErr)
  | TakeMeta (sessionID : string) : vcall SessionMeta
  | ReadKafka : vcall (VErr + list (string + Broker))
  | NowNS : vcall Z
  | QSave (rec : SummaryRecord) : vcall (VErr + bool)
  | Publish (ev : CorrectnessScoreEvent) : vcall (option VErr)
  | Stopping : vcall bool.

Abbreviation vprog := (Prog vcall).

(** ** Validating a session *)

Section Validate.
Context {T : Type} `{!BTreeG T} `{!SortSlice} `{!MapRange}.
Variable v : validator.

(** The outcome is [None] for no error. *)
Definition republish (sessionID : string) : vprog (option VErr) :=
  let! ev := ask (QLoad sessionID) in
  match ev with
  | inl err => Ret (Some err)
  | inr None => Ret None
  | inr (Some ev) => ask (Publish ev)
  end.

Definition score_session (sessionID : string) (brokers : list (string + Broker)) (meta : SessionMeta) : vprog (option VErr) :=
  match grade v brokers meta with
  | None => Ret (Some (VFailed "stream session"))
  | Some (inl err) => Ret (Some (VFailed err))
  | Some (inr (counts, contestant, report)) =>
      let! now := ask NowNS in
      let! claimed := ask (QSave (scored_record sessionID contestant report counts now)) in
      match claimed with
      | inl err => Ret (Some err)
      | inr false => Ret None
      | inr true => ask (Publish (score_event sessionID contestant report counts now))
      end
  end.

Definition validateSession (sessionID : string) : vprog (option VErr) :=
  let! status := ask (QStatus sessionID) in
  match status with
  | inl err => Ret (Some err)
  | inr status =>
      if bool_decide (status = Some StatusScored) then republish sessionID
      else
        let! settled := ask Settle in
        match settled with
        | Some err => Ret (Some err)
        | None =>
            let! meta := ask (TakeMeta sessionID) in
            let! brokers := ask ReadKafka in
            match brokers with
            | inl err => Ret (Some err)
            | inr brokers => score_session sessionID brokers meta
            end
        end
  end.

(** The timeout fallback. *)
Definition recordValidationTimeout (sessionID : string) : vprog (option VErr) :=
  let! status := ask (QStatus sessionID) in
  match status with
  | inl err => Ret (Some err)
  | inr (Some _) => republish sessionID
  | inr None =>
      let! now := ask NowNS in
      let! saved := ask (QSave (timeoutRecord sessionID now)) in
      match saved with inl err => Ret (Some err) | inr _ => republish sessionID end
  end.

(** ** One message *)

(** What the loop does next: commit the message's offset, go on without, or
    return. *)
Inductive Outcome := CommitIt | SkipIt | StopIt.

(** [None] is an undecodable message. *)
Definition on_status (m : option BenchmarkStatusUpdated) : vprog Outcome :=
  match m with
  | None => Ret CommitIt
  | Some m =>
      if negb (bool_decide (bs_Status m = RunStatusCompleted)) then Ret CommitIt
      else
        let! err := validateSession (bs_SessionID m) in
        match err with
        | None => Ret CommitIt
        | Some err =>
            let! stopping := ask Stopping in
            if stopping : bool then Ret StopIt
            else
              match err with
              | DeadlineExceeded =>
                  let! ferr := recordValidationTimeout (bs_SessionID m) in
                  Ret (match ferr with None => CommitIt | Some _ => SkipIt end)
              | VFailed _ => Ret SkipIt
              end
        end
  end.

End Validate.

(** ** The outside *)

Record World := mkWorld { w_db : DB; w_cache : BandCache; w_published : list CorrectnessScoreEvent }.

Definition with_db (w : World) (db : DB) : World := mkWorld db (w_cache w) (w_published w).
Definition with_published (w : World) (ev : CorrectnessScoreEvent) : World := mkWorld (w_db w) (w_cache w) (w_published w ++ [ev]).

(** A statement or a publish may fail, before it took effect or after. *)
Definition vdoes (X : Type) (c : vcall X) (w : World) : X -> World -> Prop :=
  match c in vcall X return X -> World -> Prop with
  | QStatus id => fun x w' => w' = w /\ (x = inr (SummaryStatus (w_db w) id) \/ exists err, x = inl err)
  | QLoad id => fun x w' => w' = w /\ (x = inr (LoadScore (w_db w) id) \/ exists err, x = inl err)
  | Settle => fun _ w' => w' = w
  | TakeMeta id => fun x w' => x = (GetAndDelete (w_cache w) id).1 /\ w' = mkWorld (w_db w) (GetAndDelete (w_cache w) id).2 (w_published w)
  | ReadKafka => fun _ w' => w' = w
  | NowNS => fun _ w' => w' = w
  | QSave rec => fun x w' =>
      x = inr (Save (w_db w) rec).2 /\ w' = with_db w (Save (w_db w) rec).1 \/
      (exists err, x = inl err) /\ (w' = w \/ w' = with_db w (Save (w_db w) rec).1)
  | Publish ev => fun x w' => x = None /\ w' = with_published w ev \/ is_Some x /\ (w' = w \/ w' = with_published w ev)
  | Stopping => fun _ w' => w' = w
  end.

(** ** The consumers *)

Section Loop.
Context {T : Type} `{!BTreeG T} `{!SortSlice} `{!MapRange}.
Variable v : validator.

(** The messages of benchmark.status.updated: by partition and offset. *)
Variable log : nat -> nat -> option (option BenchmarkStatusUpdated).

(** A consumer: where it is in the partitions it has, and the message it is
    busy with. *)
Record Consumer := mkConsumer { co_pos : gmap nat nat; co_job : option (nat * nat * vprog Outcome) }.

(** [sy_failed] is kept for the theorems: the messages an attempt on which
    ended in an error that was skipped. *)
Record Sys := mkSys {
  sy_world : World; sy_committed : gmap nat nat; sy_consumers : list Consumer; sy_failed : list (nat * nat) }.

Definition idle : Consumer := mkConsumer ∅ None.

Definition committed (s : Sys) (p : nat) : nat := default 0%nat (sy_committed s !! p).

Definition put (s : Sys) (i : nat) (c : Consumer) : Sys :=
  mkSys (sy_world s) (sy_committed s) (<[i := c]> (sy_consumers s)) (sy_failed s).

Inductive lstep : Sys -> Sys -> Prop :=
  | LStart s : lstep s (mkSys (sy_world s) (sy_committed s) (sy_consumers s ++ [idle]) (sy_failed s))
  | LAssign s i c p : sy_consumers s !! i = Some c ->
      lstep s (put s i (mkConsumer (<[p := committed s p]> (co_pos c)) (co_job c)))
  | LRevoke s i c p : sy_consumers s !! i = Some c -> lstep s (put s i (mkConsumer (delete p (co_pos c)) (co_job c)))
  | LFetch s i c p o m :
      sy_consumers s !! i = Some c -> co_job c = None -> co_pos c !! p = Some o -> log p o = Some m ->
      lstep s (put s i (mkConsumer (<[p := S o]> (co_pos c)) (Some (p, o, on_status v m))))
  | LCall s i c p o X (q : vcall X) k x w :
      sy_consumers s !! i = Some c -> co_job c = Some (p, o, Call q k) -> vdoes X q (sy_world s) x w ->
      lstep s (mkSys w (sy_committed s) (<[i := mkConsumer (co_pos c) (Some (p, o, k x))]> (sy_consumers s)) (sy_failed s))
  | LCommit s i c p o : sy_consumers s !! i = Some c -> co_job c = Some (p, o, Ret CommitIt) ->
      lstep s (mkSys (sy_world s) (<[p := S o]> (sy_committed s)) (<[i := mkConsumer (co_pos c) None]> (sy_consumers s)) (sy_failed s))
  | LCommitFails s i c p o : sy_consumers s !! i = Some c -> co_job c = Some (p, o, Ret CommitIt) ->
      lstep s (put s i (mkConsumer (co_pos c) None))
  | LSkip s i c p o : sy_consumers s !! i = Some c -> co_job c = Some (p, o, Ret SkipIt) ->
      lstep s (mkSys (sy_world s) (sy_committed s) (<[i := mkConsumer (co_pos c) None]> (sy_consumers s)) ((p, o) :: sy_failed s))
  | LStop s i c p o : sy_consumers s !! i = Some c -> co_job c = Some (p, o, Ret StopIt) -> lstep s (put s i idle)
  | LCrash s i : lstep s (put s i idle)
  | LCache s cache : lstep s (mkSys (mkWorld (w_db (sy_world s)) cache (w_published (sy_world s))) (sy_committed s) (sy_consumers s) (sy_failed s)).

(** The process starts with whatever the table has. *)
Definition linit (w : World) : Sys := mkSys w ∅ [] [].

Definition lreached (s : Sys) : Prop := exists w, rtc lstep (linit w) s.

End Loop.

(** ** What never goes away *)

Definition scored_row (db : DB) (id : string) (row : Row) : Prop := db !! id = Some row /\ row_status row = StatusScored.

Definition has_row (id : string) (w : World) : Prop := is_Some (w_db w !! id).

(** Rows stay, scored ones as they are. *)
Record grows (w w' : World) : Prop := {
  gr_rows id : has_row id w -> has_row id w';
  gr_scored id row : scored_row (w_db w) id row -> scored_row (w_db w') id row }.

#[export] Instance grows_preorder : PreOrder grows.
Proof. split; [done|]. intros w1 w2 w3 [] []. split; auto. Qed.

Lemma Save_final db rec id row : scored_row db id row -> scored_row (Save db rec).1 id row.
Proof.
  intros [Hr Hs]. unfold Save. destruct (decide (rc_SessionID rec = id)) as [<-|Hne].
  - rewrite Hr, Hs. done.
  - destruct (db !! rc_SessionID rec) as [old|]; [destruct (_ && _)|]; split; simpl; try done;
      by rewrite lookup_insert_ne.
Qed.

Lemma Save_row db rec : is_Some ((Save db rec).1 !! rc_SessionID rec).
Proof.
  unfold Save. destruct (db !! rc_SessionID rec) as [old|] eqn:E; [destruct (_ && _)|]; simpl;
    rewrite ?lookup_insert_eq; eauto.
Qed.

Lemma Save_keeps db rec id : is_Some (db !! id) -> is_Some ((Save db rec).1 !! id).
Proof.
  intros Hr. unfold Save. destruct (db !! rc_SessionID rec); [destruct (_ && _)|]; cbn; try done; apply lookup_insert_is_Some'; by right.
Qed.

Lemma save_grows w rec : grows w (with_db w (Save (w_db w) rec).1).
Proof. split; [intros id; apply Save_keeps|intros id row; apply Save_final]. Qed.

Lemma same_db_grows w w' : w_db w' = w_db w -> grows w w'.
Proof. intros E. split; unfold has_row; by rewrite E. Qed.

Lemma vdoes_grows X (c : vcall X) w x w' : vdoes X c w x w' -> grows w w'.
Proof.
  destruct c; cbn; try (by intros ->); try (by intros [-> _]).
  - intros [_ ->]. by apply same_db_grows.
  - intros [[_ ->]|[_ [->| ->]]]; try done; apply save_grows.
  - intros [[_ ->]|[_ [->| ->]]]; try done; by apply same_db_grows.
Qed.

(** ** Programs among others

    Between two calls of a program the other consumers may add rows. *)

Definition among (X : Type) (c : vcall X) (w : World) (x : X) (w' : World) : Prop := exists w1, grows w w1 /\ vdoes X c w1 x w'.

Abbreviation amid p w Q := (wp (fun _ _ _ => True) among p w Q).

Lemma among_grows X (c : vcall X) w x w' : among X c w x w' -> grows w w'.
Proof. intros (w1 & H1 & H2%vdoes_grows). by etrans. Qed.

(** What holds among others goes on holding when they move. *)
Lemma amid_grows {A} (p : vprog A) Q w w' :
  (forall a w w', grows w w' -> Q a w -> Q a w') -> grows w w' -> amid p w Q -> amid p w' Q.
Proof.
  intros HQ Hg. destruct p as [a|X c k]; cbn; [by apply HQ|]. intros [_ Hk]. split; [done|]. intros x w2 (w1 & H1 & H2).
  apply Hk. exists w1. split; [by etrans|done].
Qed.

Lemma amid_row {A} (p : vprog A) id w : has_row id w -> amid p w (fun _ w' => has_row id w').
Proof.
  revert w. induction p as [a|X c k IH]; intros w Hr; cbn; [done|]. split; [done|]. intros x w' [Hg _]%among_grows. by apply IH, Hg.
Qed.

(** A program that finds a row there, whatever it ends with. *)
Lemma amid_known {A} (p : vprog A) id w (P : A -> Prop) : has_row id w -> amid p w (fun a w' => P a -> has_row id w').
Proof. intros Hr. eapply wp_impl; [|by apply amid_row]. done. Qed.

Section Handled.
Context {T : Type} `{!BTreeG T} `{!SortSlice} `{!MapRange}.
Variable v : validator.

Lemma amid_save rec w (P : VErr + bool -> World -> Prop) :
  (forall x w', (forall b, x = inr b -> has_row (rc_SessionID rec) w') -> P x w') -> amid (ask (QSave rec)) w P.
Proof.
  intros HP. apply wp_ask; [done|]. intros x w' (w1 & _ & [[-> ->]|[[err ->] _]]); apply HP; [|done]. intros b _. apply Save_row.
Qed.

Lemma validated_row id w : amid (validateSession v id) w (fun err w' => err = None -> has_row id w').
Proof.
  apply wp_bind, wp_ask; [done|]. intros x w' (w1 & _ & -> & [->|[err ->]]); [|done]. case_bool_decide as Es.
  - apply amid_known. unfold SummaryStatus in Es. unfold has_row. destruct (w_db w1 !! id); [by eexists|done].
  - apply wp_bind, wp_ask; [done|]. intros [err|] w2 _; [done|]. apply wp_bind, wp_ask; [done|]. intros meta w3 _.
    apply wp_bind, wp_ask; [done|]. intros [err|brokers] w4 _; [done|]. unfold score_session.
    destruct (grade v brokers meta) as [[err|[[counts contestant] report]]|]; [done| |done]. apply wp_bind, wp_ask; [done|]. intros now w5 _.
    apply wp_bind, amid_save. intros [err|[]] w6 Hr; [done| |intros _; by eapply Hr]. apply amid_known. by eapply Hr.
Qed.

Lemma timeout_row id w : amid (recordValidationTimeout id) w (fun err w' => err = None -> has_row id w').
Proof.
  apply wp_bind, wp_ask; [done|]. intros x w' (w1 & _ & -> & [->|[err ->]]); [|done]. destruct (SummaryStatus (w_db w1) id) as [st|] eqn:Es.
  - apply amid_known. unfold SummaryStatus in Es. unfold has_row. destruct (w_db w1 !! id); [by eexists|done].
  - apply wp_bind, wp_ask; [done|]. intros now w2 _. apply wp_bind, amid_save. intros [err|b] w3 Hr; [done|]. apply amid_known. by eapply Hr.
Qed.

(** A message that asks for nothing, or whose session has a row. *)
Definition dealt (m : option BenchmarkStatusUpdated) (w : World) : Prop :=
  match m with Some m => bs_Status m = RunStatusCompleted -> has_row (bs_SessionID m) w | None => True end.

Lemma dealt_grows m w w' : grows w w' -> dealt m w -> dealt m w'.
Proof. intros [Hg _]. destruct m as [m|]; [|done]. intros Hd Hc. by apply Hg, Hd. Qed.

Lemma handled_row m w : amid (on_status v m) w (fun out w' => out = CommitIt -> dealt m w').
Proof.
  destruct m as [m|]; [|done]. unfold on_status. case_bool_decide as Hc; cbn [negb]; [|cbn; done].
  apply wp_bind. eapply wp_impl; [|apply validated_row]. intros [err|] w1 Hr; [|intros _ _; by apply Hr].
  apply wp_bind, wp_ask; [done|]. intros [] w2 _; [done|]. destruct err; [|done].
  apply wp_bind. eapply wp_impl; [|apply timeout_row]. intros [err|] w3 Ht; [done|]. intros _ _. by apply Ht.
Qed.

(** ** The invariant *)

Variable log : nat -> nat -> option (option BenchmarkStatusUpdated).

Definition settled (s : Sys) (p o : nat) : Prop := (forall m, log p o = Some m -> dealt m (sy_world s)) \/ (p, o) ∈ sy_failed s.

(** A consumer has settled what it has passed, but for the message at hand. *)
Record consumer_ok (s : Sys) (c : Consumer) : Prop := {
  ck_pos p q o : co_pos c !! p = Some q -> (o < q)%nat -> settled s p o \/ exists prog, co_job c = Some (p, o, prog);
  ck_job p o prog : co_job c = Some (p, o, prog) ->
    (forall o', (o' < o)%nat -> settled s p o') /\
    exists m, log p o = Some m /\ amid prog (sy_world s) (fun out w => out = CommitIt -> dealt m w) }.

Record linv (s : Sys) : Prop := {
  li_committed p o : (o < committed s p)%nat -> settled s p o;
  li_consumers c : c ∈ sy_consumers s -> consumer_ok s c }.

Lemma settled_moves s s' p o : grows (sy_world s) (sy_world s') -> sy_failed s ⊆ sy_failed s' -> settled s p o -> settled s' p o.
Proof. intros Hg Hf [Hd|Hin]; [left|right; by apply Hf]. intros m Hm. eapply dealt_grows; [exact Hg|]. by apply Hd. Qed.

Lemma consumer_moves s s' c : grows (sy_world s) (sy_world s') -> sy_failed s ⊆ sy_failed s' -> consumer_ok s c -> consumer_ok s' c.
Proof.
  intros Hg Hf [Hp Hj]. split.
  - intros p q o Hq Ho. destruct (Hp p q o Hq Ho) as [Hs|Hs]; [left; by eapply settled_moves|by right].
  - intros p o prog Hjob. destruct (Hj p o prog Hjob) as (Hs & m & Hm & Hw). split; [intros o' Ho; eapply settled_moves; eauto|].
    exists m. split; [done|]. eapply amid_grows; [|exact Hg|exact Hw]. intros out w w' Hg' Hd Ho. eapply dealt_grows; [exact Hg'|]. by apply Hd.
Qed.

(** Consumer [i] moves on; the others and the offsets stay. *)
Lemma linv_put s s' i c' :
  linv s -> grows (sy_world s) (sy_world s') -> sy_failed s ⊆ sy_failed s' -> sy_consumers s' = <[i := c']> (sy_consumers s) ->
  (forall p o, (o < committed s' p)%nat -> (o < committed s p)%nat \/ settled s' p o) -> consumer_ok s' c' -> linv s'.
Proof.
  intros [Hc Hk] Hg Hf Hs Hcom Hok. split.
  - intros p o Ho. destruct (Hcom p o Ho) as [Ho'|]; [|done]. eapply settled_moves; eauto.
  - rewrite Hs. intros c [j Hj]%list_elem_of_lookup. apply list_lookup_insert_Some in Hj as [(_ & -> & _)|[_ Hj]]; [done|].
    eapply consumer_moves; [done|done|]. apply Hk. by eapply list_elem_of_lookup_2.
Qed.

Lemma idle_ok s : consumer_ok s idle.
Proof. split; cbn; [intros p q o; by rewrite lookup_empty|done]. Qed.

(** The message at hand is done with. *)
Lemma consumer_done s s' c p o prog :
  consumer_ok s c -> co_job c = Some (p, o, prog) -> grows (sy_world s) (sy_world s') -> sy_failed s ⊆ sy_failed s' -> settled s' p o ->
  consumer_ok s' (mkConsumer (co_pos c) None).
Proof.
  intros [Hp Hj] Hjob Hg Hf Hs. split; [|done]. cbn. intros p' q o' Hq Ho. left. destruct (Hp p' q o' Hq Ho) as [Hs'|[prog' Hjob']].
  - by eapply settled_moves.
  - rewrite Hjob in Hjob'. by injection Hjob' as <- <- <-.
Qed.

Lemma linv_step s s' : linv s -> lstep v log s s' -> linv s'.
Proof.
  intros HI Hstep. pose proof HI as [Hcom Hcons].
  assert (Hget : forall i c, sy_consumers s !! i = Some c -> consumer_ok s c) by (intros i c Hi; apply Hcons; by eapply list_elem_of_lookup_2).
  destruct Hstep as [s|s i c p Hi|s i c p Hi|s i c p o m Hi Hj Hq Hm|s i c p o X q k x w Hi Hj Hd|s i c p o Hi Hj|s i c p o Hi Hj|s i c p o Hi Hj|s i c p o Hi Hj|s i|s cache].
  - split; [done|]. cbn. intros c [Hc| ->%list_elem_of_singleton]%elem_of_app; [by apply (consumer_moves s), Hcons|apply idle_ok].
  - eapply linv_put; [done..|auto|]. destruct (Hget i c Hi) as [Hp Hj]. split; [|exact Hj]. cbn. intros p' q o.
    rewrite lookup_insert_Some. intros [[<- <-]|[_ Hq]] Ho; [left; by apply Hcom|by apply (Hp p' q)].
  - eapply linv_put; [done..|auto|]. destruct (Hget i c Hi) as [Hp Hj]. split; [|exact Hj]. cbn. intros p' q o [_ Hq]%lookup_delete_Some. by apply Hp.
  - eapply linv_put; [done..|auto|]. destruct (Hget i c Hi) as [Hp _].
    assert (Hbelow : forall o', (o' < o)%nat -> settled s p o').
    { intros o' Ho. destruct (Hp p o o' Hq Ho) as [?|[prog Hjob]]; [done|]. by rewrite Hj in Hjob. }
    split; cbn.
    + intros p' q o'. rewrite lookup_insert_Some. intros [[<- <-]|[Hne Hq']] Ho.
      * destruct (decide (o' = o)) as [->|]; [right; by eexists|left; apply Hbelow; lia].
      * destruct (Hp p' q o' Hq' Ho) as [?|[prog Hjob]]; [by left|]. by rewrite Hj in Hjob.
    + intros p' o' prog [= <- <- <-]. split; [done|]. exists m. split; [done|apply handled_row].
  - pose proof (vdoes_grows _ _ _ _ _ Hd) as Hg. eapply linv_put; [done|exact Hg|done|done|auto|].
    destruct (consumer_moves s (mkSys w (sy_committed s) (<[i := mkConsumer (co_pos c) (Some (p, o, k x))]> (sy_consumers s)) (sy_failed s)) c Hg ltac:(done) (Hget i c Hi)) as [Hp' _].
    destruct (Hget i c Hi) as [_ Hjob]. destruct (Hjob p o _ Hj) as (Hbelow & m & Hm & _ & Hw). split; cbn.
    + intros p' q' o' Hq Ho. destruct (Hp' p' q' o' Hq Ho) as [?|[prog Hp]]; [by left|]. rewrite Hj in Hp. injection Hp as <- <- <-. right. by eexists.
    + intros p' o' prog [= <- <- <-]. split; [intros o' Ho; eapply settled_moves; [exact Hg|done|by apply Hbelow]|]. exists m. split; [done|].
      apply Hw. by exists (sy_world s).
  - destruct (Hget i c Hi) as [_ Hjob]. destruct (Hjob p o _ Hj) as (Hbelow & m & Hm & Hw). cbn in Hw. specialize (Hw eq_refl).
    assert (Hso : forall s'', sy_world s'' = sy_world s -> settled s'' p o).
    { intros s'' Ew. left. intros m' Hm'. rewrite Ew. by replace m' with m by congruence. }
    eapply linv_put; [done..| |by eapply consumer_done; [apply (Hget i c Hi)|..]; [exact Hj|done|done|apply Hso]].
    intros p' o'. unfold committed at 1. cbn. destruct (decide (p' = p)) as [->|Hne]; [|rewrite lookup_insert_ne by done; by left].
    rewrite lookup_insert_eq. cbn. intros Ho. right. destruct (decide (o' = o)) as [->|]; [by apply Hso|].
    eapply (settled_moves s); [done|done|]. apply Hbelow. lia.
  - destruct (Hget i c Hi) as [_ Hjob]. destruct (Hjob p o _ Hj) as (_ & m & Hm & Hw). cbn in Hw. specialize (Hw eq_refl).
    eapply linv_put; [done..|auto|]. eapply consumer_done; [apply (Hget i c Hi)|exact Hj|done|done|]. left. intros m' Hm'. by replace m' with m by congruence.
  - eapply linv_put; [done|done|cbn; set_solver|done|auto|]. eapply consumer_done; [apply (Hget i c Hi)|exact Hj|done|cbn; set_solver|]. right. cbn. set_solver.
  - eapply linv_put; [done..|auto|apply idle_ok].
  - eapply linv_put; [done..|auto|apply idle_ok].
  - assert (Hg : grows (sy_world s) (mkWorld (w_db (sy_world s)) cache (w_published (sy_world s)))) by (by apply same_db_grows).
    split; [intros p o Ho; eapply (settled_moves s); [exact Hg|done|by apply Hcom]|]. intros c Hc. eapply (consumer_moves s); [exact Hg|done|by apply Hcons].
Qed.

Lemma lstep_grows s s' : lstep v log s s' -> grows (sy_world s) (sy_world s').
Proof. destruct 1; cbn; try done; first [by eapply vdoes_grows|by apply same_db_grows]. Qed.

Lemma lreached_inv s : lreached v log s -> linv s.
Proof.
  intros [w Hr]. assert (Hinit : linv (linit w)) by (split; [cbn; unfold committed; cbn; intros p o; rewrite lookup_empty; cbn; lia|by intros c ?%elem_of_nil]).
  revert Hinit. induction Hr as [|s1 s2 s3 Hs _ IH]; [done|]. intros Hinit. apply IH. by eapply linv_step.
Qed.

(** C14: scores are durable.  Any number of consumers handle the status
    messages at the same time, call by call interleaved, with calls that fail
    before or after they took effect, failed commits, rebalances, shutdowns
    and crashes.  Then a session's scored row never changes again; and a
    completed session whose message lies below the committed offset of its
    partition has a row, unless an attempt on that message ended in an error:
    such a message is skipped, and the next commit on the partition passes it. *)
Theorem summary_durable s s' :
  lreached v log s -> rtc (lstep v log) s s' ->
  (forall id row, scored_row (w_db (sy_world s)) id row -> scored_row (w_db (sy_world s')) id row) /\
  (forall p o m, (o < committed s' p)%nat -> log p o = Some (Some m) -> bs_Status m = RunStatusCompleted ->
     is_Some (w_db (sy_world s') !! bs_SessionID m) \/ (p, o) ∈ sy_failed s').
Proof.
  intros [w Hr] Hs. split.
  - assert (Hg : grows (sy_world s) (sy_world s')); [|apply Hg]. clear Hr. induction Hs as [|s1 s2 s3 H1 _ IH]; [done|].
    etrans; [by eapply lstep_grows|done].
  - intros p o m Ho Hm Hc. assert (HI : linv s') by (apply lreached_inv; exists w; by etrans).
    destruct (li_committed _ HI p o Ho) as [Hd|Hf]; [left; by apply (Hd _ Hm)|by right].
Qed.

(** A scored session is not graded again: whatever is delivered, a validation
    of it reads no orders, stores nothing and publishes what the table keeps. *)
Theorem scored_not_regraded id w :
  SummaryStatus (w_db w) id = Some StatusScored ->
  wp (fun _ c w => match c with QSave _ | ReadKafka => False | Publish ev => LoadScore (w_db w) id = Some ev | _ => True end)
     (fun X c w x w' => vdoes X c w x w' /\ match c in vcall X return X -> Prop with QStatus _ => fun x => x = inr (SummaryStatus (w_db w) id) | _ => fun _ => True end x)
     (validateSession v id) w (fun _ w' => w_db w' = w_db w).
Proof.
  intros Hs. apply wp_bind, wp_ask; [done|]. intros x w' [[-> _] Hx]. cbn in Hx. rewrite Hx, Hs, bool_decide_true by done.
  apply wp_bind, wp_ask; [done|]. intros y w' [[-> [->|[err ->]]] _]; [|done]. destruct (LoadScore (w_db w) id) as [ev|] eqn:El; [|done].
  apply wp_ask; [done|]. intros z w' [[[_ ->]|[_ [->| ->]]] _]; done.
Qed.

End Handled.

(** ** Concrete runs *)

Module LoopDemo.

(** Calls answered one after the other; reading Kafka fails when [down]. *)
Definition reply (down : bool) {X} (c : vcall X) (w : World) : X * World :=
  match c in vcall X return X * World with
  | QStatus id => (inr (SummaryStatus (w_db w) id), w)
  | QLoad id => (inr (LoadScore (w_db w) id), w)
  | Settle => (None, w)
  | TakeMeta id => ((GetAndDelete (w_cache w) id).1, mkWorld (w_db w) (GetAndDelete (w_cache w) id).2 (w_published w))
  | ReadKafka => (if down then inl (VFailed "read") else inr [inr demo_broker], w)
  | NowNS => (1722823124745000000, w)
  | QSave rec => (inr (Save (w_db w) rec).2, with_db w (Save (w_db w) rec).1)
  | Publish ev => (None, with_published w ev)
  | Stopping => (false, w)
  end.

Lemma reply_does down X (c : vcall X) w : vdoes X c w (reply down c w).1 (reply down c w).2.
Proof. destruct c; cbn; try done; (by split; [|left]) || by left. Qed.

Fixpoint run_job {A} (down : bool) (p : vprog A) (w : World) : A * World :=
  match p with Ret a => (a, w) | Call c k => run_job down (k (reply down c w).1) (reply down c w).2 end.

Definition completed_msg (id : string) : BenchmarkStatusUpdated := mkStatus id "" "" RunStatusCompleted "" 0.

Definition log (p o : nat) : option (option BenchmarkStatusUpdated) :=
  match p, o with
  | 0%nat, 0%nat => Some (Some (completed_msg "s"))
  | 0%nat, 1%nat => Some (Some (completed_msg "t"))
  | _, _ => None
  end.

Abbreviation step := (@lstep ListTree _ SortSlice_stable MapRange_id demo_validator log).
Abbreviation handle := (@on_status ListTree _ SortSlice_stable MapRange_id demo_validator).

(** One consumer at offset [o] of partition 0 of [s]. *)
Definition at_offset (w : World) (com : gmap nat nat) (failed : list (nat * nat)) (o : nat) (job : option (nat * nat * vprog Outcome)) : Sys :=
  mkSys w com [mkConsumer {[0%nat := o]} job] failed.

Lemma loop_job_runs down com failed o q (p : vprog Outcome) : forall w,
  rtc step (at_offset w com failed o (Some (0%nat, q, p)))
    (at_offset (run_job down p w).2 com failed o (Some (0%nat, q, Ret (run_job down p w).1))).
Proof.
  induction p as [a|X c k IH]; intros w; [apply rtc_refl|]. cbn [run_job]. eapply rtc_l; [|apply (IH (reply down c w).1 (reply down c w).2)].
  exact (LCall demo_validator log (at_offset w com failed o (Some (0%nat, q, Call c k))) 0 _ 0 q X c k _ _ eq_refl eq_refl (reply_does down X c w)).
Qed.

Lemma fetches w com failed o m :
  log 0 o = Some m -> rtc step (at_offset w com failed o None) (at_offset w com failed (S o) (Some (0%nat, o, handle m))).
Proof.
  intros Hm. apply rtc_once.
  exact (LFetch demo_validator log (at_offset w com failed o None) 0 _ 0 o m eq_refl eq_refl eq_refl Hm).
Qed.

(** The message is handled and its offset committed. *)
Lemma commits down w com failed o m :
  log 0 o = Some m -> (run_job down (handle m) w).1 = CommitIt ->
  rtc step (at_offset w com failed o None) (at_offset (run_job down (handle m) w).2 (<[0%nat := S o]> com) failed (S o) None).
Proof.
  intros Hm Hout. etrans; [apply (fetches w com failed o m Hm)|]. etrans; [apply (loop_job_runs down)|]. rewrite Hout. apply rtc_once.
  exact (LCommit demo_validator log (at_offset (run_job down (handle m) w).2 com failed (S o) (Some (0%nat, o, Ret CommitIt))) 0 _ 0 o eq_refl eq_refl).
Qed.

(** The attempt fails and the loop goes on. *)
Lemma skips down w com failed o m :
  log 0 o = Some m -> (run_job down (handle m) w).1 = SkipIt ->
  rtc step (at_offset w com failed o None) (at_offset (run_job down (handle m) w).2 com ((0%nat, o) :: failed) (S o) None).
Proof.
  intros Hm Hout. etrans; [apply (fetches w com failed o m Hm)|]. etrans; [apply (loop_job_runs down)|]. rewrite Hout. apply rtc_once.
  exact (LSkip demo_validator log (at_offset (run_job down (handle m) w).2 com failed (S o) (Some (0%nat, o, Ret SkipIt))) 0 _ 0 o eq_refl eq_refl).
Qed.

Definition w0 : World := mkWorld ∅ ∅ [].

Lemma started : rtc step (linit w0) (at_offset w0 ∅ [] 0 None).
Proof.
  eapply rtc_l; [exact (LStart demo_validator log (linit w0))|]. apply rtc_once.
  exact (LAssign demo_validator log (mkSys w0 ∅ [idle] []) 0 idle 0 eq_refl).
Qed.

Definition w1 : World := (run_job false (handle (Some (completed_msg "s"))) w0).2.
Definition s1 : Sys := at_offset w1 {[0%nat := 1%nat]} [] 1 None.
Definition w2 : World := (run_job true (handle (Some (completed_msg "t"))) w1).2.
Definition s2 : Sys := at_offset w2 {[0%nat := 1%nat]} [(0%nat, 1%nat)] 2 None.

Lemma loop_s1_reached : @lreached ListTree _ SortSlice_stable MapRange_id demo_validator log s1.
Proof. exists w0. etrans; [exact started|]. apply (commits false w0 ∅ [] 0 (Some (completed_msg "s")) eq_refl). vm_compute. reflexivity. Qed.

Lemma s1_to_s2 : rtc step s1 s2.
Proof. apply (skips true w1 {[0%nat := 1%nat]} [] 1 (Some (completed_msg "t")) eq_refl). vm_compute. reflexivity. Qed.

Definition the_row : Row := default (row_of (timeoutRecord "" 0)) (w_db w1 !! "s"%string).

(** The scored row of one session survives the failure of the next. *)
Lemma summary_durable_witness : scored_row (w_db (sy_world s2)) "s" the_row.
Proof.
  apply (@summary_durable ListTree _ SortSlice_stable MapRange_id demo_validator log s1 s2 loop_s1_reached s1_to_s2). split; vm_compute; reflexivity.
Defined.

(** A completed session whose validation fails is committed past by the next
    message of the partition: it has no row, and no delivery is to come. *)
Theorem failed_session_skipped :
  exists s, @lreached ListTree _ SortSlice_stable MapRange_id demo_validator log s /\
    log 0 0 = Some (Some (completed_msg "s")) /\ committed s 0 = 2%nat /\ w_db (sy_world s) !! "s"%string = None /\
    is_Some (w_db (sy_world s) !! "t"%string).
Proof.
  set (w := (run_job true (handle (Some (completed_msg "s"))) w0).2).
  exists (at_offset (run_job false (handle (Some (completed_msg "t"))) w).2 (<[0%nat := 2%nat]> ∅) [(0%nat, 0%nat)] 2 None). split.
  - exists w0. etrans; [exact started|]. etrans; [apply (skips true w0 ∅ [] 0 (Some (completed_msg "s")) eq_refl); vm_compute; reflexivity|].
    apply (commits false w ∅ [(0%nat, 0%nat)] 1 (Some (completed_msg "t")) eq_refl). vm_compute. reflexivity.
  - split; [reflexivity|]. split; [reflexivity|]. split; [vm_compute; reflexivity|]. vm_compute. by eexists.
Qed.

End LoopDemo.
