(* ===== verification/CountBounds.v ===== *)
(** * Counters that do not wrap

    In both modes the violation counters of a report are bounded by what the
    session handed over: for any session that fits in memory they are exact
    numbers, not numbers modulo 2^64, and the cancel-replace losses are among
    the time violations. *)

From stdpp Require Import prelude gmap strings list sorting.
From S2P Require Import Prelude GoSort Float64 Model Book Replay Report StreamVal StreamProps Invariants InvProps Topics Pipeline Source Service.

Open Scope Z_scope.

(** ** Reports *)

Definition counters (r : Report) : list Z :=
  [rp_Overfills r; rp_PriceViolations r; rp_TimeViolations r; rp_SelfTrades r; rp_MissedFills r; rp_LostOrders r; rp_LostCancels r;
   rp_PhantomFills r; rp_CancelReplaceLosses r].

(** At most [n] violations and phantom fills, counted exactly. *)
Record tame (n : Z) (r : Report) : Prop := {
  tm_pos : Forall (fun x => 0 <= x) (counters r);
  tm_sum : classes r + rp_PhantomFills r <= n;
  tm_crl : rp_CancelReplaceLosses r <= rp_TimeViolations r;
  tm_total : rp_totalViolations r = classes r }.

Lemma tame_quiet n m r r' : tame n r -> counters r' = counters r -> rp_totalViolations r' = rp_totalViolations r -> n <= m -> tame m r'.
Proof.
  intros [Hp Hs Hc Ht] E Et Hnm. unfold counters in *. injection E as E1 E2 E3 E4 E5 E6 E7 E8 E9.
  split; unfold classes, counters in *; rewrite ?E1, ?E2, ?E3, ?E4, ?E5, ?E6, ?E7, ?E8, ?E9, ?Et; [done|lia|done|done].
Qed.

Lemma tame_more n m r : tame n r -> n <= m -> tame m r.
Proof. intros Ht. by apply (tame_quiet n m r r Ht). Qed.

Lemma radd_counters t id q p d r :
  counters (radd t id q p d r) = counters r /\ rp_totalViolations (radd t id q p d r) = inc (rp_totalViolations r).
Proof. unfold radd, MarkDirty. case_decide; cbn; by destruct (_ <=? _). Qed.

(** One more violation, its class counted. *)
Lemma tame_radd n t id q p d r r1 :
  tame n r -> n + 1 < 2 ^ 64 -> rp_totalViolations r1 = rp_totalViolations r -> Forall (fun x => 0 <= x) (counters r1) ->
  classes r1 = classes r + 1 -> rp_PhantomFills r1 = rp_PhantomFills r -> rp_CancelReplaceLosses r1 <= rp_TimeViolations r1 ->
  tame (n + 1) (radd t id q p d r1).
Proof.
  intros [Hp Hs Hc Ht] Hn Et Hp1 Hcl Hph Hcrl. destruct (radd_counters t id q p d r1) as [E Etot]. pose proof Hp1 as Hp2.
  unfold counters in Hp, Hp2, E. rewrite !Forall_cons in Hp. injection E as E1 E2 E3 E4 E5 E6 E7 E8 E9.
  assert (Ecl : classes (radd t id q p d r1) = classes r1) by (unfold classes; congruence).
  split; [unfold counters; by rewrite E1, E2, E3, E4, E5, E6, E7, E8, E9|rewrite Ecl, E8; lia|by rewrite E9, E3|].
  rewrite Etot, Ecl, Et, Ht, Hcl. unfold inc. apply u64_small. unfold classes in *. lia.
Qed.

Ltac tame_class :=
  match goal with Ht : tame ?n ?r |- _ => eapply (tame_radd n _ _ _ _ _ r); [exact Ht|lia|done|..] end;
  match goal with Ht : tame _ _ |- _ => destruct Ht as [Hp Hs Hc _] end; unfold counters in *; rewrite !Forall_cons in *;
  unfold classes in *; cbn -[inc u64]; unfold inc; rewrite ?u64_small by lia; try split_and!; try done; try lia.

(** ** Full mode *)

Section Full.
Context {T : Type} `{!BTreeG T} `{!SortSlice} `{!MapRange}.
Implicit Types (v : StreamValidator T).

Lemma tame_flagJump n (e : Engine T) o j q p r : n + 1 < 2 ^ 64 -> tame n r -> tame (n + 1) (flagJump e o j q p r).
Proof. intros Hn Ht. unfold flagJump. destruct (Repriced _ _); tame_class. Qed.

Lemma tame_classify n v o price q d r : n + 1 < 2 ^ 64 -> tame n r -> tame (n + 1) (classifyUnexplained v o price q d r).
Proof.
  intros Hn Ht. unfold classifyUnexplained. destruct (selfMatchedAgainstBook _ _ _); [tame_class|].
  destruct (queueJump _ _ _); [by apply tame_flagJump|tame_class].
Qed.

Lemma tame_response n v o ref cum r resp : n + 1 < 2 ^ 64 -> tame n r -> tame (n + 1) (scoreResponse v o ref (cum, r) resp).2.
Proof.
  intros Hn Ht. unfold scoreResponse. destruct (negb _); [by apply (tame_more n); [|lia]|]. cbn [snd].
  assert (Ht1 : tame n (set_TotalFills (inc (rp_TotalFills r)) r)) by (by apply (tame_quiet n n r)). clear Ht. revert Ht1.
  generalize (set_TotalFills (inc (rp_TotalFills r)) r) as r1. intros r1 Ht1.
  destruct (_ <? _); [tame_class|]. destruct ref as [rf|]; [|by apply tame_classify].
  destruct (negb _); [by apply tame_classify|]. destruct (_ <? _); [by apply tame_classify|]. by eapply tame_quiet; [exact Ht1|..|lia].
Qed.

Lemma tame_responses n v o ref resps : forall cum r, n + Z.of_nat (length resps) < 2 ^ 64 -> tame n r ->
  tame (n + Z.of_nat (length resps)) (foldl (scoreResponse v o ref) (cum, r) resps).2.
Proof.
  revert n. induction resps as [|resp resps IH]; intros n cum r Hn Ht; [by apply (tame_more n); [|cbn; lia]|]. cbn [foldl length] in *.
  pose proof (tame_response n v o ref cum r resp ltac:(lia) Ht) as H1. destruct (scoreResponse v o ref (cum, r) resp) as [cum' r'].
  apply (tame_more (n + 1 + Z.of_nat (length resps))); [|lia]. apply IH; [lia|exact H1].
Qed.

(** What grading an order can add. *)
Definition weight (o : order_ref) : Z := Z.of_nat (length (o_Responses (op_o o))) + 1.

Lemma tame_scoreOrder n v (o : order_ref) ref :
  n + weight o < 2 ^ 64 -> tame n (sv_rep v) -> tame (n + weight o) (scoreOrder v (op_o o) ref).2.
Proof.
  unfold weight. intros Hn Ht. unfold scoreOrder. pose proof (tame_responses n v (op_o o) ref (o_Responses (op_o o)) 0 _ ltac:(lia) Ht) as H1.
  destruct (foldl _ _ _) as [cum r]. cbn [snd] in H1. clear Ht. rewrite Z.add_assoc.
  destruct ref as [rf|]; [destruct (_ <? _)|]; cbn [snd]; [tame_class|by eapply tame_more; [exact H1|lia]..].
Qed.

(** The orders still to be graded. *)
Definition owed (m : gmap string order_ref) : Z := sumZ (map (fun kv => weight kv.2) (map_to_list m)).

Lemma owed_delete m id o : m !! id = Some o -> owed m = weight o + owed (delete id m).
Proof. intros Hm. unfold owed. rewrite <-(sumZ_perm _ _ (Permutation_map _ (map_to_list_delete m id o Hm))). done. Qed.

Lemma owed_pos m : 0 <= owed m.
Proof.
  unfold owed. generalize (map_to_list m) as l. induction l as [|kv l IH]; [done|]. unfold sumZ, weight in *. cbn. lia.
Qed.

Lemma owed_insert m id o : owed (<[id := o]> m) <= owed m + weight o.
Proof.
  rewrite (owed_delete (<[id := o]> m) id o) by apply lookup_insert_eq. rewrite delete_insert_eq.
  destruct (m !! id) as [o'|] eqn:E; [rewrite (owed_delete m id o' E); unfold weight; lia|rewrite delete_id by done; lia].
Qed.

(** Of a budget, what is not owed has been spent at most. *)
Definition within (b : Z) v : Prop := tame (b - owed (sv_pending v)) (sv_rep v).

Lemma within_finalize b v id : b < 2 ^ 64 -> within b v -> within b (finalize v id).
Proof.
  unfold within, finalize. intros Hb Ht. destruct (sv_pending v !! id) as [o|] eqn:Eo; [|done]. cbn. set (v1 := set_ref _ _).
  pose proof (owed_pos (delete id (sv_pending v))) as Hpos. rewrite (owed_delete _ _ _ Eo) in Ht.
  set (rest := owed (delete id (sv_pending v))) in *. assert (Hlt : b - (weight o + rest) + weight o < 2 ^ 64) by lia.
  pose proof (tame_scoreOrder (b - (weight o + rest)) v1 o (sv_ref v !! id) Hlt Ht) as Hs.
  destruct (scoreOrder v1 (op_o o) (sv_ref v !! id)) as [sh r]. cbn in Hs.
  replace (b - _ + _) with (b - rest) in Hs by lia.
  destruct sh; [destruct (SeqOf _ _)|]; exact Hs.
Qed.

Lemma within_finalizes {A} b (f : A -> string) l : b < 2 ^ 64 -> forall v, within b v -> within b (foldl (fun v x => finalize v (f x)) v l).
Proof. intros Hb. induction l as [|x l IH]; intros v Hv; [done|]. cbn. by apply IH, within_finalize. Qed.

(** What a call to the validator can add. *)
Definition call_weight (c : SinkCall) : Z :=
  match c with CApply _ o => Z.of_nat (length (o_Responses o)) + 3 | CPhantom _ _ _ | CLost _ _ => 1 | CGap => 0 end.

Lemma within_callback b v c : b + call_weight c < 2 ^ 64 -> within b v -> within (b + call_weight c) (full_callback v c).
Proof.
  intros Hb Hv. unfold within in *. pose proof (owed_pos (sv_pending v)) as Hpos. destruct c as [p o|id q pr|id kind|]; cbn [full_callback call_weight] in *.
  - rewrite Apply_ingest. cbv zeta. set (o' := mkORef p o). fold (within (b + (Z.of_nat (length (o_Responses o)) + 3)) (ingest v o').1).
    assert (Hi : within (b + (Z.of_nat (length (o_Responses o)) + 3)) (ingest v o').1).
    { unfold within. cbn [ingest fst sv_pending sv_rep]. pose proof (owed_insert (sv_pending v) (o_OrderID (op_o o')) o') as Ho. unfold weight in Ho. cbn in Ho.
      eapply tame_quiet; [exact Hv|done|done|]. cbn. lia. }
    pose proof (within_finalizes _ (fun x => x) (ingest v o').2 Hb _ Hi) as Hf. destruct (_ && _); [by apply within_finalize|exact Hf].
  - cbn. destruct Hv as [Hp Hs Hc Ht]. unfold counters in Hp. rewrite !Forall_cons in Hp.
    split; unfold counters, classes in *; cbn -[u64]; unfold inc; rewrite ?u64_small by lia; [rewrite !Forall_cons; split_and!; try done; lia|lia|done|done].
  - unfold AddLost. cbn [set_rep sv_pending sv_rep]. set (r0 := set_ScoredOrders _ _).
    assert (Hinit : tame (b - owed (sv_pending v)) r0) by (by eapply tame_quiet; [exact Hv|..]). clear Hv. clearbody r0.
    replace (b + 1 - owed (sv_pending v)) with (b - owed (sv_pending v) + 1) by lia. unfold addLostViolation, countLost.
    destruct (bool_decide _); tame_class.
  - rewrite Z.add_0_r. exact Hv.
Qed.

Definition handed (cs : list SinkCall) : Z := sumZ (map call_weight cs).

Lemma handed_cons c cs : handed (c :: cs) = call_weight c + handed cs.
Proof. done. Qed.

Lemma handed_pos cs : 0 <= handed cs.
Proof. induction cs as [|c cs IH]; [done|]. rewrite handed_cons. destruct c; cbn; lia. Qed.

Lemma within_callbacks cs : forall b v, b + handed cs < 2 ^ 64 -> within b v -> within (b + handed cs) (foldl full_callback v cs).
Proof.
  induction cs as [|c cs IH]; intros b v Hb Hv; [change (handed []) with 0; by rewrite Z.add_0_r|]. rewrite handed_cons in *.
  pose proof (handed_pos cs) as Hpos. rewrite Z.add_assoc in *. cbn [foldl]. apply IH; [done|]. apply within_callback; [lia|done].
Qed.

Lemma captureTaint_counters g t r :
  counters (captureTaint g t r) = counters r /\ rp_totalViolations (captureTaint g t r) = rp_totalViolations r.
Proof. unfold captureTaint. by destruct (_ && _). Qed.

Lemma full_tame cs : handed cs < 2 ^ 64 -> tame (handed cs) (full_report (T := T) cs).
Proof.
  intros Hb. unfold full_report. assert (Hinit : within 0 (NewStreamValidator (T := T))).
  { unfold within. cbn. split; [by repeat constructor|done|done|done]. }
  pose proof (within_callbacks cs 0 _ Hb Hinit) as Hw. rewrite Z.add_0_l in Hw. set (v := foldl full_callback _ cs) in *. unfold sv_Finish. cbn.
  set (rest := sort_slice _ _). pose proof (within_finalizes _ (fun o => o_OrderID (op_o o)) rest Hb _ Hw) as Hf.
  set (v' := foldl _ v rest) in *. destruct (captureTaint_counters (sv_captureGaps v') "the score" (set_ScoredFills (rp_TotalFills (sv_rep v')) (sv_rep v'))) as [E1 E2].
  eapply tame_quiet; [exact Hf|by rewrite E1|by rewrite E2|]. pose proof (owed_pos (sv_pending v')). lia.
Qed.

End Full.

(** ** Invariants mode *)

Lemma tame_emit n v rec : n + 2 < 2 ^ 64 -> tame n (iv_rep v) -> tame (n + 2) (iv_rep (onEmit v rec)).
Proof.
  intros Hn Ht. unfold onEmit. assert (H1 : tame (n + 1) (fifoCheck v rec (iv_rep v))).
  { unfold fifoCheck. destruct (_ && _); [|by apply (tame_more n); [|lia]]. revert Ht. generalize (iv_rep v) as r. intros r Ht. tame_class. }
  clear Ht. revert H1. generalize (fifoCheck v rec (iv_rep v)) as r. intros r H1. unfold crossCheck. replace (n + 2) with (n + 1 + 1) by lia.
  assert (Hmore : tame (n + 1 + 1) r) by (by apply (tame_more (n + 1)); [|lia]).
  destruct (cand _ _) as [c [|]]; [|exact Hmore]. destruct (CrossFlowPredicate _ _ _) as [[[|] [|]] jn]; cbn [iv_rep]; try exact Hmore.
  clear Hmore. tame_class.
Qed.

Lemma tame_emits recs : forall n v, n + 2 * Z.of_nat (length recs) < 2 ^ 64 -> tame n (iv_rep v) ->
  tame (n + 2 * Z.of_nat (length recs)) (iv_rep (foldl onEmit v recs)).
Proof.
  induction recs as [|rec recs IH]; intros n v Hn Ht; [by apply (tame_more n); [|cbn; lia]|]. cbn [foldl length] in *.
  apply (tame_more (n + 2 + 2 * Z.of_nat (length recs))); [|lia]. apply IH; [lia|]. apply tame_emit; [lia|done].
Qed.

Lemma tame_ownQty o rs : forall n cum r, n + Z.of_nat (length rs) < 2 ^ 64 -> tame n r ->
  tame (n + Z.of_nat (length rs)) (foldl (ownQtyCheck o) (cum, r) rs).2.
Proof.
  induction rs as [|resp rs IH]; intros n cum r Hn Ht; [by apply (tame_more n); [|cbn; lia]|]. cbn [foldl length] in *.
  replace (n + Z.of_nat (S (length rs))) with (n + 1 + Z.of_nat (length rs)) in * by lia.
  unfold ownQtyCheck at 2. destruct (isFill _ _); cbn [negb]; (apply IH; [done|]).
  - assert (Ht1 : tame n (set_TotalFills (inc (rp_TotalFills r)) r)) by (by apply (tame_quiet n n r)). clear Ht. revert Ht1.
    generalize (set_TotalFills (inc (rp_TotalFills r)) r) as r1. intros r1 Ht1. destruct (_ <? _); [tame_class|]. by eapply tame_quiet; [exact Ht1|..|lia].
  - by apply (tame_more n); [|lia].
Qed.

Lemma minT7_counters cap o rs : forall best r,
  counters (foldl (minT7 cap o) (best, r) rs).2 = counters r /\ rp_totalViolations (foldl (minT7 cap o) (best, r) rs).2 = rp_totalViolations r.
Proof.
  induction rs as [|resp rs IH]; intros best r; [done|]. cbn [foldl]. unfold minT7 at 2 4. destruct (_ =? _); [apply IH|].
  destruct (_ || _); [|apply IH]. destruct (IH best (set_T7Anomalies (inc (rp_T7Anomalies r)) r)) as [-> ->]. done.
Qed.

Lemma t7_release_length n w w' out : t7_release n w = (w', out) -> (length out + length (t7_buf w') = length (t7_buf w))%nat.
Proof.
  unfold t7_release. destruct (_ || _); [by intros [= <- <-]|]. set (k := if _ <? n then _ else _). destruct (foldl t7_mark _ _) as [wm st].
  intros [= <- <-]. cbn. rewrite <-length_app, take_drop. apply Permutation_length, sortInvRecs_perm.
Qed.

Lemma t7_push_length w rec w' out late : t7_push w rec = (w', out, late) -> (length out + length (t7_buf w') <= S (length (t7_buf w)))%nat.
Proof.
  unfold t7_push. destruct (_ && _); [intros [= <- <- <-]; cbn; lia|]. set (w1 := mkT7 _ _ _ _).
  assert (Hl : length (t7_buf w1) = S (length (t7_buf w))) by (cbn; rewrite length_app; cbn; lia).
  destruct (_ <=? _); [|intros [= <- <- <-]; rewrite Hl; cbn; lia]. destruct (t7_release _ w1) as [w2 out2] eqn:E. intros [= <- <- <-].
  apply t7_release_length in E. lia.
Qed.

(** The buffered records are still to be checked, twice each. *)
Definition iv_within (b : Z) (v : InvariantsValidator) : Prop := tame (b - 2 * Z.of_nat (length (t7_buf (iv_win v)))) (iv_rep v).

Lemma tame_lost n id kind r r' :
  r' = countLost kind (addLostViolation id kind r) \/ r' = addLostViolation id kind (countLost kind r) ->
  n + 1 < 2 ^ 64 -> tame n r -> tame (n + 1) r'.
Proof.
  intros Hr' Hn Ht. unfold addLostViolation in Hr'. set (d := "order/cancel sent but never received any response"%string) in *.
  assert (Hcomm : countLost kind (radd (lostViolationType kind) id 0 0 d r) = radd (lostViolationType kind) id 0 0 d (countLost kind r)).
  { unfold countLost, radd, MarkDirty. destruct (bool_decide (kind = Cancel)); simpl; case_decide; simpl; by destruct (_ <=? _). }
  assert (Hr : r' = radd (lostViolationType kind) id 0 0 d (countLost kind r)) by (destruct Hr' as [->| ->]; [exact Hcomm|reflexivity]).
  rewrite Hr. unfold countLost. destruct (bool_decide _); tame_class.
Qed.

Lemma iv_within_apply b v o : b + (Z.of_nat (length (o_Responses o)) + 3) < 2 ^ 64 -> iv_within b v ->
  iv_within (b + (Z.of_nat (length (o_Responses o)) + 3)) (iv_Apply v o).
Proof.
  intros Hb Hv. unfold iv_within in *. set (buf := Z.of_nat (length (t7_buf (iv_win v)))) in *. set (n := Z.of_nat (length (o_Responses o))) in *.
  unfold iv_Apply. pose proof (tame_ownQty o (o_Responses o) (b - 2 * buf) 0 (iv_rep v) ltac:(lia) Hv) as H1. fold n in H1.
  destruct (foldl (ownQtyCheck o) _ _) as [cum r1]. cbn [snd] in H1. pose proof (minT7_counters (iv_anomalyCapNs v) o (o_Responses o) None r1) as [E1 E2].
  destruct (foldl (minT7 _ o) _ _) as [best r2]. cbn [snd] in E1, E2.
  assert (H2 : tame (b - 2 * buf + n) r2) by (by eapply tame_quiet; [exact H1|..]). clear H1 E1 E2 Hv. destruct best as [t|].
  - destruct (t7_push (iv_win (iv_set_applied _ (iv_set_rep r2 v))) _) as [[w out] late] eqn:Ep. apply t7_push_length in Ep. cbn in Ep.
    set (v1 := if late then _ else _). assert (H3 : tame (b - 2 * buf + n) (iv_rep v1)) by (unfold v1; destruct late; [by eapply tame_quiet; [exact H2|..]|exact H2]).
    assert (Hbuf : forall l v0, iv_win (foldl onEmit v0 l) = iv_win v0).
    { induction l as [|rec l IH]; intros v0; [done|]. cbn. rewrite IH. unfold onEmit. by destruct (crossCheck _ _ _ _). }
    rewrite Hbuf. cbn [iv_win iv_set_win]. pose proof (tame_emits out (b - 2 * buf + n) (iv_set_win w v1) ltac:(lia) H3) as H4. eapply tame_more; [exact H4|]. lia.
  - cbn [iv_win iv_rep iv_set_rep]. fold buf. eapply tame_more; [|]. { eapply (tame_lost (b - 2 * buf + n)); [by left|lia|exact H2]. } lia.
Qed.

Lemma iv_within_callback b v c : b + call_weight c < 2 ^ 64 -> iv_within b v -> iv_within (b + call_weight c) (inv_callback v c).
Proof.
  intros Hb Hv. destruct c as [p o|id q pr|id kind|]; cbn [inv_callback call_weight] in *.
  - by apply iv_within_apply.
  - unfold iv_within in *. cbn [iv_set_rep AddUnmatched iv_win iv_rep] in *. destruct Hv as [Hp Hs Hc Ht]. unfold counters in Hp. rewrite !Forall_cons in Hp.
    split; unfold counters, classes in *; cbn -[u64]; unfold inc; rewrite ?u64_small by lia; [rewrite !Forall_cons; split_and!; try done; lia|lia|done|done].
  - unfold iv_within in *. cbn [iv_AddLost iv_set_rep iv_win iv_rep] in *. replace (b + 1 - _) with (b - 2 * Z.of_nat (length (t7_buf (iv_win v))) + 1) by lia.
    eapply tame_lost; [by right|lia|exact Hv].
  - rewrite Z.add_0_r. exact Hv.
Qed.

Lemma iv_within_callbacks cs : forall b v, b + handed cs < 2 ^ 64 -> iv_within b v -> iv_within (b + handed cs) (foldl inv_callback v cs).
Proof.
  induction cs as [|c cs IH]; intros b v Hb Hv; [change (handed []) with 0; by rewrite Z.add_0_r|]. rewrite handed_cons in *.
  pose proof (handed_pos cs) as Hpos. rewrite Z.add_assoc in *. cbn [foldl]. apply IH; [done|]. apply iv_within_callback; [lia|done].
Qed.

Lemma inv_tame v cs : handed cs < 2 ^ 64 -> tame (handed cs) (inv_report v cs).
Proof.
  intros Hb. unfold inv_report. set (v0 := SetLateTaintRate _ _). assert (Hinit : iv_within 0 v0).
  { unfold iv_within, v0, SetLateTaintRate, SetT7AnomalyCapNs. destruct (fltb _ _), (_ <? _); cbn; (split; [by repeat constructor|done..]). }
  pose proof (iv_within_callbacks cs 0 v0 Hb Hinit) as Hw. rewrite Z.add_0_l in Hw. set (v1 := foldl inv_callback v0 cs) in *. unfold iv_Finish.
  destruct (t7_flush (iv_win v1)) as [w out] eqn:Ef. apply t7_release_length in Ef. unfold iv_within in Hw.
  pose proof (tame_emits out (handed cs - 2 * Z.of_nat (length (t7_buf (iv_win v1)))) (iv_set_win w v1) ltac:(lia) Hw) as He. set (v2 := foldl onEmit _ out) in *. cbn [snd].
  match goal with |- tame _ (captureTaint ?g ?t ?r) => destruct (captureTaint_counters g t r) as [E1 E2] end.
  eapply tame_quiet; [exact He|rewrite E1; by destruct (_ && _)|rewrite E2; by destruct (_ && _)|lia].
Qed.
