(* ===== verification/Scenarios.v ===== *)
(** * submission-api: [internal/scenarios/builder.go]

    The four benchmark scenarios as lists of bot tasks, built from the
    configured budgets.  A [time.Duration] is its [int64] of nanoseconds;
    counts and rates are [uint32].  The UUID generator (google/uuid) is a
    parameter: the results of the four calls of [newUUID]. *)

From Stdlib Require Import Ascii.
From stdpp Require Import prelude gmap strings list.
From S2P Require Import Prelude Topics.

Open Scope Z_scope.

Definition rpsPerHFT : Z := 1000.
Definition rpsPerRetail : Z := 5.
Definition rpsPerInstitutional : Z := 300.
Definition rampWaveCount : Z := 9.
Definition sec : Z := 1000000000.
Definition rampWaveCadence : Z := 20 * sec.
Definition correctnessSMPIDCount : Z := 8.

Record ScenarioConfig := mkScenarioConfig {
  ConstantDuration : Z; SpikeDuration : Z; RampDuration : Z; CorrectnessDuration : Z;
  ConstantTotalRPS : Z; SpikePeakRPS : Z; RampPeakRPS : Z;
  SpikePreWindow : Z; SpikeBurstWindow : Z;
  MixHFTPct : Z; MixRetailPct : Z; MixInstitutionalPct : Z;
  HFTMarketPct : Z; HFTCancelPct : Z; HFTReplacePct : Z;
  RetailMarketPct : Z; RetailCancelPct : Z; RetailReplacePct : Z;
  InstitutionalMarketPct : Z; InstitutionalCancelPct : Z; InstitutionalReplacePct : Z }.

Definition DefaultConfig : ScenarioConfig :=
  mkScenarioConfig (60 * sec) (60 * sec) (180 * sec) (45 * sec) 10000 50000 90000 (25 * sec) (10 * sec)
    60 25 15 10 30 10 65 5 0 20 0 0.

(** ** Environment overrides *)

(** [strconv.ParseUint(v, 10, bits)]: decimal digits only, within range. *)
Fixpoint parse_digits (acc : Z) (s : string) : option Z :=
  match s with
  | EmptyString => Some acc
  | String c s =>
      let n := Z.of_N (Ascii.N_of_ascii c) in
      if (48 <=? n) && (n <=? 57) then parse_digits (acc * 10 + (n - 48)) s else None
  end.

Definition ParseUint (s : string) (bits : Z) : option Z :=
  match s with
  | EmptyString => None
  | _ => match parse_digits 0 s with
         | Some n => if n <? 2 ^ bits then Some n else None
         | None => None
         end
  end.

(** [strconv.Atoi]: an optional sign, then decimal digits, within [int64]. *)
Definition Atoi (s : string) : option Z :=
  let '(neg, digits) := match s with
                        | String c s' => if Ascii.eqb c "-"%char then (true, s')
                                         else if Ascii.eqb c "+"%char then (false, s') else (false, s)
                        | EmptyString => (false, s)
                        end in
  match digits with
  | EmptyString => None
  | _ => match parse_digits 0 digits with
         | Some n => let z := if neg : bool then - n else n in
                     if (- 2 ^ 63 <=? z) && (z <? 2 ^ 63) then Some z else None
         | None => None
         end
  end.

(** [v] is the value of the variable, empty when unset. *)
Definition envSeconds (v : string) (def : Z) : Z :=
  if bool_decide (v = ""%string) then def
  else match Atoi v with
       | Some n => if n <=? 0 then def else i64 (n * sec)
       | None => def
       end.

Definition envUint32 (v : string) (def : Z) : Z :=
  if bool_decide (v = ""%string) then def
  else match ParseUint v 32 with
       | Some n => if n =? 0 then def else n
       | None => def
       end.

Definition envUint8 (v : string) (def : Z) : Z :=
  if bool_decide (v = ""%string) then def
  else match ParseUint v 8 with Some n => n | None => def end.

(** [Getenv] is [os.Getenv]. *)
Definition ConfigFromEnv (Getenv : string -> string) : ScenarioConfig :=
  let c := DefaultConfig in
  mkScenarioConfig
    (envSeconds (Getenv "CONSTANT_DURATION_S"%string) (ConstantDuration c))
    (envSeconds (Getenv "SPIKE_DURATION_S"%string) (SpikeDuration c))
    (envSeconds (Getenv "RAMP_DURATION_S"%string) (RampDuration c))
    (envSeconds (Getenv "CORRECTNESS_DURATION_S"%string) (CorrectnessDuration c))
    (envUint32 (Getenv "CONSTANT_TOTAL_RPS"%string) (ConstantTotalRPS c))
    (envUint32 (Getenv "SPIKE_PEAK_RPS"%string) (SpikePeakRPS c))
    (envUint32 (Getenv "RAMP_PEAK_RPS"%string) (RampPeakRPS c))
    (envSeconds (Getenv "SPIKE_PREWINDOW_S"%string) (SpikePreWindow c))
    (envSeconds (Getenv "SPIKE_BURST_S"%string) (SpikeBurstWindow c))
    (envUint32 (Getenv "MIX_HFT_PCT"%string) (MixHFTPct c))
    (envUint32 (Getenv "MIX_RETAIL_PCT"%string) (MixRetailPct c))
    (envUint32 (Getenv "MIX_INSTITUTIONAL_PCT"%string) (MixInstitutionalPct c))
    (envUint8 (Getenv "HFT_MARKET_PCT"%string) (HFTMarketPct c))
    (envUint8 (Getenv "HFT_CANCEL_PCT"%string) (HFTCancelPct c))
    (envUint8 (Getenv "HFT_REPLACE_PCT"%string) (HFTReplacePct c))
    (envUint8 (Getenv "RETAIL_MARKET_PCT"%string) (RetailMarketPct c))
    (envUint8 (Getenv "RETAIL_CANCEL_PCT"%string) (RetailCancelPct c))
    (envUint8 (Getenv "RETAIL_REPLACE_PCT"%string) (RetailReplacePct c))
    (envUint8 (Getenv "INSTITUTIONAL_MARKET_PCT"%string) (InstitutionalMarketPct c))
    (envUint8 (Getenv "INSTITUTIONAL_CANCEL_PCT"%string) (InstitutionalCancelPct c))
    (envUint8 (Getenv "INSTITUTIONAL_REPLACE_PCT"%string) (InstitutionalReplacePct c)).

(** ** Validation *)

Inductive ConfigError :=
  | DurationsNotPositive | BudgetsNotPositive | PeakBelowBaseline | BurstExceedsSpike
  | RampTooShort | MixNotHundred (sum : Z) | ActionPctOutOfRange (pct : Z) | UUIDFailed (err : string).

Definition action_pcts (c : ScenarioConfig) : list Z :=
  [HFTMarketPct c; HFTCancelPct c; HFTReplacePct c; RetailMarketPct c; RetailCancelPct c; RetailReplacePct c;
   InstitutionalMarketPct c; InstitutionalCancelPct c; InstitutionalReplacePct c].

Definition config_validate (c : ScenarioConfig) : option ConfigError :=
  if (ConstantDuration c <=? 0) || (SpikeDuration c <=? 0) || (RampDuration c <=? 0) || (CorrectnessDuration c <=? 0)
  then Some DurationsNotPositive
  else if (ConstantTotalRPS c =? 0) || (SpikePeakRPS c =? 0) || (RampPeakRPS c =? 0) then Some BudgetsNotPositive
  else if SpikePeakRPS c <? ConstantTotalRPS c then Some PeakBelowBaseline
  else if SpikeDuration c <? i64 (SpikePreWindow c + SpikeBurstWindow c) then Some BurstExceedsSpike
  else if RampDuration c <=? (rampWaveCount - 1) * rampWaveCadence then Some RampTooShort
  else let sum := MixHFTPct c +u32 MixRetailPct c +u32 MixInstitutionalPct c in
  if negb (sum =? 100) then Some (MixNotHundred sum)
  else ActionPctOutOfRange <$> List.find (fun pct => 100 <? pct) (action_pcts c).

(** ** Tasks *)

(** Bots of each profile, and the rate they realise. *)
Definition botCountsForBudget (cfg : ScenarioConfig) (totalRPS : Z) : Z * Z * Z * Z :=
  let hft := (u32 (totalRPS * MixHFTPct cfg) / 100) / rpsPerHFT in
  let retail := (u32 (totalRPS * MixRetailPct cfg) / 100) / rpsPerRetail in
  let inst := (u32 (totalRPS * MixInstitutionalPct cfg) / 100) / rpsPerInstitutional in
  (hft, retail, inst, u32 (hft * rpsPerHFT) +u32 u32 (retail * rpsPerRetail) +u32 u32 (inst * rpsPerInstitutional)).

(** One loop of [buildLayer]: [n] bots with consecutive ids from [id]. *)
Definition bots (profile : string) (rps market cancel replace startOffset duration id n : Z) : list TaskSpec :=
  map (fun i => {| ts_TaskID := u32 (id + i); ts_Profile := profile; ts_TargetRPS := rps;
                   ts_StartOffsetNs := u64 startOffset; ts_DurationNs := u64 duration;
                   ts_MarketPct := market; ts_CancelPct := cancel; ts_ReplacePct := replace;
                   ts_TargetIdx := 0; ts_SMPIDCount := 0 |}) (seqZ 0 n).

Definition buildLayer (cfg : ScenarioConfig) (startTaskID startOffset duration hftBots retailBots institutionalBots : Z)
    : list TaskSpec :=
  let id1 := u32 (startTaskID + hftBots) in
  let id2 := u32 (id1 + retailBots) in
  bots "hft" rpsPerHFT (HFTMarketPct cfg) (HFTCancelPct cfg) (HFTReplacePct cfg)
    startOffset duration startTaskID hftBots ++
  bots "retail" rpsPerRetail (RetailMarketPct cfg) (RetailCancelPct cfg) (RetailReplacePct cfg)
    startOffset duration id1 retailBots ++
  bots "institutional" rpsPerInstitutional (InstitutionalMarketPct cfg) (InstitutionalCancelPct cfg)
    (InstitutionalReplacePct cfg) startOffset duration id2 institutionalBots.

Definition buildConstantTasks (cfg : ScenarioConfig) (startTaskID startOffset duration totalRPS : Z) : list TaskSpec :=
  let '(hft, retail, inst, _) := botCountsForBudget cfg totalRPS in
  buildLayer cfg startTaskID startOffset duration hft retail inst.

Definition buildSpikeTasks (cfg : ScenarioConfig) : list TaskSpec :=
  let baseline := buildConstantTasks cfg 0 0 (SpikeDuration cfg) (ConstantTotalRPS cfg) in
  let '(extraHFT, extraRetail, extraInst, _) := botCountsForBudget cfg (SpikePeakRPS cfg -u32 ConstantTotalRPS cfg) in
  baseline ++ buildLayer cfg (u32 (Z.of_nat (length baseline))) (SpikePreWindow cfg) (SpikeBurstWindow cfg)
                extraHFT extraRetail extraInst.

(** One wave of the ramp, appended to the tasks so far. *)
Definition addWave (cfg : ScenarioConfig) (out : list TaskSpec) (wave : Z) : list TaskSpec :=
  let startOffset := wave * rampWaveCadence in
  let duration := RampDuration cfg - startOffset in
  if duration <=? 0 then out
  else let '(hft, retail, inst, _) := botCountsForBudget cfg (RampPeakRPS cfg / rampWaveCount) in
       out ++ buildLayer cfg (u32 (Z.of_nat (length out))) startOffset duration hft retail inst.

Definition buildRampTasks (cfg : ScenarioConfig) : list TaskSpec := foldl (addWave cfg) [] (seqZ 0 rampWaveCount).

Definition buildCorrectnessTasks (cfg : ScenarioConfig) : list TaskSpec :=
  [{| ts_TaskID := 0; ts_Profile := "hft"; ts_TargetRPS := 0; ts_StartOffsetNs := 0;
      ts_DurationNs := u64 (CorrectnessDuration cfg); ts_MarketPct := HFTMarketPct cfg;
      ts_CancelPct := HFTCancelPct cfg; ts_ReplacePct := HFTReplacePct cfg; ts_TargetIdx := 0;
      ts_SMPIDCount := correctnessSMPIDCount |}].

Record ScenarioRow := mkScenarioRow {
  sr_ScenarioID : string; sr_Name : string; sr_SortOrder : Z; sr_DurationNs : Z; sr_TaskSpecs : list TaskSpec }.

(** [uuids] are the results of the four [newUUID] calls, in order. *)
Definition BuildAll (cfg : ScenarioConfig) (uuids : (string + string) * (string + string) * (string + string) * (string + string))
    : ConfigError + list ScenarioRow :=
  match config_validate cfg with
  | Some err => inl err
  | None =>
      match uuids with
      | (inl err, _, _, _) => inl (UUIDFailed err)
      | (_, inl err, _, _) => inl (UUIDFailed err)
      | (_, _, inl err, _) => inl (UUIDFailed err)
      | (_, _, _, inl err) => inl (UUIDFailed err)
      | (inr constID, inr spikeID, inr rampID, inr correctnessID) =>
          inr [mkScenarioRow constID "constant" 1 (u64 (ConstantDuration cfg))
                 (buildConstantTasks cfg 0 0 (ConstantDuration cfg) (ConstantTotalRPS cfg));
               mkScenarioRow spikeID "spike" 2 (u64 (SpikeDuration cfg)) (buildSpikeTasks cfg);
               mkScenarioRow rampID "ramp" 3 (u64 (RampDuration cfg)) (buildRampTasks cfg);
               mkScenarioRow correctnessID "correctness" 4 (u64 (CorrectnessDuration cfg)) (buildCorrectnessTasks cfg)]
      end
  end.

(** ** The load a task list offers *)

Definition active (t : Z) (k : TaskSpec) : bool :=
  (ts_StartOffsetNs k <=? t) && (t <? ts_StartOffsetNs k + ts_DurationNs k).

(** Orders per second asked for at instant [t]. *)
Definition load_at (tasks : list TaskSpec) (t : Z) : Z :=
  sumZ (map (fun k => if active t k then ts_TargetRPS k else 0) tasks).

(** Task ids number the tasks, from [id0]. *)
Definition numbered (id0 : Z) (tasks : list TaskSpec) : Prop :=
  map ts_TaskID tasks = seqZ id0 (Z.of_nat (length tasks)).

(** Every task ends within the scenario. *)
Definition within (duration : Z) (tasks : list TaskSpec) : Prop :=
  Forall (fun k => 0 <= ts_StartOffsetNs k /\ 0 <= ts_DurationNs k /\
                   ts_StartOffsetNs k + ts_DurationNs k <= duration) tasks.

Lemma load_at_app l k t : load_at (l ++ k) t = load_at l t + load_at k t.
Proof. unfold load_at. by rewrite map_app, sumZ_app. Qed.

Lemma numbered_app id0 l k :
  numbered id0 l -> numbered (id0 + Z.of_nat (length l)) k -> numbered id0 (l ++ k).
Proof.
  unfold numbered. intros Hl Hk. rewrite map_app, Hl, Hk, length_app, Nat2Z.inj_add.
  rewrite seqZ_app by lia. done.
Qed.

Lemma bots_length profile rps m c r so d id n : 0 <= n -> Z.of_nat (length (bots profile rps m c r so d id n)) = n.
Proof. intros Hn. unfold bots. rewrite length_map, length_seqZ. lia. Qed.

Lemma bots_numbered profile rps m c r so d id n :
  0 <= id -> 0 <= n -> id + n <= 2 ^ 32 -> numbered id (bots profile rps m c r so d id n).
Proof.
  intros Hid Hn Hb. unfold numbered. rewrite bots_length by done. unfold bots. rewrite map_map.
  transitivity (Z.add id <$> seqZ 0 n); [|by rewrite fmap_add_seqZ, Z.add_0_r]. apply list_fmap_ext. intros i x Hx. simpl.
  apply list_elem_of_lookup_2, elem_of_seqZ in Hx. apply u32_small. lia.
Qed.

Lemma bots_within profile rps m c r so d id n duration :
  0 <= so -> 0 <= d -> so + d <= duration -> duration < 2 ^ 63 -> within duration (bots profile rps m c r so d id n).
Proof.
  intros Hs Hd Hsd Hdur. apply Forall_map, Forall_forall. intros i _. simpl. rewrite !u64_small by lia. lia.
Qed.

Lemma bots_load profile rps m c r so d id n t :
  0 <= rps -> 0 <= n -> 0 <= so -> 0 <= d -> so + d < 2 ^ 63 ->
  load_at (bots profile rps m c r so d id n) t = (if (so <=? t) && (t <? so + d) then n * rps else 0).
Proof.
  intros Hr Hn Hs Hd Hsd. unfold load_at, bots. rewrite map_map. unfold active. simpl. rewrite !u64_small by lia.
  rewrite <-(Z2Nat.id n) by done. set (k := Z.to_nat n). clearbody k. clear n Hn.
  induction k as [|k IH]; [by destruct (_ && _)|].
  replace (Z.of_nat (S k)) with (Z.of_nat k + 1) by lia. rewrite seqZ_app, map_app, sumZ_app, IH by lia. simpl.
  unfold sumZ. simpl. destruct (_ && _); lia.
Qed.

(** ** Layers and budgets *)

Definition layer_rate (h r i : Z) : Z := h * rpsPerHFT + r * rpsPerRetail + i * rpsPerInstitutional.

Section Layer.
Context (cfg : ScenarioConfig) (id so d h r i : Z).
Hypothesis Hh : 0 <= h. Hypothesis Hr : 0 <= r. Hypothesis Hi : 0 <= i.
Hypothesis Hid : 0 <= id. Hypothesis Hn : id + (h + r + i) < 2 ^ 32.

Lemma layer_length : Z.of_nat (length (buildLayer cfg id so d h r i)) = h + r + i.
Proof using Hh Hr Hi. unfold buildLayer. rewrite !length_app, !Nat2Z.inj_add, !bots_length by done. lia. Qed.

Lemma layer_numbered : numbered id (buildLayer cfg id so d h r i).
Proof.
  unfold buildLayer. rewrite (u32_small (id + h)) by lia. rewrite (u32_small (id + h + r)) by lia.
  repeat (apply numbered_app; rewrite ?bots_length by done); apply bots_numbered; lia.
Qed.

Lemma layer_within duration : 0 <= so -> 0 <= d -> so + d <= duration -> duration < 2 ^ 63 ->
  within duration (buildLayer cfg id so d h r i).
Proof using. intros. unfold within, buildLayer. rewrite !Forall_app. split_and!; by apply bots_within. Qed.

Lemma layer_load t : 0 <= so -> 0 <= d -> so + d < 2 ^ 63 ->
  load_at (buildLayer cfg id so d h r i) t = (if (so <=? t) && (t <? so + d) then layer_rate h r i else 0).
Proof using Hh Hr Hi.
  intros. unfold buildLayer, layer_rate. rewrite !load_at_app, !bots_load by (done || lia).
  destruct (_ && _); lia.
Qed.

End Layer.

Definition mix_ok (cfg : ScenarioConfig) : Prop :=
  0 <= MixHFTPct cfg /\ 0 <= MixRetailPct cfg /\ 0 <= MixInstitutionalPct cfg /\
  MixHFTPct cfg + MixRetailPct cfg + MixInstitutionalPct cfg = 100.

(** The bots of a budget ask for at most the budget, and miss it by less than
    one bot of each profile. *)
Lemma bot_counts cfg total :
  mix_ok cfg -> 0 <= total -> total * 100 < 2 ^ 32 ->
  exists h r i rr, botCountsForBudget cfg total = (h, r, i, rr) /\ 0 <= h /\ 0 <= r /\ 0 <= i /\
    h + r + i <= total /\ layer_rate h r i <= total /\
    total - (rpsPerHFT + rpsPerRetail + rpsPerInstitutional) < layer_rate h r i /\ rr = layer_rate h r i.
Proof.
  intros (M1 & M2 & M3 & Hsum) Ht Hb. unfold botCountsForBudget, layer_rate, rpsPerHFT, rpsPerRetail, rpsPerInstitutional.
  set (a := total * MixHFTPct cfg). set (b := total * MixRetailPct cfg). set (c := total * MixInstitutionalPct cfg).
  assert (Habc : a + b + c = total * 100) by (unfold a, b, c; nia).
  assert (Ha : 0 <= a) by (unfold a; nia). assert (Hb' : 0 <= b) by (unfold b; nia). assert (Hc : 0 <= c) by (unfold c; nia).
  clearbody a b c. rewrite (u32_small a), (u32_small b), (u32_small c) by lia.
  do 4 eexists. split; [done|]. rewrite (u32_small (a / 100 / 1000 * 1000)) by (Z.to_euclidean_division_equations; lia).
  rewrite (u32_small (b / 100 / 5 * 5)) by (Z.to_euclidean_division_equations; lia).
  rewrite (u32_small (c / 100 / 300 * 300)) by (Z.to_euclidean_division_equations; lia).
  rewrite (u32_small (a / 100 / 1000 * 1000 + b / 100 / 5 * 5)) by (Z.to_euclidean_division_equations; lia).
  rewrite u32_small by (Z.to_euclidean_division_equations; lia).
  split_and!; try done; Z.to_euclidean_division_equations; lia.
Qed.

Lemma constant_spec cfg id so d total :
  mix_ok cfg -> 0 <= total -> total * 100 < 2 ^ 32 -> 0 <= id -> id + total < 2 ^ 32 ->
  0 <= so -> 0 <= d -> so + d < 2 ^ 63 ->
  let tasks := buildConstantTasks cfg id so d total in
  0 <= Z.of_nat (length tasks) <= total /\ numbered id tasks /\ within (so + d) tasks /\
  forall t, 0 <= load_at tasks t <= total /\
    (so <= t < so + d -> total - (rpsPerHFT + rpsPerRetail + rpsPerInstitutional) < load_at tasks t).
Proof.
  intros Hm Ht Hb Hid Hn Hs Hd Hsd. cbv zeta. unfold buildConstantTasks.
  destruct (bot_counts cfg total Hm Ht Hb) as (h & r & i & rr & -> & Hh & Hr & Hi & Hle & Hub & Hlb & _).
  split_and!.
  - lia.
  - rewrite layer_length by done. lia.
  - apply layer_numbered; lia.
  - apply layer_within; lia.
  - intros t. rewrite layer_load by done. split.
    + unfold layer_rate, rpsPerHFT, rpsPerRetail, rpsPerInstitutional in *. destruct (_ && _); lia.
    + intros [H1 H2]. rewrite (proj2 (Z.leb_le _ _) H1), (proj2 (Z.ltb_lt _ _) H2). exact Hlb.
Qed.

(** The ramp so far: [k] waves, each within its share of the peak. *)
Lemma ramp_spec cfg k :
  mix_ok cfg -> 0 <= RampPeakRPS cfg -> RampPeakRPS cfg * 100 < 2 ^ 32 ->
  (rampWaveCount - 1) * rampWaveCadence < RampDuration cfg < 2 ^ 63 -> (k <= 9)%nat ->
  let tasks := foldl (addWave cfg) [] (seqZ 0 (Z.of_nat k)) in
  Z.of_nat (length tasks) <= Z.of_nat k * (RampPeakRPS cfg / rampWaveCount) /\ numbered 0 tasks /\
  within (RampDuration cfg) tasks /\
  forall t, 0 <= load_at tasks t <= Z.of_nat k * (RampPeakRPS cfg / rampWaveCount).
Proof.
  intros Hm Hp Hb Hd. unfold rampWaveCount, rampWaveCadence, sec in *. set (share := RampPeakRPS cfg / 9).
  assert (Hsh : 0 <= share /\ share * 9 <= RampPeakRPS cfg) by (unfold share; Z.to_euclidean_division_equations; lia).
  induction k as [|k IH]; intros Hk.
  - cbn. split_and!; try done; try constructor.
  - replace (Z.of_nat (S k)) with (Z.of_nat k + 1) by lia. rewrite seqZ_app by lia.
    cbv zeta in *. rewrite foldl_app. set (tasks := foldl _ [] _) in *.
    destruct IH as (Hlen & Hnum & Hwi & Hload); [lia|]. cbn [seqZ foldl]. simpl foldl.
    unfold addWave, rampWaveCadence, rampWaveCount, sec. rewrite !Z.add_0_l. fold share.
    destruct (Z.leb_spec (RampDuration cfg - Z.of_nat k * (20 * 1000000000)) 0); [lia|].
    assert (Hks : Z.of_nat k * share + share <= RampPeakRPS cfg) by nia.
    rewrite (u32_small (Z.of_nat (length tasks))) by lia.
    pose proof (constant_spec cfg (Z.of_nat (length tasks)) (Z.of_nat k * (20 * 1000000000))
      (RampDuration cfg - Z.of_nat k * (20 * 1000000000)) share Hm ltac:(lia) ltac:(lia) ltac:(lia) ltac:(lia)
      ltac:(lia) ltac:(lia) ltac:(lia)) as (HlenW & HnumW & HwiW & HloadW).
    unfold buildConstantTasks in *. destruct (botCountsForBudget cfg share) as [[[h r] i] rr].
    set (layer := buildLayer _ _ _ _ _ _ _) in *. split_and!.
    + rewrite length_app. lia.
    + apply numbered_app; [done|]. by rewrite Z.add_0_l.
    + apply Forall_app. split; [done|]. eapply Forall_impl; [exact HwiW|]. cbn. lia.
    + intros t. rewrite load_at_app. destruct (HloadW t) as [? _]. specialize (Hload t). lia.
Qed.

(** ** The scenarios keep to their budgets *)

(** What [config_validate] leaves to the deployment: no field is at a width
    where the products of [botCountsForBudget] or the offsets wrap. *)
Definition sane (cfg : ScenarioConfig) : Prop :=
  Forall (fun d => 0 <= d < 2 ^ 62) [ConstantDuration cfg; SpikeDuration cfg; RampDuration cfg; CorrectnessDuration cfg;
                                     SpikePreWindow cfg; SpikeBurstWindow cfg] /\
  Forall (fun m => 0 <= m <= 100) [MixHFTPct cfg; MixRetailPct cfg; MixInstitutionalPct cfg] /\
  Forall (fun r => 0 <= r /\ r * 100 < 2 ^ 32) [ConstantTotalRPS cfg; SpikePeakRPS cfg; RampPeakRPS cfg].

Lemma validate_ok cfg :
  sane cfg -> config_validate cfg = None ->
  mix_ok cfg /\ 0 < ConstantDuration cfg /\ 0 < CorrectnessDuration cfg /\
  ConstantTotalRPS cfg <= SpikePeakRPS cfg /\ SpikePreWindow cfg + SpikeBurstWindow cfg <= SpikeDuration cfg /\
  (rampWaveCount - 1) * rampWaveCadence < RampDuration cfg.
Proof.
  unfold sane, mix_ok. rewrite !Forall_cons. intros ((?&?&?&?&?&?&_) & (?&?&?&_) & (?&?&?&_)). unfold config_validate.
  rewrite (i64_small (SpikePreWindow cfg + SpikeBurstWindow cfg)) by lia.
  rewrite (u32_small (MixHFTPct cfg + MixRetailPct cfg)) by lia. rewrite u32_small by lia.
  repeat case_match; try done; intros _; repeat match goal with
    | H : _ || _ = false |- _ => apply orb_false_elim in H as [? ?]
    | H : negb _ = false |- _ => apply negb_false_iff in H end; lia.
Qed.

(** The spike: the baseline for the whole scenario, the rest of the peak in
    the burst window. *)
Lemma spike_spec cfg :
  sane cfg -> config_validate cfg = None ->
  numbered 0 (buildSpikeTasks cfg) /\ within (SpikeDuration cfg) (buildSpikeTasks cfg) /\
  forall t, load_at (buildSpikeTasks cfg) t <= SpikePeakRPS cfg /\
    (load_at (buildSpikeTasks cfg) t <= ConstantTotalRPS cfg \/
     SpikePreWindow cfg <= t < SpikePreWindow cfg + SpikeBurstWindow cfg).
Proof.
  intros Hs Hv. destruct (validate_ok cfg Hs Hv) as (Hm & _ & _ & Hpk & Hw & _).
  revert Hs. unfold sane. rewrite !Forall_cons. intros ((?&?&?&?&?&?&_) & _ & (?&?&?&_)).
  unfold buildSpikeTasks. rewrite (u32_small (SpikePeakRPS cfg - ConstantTotalRPS cfg)) by lia.
  pose proof (constant_spec cfg 0 0 (SpikeDuration cfg) (ConstantTotalRPS cfg) Hm ltac:(lia) ltac:(lia) ltac:(lia)
    ltac:(lia) ltac:(lia) ltac:(lia) ltac:(lia)) as (HlenB & HnumB & HwiB & HloadB).
  set (base := buildConstantTasks cfg 0 _ _ _) in *.
  pose proof (constant_spec cfg (Z.of_nat (length base)) (SpikePreWindow cfg) (SpikeBurstWindow cfg)
    (SpikePeakRPS cfg - ConstantTotalRPS cfg) Hm ltac:(lia) ltac:(lia) ltac:(lia) ltac:(lia) ltac:(lia) ltac:(lia)
    ltac:(lia)) as (HlenE & HnumE & HwiE & HloadE).
  destruct (bot_counts cfg (SpikePeakRPS cfg - ConstantTotalRPS cfg) Hm ltac:(lia) ltac:(lia))
    as (h & r & i & rr & Hc & Hh & Hr & Hi & _).
  unfold buildConstantTasks in HnumE, HwiE, HloadE. rewrite Hc in *. rewrite u32_small by lia.
  split_and!.
  - by apply numbered_app.
  - apply Forall_app. split; [done|]. eapply Forall_impl; [exact HwiE|]. cbn. lia.
  - intros t. rewrite load_at_app. destruct (HloadB t) as [? _]. destruct (HloadE t) as [? _]. split; [lia|].
    rewrite layer_load by lia. destruct (Z.leb_spec (SpikePreWindow cfg) t), (Z.ltb_spec t (SpikePreWindow cfg + SpikeBurstWindow cfg));
      cbn [andb]; lia.
Qed.

(** For every accepted configuration whose fields stay clear of the widths at which the products
    wrap, the four scenarios [BuildAll] returns keep to the configured budgets at every instant: the
    constant load never exceeds [ConstantTotalRPS] and misses it by less than one bot of each profile
    while it runs; the spike load stays at the baseline outside the burst window and at [SpikePeakRPS]
    inside; the ramp never exceeds [RampPeakRPS].  Task ids number each scenario's tasks from 0, and no
    task runs past its scenario's duration. *)
Theorem scenario_budgets cfg uuids rows :
  sane cfg -> BuildAll cfg uuids = inr rows ->
  exists constant spike ramp correctness, rows = [constant; spike; ramp; correctness] /\
  Forall (fun row => numbered 0 (sr_TaskSpecs row) /\ within (sr_DurationNs row) (sr_TaskSpecs row)) rows /\
  forall t,
    load_at (sr_TaskSpecs constant) t <= ConstantTotalRPS cfg /\
    (0 <= t < sr_DurationNs constant ->
     ConstantTotalRPS cfg - (rpsPerHFT + rpsPerRetail + rpsPerInstitutional) < load_at (sr_TaskSpecs constant) t) /\
    load_at (sr_TaskSpecs spike) t <= SpikePeakRPS cfg /\
    (load_at (sr_TaskSpecs spike) t <= ConstantTotalRPS cfg \/
     SpikePreWindow cfg <= t < SpikePreWindow cfg + SpikeBurstWindow cfg) /\
    load_at (sr_TaskSpecs ramp) t <= RampPeakRPS cfg.
Proof.
  intros Hs. unfold BuildAll. destruct (config_validate cfg) eqn:Hv; [done|].
  destruct uuids as [[[[?|a] [?|b]] [?|c]] [?|e]]; try done. injection 1 as <-.
  destruct (validate_ok cfg Hs Hv) as (Hm & Hcd & Hkd & Hpk & Hw & Hrd).
  destruct (spike_spec cfg Hs Hv) as (HnS & HwS & HlS).
  revert Hs. unfold sane. rewrite !Forall_cons. intros ((?&?&?&?&?&?&_) & _ & (?&?&?&_)).
  destruct (constant_spec cfg 0 0 (ConstantDuration cfg) (ConstantTotalRPS cfg)) as (_ & HnC & HwC & HlC);
    [done|lia..|].
  destruct (ramp_spec cfg 9) as (_ & HnR & HwR & HlR); [done|lia..|].
  do 4 eexists. split; [done|]. cbn [sr_TaskSpecs sr_DurationNs]. rewrite !u64_small by lia. split.
  - repeat apply Forall_cons_2; try split; try done. cbn. repeat constructor; cbn; rewrite ?u64_small by lia; lia.
  - intros t. destruct (HlC t) as [HlC1 HlC2]. destruct (HlS t) as [HlS1 HlS2].
    pose proof (HlR t) as HlR1. change (seqZ 0 (Z.of_nat 9)) with (seqZ 0 rampWaveCount) in HlR1.
    fold (buildRampTasks cfg) in HlR1.
    split_and!; try lia; try done.
    assert (Z.of_nat 9 * (RampPeakRPS cfg / rampWaveCount) <= RampPeakRPS cfg); [|lia].
    unfold rampWaveCount. Z.to_euclidean_division_equations; lia.
Qed.

Lemma scenario_budgets_witness :
  exists rows, BuildAll DefaultConfig (inr "a", inr "b", inr "c", inr "d")%string = inr rows /\
    exists constant spike ramp correctness, rows = [constant; spike; ramp; correctness] /\
    load_at (sr_TaskSpecs spike) (30 * sec) <= 50000 /\
    load_at (sr_TaskSpecs spike) (40 * sec) <= 10000.
Proof.
  eexists. split; [vm_compute; reflexivity|].
  edestruct (scenario_budgets DefaultConfig (inr "a", inr "b", inr "c", inr "d")%string)
    as (c & s & r & k & Hrows & _ & Hload).
  - apply (bool_decide_unpack _). vm_compute. exact I.
  - vm_compute. reflexivity.
  - exists c, s, r, k. split; [exact Hrows|].
    destruct (Hload (30 * sec)) as (_ & _ & H1 & _). destruct (Hload (40 * sec)) as (_ & _ & _ & H2 & _).
    split; [exact H1|]. destruct H2 as [H2|[_ H2]]; [exact H2|]. vm_compute in H2. discriminate.
Defined.
