(* ===== verification/Shard.v ===== *)
(** * bot-fleet-controller: sizing and sharding a session

    [internal/controller/runner.go] from the scenario to the workload specs,
    and [producer.go] from the specs to the messages on leased partitions.
    Go's run-time panics are values of [Go]; [json.Marshal], the clock and
    kafka-go's hash balancer are parameters. *)

From stdpp Require Import prelude gmap strings list pretty.
From S2P Require Import Prelude Topics.

Open Scope Z_scope.

(** The outcome of a call: a value, or a panic. *)
Inductive Go (A : Type) := Ret (a : A) | Panic (p : string).
Arguments Ret {A} a.
Arguments Panic {A} p.

Definition u8 (z : Z) : Z := z mod 2 ^ 8.

Lemma u8_small z : 0 <= z < 2 ^ 8 -> u8 z = z.
Proof. apply Z.mod_small. Qed.

(** ** Data *)

Definition DefaultMaxTasksPerWorker : Z := 1000.

Record RunConfig := mkRunConfig {
  GlobalSeed : Z; FIXVersion : string; ConnectTimeoutMS : Z; WriteTimeoutMS : Z;
  DeployDeadline : Z; ReadyDeadline : Z; BarrierSafetyGap : Z; MaxTasksPerWorker : Z;
  CapacityWaitTimeout : Z; CapacityPollInterval : Z; WorkerRPSCapacity : Z; LeaseAcquireTimeout : Z }.

Record SubmissionInfo := mkSubmission {
  si_SubmissionID : string; si_ContestantID : string; si_Protocol : string; si_Port : Z; si_ImageRef : string }.

Record Endpoint := mkEndpoint { ep_Host : string; ep_Port : Z }.

(** A slot as the orchestrator reports it. *)
Record Slot := mkSlot { sl_SlotID : string; sl_State : string; sl_Message : string; sl_Endpoint : Endpoint }.
Definition StateReady : string := "ready".

(** The channel [readyCh] is what it has buffered and its capacity; the
    [cancel] function is left out. *)
Record Session := mkSession {
  s_SessionID : string; s_SubmissionID : string; s_ContestantID : string; s_RunGroupID : string;
  s_Status : string; s_Message : string; s_SlotID : string; s_Endpoint : option Endpoint;
  s_WorkerCount : Z; s_ReadyReceived : gmap Z ReadySignal;
  s_readyCh : list ReadySignal; s_readyCap : Z; s_CreatedAt : Z }.

(** ** Worker count *)

Definition computeWorkerCount (totalTasks maxTasksPerWorker : Z) : Z :=
  if totalTasks <=? 0 then 1 else
  let maxTasksPerWorker := if maxTasksPerWorker <=? 0 then DefaultMaxTasksPerWorker else maxTasksPerWorker in
  u32 (Z.quot (i64 (i64 (totalTasks + maxTasksPerWorker) - 1)) maxTasksPerWorker).

Definition totalTargetRPS (specs : list TaskSpec) : Z :=
  foldl (fun total spec => total +u64 ts_TargetRPS spec) 0 specs.

Definition computeWorkerCountForLoad (totalTasks totalRPS maxTasksPerWorker workerRPSCapacity : Z) : Z :=
  let byTasks := computeWorkerCount totalTasks maxTasksPerWorker in
  if (workerRPSCapacity =? 0) || (totalRPS =? 0) then byTasks else
  let byRate := (totalRPS +u64 workerRPSCapacity -u64 1) / workerRPSCapacity in
  if byTasks <? byRate then u32 byRate else byTasks.

(** ** Targets *)

Definition submissionTargets `{Unicode} (sub : SubmissionInfo) : list TargetSpec :=
  let parts := match ParseProtocols (si_Protocol sub) with inr parts => parts | inl _ => [si_Protocol sub] end in
  map (fun p => {| tg_Protocol := p; tg_Port := PortForProtocol p |}) parts.

(** One round of the loop of [submissionPorts]. *)
Definition add_port '((ports, seen) : list Z * gset Z) (t : TargetSpec) : list Z * gset Z :=
  let p := tg_Port t in
  if bool_decide (p ∈ seen) then (ports, seen) else (ports ++ [p], {[p]} ∪ seen).

Definition submissionPorts `{Unicode} (sub : SubmissionInfo) : list Z :=
  (foldl add_port ([], ∅) (submissionTargets sub)).1.

(** ** Workload specs *)

Definition set_TargetIdx (ts : TaskSpec) (idx : Z) : TaskSpec :=
  {| ts_TaskID := ts_TaskID ts; ts_Profile := ts_Profile ts; ts_TargetRPS := ts_TargetRPS ts;
     ts_StartOffsetNs := ts_StartOffsetNs ts; ts_DurationNs := ts_DurationNs ts;
     ts_MarketPct := ts_MarketPct ts; ts_CancelPct := ts_CancelPct ts; ts_ReplacePct := ts_ReplacePct ts;
     ts_TargetIdx := idx; ts_SMPIDCount := ts_SMPIDCount ts |}.

(** Task [i] with its target. *)
Definition stamp (ntargets : nat) (i : nat) (ts : TaskSpec) : TaskSpec :=
  set_TargetIdx ts (u8 (Z.of_nat (i mod ntargets))).

(** The loop over the scenario's tasks; [workerCount] is not 0. *)
Definition tasksByWorker (ntargets : nat) (workerCount : Z) (tasks : list TaskSpec) : list (list TaskSpec) :=
  foldl (fun acc '(i, ts) =>
           let shard := u32 (Z.of_nat i) mod workerCount in
           alter (fun l => l ++ [stamp ntargets i ts]) (Z.to_nat shard) acc)
    (replicate (Z.to_nat workerCount) []) (imap pair tasks).

(** [now i] is the clock at the [i]-th spec. *)
Definition buildWorkloadSpecs `{Unicode} (cfg : RunConfig) (now : nat -> Z) (sess : Session) (sub : SubmissionInfo)
    (scenario : Scenario) (workerCount orderBand : Z) : Go (list WorkloadSpec) :=
  let targets := submissionTargets sub in
  if (workerCount =? 0) && negb (length (sc_TaskSpecs scenario) =? 0)%nat
  then Panic "runtime error: integer divide by zero" else
  match targets, s_Endpoint sess with
  | [], _ => Panic "runtime error: index out of range [0] with length 0"
  | legacyTarget :: _, Some endpoint =>
      Ret (imap (fun i tasks =>
        {| ws_SessionID := s_SessionID sess; ws_SubmissionID := s_SubmissionID sess;
           ws_ContestantID := si_ContestantID sub; ws_TargetHost := ep_Host endpoint;
           ws_TargetPort := tg_Port legacyTarget; ws_Protocol := tg_Protocol legacyTarget;
           ws_Targets := targets; ws_WorkerIndex := Z.of_nat i; ws_WorkerCount := workerCount;
           ws_GlobalSeed := GlobalSeed cfg; ws_FIXVersion := FIXVersion cfg;
           ws_ConnectTimeoutMS := ConnectTimeoutMS cfg; ws_WriteTimeoutMS := WriteTimeoutMS cfg;
           ws_PublishedAtUnixNS := u64 (now i); ws_OrderBand := orderBand; ws_Tasks := tasks |})
        (tasksByWorker (length targets) workerCount (sc_TaskSpecs scenario)))
  | _ :: _, None =>
      if workerCount =? 0 then Ret []
      else Panic "runtime error: invalid memory address or nil pointer dereference"
  end.

(** ** Messages *)

(** The fields of kafka-go's [Message] the producer sets. *)
Record Message := mkMessage { km_Key : string; km_Value : string; km_WriterData : option Z }.

Section Messages.
Context (marshal : WorkloadSpec -> string + string).

Fixpoint build_messages (specs : list WorkloadSpec) (leases : list Z) : Go (string + list Message) :=
  match specs with
  | [] => Ret (inr [])
  | spec :: specs =>
      match marshal spec with
      | inl err => Ret (inl ("marshal workload spec: " +:+ err)%string)
      | inr payload =>
          match leases with
          | [] => Panic "runtime error: index out of range"
          | lease :: leases =>
              match build_messages specs leases with
              | Ret (inr msgs) =>
                  Ret (inr (mkMessage (ws_SessionID spec +:+ ":" +:+ pretty (ws_WorkerIndex spec))%string
                              payload (Some lease) :: msgs))
              | r => r
              end
          end
      end
  end.

Definition buildWorkloadMessages (specs : list WorkloadSpec) (leases : list Z) : Go (string + list Message) :=
  build_messages specs leases.

(** What is handed to the writer, and the error; [write] is the writer's
    answer. *)
Definition PublishWorkloadSpec (noop : bool) (write : list Message -> option string)
    (specs : list WorkloadSpec) (leases : list Z) : Go (list Message * option string) :=
  if noop then Ret ([], None)
  else if negb (length leases =? length specs)%nat
  then Ret ([], Some (pretty (length leases) +:+ " leased partitions for " +:+ pretty (length specs) +:+
                        " workload specs: mismatch")%string)
  else match buildWorkloadMessages specs leases with
       | Panic p => Panic p
       | Ret (inl err) => Ret ([], Some err)
       | Ret (inr msgs) => Ret (msgs, write msgs)
       end.

End Messages.

(** [fallback] is kafka-go's hash balancer. *)
Definition Balance (fallback : Message -> list Z -> Z) (msg : Message) (partitions : list Z) : Z :=
  match km_WriterData msg with
  | None => fallback msg partitions
  | Some leased => match List.find (fun p => p =? leased) partitions with Some p => p | None => leased end
  end.

(** ** Lemmas: worker count *)

(** The ceiling of a quotient, as both sizings write it. *)
Definition ceil_div (n m : Z) : Z := (n + m - 1) / m.

Lemma ceil_div_spec n m : 0 < m -> 0 <= n -> n <= ceil_div n m * m < n + m.
Proof. intros Hm Hn. unfold ceil_div. Z.to_euclidean_division_equations; nia. Qed.

Lemma ceil_div_pos n m : 0 < m -> 0 < n -> 1 <= ceil_div n m.
Proof. intros Hm Hn. destruct (ceil_div_spec n m); [lia..|]. nia. Qed.

Lemma ceil_div_le n m : 0 < m -> 0 <= n -> ceil_div n m <= n.
Proof. intros Hm Hn. destruct (ceil_div_spec n m); [lia..|]. nia. Qed.

(** The bound in force. *)
Definition task_bound (maxTasksPerWorker : Z) : Z :=
  if maxTasksPerWorker <=? 0 then DefaultMaxTasksPerWorker else maxTasksPerWorker.

Lemma task_bound_pos m : 0 < task_bound m.
Proof. unfold task_bound, DefaultMaxTasksPerWorker. destruct (Z.leb_spec m 0); lia. Qed.

Lemma computeWorkerCount_spec n m :
  0 < n < 2 ^ 32 -> m < 2 ^ 62 -> computeWorkerCount n m = ceil_div n (task_bound m).
Proof.
  intros Hn Hm. unfold computeWorkerCount. destruct (Z.leb_spec n 0); [lia|]. fold (task_bound m).
  assert (Hb : 0 < task_bound m < 2 ^ 62).
  { unfold task_bound, DefaultMaxTasksPerWorker. destruct (Z.leb_spec m 0); lia. }
  rewrite (i64_small (n + task_bound m)), i64_small by lia. rewrite Z.quot_div_nonneg by lia.
  fold (ceil_div n (task_bound m)). apply u32_small.
  pose proof (ceil_div_pos n (task_bound m) ltac:(lia) ltac:(lia)).
  pose proof (ceil_div_le n (task_bound m) ltac:(lia) ltac:(lia)). lia.
Qed.

Lemma totalTargetRPS_range specs : 0 <= totalTargetRPS specs < 2 ^ 64.
Proof. unfold totalTargetRPS. destruct specs as [|s specs _] using rev_ind; [done|]. rewrite foldl_snoc. apply u64_range. Qed.

(** Both ceilings hold, when the demanded count fits the width. *)
Lemma computeWorkerCountForLoad_spec n rps m cap :
  0 < n < 2 ^ 32 -> m < 2 ^ 62 -> 0 <= rps -> 0 <= cap -> rps + cap < 2 ^ 64 ->
  cap = 0 \/ rps <= (2 ^ 32 - 1) * cap ->
  let wc := computeWorkerCountForLoad n rps m cap in
  1 <= wc < 2 ^ 32 /\ n <= wc * task_bound m /\ (cap = 0 \/ rps <= wc * cap).
Proof.
  intros Hn Hm Hr Hc Hw Hfit. cbv zeta. unfold computeWorkerCountForLoad.
  rewrite computeWorkerCount_spec by done. pose proof (task_bound_pos m) as Hb.
  pose proof (ceil_div_pos n (task_bound m) Hb ltac:(lia)). pose proof (ceil_div_le n (task_bound m) Hb ltac:(lia)).
  destruct (ceil_div_spec n (task_bound m) Hb ltac:(lia)) as [Hlo _].
  destruct (Z.eqb_spec cap 0) as [->|]; cbn [orb]; [lia|].
  destruct (Z.eqb_spec rps 0) as [->|]; [split_and!; try lia; right; nia|].
  rewrite (u64_small (rps + cap)), u64_small by lia. fold (ceil_div rps cap).
  destruct (ceil_div_spec rps cap) as [Hrl Hrh]; [lia..|].
  assert (Hfit32 : ceil_div rps cap < 2 ^ 32) by nia.
  destruct (Z.ltb_spec (ceil_div n (task_bound m)) (ceil_div rps cap)).
  - rewrite u32_small by lia. split_and!; [lia|lia|nia|lia].
  - split_and!; [lia|lia|lia|right; nia].
Qed.

(** ** Lemmas: sharding *)

(** The tasks of worker [w], in scenario order. *)
Definition shard_tasks (ntargets : nat) (wc w : Z) (tasks : list TaskSpec) : list TaskSpec :=
  omap (fun '(i, ts) => if Z.of_nat i mod wc =? w then Some (stamp ntargets i ts) else None) (imap pair tasks).

Lemma concat_alter_snoc {A} (ll : list (list A)) w x :
  (w < length ll)%nat -> concat (alter (fun l => l ++ [x]) w ll) ≡ₚ x :: concat ll.
Proof.
  revert w. induction ll as [|l ll IH]; intros w Hw; simpl in Hw; [lia|]. destruct w as [|w]; simpl.
  - rewrite <-app_assoc. simpl. symmetry. apply Permutation_middle.
  - change (list_alter (fun l0 => l0 ++ [x]) w ll) with (alter (fun l0 => l0 ++ [x]) w ll).
    rewrite IH by lia. symmetry. apply Permutation_middle.
Qed.

Lemma imap_pair_snoc {A} (l : list A) x : imap pair (l ++ [x]) = imap pair l ++ [(length l, x)].
Proof. rewrite imap_app. simpl. by rewrite Nat.add_0_r. Qed.

Lemma div_step n wc w :
  0 <= w < wc -> 0 <= n -> (n + 1 + (wc - 1 - w)) / wc = (n + (wc - 1 - w)) / wc + (if n mod wc =? w then 1 else 0).
Proof.
  intros Hw Hn. pose proof (Z.div_mod n wc ltac:(lia)) as E. pose proof (Z.mod_pos_bound n wc ltac:(lia)) as Hr.
  set (q := n / wc) in *. set (r := n mod wc) in *.
  assert (H1 : (n + (wc - 1 - w)) / wc = q + (if w <? r then 1 else 0)).
  { destruct (Z.ltb_spec w r); symmetry; [apply (Z.div_unique_pos _ _ _ (r - 1 - w))|apply (Z.div_unique_pos _ _ _ (r + (wc - 1 - w)))]; nia. }
  assert (H2 : (n + 1 + (wc - 1 - w)) / wc = q + (if w <=? r then 1 else 0)).
  { destruct (Z.leb_spec w r); symmetry; [apply (Z.div_unique_pos _ _ _ (r - w))|apply (Z.div_unique_pos _ _ _ (r + (wc - w)))]; nia. }
  rewrite H1, H2. destruct (Z.ltb_spec w r), (Z.leb_spec w r), (Z.eqb_spec r w); lia.
Qed.

Section Sharding.
Context (nt : nat) (wc : Z).
Hypothesis Hwc : 1 <= wc < 2 ^ 32.

Lemma tasksByWorker_snoc tasks t :
  Z.of_nat (length tasks) < 2 ^ 32 ->
  tasksByWorker nt wc (tasks ++ [t]) =
  alter (fun l => l ++ [stamp nt (length tasks) t]) (Z.to_nat (Z.of_nat (length tasks) mod wc)) (tasksByWorker nt wc tasks).
Proof using. intros Hl. unfold tasksByWorker. rewrite imap_pair_snoc, foldl_snoc. cbv beta iota zeta. by rewrite u32_small by lia. Qed.

Lemma tasksByWorker_length tasks : length (tasksByWorker nt wc tasks) = Z.to_nat wc.
Proof using.
  unfold tasksByWorker. induction (imap pair tasks) as [|[i t] l IH] using rev_ind; [apply length_replicate|].
  rewrite foldl_snoc. by rewrite length_alter.
Qed.

Lemma tasksByWorker_lookup tasks w :
  Z.of_nat (length tasks) < 2 ^ 32 -> 0 <= w < wc ->
  tasksByWorker nt wc tasks !! Z.to_nat w = Some (shard_tasks nt wc w tasks).
Proof using Hwc.
  intros Hl Hw. induction tasks as [|t tasks IH] using rev_ind.
  - unfold tasksByWorker. simpl. apply lookup_replicate_2. lia.
  - rewrite length_app in Hl. simpl in Hl. rewrite tasksByWorker_snoc by lia. specialize (IH ltac:(lia)).
    unfold shard_tasks in *. rewrite imap_pair_snoc, omap_app. simpl.
    pose proof (Z.mod_pos_bound (Z.of_nat (length tasks)) wc ltac:(lia)) as Hb.
    destruct (Z.eqb_spec (Z.of_nat (length tasks) mod wc) w) as [E|E].
    + rewrite E, list_lookup_alter_eq, IH. done.
    + rewrite list_lookup_alter_ne by lia. by rewrite IH, app_nil_r.
Qed.

Lemma tasksByWorker_perm tasks :
  Z.of_nat (length tasks) < 2 ^ 32 -> concat (tasksByWorker nt wc tasks) ≡ₚ imap (stamp nt) tasks.
Proof using Hwc.
  intros Hl. induction tasks as [|t tasks IH] using rev_ind.
  - unfold tasksByWorker. simpl. induction (Z.to_nat wc); simpl; done.
  - rewrite length_app in Hl. simpl in Hl. rewrite tasksByWorker_snoc by lia.
    pose proof (Z.mod_pos_bound (Z.of_nat (length tasks)) wc ltac:(lia)) as Hb.
    rewrite concat_alter_snoc by (rewrite tasksByWorker_length; lia). rewrite IH by lia.
    rewrite imap_app. simpl. rewrite Nat.add_0_r. apply Permutation_cons_append.
Qed.

(** Shards are even. *)
Lemma shard_length tasks w :
  0 <= w < wc -> Z.of_nat (length (shard_tasks nt wc w tasks)) = (Z.of_nat (length tasks) + (wc - 1 - w)) / wc.
Proof using Hwc.
  intros Hw. induction tasks as [|t tasks IH] using rev_ind.
  - simpl. symmetry. apply Z.div_small. lia.
  - unfold shard_tasks in *. rewrite imap_pair_snoc, omap_app, !length_app, !Nat2Z.inj_add, IH. simpl length.
    change (Z.of_nat 1) with 1. rewrite div_step by lia. f_equal. simpl. by destruct (_ =? w).
Qed.

Lemma shard_bound tasks w m :
  0 <= w < wc -> Z.of_nat (length tasks) <= wc * m -> Z.of_nat (length (shard_tasks nt wc w tasks)) <= m.
Proof using Hwc. intros Hw Hm. rewrite shard_length by done. apply Z.lt_succ_r, Z.div_lt_upper_bound; nia. Qed.

End Sharding.

(** ** Lemmas: targets and ports *)

Section Targets.
Context `{Unicode}.

Lemma submissionTargets_length sub : (1 <= length (submissionTargets sub) <= 3)%nat.
Proof.
  unfold submissionTargets. rewrite length_map. destruct (ParseProtocols (si_Protocol sub)) as [e|parts] eqn:E; [simpl; lia|].
  revert E. unfold ParseProtocols. case_bool_decide; [intros [= <-]; simpl; lia|].
  rewrite parse_parts_ok by set_solver. simpl. intros (-> & Hne & _ & Hnd & _ & Hf).
  pose proof (known_length _ Hnd Hf). destruct (declared _); simpl in *; [done|lia].
Qed.

(** The loop of [submissionPorts] removes duplicates. *)
Lemma submissionPorts_spec sub :
  NoDup (submissionPorts sub) /\ forall p, p ∈ submissionPorts sub <-> p ∈ map tg_Port (submissionTargets sub).
Proof.
  unfold submissionPorts. generalize (submissionTargets sub) as ts. intros ts.
  cut (NoDup (foldl add_port ([], ∅) ts).1 /\
       (forall p, p ∈ (foldl add_port ([], ∅) ts).1 <-> p ∈ map tg_Port ts) /\
       (forall p, p ∈ (foldl add_port ([], ∅) ts).2 <-> p ∈ (foldl add_port ([], ∅) ts).1)); [naive_solver|].
  induction ts as [|t ts (IH1 & IH2 & IH3)] using rev_ind; [simpl; split_and!; [constructor|set_solver..]|].
  rewrite foldl_snoc, map_app. simpl. destruct (foldl add_port ([], ∅) ts) as [ports seen]. simpl in *.
  unfold add_port. case_bool_decide as Hp; simpl.
  - split_and!; [done| |done]. intros p. rewrite IH2, elem_of_app, list_elem_of_singleton.
    split; [by left|]. intros [? | ->]; [done|]. by apply IH2, IH3.
  - split_and!.
    + apply NoDup_app. split_and!; [done| |apply NoDup_singleton]. intros p Hin Hp'%list_elem_of_singleton. subst p.
      apply Hp. by apply IH3.
    + intros p. rewrite !elem_of_app, !list_elem_of_singleton, IH2. done.
    + intros p. rewrite elem_of_union, elem_of_singleton, elem_of_app, list_elem_of_singleton, IH3. naive_solver.
Qed.

Lemma stamp_target sub i ts :
  exists tg, submissionTargets sub !! Z.to_nat (ts_TargetIdx (stamp (length (submissionTargets sub)) i ts)) = Some tg /\
    tg_Port tg ∈ submissionPorts sub.
Proof.
  pose proof (submissionTargets_length sub) as Hl. set (n := length _) in *.
  pose proof (Nat.mod_upper_bound i n ltac:(lia)) as Hi. cbn [stamp set_TargetIdx ts_TargetIdx].
  rewrite u8_small, Nat2Z.id by lia.
  destruct (lookup_lt_is_Some_2 (submissionTargets sub) (i mod n)%nat ltac:(lia)) as [tg E].
  exists tg. split; [done|]. apply submissionPorts_spec, list_elem_of_fmap. exists tg. split; [done|].
  by eapply list_elem_of_lookup_2.
Qed.

End Targets.

(** ** Lemmas: messages *)

Lemma build_messages_spec marshal specs leases :
  length leases = length specs -> (forall spec, spec ∈ specs -> exists payload, marshal spec = inr payload) ->
  exists msgs, build_messages marshal specs leases = Ret (inr msgs) /\
    map km_WriterData msgs = map Some leases /\
    map km_Key msgs = map (fun spec => ws_SessionID spec +:+ ":" +:+ pretty (ws_WorkerIndex spec))%string specs /\
    map (inr ∘ km_Value) msgs = map marshal specs.
Proof.
  revert leases. induction specs as [|spec specs IH]; intros [|lease leases] Hl Hm; try done.
  - by exists [].
  - simpl. destruct (Hm spec) as [payload ->]; [left|].
    destruct (IH leases) as (msgs & -> & E1 & E2 & E3); [by injection Hl|intros; apply Hm; by right|].
    eexists. split; [done|]. simpl. by rewrite E1, E2, E3.
Qed.

Lemma Balance_leased fallback m lease partitions :
  km_WriterData m = Some lease -> Balance fallback m partitions = lease.
Proof.
  unfold Balance. intros ->. destruct (List.find _ _) as [p|] eqn:E; [|done].
  apply List.find_some in E as [_ E]. lia.
Qed.

Lemma Balance_all fallback msgs leases partitions :
  map km_WriterData msgs = map Some leases -> map (fun m => Balance fallback m partitions) msgs = leases.
Proof.
  revert leases. induction msgs as [|m msgs IH]; intros [|l ls] E; try done. simpl in *. injection E as E1 E2.
  by rewrite (Balance_leased _ _ l), (IH ls).
Qed.

Lemma append_cancel (s x y : string) : (s +:+ x = s +:+ y)%string -> x = y.
Proof. induction s as [|c s IH]; [done|]. intros E. apply IH. by injection E. Qed.

Lemma keys_nodup sid specs :
  Forall (fun spec => ws_SessionID spec = sid) specs -> NoDup (map ws_WorkerIndex specs) ->
  NoDup (map (fun spec => ws_SessionID spec +:+ ":" +:+ pretty (ws_WorkerIndex spec))%string specs).
Proof.
  intros Hs Hnd.
  replace (map (fun spec => _) specs) with ((fun i => sid +:+ ":" +:+ pretty i)%string <$> map ws_WorkerIndex specs).
  - apply NoDup_fmap_2; [|done]. intros i j E. apply append_cancel, append_cancel in E. by apply (inj pretty).
  - change (map ws_WorkerIndex specs) with (ws_WorkerIndex <$> specs). rewrite <-list_fmap_compose.
    apply list_fmap_ext. intros i spec E. rewrite Forall_lookup in Hs. simpl. by rewrite (Hs i spec E).
Qed.

(** ** A session's load reaches its workers *)

Lemma specs_lookup {A B} (f : nat -> A -> B) l i y : imap f l !! i = Some y <-> exists x, l !! i = Some x /\ y = f i x.
Proof. rewrite list_lookup_imap. destruct (l !! i); simpl; naive_solver. Qed.

Section Specs.
Context `{Unicode} (cfg : RunConfig) (now : nat -> Z) (sess : Session) (sub : SubmissionInfo) (scenario : Scenario).
Context (wc orderBand m : Z) (ep : Endpoint).
Let tasks := sc_TaskSpecs scenario.
Let nt := length (submissionTargets sub).
Hypothesis Hn : Z.of_nat (length tasks) < 2 ^ 32.
Hypothesis Hwc : 1 <= wc < 2 ^ 32.
Hypothesis Hm : Z.of_nat (length tasks) <= wc * m.
Hypothesis Hep : s_Endpoint sess = Some ep.

(** One spec per worker, over all of the scenario's tasks. *)
Lemma buildWorkloadSpecs_spec :
  exists specs, buildWorkloadSpecs cfg now sess sub scenario wc orderBand = Ret specs /\
    map ws_WorkerIndex specs = seqZ 0 wc /\
    concat (map ws_Tasks specs) ≡ₚ imap (stamp nt) tasks /\
    Forall (fun spec => ws_SessionID spec = s_SessionID sess /\ ws_WorkerCount spec = wc /\ ws_OrderBand spec = orderBand /\
              ws_Targets spec = submissionTargets sub /\
              ws_Tasks spec = shard_tasks nt wc (ws_WorkerIndex spec) tasks /\
              Z.of_nat (length (ws_Tasks spec)) <= m) specs.
Proof.
  unfold buildWorkloadSpecs. destruct (Z.eqb_spec wc 0); [lia|]. cbn [andb]. rewrite Hep.
  pose proof (submissionTargets_length sub) as Hnt. destruct (submissionTargets sub) as [|tg tgs] eqn:Et; [simpl in Hnt; lia|].
  eexists. split; [done|]. fold tasks. fold nt. set (f := fun (i : nat) (t : list TaskSpec) => _).
  set (tbw := tasksByWorker nt wc tasks). assert (Hlen : length tbw = Z.to_nat wc) by apply tasksByWorker_length.
  split_and!.
  - apply list_eq. intros i. change (map ws_WorkerIndex (imap f tbw)) with (ws_WorkerIndex <$> imap f tbw).
    rewrite list_lookup_fmap, list_lookup_imap. destruct (tbw !! i) as [l|] eqn:El; simpl.
    + apply lookup_lt_Some in El. symmetry. apply lookup_seqZ. lia.
    + apply lookup_ge_None in El. symmetry. apply lookup_ge_None. rewrite length_seqZ. lia.
  - rewrite <-(tasksByWorker_perm nt wc Hwc tasks Hn). fold tbw.
    replace (map ws_Tasks (imap f tbw)) with tbw; [done|]. apply list_eq. intros i.
    change (map ws_Tasks (imap f tbw)) with (ws_Tasks <$> imap f tbw).
    rewrite list_lookup_fmap, list_lookup_imap. by destruct (tbw !! i).
  - apply Forall_lookup. intros i spec (l & El & ->)%specs_lookup.
    pose proof (lookup_lt_Some _ _ _ El) as Hi. rewrite Hlen in Hi.
    pose proof (tasksByWorker_lookup nt wc Hwc tasks (Z.of_nat i) Hn ltac:(lia)) as El'.
    rewrite Nat2Z.id in El'. fold tbw in El'. rewrite El in El'. injection El' as ->. unfold f. cbn.
    split_and!; try done. apply shard_bound; [done|lia|done].
Qed.

End Specs.

Lemma shard_tasks_elem nt wc w tasks t :
  t ∈ shard_tasks nt wc w tasks -> exists i ts, tasks !! i = Some ts /\ Z.of_nat i mod wc = w /\ t = stamp nt i ts.
Proof.
  unfold shard_tasks. intros ([i ts] & Hin & E)%list_elem_of_omap. exists i, ts.
  apply list_elem_of_lookup in Hin as [j Hj]. apply specs_lookup in Hj as (x & Hx & [= -> ->]).
  destruct (Z.eqb_spec (Z.of_nat j mod wc) w); [|done]. by injection E as <-.
Qed.

(** C18: a session sized by [computeWorkerCountForLoad] is sharded exactly. Both ceilings hold: no worker gets
    more than [MaxTasksPerWorker] tasks and the workers together can pace the scenario's rate.  Every task of
    the scenario is in exactly one worker's spec, task [i] in that of worker [i mod workerCount]; each task's
    target index names a target of its spec, whose port the sandbox pod exposes; and the messages of the specs
    go, one each and under distinct keys, to exactly the partitions leased for the session, whatever
    partitions the writer's metadata shows. *)
Theorem workload_sharding `{Unicode} cfg now sess sub scenario orderBand ep marshal leases :
  let tasks := sc_TaskSpecs scenario in
  let rps := totalTargetRPS tasks in
  let wc := computeWorkerCountForLoad (Z.of_nat (length tasks)) rps (MaxTasksPerWorker cfg) (WorkerRPSCapacity cfg) in
  0 < Z.of_nat (length tasks) < 2 ^ 32 -> MaxTasksPerWorker cfg < 2 ^ 62 ->
  0 <= WorkerRPSCapacity cfg -> rps + WorkerRPSCapacity cfg < 2 ^ 64 ->
  WorkerRPSCapacity cfg = 0 \/ rps <= (2 ^ 32 - 1) * WorkerRPSCapacity cfg ->
  s_Endpoint sess = Some ep -> Z.of_nat (length leases) = wc -> (forall spec, exists payload, marshal spec = inr payload) ->
  (WorkerRPSCapacity cfg = 0 \/ rps <= wc * WorkerRPSCapacity cfg) /\
  exists specs msgs, buildWorkloadSpecs cfg now sess sub scenario wc orderBand = Ret specs /\
    map ws_WorkerIndex specs = seqZ 0 wc /\
    concat (map ws_Tasks specs) ≡ₚ imap (stamp (length (submissionTargets sub))) tasks /\
    Forall (fun spec => Z.of_nat (length (ws_Tasks spec)) <= task_bound (MaxTasksPerWorker cfg) /\
      forall t, t ∈ ws_Tasks spec ->
        (exists i ts, tasks !! i = Some ts /\ Z.of_nat i mod wc = ws_WorkerIndex spec /\
                      t = stamp (length (submissionTargets sub)) i ts) /\
        exists tg, ResolvedTargets spec !! Z.to_nat (ts_TargetIdx t) = Some tg /\ tg_Port tg ∈ submissionPorts sub) specs /\
    (forall write, PublishWorkloadSpec marshal false write specs leases = Ret (msgs, write msgs)) /\
    (forall fallback partitions, map (fun msg => Balance fallback msg partitions) msgs = leases) /\
    NoDup (map km_Key msgs).
Proof.
  intros tasks rps wc Hn Hm Hc Hw Hfit Hep Hl Hmar.
  pose proof (totalTargetRPS_range tasks) as Hrps. fold rps in Hrps.
  destruct (computeWorkerCountForLoad_spec (Z.of_nat (length tasks)) rps _ _ Hn Hm ltac:(lia) Hc Hw Hfit)
    as (Hwc & Hbound & Hrate). fold wc in Hwc, Hbound, Hrate. split; [done|].
  destruct (buildWorkloadSpecs_spec cfg now sess sub scenario wc orderBand _ ep ltac:(fold tasks; lia) Hwc Hbound Hep)
    as (specs & Hb & Hidx & Hperm & Hall).
  assert (Hlen : length leases = length specs).
  { apply (f_equal length) in Hidx. rewrite length_map, length_seqZ in Hidx. lia. }
  destruct (build_messages_spec marshal specs leases Hlen (fun spec _ => Hmar spec)) as (msgs & Emsg & Edata & Ekeys & _).
  exists specs, msgs. split_and!; [done..| | | |].
  - eapply Forall_impl; [exact Hall|]. cbv beta. intros spec (_ & _ & _ & Ht & Eshard & Hlb). split; [done|].
    intros t Hin. rewrite Eshard in Hin. apply shard_tasks_elem in Hin as (i & ts & Hi & Hmod & ->).
    split; [by exists i, ts|]. destruct (stamp_target sub i ts) as (tg & Htg & Hp). exists tg.
    unfold ResolvedTargets. rewrite Ht. pose proof (submissionTargets_length sub).
    destruct (Nat.ltb_spec 0 (length (submissionTargets sub))); [done|lia].
  - intros write. unfold PublishWorkloadSpec. rewrite Hlen, Nat.eqb_refl. cbn [negb].
    unfold buildWorkloadMessages. by rewrite Emsg.
  - intros. by apply Balance_all.
  - rewrite Ekeys. apply (keys_nodup (s_SessionID sess)).
    + eapply Forall_impl; [exact Hall|]. by intros spec (-> & _).
    + rewrite Hidx. apply NoDup_seqZ.
Qed.

(** Three tasks at 40 orders/s, workers of two tasks and 50 orders/s, both protocols of an ALL submission. *)
Definition ex_task (id : Z) : TaskSpec :=
  {| ts_TaskID := id; ts_Profile := "hft"; ts_TargetRPS := 40; ts_StartOffsetNs := 0; ts_DurationNs := 1;
     ts_MarketPct := 0; ts_CancelPct := 0; ts_ReplacePct := 0; ts_TargetIdx := 0; ts_SMPIDCount := 0 |}.
Definition ex_cfg : RunConfig := mkRunConfig 42 "FIX.4.2" 1500 250 60 30 1 2 90 2 50 60.
Definition ex_scenario : Scenario :=
  {| sc_ScenarioID := "sc"; sc_Name := "constant"; sc_DurationNs := 1; sc_TaskSpecs := [ex_task 0; ex_task 1; ex_task 2] |}.
Definition ex_sub : SubmissionInfo := mkSubmission "sub" "con" "ALL" 9898 "image".
Definition ex_sess : Session :=
  mkSession "sess" "sub" "con" "grp" "" "" "" (Some (mkEndpoint "10.0.0.1" 9898)) 3 ∅ [] 7 0.
Definition ex_unicode : Unicode := Build_Unicode (fun s => s) (fun s => s).

Lemma workload_sharding_witness :
  computeWorkerCountForLoad 3 120 2 50 = 3 /\
  exists specs msgs, @buildWorkloadSpecs ex_unicode ex_cfg (fun _ => 7) ex_sess ex_sub ex_scenario 3 1 = Ret specs /\
    map ws_WorkerIndex specs = [0; 1; 2] /\
    forall fallback partitions, map (fun msg => Balance fallback msg partitions) msgs = [5; 1; 4].
Proof.
  split; [reflexivity|].
  destruct (@workload_sharding ex_unicode ex_cfg (fun _ => 7) ex_sess ex_sub ex_scenario 1 (mkEndpoint "10.0.0.1" 9898)
              (fun _ => inr ""%string) [5; 1; 4]) as (_ & specs & msgs & Hb & Hidx & _ & _ & _ & Hbal & _).
  - vm_compute. done.
  - vm_compute. done.
  - vm_compute. done.
  - vm_compute. done.
  - right. vm_compute. done.
  - reflexivity.
  - reflexivity.
  - intros spec. by exists ""%string.
  - exists specs, msgs. split_and!; [exact Hb|exact Hidx|exact Hbal].
Defined.
