(* ===== verification/Gate.v ===== *)
(** * bot-fleet-controller: waiting for the fleet

    [session.go] (the tracked sessions and their ready channels),
    [capacity.go] (the blocking pre-scale gate) and [awaitReady] of
    [runner.go].  Time is the monotonic clock in nanoseconds: a probe takes
    [p_took], a timer fires [p_late] after it is due; both are at least 0. *)

From stdpp Require Import prelude gmap strings list pretty.
From S2P Require Import Prelude Topics Replay Shard.

Open Scope Z_scope.

(** ** Session manager *)

Definition set_readyCh (s : Session) (ch : list ReadySignal) : Session :=
  mkSession (s_SessionID s) (s_SubmissionID s) (s_ContestantID s) (s_RunGroupID s) (s_Status s) (s_Message s)
    (s_SlotID s) (s_Endpoint s) (s_WorkerCount s) (s_ReadyReceived s) ch (s_readyCap s) (s_CreatedAt s).

(** The session a request opens, with an empty channel of the capacity [Run]
    makes. *)
Definition newSession (req : BenchmarkRequested) (workerCount now : Z) : Session :=
  mkSession (br_SessionID req) (br_SubmissionID req) (br_ContestantID req) (br_RunGroupID req) "" "" "" None
    workerCount ∅ [] (workerCount * 2 + 1) now.

Abbreviation SessionManager := (gmap string Session).

Definition NewSessionManager : SessionManager := ∅.

(** The session now tracked and whether it was already. *)
Definition Add (m : SessionManager) (sess : Session) : SessionManager * (Session * bool) :=
  match m !! s_SessionID sess with
  | Some existing => (m, (existing, true))
  | None => (<[s_SessionID sess := sess]> m, (sess, false))
  end.

Definition Get (m : SessionManager) (sessionID : string) : option Session := m !! sessionID.
Definition Drop (m : SessionManager) (sessionID : string) : SessionManager := delete sessionID m.

Definition demandLocked `{MapRange} (m : SessionManager) : Z :=
  foldl (fun total s => total +u32 s_WorkerCount s) 0 (map_range (map_to_list m).*2).

Definition DemandedWorkers `{MapRange} (m : SessionManager) : Z := demandLocked m.

Definition Snapshot `{MapRange} (m : SessionManager) : list string := map_range (map_to_list m).*1.

(** A full channel refuses the signal. *)
Definition DispatchReady (m : SessionManager) (sig : ReadySignal) : SessionManager * bool :=
  match m !! rs_SessionID sig with
  | None => (m, false)
  | Some sess =>
      if Z.of_nat (length (s_readyCh sess)) <? s_readyCap sess
      then (<[rs_SessionID sig := set_readyCh sess (s_readyCh sess ++ [sig])]> m, true)
      else (m, false)
  end.

(** ** Ready fan-in *)

Inductive ReadyError := NoReadySignals | PartialFanIn (received expected : Z) | ReadyCtxDone (err : string).

(** What else ends the wait, when the signals run out. *)
Inductive ReadyEnd := DeadlineFired | CtxDone (err : string).

(** [sigs] are the signals received in channel order; the result is the
    error and the map [ReadyReceived]. *)
Fixpoint awaitReady (workerCount : Z) (received : gmap Z ReadySignal) (sigs : list ReadySignal) (fin : ReadyEnd)
    : option ReadyError * gmap Z ReadySignal :=
  if u32 (Z.of_nat (size received)) <? workerCount then
    match sigs with
    | sig :: sigs => awaitReady workerCount (<[rs_WorkerIndex sig := sig]> received) sigs fin
    | [] =>
        (Some match fin with
              | CtxDone err => ReadyCtxDone err
              | DeadlineFired => if (size received =? 0)%nat then NoReadySignals
                                 else PartialFanIn (Z.of_nat (size received)) workerCount
              end, received)
    end
  else (None, received).

(** ** Capacity *)

Record GroupCapacity := mkCapacity { gc_Members : Z; gc_Stable : bool; gc_State : string; gc_Err : option string }.
Definition zeroCapacity : GroupCapacity := mkCapacity 0 false "" None.

(** kafka-go's raw response, as far as it is read. *)
Record GroupDescription := mkGroup { dg_GroupID : string; dg_ErrorCode : Z; dg_GroupState : string; dg_Members : list string }.

Definition capacityFromProtocol (resp : option (list GroupDescription)) (groupID : string) : GroupCapacity :=
  match resp with
  | None => zeroCapacity
  | Some groups =>
      match List.find (fun g => bool_decide (dg_GroupID g = groupID)) groups with
      | None => zeroCapacity
      | Some g =>
          if negb (dg_ErrorCode g =? 0)
          then mkCapacity 0 false (dg_GroupState g)
                 (Some ("describe group " +:+ groupID +:+ ": kafka error code " +:+ pretty (dg_ErrorCode g))%string)
          else mkCapacity (Z.of_nat (length (dg_Members g)))
                 (bool_decide (dg_GroupState g = "Stable"%string) && (0 <? length (dg_Members g))%nat)
                 (dg_GroupState g) None
      end
  end.

(** The answer of the transport: an error, a response of another type, or
    the response. *)
Inductive RoundTrip := TransportError (err : string) | WrongType (name : string) | Described (resp : option (list GroupDescription)).

Definition GroupCapacityProbe (noop : bool) (groupID : string) (raw : RoundTrip) : string + GroupCapacity :=
  if noop then inl "producer is in noop mode (KAFKA_BROKERS not set)"%string else
  match raw with
  | TransportError err => inl err
  | WrongType name => inl ("unexpected DescribeGroups response type " +:+ name)%string
  | Described resp =>
      let c := capacityFromProtocol resp groupID in
      match gc_Err c with Some err => inl err | None => inr c end
  end.

Inductive GateError :=
  | ProbeFailed (want : Z) (err : string)
  | TooFewMembers (members want : Z) (state : string)
  | GateCtxDone (err : string).

(** One round of the gate: the probe's answer and duration, how late the
    timer fires, and the context's error when it is done during the sleep. *)
Record Poll := mkPoll { p_probe : string + GroupCapacity; p_took : Z; p_late : Z; p_done : option string }.

Definition satisfied (want : Z) (p : Poll) : bool :=
  match p_probe p with inl _ => false | inr cap => (want <=? gc_Members cap) && gc_Stable cap end.

(** The loop at time [t], before round [i]; the outer [option] is fuel. *)
Fixpoint await_loop (polls : nat -> Poll) (want pollInterval deadline : Z) (fuel : nat) (i : nat) (t : Z)
    (last : GroupCapacity) : option (option GateError) :=
  match fuel with
  | O => None
  | S fuel =>
      let p := polls i in
      let t := t + p_took p in
      if satisfied want p then Some None else
      let lastErr := match p_probe p with inl err => Some err | inr _ => None end in
      let last := match p_probe p with inl _ => last | inr cap => cap end in
      let remaining := deadline - t in
      if remaining <=? 0 then
        Some (Some match lastErr with
                   | Some err => ProbeFailed want err
                   | None => TooFewMembers (gc_Members last) want (gc_State last)
                   end)
      else
        let sleep := if remaining <? pollInterval then remaining else pollInterval in
        match p_done p with
        | Some err => Some (Some (GateCtxDone err))
        | None => await_loop polls want pollInterval deadline fuel (S i) (t + sleep + p_late p) last
        end
  end.

(** The fuel is one round per poll interval of the timeout, and two. *)
Definition awaitCapacity (polls : nat -> Poll) (want timeout pollInterval t : Z) : option (option GateError) :=
  if (want <=? 1) || (timeout <=? 0) then Some None else
  let pollInterval := if pollInterval <=? 0 then 1000000000 else pollInterval in
  await_loop polls want pollInterval (t + timeout) (Z.to_nat (timeout / pollInterval) + 2) 0 t zeroCapacity.

(** ** Lemmas: fan-in *)

Lemma demand_sum (l : list Session) : foldl (fun total s => total +u32 s_WorkerCount s) 0 l = u32 (sumZ (map s_WorkerCount l)).
Proof.
  induction l as [|s l IH] using rev_ind; [done|]. rewrite foldl_snoc, IH, map_app, sumZ_app.
  unfold sumZ at 3. simpl. rewrite Z.add_0_r. unfold u32. by rewrite Z.add_mod_idemp_l.
Qed.

Definition indices (sigs : list ReadySignal) : gset Z := list_to_set (map rs_WorkerIndex sigs).

Lemma insert_sig_dom (m : gmap Z ReadySignal) sig : dom (<[rs_WorkerIndex sig := sig]> m) = {[rs_WorkerIndex sig]} ∪ dom m.
Proof. apply dom_insert_L. Qed.

(** The wait ends well exactly when enough distinct workers have reported. *)
Lemma awaitReady_spec wc received sigs fin :
  0 <= wc -> Z.of_nat (size received) <= wc < 2 ^ 32 ->
  let '(err, received') := awaitReady wc received sigs fin in
  (err = None <-> wc <= Z.of_nat (size (dom received ∪ indices sigs))) /\
  (err = None -> Z.of_nat (size received') = wc) /\
  (forall i s, received' !! i = Some s -> received !! i = Some s \/ (s ∈ sigs /\ rs_WorkerIndex s = i)).
Proof.
  intros H0. revert received. induction sigs as [|sig sigs IH]; intros received Hsz; simpl.
  - rewrite u32_small by lia. unfold indices. simpl. rewrite union_empty_r_L, size_dom.
    destruct (Z.ltb_spec (Z.of_nat (size received)) wc).
    + split_and!; [split; [done|lia]|done|naive_solver].
    + split_and!; [split; [lia|done]|lia|naive_solver].
  - rewrite u32_small by lia. destruct (Z.ltb_spec (Z.of_nat (size received)) wc) as [Hlt|Hge].
    + set (r2 := <[rs_WorkerIndex sig := sig]> received).
      assert (Hs : Z.of_nat (size r2) <= wc).
      { unfold r2. rewrite map_size_insert. destruct (received !! _); simpl; lia. }
      specialize (IH r2 ltac:(lia)). destruct (awaitReady wc r2 sigs fin) as [err r'].
      destruct IH as (IH1 & IH2 & IH3). split_and!; [|done|].
      * rewrite IH1. unfold r2, indices. rewrite insert_sig_dom. simpl.
        by rewrite <-(union_assoc_L {[_]}), (union_comm_L (dom received)), union_assoc_L,
             (union_comm_L _ (dom received)).
      * intros i s E. destruct (IH3 i s E) as [E'|[Hin Hi]].
        -- unfold r2 in E'. apply lookup_insert_Some in E' as [[<- <-]|[_ E']]; [right; split; [left|done]|by left].
        -- right. split; [by right|done].
    + split_and!.
      * split; [|done]. intros _. rewrite <-size_dom in Hge.
        assert (size (dom received) <= size (dom received ∪ indices (sig :: sigs)))%nat by (apply subseteq_size; set_solver).
        lia.
      * lia.
      * naive_solver.
Qed.

(** Dispatching a batch of signals. *)
Definition dispatch_all (m : SessionManager) (sigs : list ReadySignal) : SessionManager * list bool :=
  foldl (fun '(m, oks) sig => let '(m, ok) := DispatchReady m sig in (m, oks ++ [ok])) (m, []) sigs.

Lemma dispatch_all_spec m sess sigs :
  m !! s_SessionID sess = Some sess ->
  Forall (fun sig => rs_SessionID sig = s_SessionID sess) sigs ->
  Z.of_nat (length (s_readyCh sess)) + Z.of_nat (length sigs) <= s_readyCap sess ->
  dispatch_all m sigs =
    (<[s_SessionID sess := set_readyCh sess (s_readyCh sess ++ sigs)]> m, replicate (length sigs) true).
Proof.
  intros Hm. unfold dispatch_all. induction sigs as [|sig sigs IH] using rev_ind; intros Hs Hl.
  - simpl. rewrite app_nil_r. destruct sess; simpl in *. by rewrite insert_id.
  - apply Forall_app in Hs as [Hs Hsig]. apply Forall_cons in Hsig as [Hsig _]. rewrite length_app in Hl. simpl in Hl.
    rewrite foldl_snoc, IH by (done || lia). unfold DispatchReady. rewrite Hsig, lookup_insert_eq.
    cbn [s_readyCh s_readyCap set_readyCh]. rewrite length_app.
    destruct (Z.ltb_spec (Z.of_nat (length (s_readyCh sess) + length sigs)) (s_readyCap sess)); [|lia].
    rewrite insert_insert_eq, <-app_assoc, length_app. simpl. f_equal. by rewrite Nat.add_comm, <-replicate_cons_app.
Qed.

Lemma indices_seq sigs wc :
  (forall sig, sig ∈ sigs -> 0 <= rs_WorkerIndex sig < wc) -> 0 <= wc ->
  wc <= Z.of_nat (size (indices sigs)) <-> forall w, 0 <= w < wc -> exists sig, sig ∈ sigs /\ rs_WorkerIndex sig = w.
Proof.
  intros Hr Hwc. set (all := list_to_set (seqZ 0 wc) : gset Z).
  assert (Hall : size all = Z.to_nat wc) by (unfold all; by rewrite size_list_to_set, length_seqZ by apply NoDup_seqZ).
  assert (Hin : forall w, w ∈ indices sigs <-> exists sig, sig ∈ sigs /\ rs_WorkerIndex sig = w).
  { intros w. unfold indices. rewrite elem_of_list_to_set, list_elem_of_fmap. naive_solver. }
  assert (Hsub : indices sigs ⊆ all).
  { intros w (sig & Hsig & <-)%Hin. unfold all. apply elem_of_list_to_set, elem_of_seqZ. specialize (Hr sig Hsig). lia. }
  split.
  - intros Hsz w Hw. apply Hin. assert (E : indices sigs ≡ all) by (apply set_subseteq_size_equiv; [done|lia]).
    rewrite E. unfold all. apply elem_of_list_to_set, elem_of_seqZ. lia.
  - intros Hc. assert (size all <= size (indices sigs))%nat; [|lia]. apply subseteq_size. intros w Hw.
    apply Hin, Hc. unfold all in Hw. apply elem_of_list_to_set, elem_of_seqZ in Hw. lia.
Qed.

(** Ready fan-in neither loses a worker nor starts without one.  The channel of a newly tracked session
    takes up to two signals from each of its workers and one more without refusing any, in order; when the
    signals come from the session's own workers, [awaitReady] then succeeds exactly when every worker has
    reported, whatever duplicates there are, with one signal recorded per worker; and otherwise it fails. *)
Theorem ready_fan_in req wc now m sigs fin :
  let sess := newSession req wc now in
  1 <= wc < 2 ^ 32 -> m !! br_SessionID req = None ->
  Forall (fun sig => rs_SessionID sig = br_SessionID req /\ 0 <= rs_WorkerIndex sig < wc) sigs ->
  Z.of_nat (length sigs) <= 2 * wc + 1 ->
  exists m', Add m sess = (<[br_SessionID req := sess]> m, (sess, false)) /\
    dispatch_all (<[br_SessionID req := sess]> m) sigs = (m', replicate (length sigs) true) /\
    exists sess', Get m' (br_SessionID req) = Some sess' /\ s_readyCh sess' = sigs /\
    let '(err, received) := awaitReady wc (s_ReadyReceived sess') (s_readyCh sess') fin in
    (err = None <-> forall w, 0 <= w < wc -> exists sig, sig ∈ sigs /\ rs_WorkerIndex sig = w) /\
    (err = None -> Z.of_nat (size received) = wc) /\
    forall i s, received !! i = Some s -> s ∈ sigs /\ rs_WorkerIndex s = i.
Proof.
  intros sess Hwc Hm Hs Hl. rewrite Forall_forall in Hs. unfold Add. cbn [sess newSession s_SessionID]. rewrite Hm.
  eexists. split; [done|]. split.
  - apply (dispatch_all_spec _ sess); [apply lookup_insert_eq| |cbn; lia].
    apply Forall_forall. intros sig Hsig. apply (Hs sig Hsig).
  - eexists. split; [apply lookup_insert_eq|]. cbn [set_readyCh s_readyCh s_ReadyReceived sess newSession]. split; [done|].
    pose proof (awaitReady_spec wc ∅ sigs fin ltac:(lia) ltac:(rewrite map_size_empty; lia)) as HA. simpl app.
    destruct (awaitReady wc ∅ sigs fin) as [err received]. destruct HA as (H1 & H2 & H3). split_and!.
    + rewrite H1, dom_empty_L, union_empty_l_L. apply indices_seq; [|lia]. intros sig Hsig. apply (Hs sig Hsig).
    + done.
    + intros i s E. destruct (H3 i s E) as [E'|?]; [by rewrite lookup_empty in E'|done].
Qed.

(** ** Lemmas: the gate *)

Definition timing_ok (polls : nat -> Poll) : Prop := forall i, 0 <= p_took (polls i) /\ 0 <= p_late (polls i).

(** When a probe returned, given when the one before it did: the gate sleeps
    for the interval or what is left of the time, and wakes up late. *)
Definition probe_time (polls : nat -> Poll) (pollInterval deadline t : Z) (i : nat) : Z :=
  t + Z.min pollInterval (deadline - t) + p_late (polls i) + p_took (polls (S i)).

(** When the [n]-th probe returned, the gate having started at [t]. *)
Fixpoint probed_at (polls : nat -> Poll) (pollInterval deadline t : Z) (n : nat) : Z :=
  match n with
  | O => t + p_took (polls O)
  | S n => probe_time polls pollInterval deadline (probed_at polls pollInterval deadline t n) n
  end.

Definition enough (want : Z) (cap : GroupCapacity) : Prop := want <= gc_Members cap /\ gc_Stable cap = true.

(** The result, from the last probe and whether the time was up when it
    returned. *)
Definition gate_result (want : Z) (p : Poll) (late : Prop) (r : option GateError) : Prop :=
  match r with
  | None => exists cap, p_probe p = inr cap /\ enough want cap
  | Some (GateCtxDone err) => satisfied want p = false /\ ~ late /\ p_done p = Some err
  | Some (ProbeFailed n err) => n = want /\ late /\ p_probe p = inl err
  | Some (TooFewMembers members n state) =>
      n = want /\ late /\ exists cap, p_probe p = inr cap /\ ~ enough want cap /\ members = gc_Members cap /\ state = gc_State cap
  end.

Lemma satisfied_spec want p : satisfied want p = true <-> exists cap, p_probe p = inr cap /\ enough want cap.
Proof. unfold satisfied, enough. destruct (p_probe p) as [err|cap]; [naive_solver|]. rewrite andb_true_iff, Z.leb_le. naive_solver. Qed.

(** The error of a gate whose time is up. *)
Lemma late_result want p last (late : Prop) :
  satisfied want p = false -> late ->
  gate_result want p late
    (Some match match p_probe p with inl err => Some err | inr _ => None end with
          | Some err => ProbeFailed want err
          | None => TooFewMembers (gc_Members (match p_probe p with inl _ => last | inr cap => cap end)) want
                      (gc_State (match p_probe p with inl _ => last | inr cap => cap end))
          end).
Proof.
  intros Hs Hl. destruct (p_probe p) as [err|cap] eqn:E; [done|]. split_and!; [done..|]. exists cap. split_and!; [done| |done..].
  intros He. assert (satisfied want p = true) by (apply satisfied_spec; eauto). congruence.
Qed.

(** How the loop ends, from the probe [i] that starts at [t] on. *)
Lemma await_loop_spec polls want poll deadline t0 fuel i t last :
  timing_ok polls -> 0 < poll -> deadline - t <= Z.of_nat fuel * poll ->
  t + p_took (polls i) = probed_at polls poll deadline t0 i ->
  exists r n, await_loop polls want poll deadline (S fuel) i t last = Some r /\ (i <= n)%nat /\
    (forall j, (i <= j < n)%nat -> satisfied want (polls j) = false /\ p_done (polls j) = None /\ probed_at polls poll deadline t0 j < deadline) /\
    gate_result want (polls n) (deadline <= probed_at polls poll deadline t0 n) r.
Proof.
  intros Ht Hp. revert i t last. induction fuel as [|fuel IH]; intros i t last Hd Hi; destruct (Ht i) as [Ht1 Ht2].
  - cbn [await_loop]. destruct (satisfied want (polls i)) eqn:Hs.
    + exists None, i. split_and!; [done|lia|lia|by apply satisfied_spec].
    + destruct (Z.leb_spec (deadline - (t + p_took (polls i))) 0); [|lia].
      eexists (Some _), i. split_and!; [done|lia|lia|apply late_result; [done|lia]].
  - set (fuel' := S fuel) in *. cbn [await_loop]. destruct (satisfied want (polls i)) eqn:Hs.
    { exists None, i. split_and!; [done|lia|lia|by apply satisfied_spec]. }
    destruct (Z.leb_spec (deadline - (t + p_took (polls i))) 0).
    { eexists (Some _), i. split_and!; [done|lia|lia|apply late_result; [done|lia]]. }
    destruct (p_done (polls i)) as [err|] eqn:Hdone.
    { eexists (Some _), i. split_and!; [done|lia|lia|]. split_and!; [done|lia|done]. }
    set (t' := t + p_took (polls i) + _ + _). set (last' := match p_probe (polls i) with inl _ => _ | inr _ => _ end).
    destruct (IH (S i) t' last') as (r & n & Hr & Hn & Hj & Hrn).
    { unfold t', fuel' in *. destruct (Z.ltb_spec (deadline - (t + p_took (polls i))) poll); nia. }
    { cbn [probed_at]. unfold probe_time. rewrite <-Hi. unfold t'. destruct (Z.ltb_spec (deadline - (t + p_took (polls i))) poll); lia. }
    exists r, n. split_and!; [done|lia| |done]. intros j Hjn. destruct (decide (j = i)) as [->|]; [split_and!; [done..|lia]|]. apply Hj. lia.
Qed.

(** C19: the pre-scale gate always returns, and lets a session publish only onto a fleet that can serve it.
    Whatever the probes answer and however long they take, [awaitCapacity] ends within its fuel.  With at most
    one shard or no timeout it returns nil.  Otherwise there is a last probe: each one before it showed too few
    members or an unstable group, returned before the deadline and found the context alive; the gate returns nil
    exactly when the last one showed a stable group with a member per shard, the context's error exactly when
    that ended before the deadline, and the failure of the last probe or what it counted only when the deadline
    had passed as it returned. *)
Theorem capacity_gate polls want timeout pollInterval t :
  let poll := if pollInterval <=? 0 then 1000000000 else pollInterval in
  let returned := probed_at polls poll (t + timeout) t in
  timing_ok polls ->
  exists r, awaitCapacity polls want timeout pollInterval t = Some r /\
    (want <= 1 \/ timeout <= 0 -> r = None) /\
    (1 < want -> 0 < timeout ->
     exists n, (forall j, (j < n)%nat -> satisfied want (polls j) = false /\ p_done (polls j) = None /\ returned j < t + timeout) /\
       gate_result want (polls n) (t + timeout <= returned n) r).
Proof.
  intros poll returned Ht. unfold awaitCapacity. destruct (Z.leb_spec want 1); cbn [orb].
  { exists None. split_and!; [done..|lia]. }
  destruct (Z.leb_spec timeout 0). { exists None. split_and!; [done..|lia]. }
  fold poll. assert (Hp : 0 < poll) by (unfold poll; destruct (Z.leb_spec pollInterval 0); lia).
  rewrite Nat.add_comm. change (2 + Z.to_nat (timeout / poll))%nat with (S (S (Z.to_nat (timeout / poll)))).
  destruct (await_loop_spec polls want poll (t + timeout) t (S (Z.to_nat (timeout / poll))) 0 t zeroCapacity Ht Hp)
    as (r & n & Hr & _ & Hj & Hrn); [|done|].
  { pose proof (Z.mul_succ_div_gt timeout poll Hp). pose proof (Z.div_pos timeout poll ltac:(lia) Hp). nia. }
  exists r. split_and!; [done|lia|]. intros _ _. exists n. split; [intros j Hjn; apply Hj; lia|done].
Qed.

Definition ex_req : BenchmarkRequested :=
  {| br_SessionID := "sess"; br_SubmissionID := "sub"; br_ContestantID := "con"; br_RunGroupID := "grp";
     br_ScenarioID := "sc"; br_RequestedAt := 0 |}.
Definition ex_sig (w : Z) : ReadySignal :=
  {| rs_SessionID := "sess"; rs_SubmissionID := "sub"; rs_WorkerID := "w"; rs_WorkerIndex := w; rs_WorkerCount := 2;
     rs_TaskCount := 1; rs_ConnectedCount := 1; rs_ReadyAtUnixNanos := 0 |}.

Lemma ready_fan_in_witness :
  exists m', dispatch_all (<["sess"%string := newSession ex_req 2 0]> ∅) [ex_sig 1; ex_sig 1; ex_sig 0] = (m', [true; true; true]) /\
    (awaitReady 2 ∅ [ex_sig 1; ex_sig 1; ex_sig 0] DeadlineFired).1 = None.
Proof.
  destruct (ready_fan_in ex_req 2 0 ∅ [ex_sig 1; ex_sig 1; ex_sig 0] DeadlineFired)
    as (m' & _ & Hd & sess' & _ & Hch & _).
  - lia.
  - reflexivity.
  - repeat constructor; cbn; lia.
  - cbn. lia.
  - exists m'. split; [exact Hd|]. vm_compute. reflexivity.
Defined.

(** A group that fills up at the third probe. *)
Definition ex_polls (i : nat) : Poll :=
  mkPoll (match i with O => inl "coordinator not available"%string
                     | 1%nat => inr (mkCapacity 1 true "Stable" None)
                     | _ => inr (mkCapacity 3 true "Stable" None) end) 10 5 None.

Lemma capacity_gate_witness :
  exists n, gate_result 3 (ex_polls n) (90000000000 <= probed_at ex_polls 2000000000 90000000000 0 n) None /\
    forall j, (j < n)%nat -> satisfied 3 (ex_polls j) = false.
Proof.
  destruct (capacity_gate ex_polls 3 90000000000 2000000000 0) as (r & Hr & _ & Hn).
  - intros i. cbn. lia.
  - destruct (Hn ltac:(lia) ltac:(lia)) as (n & Hj & Hg). exists n. split; [|intros j Hjn; apply Hj, Hjn].
    vm_compute in Hr. injection Hr as <-. exact Hg.
Defined.
