(* ===== verification/Runner.v ===== *)
(** * bot-fleet-controller: one session from request to terminal status

    [Run], [runSession] and their helpers in [internal/controller/runner.go].
    Calls run in a state monad over the tracked sessions and the log of
    effects on the outside world; a panic is an outcome ([Go]), [defer] runs
    on return and on panic alike.

    The world answers through [Env]: what each call of the store, the
    orchestrator, Kafka and the allocators returns, whether it errs or
    panics.  A tracked session is the object its pointer in the session map
    denotes, so [Run] changes it there.  Logging and metrics are left out. *)

From stdpp Require Import prelude gmap strings list pretty.
From S2P Require Import Prelude Topics Shard Gate.

Open Scope Z_scope.

(** ** Effects *)

Inductive Pool := Partitions | Bands.

#[export] Instance Pool_eq_dec : EqDecision Pool.
Proof. solve_decision. Defined.

(** How a call of another service ends. *)
Inductive Outcome := Succeeded | Failed | Panicked.

#[export] Instance Outcome_eq_dec : EqDecision Outcome.
Proof. solve_decision. Defined.

(** The calls a run makes on the outside, each with how it ended. *)
Inductive Effect :=
  | EStatus (evt : BenchmarkStatusUpdated) (o : Outcome)
  | EAcquire (pool : Pool) (sessionID : string) (count : Z) (ok : bool)
  | ERelease (pool : Pool) (sessionID : string)
  | ECreateSlot (slotID contestantID image : string) (ports : list Z) (orderBand : Z) (o : Outcome)
  | EDeleteSlot (slotID : string) (o : Outcome)
  | EWorkload (msgs : list Message) (ok : bool)
  | EBarrier (sessionID : string) (epochNS : Z) (o : Outcome).

Record World := mkRunWorld { rw_sessions : SessionManager; rw_trace : list Effect }.

(** ** The monad *)

Definition M (A : Type) : Type := World -> Go A * World.

Definition ret {A} (a : A) : M A := fun w => (Ret a, w).
Definition panic {A} (p : string) : M A := fun w => (Panic p, w).
Definition bind {A B} (m : M A) (k : A -> M B) : M B :=
  fun w => let '(r, w) := m w in match r with Ret a => k a w | Panic p => (Panic p, w) end.

Declare Scope run_scope.
Delimit Scope run_scope with run.
Notation "'let!' x := m 'in' k" := (bind m (fun x => k))
  (at level 10, x name, m at level 200, k at level 200) : run_scope.
Open Scope run_scope.

(** [defer d] in front of [m]: a panic of [d] replaces the outcome. *)
Definition defer {A} (d : M unit) (m : M A) : M A :=
  fun w => let '(r, w) := m w in
           let '(rd, w) := d w in
           (match rd with Panic p => Panic p | Ret _ => r end, w).

(** [defer func() { if p := recover(); p != nil { h p } }()] *)
Definition recover (h : string -> M unit) (m : M unit) : M unit :=
  fun w => let '(r, w) := m w in match r with Ret a => (Ret a, w) | Panic p => h p w end.

Definition log_effect (e : Effect) : M unit := fun w => (Ret tt, mkRunWorld (rw_sessions w) (rw_trace w ++ [e])).

(** A call of another service. *)
Inductive Answer (A : Type) := Val (a : A) | Err (err : string) | Crash (p : string).
Arguments Val {A} a.
Arguments Err {A} err.
Arguments Crash {A} p.

Definition call {A} (a : Answer A) : M (string + A) :=
  match a with Val v => ret (inr v) | Err err => ret (inl err) | Crash p => panic p end.

Definition outcome_of {A} (a : Answer A) : Outcome :=
  match a with Val _ => Succeeded | Err _ => Failed | Crash _ => Panicked end.

(** A call with an effect, logged with its outcome. *)
Definition effect {A} (a : Answer A) (e : Outcome -> Effect) : M (string + A) :=
  let! _ := log_effect (e (outcome_of a)) in call a.

(** ** The environment *)

(** [e_now] is the clock and [e_PublishStatus] the answers of the status
    publisher, by the number of effects before. *)
Record Env := mkRunEnv {
  e_now : nat -> Z; e_specTime : nat -> Z; e_durString : Z -> string;
  e_RunStatus : Answer string; e_LoadScenario : Answer (option Scenario);
  e_leases : string + list Z; e_bands : string + list Z;
  e_GetSubmission : Answer (option SubmissionInfo);
  e_CreateSlot : Answer unit; e_WaitForReady : Answer Slot; e_DeleteSlot : Answer unit;
  e_probe : option (nat -> Poll);
  e_noop : bool; e_marshal : WorkloadSpec -> string + string; e_write : list Message -> option string;
  e_signals : list ReadySignal; e_readyEnd : ReadyEnd;
  e_PublishBarrier : Answer unit; e_cancelled : bool;
  e_PublishStatus : nat -> Answer unit }.

Definition readyErrorString (e : ReadyError) : string :=
  match e with
  | NoReadySignals => "no ready signals before deadline"
  | PartialFanIn n expected =>
      "ready deadline expired with partial fan-in: received " +:+ pretty n +:+ " of " +:+ pretty expected +:+
      " worker ready signals"
  | ReadyCtxDone err => err
  end.

Section Runner.
Context `{Unicode} (cfg : RunConfig) (env : Env).

Definition gateErrorString (e : GateError) : string :=
  match e with
  | ProbeFailed want err =>
      "bot-fleet capacity probe failed for " +:+ e_durString env (CapacityWaitTimeout cfg) +:+ " (want " +:+ pretty want +:+
      " members): " +:+ err
  | TooFewMembers members want state =>
      "bot-fleet has " +:+ pretty members +:+ " group members after " +:+ e_durString env (CapacityWaitTimeout cfg) +:+
      ", need " +:+ pretty want +:+ " (one per shard); group_state=" +:+ state
  | GateCtxDone err => err
  end.

Definition now : M Z := fun w => (Ret (e_now env (length (rw_trace w))), w).

(** The outcome goes to the log of effects; the caller only logs an error. *)
Definition PublishStatus (evt : BenchmarkStatusUpdated) : M unit :=
  fun w => (let! _ := effect (e_PublishStatus env (length (rw_trace w))) (EStatus evt) in ret tt) w.

(** ** The session object *)

Definition the_session (sessionID : string) : M Session :=
  fun w => match rw_sessions w !! sessionID with
           | Some sess => (Ret sess, w)
           | None => (Panic "runtime error: invalid memory address or nil pointer dereference", w)
           end.

Definition update_session (sessionID : string) (f : Session -> Session) : M unit :=
  fun w => (Ret tt, mkRunWorld (alter f sessionID (rw_sessions w)) (rw_trace w)).

Definition set_status (status message : string) (s : Session) : Session :=
  mkSession (s_SessionID s) (s_SubmissionID s) (s_ContestantID s) (s_RunGroupID s) status message
    (s_SlotID s) (s_Endpoint s) (s_WorkerCount s) (s_ReadyReceived s) (s_readyCh s) (s_readyCap s) (s_CreatedAt s).
Definition set_SlotID (slotID : string) (s : Session) : Session :=
  mkSession (s_SessionID s) (s_SubmissionID s) (s_ContestantID s) (s_RunGroupID s) (s_Status s) (s_Message s)
    slotID (s_Endpoint s) (s_WorkerCount s) (s_ReadyReceived s) (s_readyCh s) (s_readyCap s) (s_CreatedAt s).
Definition set_Endpoint (ep : Endpoint) (s : Session) : Session :=
  mkSession (s_SessionID s) (s_SubmissionID s) (s_ContestantID s) (s_RunGroupID s) (s_Status s) (s_Message s)
    (s_SlotID s) (Some ep) (s_WorkerCount s) (s_ReadyReceived s) (s_readyCh s) (s_readyCap s) (s_CreatedAt s).
Definition set_ReadyReceived (r : gmap Z ReadySignal) (s : Session) : Session :=
  mkSession (s_SessionID s) (s_SubmissionID s) (s_ContestantID s) (s_RunGroupID s) (s_Status s) (s_Message s)
    (s_SlotID s) (s_Endpoint s) (s_WorkerCount s) r (s_readyCh s) (s_readyCap s) (s_CreatedAt s).

(** ** Statuses *)

Definition transition (sid status message : string) : M unit :=
  let! _ := update_session sid (set_status status message) in
  let! sess := the_session sid in
  let! t := now in
  PublishStatus (mkStatus (s_SessionID sess) (s_SubmissionID sess) (s_RunGroupID sess) status message t).

Definition fail (sid message : string) : M unit := transition sid RunStatusFailed message.

Definition publishFailure (req : BenchmarkRequested) (message : string) : M unit :=
  let! t := now in
  PublishStatus (mkStatus (br_SessionID req) (br_SubmissionID req) (br_RunGroupID req) RunStatusFailed message t).

Definition releaseSlot (sid : string) : M unit :=
  let! sess := the_session sid in
  if bool_decide (s_SlotID sess = ""%string) then ret tt
  else let! _ := effect (e_DeleteSlot env) (EDeleteSlot (s_SlotID sess)) in ret tt.

(** ** Stages *)

(** The gate, when there is a probe: [Gate.capacity_gate] shows the loop ends
    within its fuel. *)
Definition gate (workerCount : Z) : option GateError :=
  match e_probe env with
  | None => None
  | Some polls =>
      match awaitCapacity polls workerCount (CapacityWaitTimeout cfg) (CapacityPollInterval cfg) 0 with
      | Some r => r
      | None => Some (GateCtxDone "out of fuel")
      end
  end.

Definition await_ready (sid : string) : M (option ReadyError) :=
  let! sess := the_session sid in
  let '(err, received) := awaitReady (s_WorkerCount sess) (s_ReadyReceived sess) (e_signals env) (e_readyEnd env) in
  let! _ := update_session sid (set_ReadyReceived received) in ret err.

(** A successful write of no message (the noop producer) is not an effect. *)
Definition publish_specs (specs : list WorkloadSpec) (leases : list Z) : M (option string) :=
  match PublishWorkloadSpec (e_marshal env) (e_noop env) (e_write env) specs leases with
  | Panic p => panic p
  | Ret ([], err) => ret err
  | Ret (msgs, err) => let! _ := log_effect (EWorkload msgs (match err with None => true | Some _ => false end)) in ret err
  end.

(** From the published specs on. *)
Definition fire (sid : string) : M unit :=
  let! _ := transition sid RunStatusWaitingReady "fanning in ready signals" in
  let! err := await_ready sid in
  match err with
  | Some err => fail sid (readyErrorString err)
  | None =>
      let! t := now in
      let epoch := u64 (t + BarrierSafetyGap cfg) in
      let! b := effect (e_PublishBarrier env) (EBarrier sid epoch) in
      match b with
      | inl err => fail sid ("publish barrier: " +:+ err)
      | inr _ =>
          let! _ := transition sid RunStatusBarrierFired "barrier published" in
          let! _ := transition sid RunStatusRunning "bots firing" in
          if e_cancelled env then fail sid "controller shutdown during run"
          else transition sid RunStatusCompleted "run completed"
      end
  end.

(** From the created slot on, under the [defer] of its release. *)
Definition with_slot (sid : string) (sub : SubmissionInfo) (scenario : Scenario) (workerCount : Z) (leases : list Z)
    (orderBand : Z) : M unit :=
  let! slot := call (e_WaitForReady env) in
  match slot with
  | inl err => fail sid ("slot did not become ready: " +:+ err)
  | inr slot =>
      if negb (bool_decide (sl_State slot = StateReady)) then fail sid ("slot did not become ready: " +:+ sl_Message slot)
      else
        let! _ := update_session sid (set_Endpoint (sl_Endpoint slot)) in
        let! sess := the_session sid in
        match buildWorkloadSpecs cfg (e_specTime env) sess sub scenario workerCount orderBand with
        | Panic p => panic p
        | Ret specs =>
            match gate workerCount with
            | Some err => fail sid ("bot-fleet capacity: " +:+ gateErrorString err)
            | None =>
                let! err := publish_specs specs leases in
                match err with
                | Some err => fail sid ("publish workload specs: " +:+ err)
                | None => fire sid
                end
            end
        end
  end.

Definition runSession (sid : string) (scenario : Scenario) (workerCount : Z) (leases : list Z) (orderBand : Z) : M unit :=
  let! sess := the_session sid in
  let! sub := call (e_GetSubmission env) in
  match sub with
  | inl err => fail sid ("lookup submission: " +:+ err)
  | inr None => fail sid "submission not found"
  | inr (Some sub) =>
      if bool_decide (si_ImageRef sub = ""%string) then fail sid "submission has no built image ref" else
      let! _ := transition sid RunStatusDeploying "allocating sandbox slot" in
      let! c := effect (e_CreateSlot env)
             (ECreateSlot sid (s_ContestantID sess) (si_ImageRef sub) (submissionPorts sub) orderBand) in
      match c with
      | inl err => fail sid ("create slot: " +:+ err)
      | inr _ =>
          let! _ := update_session sid (set_SlotID sid) in
          defer (releaseSlot sid) (with_slot sid sub scenario workerCount leases orderBand)
      end
  end.

(** ** Run *)

Definition acquire (pool : Pool) (sid : string) (count : Z) (answer : string + list Z) : M (string + list Z) :=
  let! _ := log_effect (EAcquire pool sid count (match answer with inr _ => true | inl _ => false end)) in ret answer.
Definition release_lease (pool : Pool) (sid : string) : M unit := log_effect (ERelease pool sid).

Definition drop (sid : string) : M unit :=
  fun w => (Ret tt, mkRunWorld (Drop (rw_sessions w) sid) (rw_trace w)).

(** [r.sessions.Add(sess)]; whether it was tracked already. *)
Definition add (sess : Session) : M bool :=
  fun w => let '(m, (_, existed)) := Add (rw_sessions w) sess in (Ret existed, mkRunWorld m (rw_trace w)).

(** The admitted part: both leases, then the session. *)
Definition lease_and_run (req : BenchmarkRequested) (scenario : Scenario) (workerCount : Z) : M unit :=
  let sid := br_SessionID req in
  let! leases := acquire Partitions sid workerCount (e_leases env) in
  match leases with
  | inl err => publishFailure req ("acquire partition leases: " +:+ err)
  | inr leases =>
      let! bands := acquire Bands sid 1 (e_bands env) in
      match bands with
      | inl err => let! _ := release_lease Partitions sid in publishFailure req ("acquire order band lease: " +:+ err)
      | inr [] => panic "runtime error: index out of range [0] with length 0"
      | inr (band :: _) =>
          defer (release_lease Partitions sid)
            (defer (release_lease Bands sid) (runSession sid scenario workerCount leases (u32 band)))
      end
  end.

Definition run_body (req : BenchmarkRequested) : M unit :=
  let! status := call (e_RunStatus env) in
  match status with
  | inl serr => publishFailure req ("run-status precheck failed: " +:+ serr)
  | inr status =>
      if bool_decide (status = RunStatusCompleted) || bool_decide (status = RunStatusFailed) then ret tt else
      let! scenario := call (e_LoadScenario env) in
      match scenario with
      | inl err => publishFailure req ("load scenario: " +:+ err)
      | inr None => publishFailure req "scenario has zero tasks"
      | inr (Some scenario) =>
          if (length (sc_TaskSpecs scenario) =? 0)%nat then publishFailure req "scenario has zero tasks" else
          let totalRPS := totalTargetRPS (sc_TaskSpecs scenario) in
          let workerCount := computeWorkerCountForLoad (Z.of_nat (length (sc_TaskSpecs scenario))) totalRPS
                               (MaxTasksPerWorker cfg) (WorkerRPSCapacity cfg) in
          let! t := now in
          let! existed := add (newSession req workerCount t) in
          if existed : bool then ret tt
          else defer (drop (br_SessionID req)) (lease_and_run req scenario workerCount)
      end
  end.

Definition Run (req : BenchmarkRequested) : M unit :=
  recover (fun p => publishFailure req ("session panicked: " +:+ p)) (run_body req).

End Runner.
