(* ===== verification/RunnerProps.v ===== *)
(** * Theorems about a session's run

    A weakest precondition for the monad of [Runner], what each stage
    appends to the log of effects, and the life cycle of every run: exactly
    one terminal status, and every resource given back. *)

From stdpp Require Import prelude gmap strings list.
From S2P Require Import Prelude Topics Shard Gate Runner.

Open Scope Z_scope.

(** ** Weakest preconditions *)

Definition wp {A} (m : M A) (Q : Go A -> World -> Prop) (w : World) : Prop := Q (m w).1 (m w).2.

Lemma wp_mono {A} (m : M A) (Q Q' : Go A -> World -> Prop) w : wp m Q w -> (forall r w, Q r w -> Q' r w) -> wp m Q' w.
Proof. unfold wp. auto. Qed.

Lemma wp_mbind {A B} (m : M A) (k : A -> M B) Q w :
  wp m (fun r w => match r with Ret a => wp (k a) Q w | Panic p => Q (Panic p) w end) w -> wp (bind m k) Q w.
Proof. unfold wp, bind. destruct (m w) as [[a|p] w']; auto. Qed.

Lemma wp_defer {A} (d : M unit) (m : M A) Q w :
  wp m (fun r w => wp d (fun rd w => Q (match rd with Panic p => Panic p | Ret _ => r end) w) w) w -> wp (defer d m) Q w.
Proof. unfold wp, defer. destruct (m w) as [r w']. simpl. destruct (d w') as [[]]; auto. Qed.

Lemma wp_recover h m Q w :
  wp m (fun r w => match r with Ret a => Q (Ret a) w | Panic p => wp (h p) Q w end) w -> wp (recover h m) Q w.
Proof. unfold wp, recover. destruct (m w) as [[a|p] w']; auto. Qed.

Lemma wp_call {A} (a : Answer A) Q w :
  (forall v, a = Val v -> Q (Ret (inr v)) w) -> (forall e, a = Err e -> Q (Ret (inl e)) w) ->
  (forall p, a = Crash p -> Q (Panic p) w) -> wp (call a) Q w.
Proof. unfold wp, call. destruct a; simpl; auto. Qed.

Definition logged (e : Effect) (w : World) : World := mkRunWorld (rw_sessions w) (rw_trace w ++ [e]).

Lemma wp_effect {A} (a : Answer A) e Q w :
  (forall v, a = Val v -> Q (Ret (inr v)) (logged (e (outcome_of a)) w)) ->
  (forall er, a = Err er -> Q (Ret (inl er)) (logged (e (outcome_of a)) w)) ->
  (forall p, a = Crash p -> Q (Panic p) (logged (e (outcome_of a)) w)) -> wp (effect a e) Q w.
Proof. unfold wp, effect, bind, call, logged. destruct a; simpl; auto. Qed.

Lemma wp_ret {A} (a : A) (Q : Go A -> World -> Prop) w : Q (Ret a) w -> wp (ret a) Q w.
Proof. done. Qed.
Lemma wp_panic {A} p (Q : Go A -> World -> Prop) w : Q (Panic p) w -> wp (panic p) Q w.
Proof. done. Qed.
Lemma wp_log e (Q : Go unit -> World -> Prop) w : Q (Ret tt) (logged e w) -> wp (log_effect e) Q w.
Proof. done. Qed.
Lemma wp_now env (Q : Go Z -> World -> Prop) w : (forall t, Q (Ret t) w) -> wp (now env) Q w.
Proof. intros HQ. apply HQ. Qed.
Lemma wp_session sid s (Q : Go Session -> World -> Prop) w :
  rw_sessions w !! sid = Some s -> Q (Ret s) w -> wp (the_session sid) Q w.
Proof. unfold wp, the_session. by intros ->. Qed.

Definition modified (sid : string) (f : Session -> Session) (w : World) : World :=
  mkRunWorld (alter f sid (rw_sessions w)) (rw_trace w).

Lemma wp_update sid f (Q : Go unit -> World -> Prop) w : Q (Ret tt) (modified sid f w) -> wp (update_session sid f) Q w.
Proof. done. Qed.

(** ** Reading the log *)

(** The statuses handed to the publisher, in order. *)
Definition statuses (tr : list Effect) : list string :=
  omap (fun e => match e with EStatus evt _ => Some (bs_Status evt) | _ => None end) tr.

Definition is_resource (e : Effect) : bool :=
  match e with EAcquire _ _ _ _ | ERelease _ _ | ECreateSlot _ _ _ _ _ _ | EDeleteSlot _ _ => true | _ => false end.
Definition resources (tr : list Effect) : list Effect := List.filter is_resource tr.

Lemma statuses_app a b : statuses (a ++ b) = statuses a ++ statuses b.
Proof. apply omap_app. Qed.
Lemma resources_app a b : resources (a ++ b) = resources a ++ resources b.
Proof. apply List.filter_app. Qed.

(** The outcome logged for the call number [n] is the one the callee gave. *)
Definition answered (env : Env) (n : nat) (e : Effect) : Prop :=
  match e with
  | EStatus _ o => o = outcome_of (e_PublishStatus env n)
  | ECreateSlot _ _ _ _ _ o => o = outcome_of (e_CreateSlot env)
  | EDeleteSlot _ o => o = outcome_of (e_DeleteSlot env)
  | EBarrier _ _ o => o = outcome_of (e_PublishBarrier env)
  | _ => True
  end.
Definition all_answered (env : Env) (n : nat) (tr : list Effect) : Prop :=
  forall i e, tr !! i = Some e -> answered env (n + i)%nat e.

Lemma all_answered_app env n a b :
  all_answered env n a -> all_answered env (n + length a) b -> all_answered env n (a ++ b).
Proof.
  intros Ha Hb i e. rewrite lookup_app_Some. intros [Hi|[Hle Hi]]; [by apply Ha|].
  specialize (Hb _ _ Hi). by replace (n + length a + (i - length a))%nat with (n + i)%nat in Hb by lia.
Qed.
Lemma all_answered_one env n e : answered env n e -> all_answered env n [e].
Proof. intros He [|i] e'; [|done]. intros [= <-]. by rewrite Nat.add_0_r. Qed.

(** [w'] is [w] after the effects [tr], with only session [sid] changed. *)
Definition ext (env : Env) (sid : string) (w w' : World) (tr : list Effect) : Prop :=
  delete sid (rw_sessions w') = delete sid (rw_sessions w) /\ rw_trace w' = rw_trace w ++ tr /\
  all_answered env (length (rw_trace w)) tr.

Lemma ext_refl env sid w : ext env sid w w [].
Proof. split_and!; [done|by rewrite app_nil_r|by intros i e]. Qed.
Lemma ext_trans env sid w1 w2 w3 t1 t2 : ext env sid w1 w2 t1 -> ext env sid w2 w3 t2 -> ext env sid w1 w3 (t1 ++ t2).
Proof.
  intros (E1 & T1 & A1) (E2 & T2 & A2). split_and!; [congruence|by rewrite T2, T1, app_assoc|].
  apply all_answered_app; [done|]. by rewrite T1, length_app in A2.
Qed.
Lemma ext_emit env sid w e : answered env (length (rw_trace w)) e -> ext env sid w (logged e w) [e].
Proof. intros He. split_and!; [done|done|by apply all_answered_one]. Qed.

(** Session [sid] is tracked, waiting for [wc] workers. *)
Definition live (sid : string) (wc : Z) (slot : string) (w : World) : Prop :=
  exists s, rw_sessions w !! sid = Some s /\ s_WorkerCount s = wc /\ s_SlotID s = slot /\ s_ReadyReceived s = ∅.
(** As before, whatever signals it has received. *)
Definition tracked (sid slot : string) (w : World) : Prop :=
  exists s, rw_sessions w !! sid = Some s /\ s_SlotID s = slot.

Lemma live_tracked sid wc slot w : live sid wc slot w -> tracked sid slot w.
Proof. intros (s & ? & ? & ? & ?). by exists s. Qed.

Lemma delete_alter_same (m : SessionManager) f sid : delete sid (alter f sid m) = delete sid m.
Proof.
  apply map_eq. intros k. destruct (decide (k = sid)) as [->|]; [by rewrite !lookup_delete_eq|].
  by rewrite !lookup_delete_ne, lookup_alter_ne.
Qed.

(** ** Stages *)

Section Stages.
Context `{Unicode} (cfg : RunConfig) (env : Env) (sid : string).
#[local] Abbreviation ext := (ext env sid).

(** The routine panics exactly when its call did. *)
Definition settled (o : Outcome) (r : Go unit) : Prop :=
  match r with Ret _ => o <> Panicked | Panic _ => o = Panicked end.

Lemma wp_PublishStatus evt w Q :
  (forall o r, answered env (length (rw_trace w)) (EStatus evt o) -> settled o r -> Q r (logged (EStatus evt o) w)) ->
  wp (PublishStatus env evt) Q w.
Proof.
  intros HQ. unfold wp, PublishStatus, effect, bind, call, log_effect. simpl.
  destruct (e_PublishStatus env (length (rw_trace w))) as [v|e|p] eqn:E; simpl; apply HQ; simpl; by rewrite ?E.
Qed.

Lemma wp_publishFailure req msg w Q :
  (forall evt o r, bs_Status evt = RunStatusFailed -> answered env (length (rw_trace w)) (EStatus evt o) -> settled o r ->
     Q r (logged (EStatus evt o) w)) ->
  wp (publishFailure env req msg) Q w.
Proof. intros HQ. apply wp_mbind, wp_now. intros t. apply wp_PublishStatus. intros o r. by apply HQ. Qed.

(** A transition hands over its status and leaves the session tracked. *)
Lemma wp_transition status msg w slot Q :
  tracked sid slot w ->
  (forall w' evt o r, ext w w' [EStatus evt o] -> settled o r -> bs_Status evt = status -> tracked sid slot w' ->
     (forall wc, live sid wc slot w -> live sid wc slot w') -> Q r w') ->
  wp (transition env sid status msg) Q w.
Proof.
  intros (s & Hs & Hslot) HQ. apply wp_mbind, wp_update. set (w1 := modified _ _ _).
  assert (Hs1 : rw_sessions w1 !! sid = Some (set_status status msg s)) by (simpl; by rewrite lookup_alter_eq, Hs).
  apply wp_mbind. eapply wp_session; [exact Hs1|]. apply wp_mbind, wp_now. intros t. apply wp_PublishStatus. intros o r Ha Ho.
  eapply HQ; [|exact Ho|..].
  - split_and!; [apply delete_alter_same|done|by apply all_answered_one].
  - done.
  - exists (set_status status msg s). by split.
  - intros wc (s' & Hs' & Hw & Hsl & Hr). rewrite Hs in Hs'. injection Hs' as <-.
    exists (set_status status msg s). by split_and!.
Qed.

(** ** What a stage may do *)

(** Everything that must have happened for a run to be called complete. *)
Definition fired (wc : Z) (tr : list Effect) : Prop :=
  (exists epoch, EBarrier sid epoch Succeeded ∈ tr) /\
  (awaitReady wc ∅ (e_signals env) (e_readyEnd env)).1 = None /\ gate cfg env wc = None /\ e_cancelled env = false.

(** The statuses [pipe] and completed, or a part of [pipe] and failed. *)
Definition closed (wc : Z) (pipe : list string) (tr : list Effect) : Prop :=
  (exists k, statuses tr = take k pipe ++ [RunStatusFailed]) \/
  (statuses tr = pipe ++ [RunStatusCompleted] /\ fired wc tr).

(** A panic of the two calls a run may still make once it has a terminal
    status: publishing that status and deleting the slot. *)
Definition faulted (tr : list Effect) : Prop :=
  (exists evt, EStatus evt Panicked ∈ tr /\ (bs_Status evt = RunStatusFailed \/ bs_Status evt = RunStatusCompleted)) \/
  EDeleteSlot sid Panicked ∈ tr.

(** A stage that returns has a terminal status; one that panics has none yet,
    or panicked in one of these two calls. *)
Definition ends (wc : Z) (pipe : list string) (r : Go unit) (tr : list Effect) : Prop :=
  match r with
  | Ret _ => closed wc pipe tr
  | Panic _ => (exists k, statuses tr = take k pipe) \/ (closed wc pipe tr /\ faulted tr)
  end.

Lemma fired_incl wc tr tr' : tr ⊆ tr' -> fired wc tr -> fired wc tr'.
Proof. intros Hi [(epoch & Hb) Hf]. split; [|done]. exists epoch. by apply Hi. Qed.
Lemma faulted_incl tr tr' : tr ⊆ tr' -> faulted tr -> faulted tr'.
Proof. intros Hi [(evt & He & Hs)|Hd]; [left; exists evt|right]; auto. Qed.

Lemma closed_frame wc ss pipe pre tr post :
  statuses pre = ss -> statuses post = [] -> closed wc pipe tr -> closed wc (ss ++ pipe) (pre ++ tr ++ post).
Proof.
  unfold closed. rewrite !statuses_app. intros -> ->. rewrite app_nil_r. intros [[k ->]|[-> Hf]].
  - left. exists (length ss + k)%nat. by rewrite take_app_add, app_assoc.
  - right. split; [by rewrite app_assoc|]. eapply fired_incl; [|exact Hf]. intros e He. rewrite !elem_of_app. auto.
Qed.

Lemma ends_frame wc ss pipe r pre tr post :
  statuses pre = ss -> statuses post = [] -> ends wc pipe r tr -> ends wc (ss ++ pipe) r (pre ++ tr ++ post).
Proof.
  intros Hpre Hpost. destruct r as [u|p]; [by apply closed_frame|]. intros [[k Hk]|[Hc Hf]].
  - left. exists (length ss + k)%nat. by rewrite !statuses_app, Hpre, Hpost, app_nil_r, Hk, take_app_add.
  - right. split; [by apply closed_frame|]. eapply faulted_incl; [|exact Hf]. intros e He. rewrite !elem_of_app. auto.
Qed.

Lemma ends_pre wc ss pipe r pre tr : statuses pre = ss -> ends wc pipe r tr -> ends wc (ss ++ pipe) r (pre ++ tr).
Proof. intros Hp He. rewrite <- (app_nil_r tr). by apply ends_frame. Qed.
Lemma ends_after wc pipe r tr post : statuses post = [] -> ends wc pipe r tr -> ends wc pipe r (tr ++ post).
Proof. intros Hp. by apply (ends_frame wc [] pipe r [] tr post). Qed.

(** A terminal status handed over, with or without a panic. *)
Lemma ends_terminal wc pipe evt o r :
  settled o r -> bs_Status evt = RunStatusFailed -> ends wc pipe r [EStatus evt o].
Proof.
  intros Ho Hs. assert (Hc : closed wc pipe [EStatus evt o]) by (left; exists 0%nat; cbn; by rewrite Hs).
  destruct r as [u|p]; [done|]. right. split; [done|]. left. exists evt. simpl in Ho. subst o. split; [left|by left].
Qed.

(** A stage from [w]: its effects, with [rs] on the resources it touches. *)
Definition stage (wc : Z) (pipe : list string) (slot : string) (rs : list Effect -> Prop) (w : World)
    (r : Go unit) (w' : World) : Prop :=
  exists tr, ext w w' tr /\ tracked sid slot w' /\ rs (resources tr) /\ ends wc pipe r tr.

Definition none (l : list Effect) : Prop := l = [].

Lemma stage_pre wc ss pipe slot rs w w1 pre r w' :
  ext w w1 pre -> statuses pre = ss -> resources pre = [] -> stage wc pipe slot rs w1 r w' ->
  stage wc (ss ++ pipe) slot rs w r w'.
Proof.
  intros He Hs Hr (tr & Ht & Htr & Hrs & Ho). exists (pre ++ tr). split_and!; [|done| |by apply ends_pre].
  - by apply (ext_trans env sid w w1 w' pre tr).
  - by rewrite resources_app, Hr.
Qed.
Lemma stage_status wc s pipe slot rs w w1 r w' evt o :
  ext w w1 [EStatus evt o] -> bs_Status evt = s -> stage wc pipe slot rs w1 r w' -> stage wc (s :: pipe) slot rs w r w'.
Proof. intros He Hs. apply (stage_pre wc [s] pipe slot rs w w1 [EStatus evt o]); [done|cbn; by rewrite Hs|done]. Qed.
Lemma stage_silent wc pipe slot rs w w1 pre r w' :
  ext w w1 pre -> statuses pre = [] -> resources pre = [] -> stage wc pipe slot rs w1 r w' -> stage wc pipe slot rs w r w'.
Proof. apply (stage_pre wc []). Qed.

Lemma stage_panic_after wc pipe slot w w1 pre p :
  ext w w1 pre -> statuses pre = [] -> resources pre = [] -> tracked sid slot w1 -> stage wc pipe slot none w (Panic p) w1.
Proof. intros He Hs Hr Ht. exists pre. split_and!; [done..|]. left. exists 0%nat. by rewrite Hs. Qed.
Lemma stage_panic wc pipe slot w p : tracked sid slot w -> stage wc pipe slot none w (Panic p) w.
Proof. intros Ht. eapply stage_panic_after; [apply ext_refl|done..]. Qed.

Lemma stage_fail wc pipe slot msg w :
  tracked sid slot w -> wp (fail env sid msg) (stage wc pipe slot none w) w.
Proof.
  intros Ht. eapply wp_transition; [exact Ht|]. intros w' evt o r He Ho Hs Ht' _. exists [EStatus evt o].
  split_and!; [done|done|done|]. by apply ends_terminal.
Qed.

(** A status on the way, then the rest. *)
Lemma stage_transition wc s pipe slot msg w k :
  tracked sid slot w ->
  (forall w1, tracked sid slot w1 -> (forall wc, live sid wc slot w -> live sid wc slot w1) ->
     wp (k tt) (stage wc pipe slot none w1) w1) ->
  wp (bind (transition env sid s msg) k) (stage wc (s :: pipe) slot none w) w.
Proof.
  intros Ht Hk. apply wp_mbind. eapply wp_transition; [exact Ht|]. intros w1 evt o [[]|p] He Ho Hs Ht1 Hl1.
  - eapply wp_mono; [by apply Hk|]. intros r w'. by eapply stage_status.
  - exists [EStatus evt o]. split_and!; [done..|]. left. exists 1%nat. cbn. by rewrite Hs.
Qed.

Lemma ext_modified f w : ext w (modified sid f w) [].
Proof. split_and!; [apply delete_alter_same|by rewrite app_nil_r|by intros i e]. Qed.

Lemma tracked_modified f slot slot' w :
  tracked sid slot w -> (forall s, s_SlotID s = slot -> s_SlotID (f s) = slot') -> tracked sid slot' (modified sid f w).
Proof. intros (s & Hs & Hsl) Hf. exists (f s). simpl. rewrite lookup_alter_eq, Hs. auto. Qed.

Lemma tracked_emit slot e w : tracked sid slot w -> tracked sid slot (logged e w).
Proof. done. Qed.

(** A panic in the transition to the last of the statuses [ss]. *)
Lemma stage_panic_in wc ss pipe slot w w' pre p :
  ext w w' pre -> statuses pre = ss -> resources pre = [] -> tracked sid slot w' ->
  stage wc (ss ++ pipe) slot none w (Panic p) w'.
Proof. intros He Hs Hr Ht. exists pre. split_and!; [done..|]. left. exists (length ss). by rewrite take_app_length. Qed.

(** The barrier has fired. *)
Lemma stage_barrier wc slot w w1 epoch :
  ext w w1 [EBarrier sid epoch Succeeded] -> tracked sid slot w1 -> gate cfg env wc = None ->
  (awaitReady wc ∅ (e_signals env) (e_readyEnd env)).1 = None ->
  wp (let! _ := transition env sid RunStatusBarrierFired "barrier published" in
      let! _ := transition env sid RunStatusRunning "bots firing" in
      if e_cancelled env then fail env sid "controller shutdown during run"
      else transition env sid RunStatusCompleted "run completed")
    (stage wc [RunStatusBarrierFired; RunStatusRunning] slot none w) w1.
Proof.
  intros He Ht Hg Ha. apply wp_mbind. eapply wp_transition; [exact Ht|]. intros w2 e2 o2 r2 He2 Ho2 Hs2 Ht2 _.
  pose proof (ext_trans _ _ _ _ _ _ _ He He2) as E2.
  destruct r2 as [[]|p2]; [|by eapply (stage_panic_in wc [_] [_]); [exact E2|cbn; by rewrite Hs2|..]].
  apply wp_mbind. eapply wp_transition; [exact Ht2|]. intros w3 e3 o3 r3 He3 Ho3 Hs3 Ht3 _.
  pose proof (ext_trans _ _ _ _ _ _ _ E2 He3) as E3.
  destruct r3 as [[]|p3]; [|by eapply (stage_panic_in wc [_; _] []); [exact E3|cbn; by rewrite Hs2, Hs3|..]].
  destruct (e_cancelled env) eqn:Hc.
  - eapply wp_mono; [by apply (stage_fail wc [])|]. intros r w' Hst.
    apply (stage_pre wc [RunStatusBarrierFired; RunStatusRunning] [] slot none w w3 _ r w' E3); [|done|exact Hst].
    cbn. by rewrite Hs2, Hs3.
  - eapply wp_transition; [exact Ht3|]. intros w4 e4 o4 r4 He4 Ho4 Hs4 Ht4 _. eexists.
    split_and!; [eapply ext_trans; [exact E3|exact He4]|done|done|].
    assert (Hcl : closed wc [RunStatusBarrierFired; RunStatusRunning]
                    ((([EBarrier sid epoch Succeeded] ++ [EStatus e2 o2]) ++ [EStatus e3 o3]) ++ [EStatus e4 o4])).
    { right. split; [cbn; by rewrite Hs2, Hs3, Hs4|]. split; [exists epoch; left|done]. }
    destruct r4 as [u|p4]; [exact Hcl|]. right. split; [exact Hcl|]. left. exists e4. simpl in Ho4. subst o4.
    split; [rewrite elem_of_app; right; left|by right].
Qed.

(** The fan-in and what follows. *)
Lemma stage_fire wc slot w :
  live sid wc slot w -> gate cfg env wc = None ->
  wp (fire cfg env sid) (stage wc [RunStatusWaitingReady; RunStatusBarrierFired; RunStatusRunning] slot none w) w.
Proof.
  intros Hl Hg. apply stage_transition; [by eapply live_tracked|]. intros w1 _ Hl1. specialize (Hl1 wc Hl).
  apply wp_mbind. destruct Hl1 as (s & Hs & Hwc & Hsl & Hr). apply wp_mbind. eapply wp_session; [exact Hs|].
  rewrite Hwc, Hr. destruct (awaitReady wc ∅ (e_signals env) (e_readyEnd env)) as [err received] eqn:Ea.
  apply wp_mbind, wp_update, wp_ret. set (w2 := modified _ _ _).
  assert (Ht2 : tracked sid slot w2) by (eapply tracked_modified; [by exists s|done]).
  eapply wp_mono; [|intros r w'; eapply stage_silent; [apply ext_modified|done|done]]. fold w2.
  destruct err as [err|]; [by apply stage_fail|].
  apply wp_mbind, wp_now. intros t. apply wp_mbind, wp_effect.
  - intros v Ev. apply (stage_barrier wc slot w2 _ (u64 (t + BarrierSafetyGap cfg))); [|done|done|by rewrite Ea].
    rewrite Ev. apply ext_emit. simpl. by rewrite Ev.
  - intros er _. eapply wp_mono; [apply stage_fail; by apply tracked_emit|].
    intros r w'. eapply stage_silent; [by apply ext_emit|done|done].
  - intros p _. eapply stage_panic_after; [by apply ext_emit|done..].
Qed.

Lemma live_modified f wc slot slot' w :
  live sid wc slot w ->
  (forall s, s_WorkerCount (f s) = s_WorkerCount s /\ s_ReadyReceived (f s) = s_ReadyReceived s) ->
  (forall s, s_SlotID s = slot -> s_SlotID (f s) = slot') -> live sid wc slot' (modified sid f w).
Proof.
  intros (s & Hs & Hw & Hsl & Hr) Hf Hfs. destruct (Hf s) as [Hf1 Hf2]. exists (f s). simpl.
  rewrite lookup_alter_eq, Hs, Hf1, Hf2. auto.
Qed.

Lemma stage_publish wc pipe slot specs leases w k :
  live sid wc slot w ->
  (forall err w1, live sid wc slot w1 -> wp (k err) (stage wc pipe slot none w1) w1) ->
  wp (bind (publish_specs env specs leases) k) (stage wc pipe slot none w) w.
Proof.
  intros Hl Hk. apply wp_mbind. unfold publish_specs.
  destruct (PublishWorkloadSpec _ _ _ _ _) as [[[|msg msgs] err]|p].
  - apply wp_ret. by apply Hk.
  - apply wp_mbind, wp_log, wp_ret. eapply wp_mono; [by apply Hk|]. intros r w'.
    eapply stage_silent; [by apply ext_emit|done|done].
  - apply wp_panic, stage_panic. by eapply live_tracked.
Qed.

(** Once the slot exists. *)
Lemma stage_with_slot wc slot sub scenario leases band w :
  live sid wc slot w ->
  wp (with_slot cfg env sid sub scenario wc leases band)
    (stage wc [RunStatusWaitingReady; RunStatusBarrierFired; RunStatusRunning] slot none w) w.
Proof.
  intros Hl. pose proof (live_tracked _ _ _ _ Hl) as Ht. apply wp_mbind, wp_call.
  - intros sl _. destruct (negb _); [by apply stage_fail|]. apply wp_mbind, wp_update. set (w1 := modified _ _ _).
    assert (Hl1 : live sid wc slot w1) by (by eapply live_modified).
    eapply wp_mono; [|intros r w'; eapply stage_silent; [apply ext_modified|done|done]]. fold w1.
    apply wp_mbind. pose proof (live_tracked _ _ _ _ Hl1) as Ht1. destruct Ht1 as (s & Hs & Hsl).
    eapply wp_session; [exact Hs|].
    destruct (buildWorkloadSpecs _ _ _ _ _ _ _) as [specs|p]; [|apply wp_panic, stage_panic; by exists s].
    destruct (gate cfg env wc) as [err|] eqn:Hg; [apply stage_fail; by exists s|].
    apply stage_publish; [done|]. intros [err|] w2 Hl2; [|by apply stage_fire].
    apply stage_fail. by eapply live_tracked.
  - intros e _. by apply stage_fail.
  - intros p _. by apply stage_panic.
Qed.

(** A slot is asked for at most once, and once it was created its deletion is
    asked for once. *)
Definition slot_use (l : list Effect) : Prop :=
  l = [] \/ exists contestant image ports band o,
    (o <> Succeeded /\ l = [ECreateSlot sid contestant image ports band o]) \/
    (o = Succeeded /\ exists o', l = [ECreateSlot sid contestant image ports band o; EDeleteSlot sid o']).

Lemma stage_weaken wc pipe slot (rs rs' : list Effect -> Prop) w r w' :
  (forall l, rs l -> rs' l) -> stage wc pipe slot rs w r w' -> stage wc pipe slot rs' w r w'.
Proof. intros Hw (tr & H1 & H2 & H3 & H4). exists tr. auto. Qed.

Lemma wp_releaseSlot w Q :
  sid <> ""%string -> tracked sid sid w ->
  (forall o r, answered env (length (rw_trace w)) (EDeleteSlot sid o) -> settled o r -> Q r (logged (EDeleteSlot sid o) w)) ->
  wp (releaseSlot env sid) Q w.
Proof.
  intros Hne (s & Hs & Hsl) HQ. apply wp_mbind. eapply wp_session; [exact Hs|]. rewrite Hsl.
  rewrite bool_decide_false by done. apply wp_mbind, wp_effect; intros x E; [apply wp_ret|apply wp_ret|];
    apply HQ; simpl; by rewrite ?E.
Qed.

Definition pipeline : list string :=
  [RunStatusDeploying; RunStatusWaitingReady; RunStatusBarrierFired; RunStatusRunning].

(** A stage that may create a slot: the resources and where it ends. *)
Definition slotted (wc : Z) (pipe : list string) (w : World) (r : Go unit) (w' : World) : Prop :=
  exists slot, stage wc pipe slot slot_use w r w'.

Lemma slotted_none wc pipe slot w r w' : stage wc pipe slot none w r w' -> slotted wc pipe w r w'.
Proof. intros Hst. exists slot. eapply stage_weaken; [|exact Hst]. intros l ->. by left. Qed.

Lemma slotted_fail wc pipe slot msg w : tracked sid slot w -> wp (fail env sid msg) (slotted wc pipe w) w.
Proof. intros Ht. eapply wp_mono; [exact (stage_fail wc pipe slot _ w Ht)|]. intros r w'. apply slotted_none. Qed.

Lemma slotted_panic wc pipe slot w p : tracked sid slot w -> slotted wc pipe w (Panic p) w.
Proof. intros Ht. eapply slotted_none. by apply (stage_panic _ _ slot). Qed.

(** The slot's deletion after a stage: a panic of it is the routine's. *)
Lemma ends_delete wc pipe r r' o tr :
  ends wc pipe r tr -> settled o r' ->
  ends wc pipe (match r' with Panic p => Panic p | Ret _ => r end) (tr ++ [EDeleteSlot sid o]).
Proof.
  intros He Ho. destruct r' as [u|p]; [by apply ends_after|]. simpl in Ho. subst o.
  assert (Hf : faulted (tr ++ [EDeleteSlot sid Panicked])) by (right; rewrite elem_of_app; right; left).
  destruct r as [u|q].
  - right. split; [|done]. by apply (ends_after _ _ (Ret u)).
  - by apply (ends_after _ _ (Panic q)).
Qed.

(** The part under the [defer] of the slot's release. *)
Lemma slotted_with_slot wc sub scenario leases band w contestant image ports :
  sid <> ""%string -> live sid wc "" w -> answered env (length (rw_trace w)) (ECreateSlot sid contestant image ports band Succeeded) ->
  let w1 := logged (ECreateSlot sid contestant image ports band Succeeded) w in
  wp (defer (releaseSlot env sid) (with_slot cfg env sid sub scenario wc leases band))
    (slotted wc [RunStatusWaitingReady; RunStatusBarrierFired; RunStatusRunning] w) (modified sid (set_SlotID sid) w1).
Proof.
  intros Hne Hl Ha w1. set (w2 := modified _ _ _). assert (Hl2 : live sid wc sid w2) by (by eapply (live_modified _ _ "")).
  apply wp_defer. eapply wp_mono; [by apply stage_with_slot|]. intros r w3 (tr & Htr & Ht3 & Hrs & Ho).
  apply wp_releaseSlot; [done|done|]. intros o r' Ha' Hr'. exists sid. eexists. split_and!; [| | |].
  - eapply ext_trans; [by apply (ext_emit env sid w)|]. eapply ext_trans; [apply ext_modified|].
    eapply ext_trans; [exact Htr|by apply ext_emit].
  - by apply tracked_emit.
  - right. exists contestant, image, ports, band, Succeeded. right. split; [done|]. exists o. by rewrite !resources_app, Hrs.
  - apply (ends_pre _ [] _ _ [_]); [done|]. cbn [app]. by apply ends_delete.
Qed.

Lemma stage_runSession wc scenario leases band w :
  sid <> ""%string -> live sid wc "" w -> wp (runSession cfg env sid scenario wc leases band) (slotted wc pipeline w) w.
Proof.
  intros Hne Hl. pose proof (live_tracked _ _ _ _ Hl) as Ht. apply wp_mbind. pose proof Ht as (s & Hs & Hsl).
  eapply wp_session; [exact Hs|]. apply wp_mbind, wp_call; [|intros e _; by eapply slotted_fail|intros p _; by eapply slotted_panic].
  intros [sub|] _; [|by eapply slotted_fail]. case_bool_decide; [by eapply slotted_fail|].
  apply wp_mbind. eapply wp_transition; [exact Ht|]. intros w1 e1 o1 r1 He1 Ho1 Hs1 Ht1 Hl1. specialize (Hl1 wc Hl).
  destruct r1 as [[]|p]; [|eapply slotted_none, (stage_panic_in wc [_]); [exact He1|cbn; by rewrite Hs1|done|exact Ht1]].
  apply (wp_mono _ (slotted wc [RunStatusWaitingReady; RunStatusBarrierFired; RunStatusRunning] w1));
    [|intros r w' [slot Hst]; exists slot; eapply stage_status; [exact He1|exact Hs1|exact Hst]].
  apply wp_mbind, wp_effect.
  - intros v Ev. apply wp_mbind, wp_update. rewrite Ev. apply slotted_with_slot; [done|done|]. simpl. by rewrite Ev.
  - intros er Ee. eapply wp_mono; [eapply (stage_fail wc); exact Ht1|]. intros r w' (tr & Htr & Ht' & Hrs & Ho). do 2 eexists.
    split_and!; [|exact Ht'| |].
    + eapply ext_trans; [apply (ext_emit env sid w1)|exact Htr]. done.
    + right. do 5 eexists. left. rewrite resources_app, Hrs. split; [|done]. by rewrite Ee.
    + by apply (ends_pre _ [] _ _ [_]).
  - intros p Ep. do 2 eexists. split_and!; [apply ext_emit; done|apply tracked_emit; exact Ht1| |by left; exists 0%nat].
    right. do 5 eexists. left. split; [|done]. by rewrite Ep.
Qed.

(** ** Both leases *)

(** What an admitted session does to the leases and the slot. *)
Definition lease_use (wc : Z) (l : list Effect) : Prop :=
  l = [EAcquire Partitions sid wc false] \/
  l = [EAcquire Partitions sid wc true; EAcquire Bands sid 1 false; ERelease Partitions sid] \/
  exists slots, slot_use slots /\
    l = [EAcquire Partitions sid wc true; EAcquire Bands sid 1 true] ++ slots ++ [ERelease Bands sid; ERelease Partitions sid].

Lemma stage_lease_and_run wc req scenario w :
  br_SessionID req = sid -> sid <> ""%string -> live sid wc "" w -> e_bands env <> inr [] ->
  wp (lease_and_run cfg env req scenario wc)
    (fun r w' => exists tr, ext w w' tr /\ lease_use wc (resources tr) /\ ends wc pipeline r tr) w.
Proof.
  intros Er Hne Hl Hb. unfold lease_and_run. rewrite Er. apply wp_mbind, wp_mbind, wp_log, wp_ret.
  destruct (e_leases env) as [err|leases]; cbv iota.
  { apply wp_publishFailure. intros evt o r Hs Ha Ho. eexists. split_and!.
    - eapply ext_trans; by apply ext_emit.
    - by left.
    - apply (ends_pre _ [] _ _ [_]); [done|]. by apply ends_terminal. }
  apply wp_mbind, wp_mbind, wp_log, wp_ret. destruct (e_bands env) as [err|[|band bands]]; cbv iota.
  { apply wp_mbind, wp_log, wp_publishFailure. intros evt o r Hs Ha Ho. eexists. split_and!.
    - eapply ext_trans; [exact (ext_emit env sid w (EAcquire Partitions sid wc true) I)|].
      eapply ext_trans; [exact (ext_emit env sid _ (EAcquire Bands sid 1 false) I)|].
      eapply ext_trans; [exact (ext_emit env sid _ (ERelease Partitions sid) I)|by apply ext_emit].
    - right. by left.
    - do 3 (apply (ends_pre _ [] _ _ [_]); [done|]). by apply ends_terminal. }
  { done. }
  set (w2 := logged _ (logged _ w)). apply wp_defer, wp_defer.
  eapply wp_mono; [apply (stage_runSession wc); [done|exact Hl]|]. intros r w3 (slot & tr & Htr & _ & Hrs & Ho).
  apply wp_log, wp_log. eexists. split_and!.
  - eapply ext_trans; [exact (ext_emit env sid w (EAcquire Partitions sid wc true) I)|].
    eapply ext_trans; [exact (ext_emit env sid _ (EAcquire Bands sid 1 true) I)|]. eapply ext_trans; [exact Htr|].
    eapply ext_trans; [exact (ext_emit env sid _ (ERelease Bands sid) I)|exact (ext_emit env sid _ (ERelease Partitions sid) I)].
  - right. right. exists (resources tr). split; [done|]. by rewrite !resources_app.
  - do 2 (apply (ends_pre _ [] _ _ [_]); [done|]). cbn [app]. by apply ends_after.
Qed.

End Stages.

(** ** Every run *)

(** The worker count of a scenario. *)
Definition workers (cfg : RunConfig) (scenario : Scenario) : Z :=
  computeWorkerCountForLoad (Z.of_nat (length (sc_TaskSpecs scenario))) (totalTargetRPS (sc_TaskSpecs scenario))
    (MaxTasksPerWorker cfg) (WorkerRPSCapacity cfg).

(** A run with nothing to do: already terminal, or tracked by another one. *)
Definition skipped (env : Env) (req : BenchmarkRequested) (w : World) : Prop :=
  (exists status, e_RunStatus env = Val status /\ (status = RunStatusCompleted \/ status = RunStatusFailed)) \/
  is_Some (rw_sessions w !! br_SessionID req).

(** The effects of a run: none if there was nothing to do; a failed status if
    the request could not be admitted; else the leases, the slot and the
    statuses of an admitted session. *)
Definition run_shape `{Unicode} (cfg : RunConfig) (env : Env) (req : BenchmarkRequested) (w : World) (tr : list Effect) : Prop :=
  (skipped env req w /\ tr = []) \/
  (statuses tr = [RunStatusFailed] /\ resources tr = []) \/
  exists scenario, e_LoadScenario env = Val (Some scenario) /\
    lease_use (br_SessionID req) (workers cfg scenario) (resources tr) /\
    closed cfg env (br_SessionID req) (workers cfg scenario) pipeline tr.

(** How the body ends: with such effects, or in a panic that comes before a
    terminal status, or in one of the two calls that may follow it. *)
Definition body_post `{Unicode} (cfg : RunConfig) (env : Env) (req : BenchmarkRequested) (w : World) (r : Go unit) (w' : World)
    : Prop :=
  rw_sessions w' = rw_sessions w /\
  exists tr, rw_trace w' = rw_trace w ++ tr /\ all_answered env (length (rw_trace w)) tr /\
    match r with
    | Ret _ => run_shape cfg env req w tr
    | Panic _ => (forall evt o, bs_Status evt = RunStatusFailed -> run_shape cfg env req w (tr ++ [EStatus evt o])) \/
                 (run_shape cfg env req w tr /\ faulted (br_SessionID req) tr)
    end.

Section Body.
Context `{Unicode} (cfg : RunConfig) (env : Env) (req : BenchmarkRequested) (w : World).

Lemma body_failure msg : wp (publishFailure env req msg) (body_post cfg env req w) w.
Proof.
  apply wp_publishFailure. intros evt o r Hs Ha Ho. split; [done|]. exists [EStatus evt o].
  split_and!; [done|by apply all_answered_one|].
  assert (Hsh : run_shape cfg env req w [EStatus evt o]) by (right; left; cbn; by rewrite Hs).
  destruct r as [u|p]; [done|]. right. split; [done|]. left. exists evt. simpl in Ho. subst o. split; [left|by left].
Qed.

Lemma body_panic p : body_post cfg env req w (Panic p) w.
Proof.
  split; [done|]. exists []. rewrite app_nil_r. split_and!; [done|by intros i e|]. left. intros evt o Hs. right. left.
  cbn. by rewrite Hs.
Qed.

Lemma body_skip : skipped env req w -> body_post cfg env req w (Ret tt) w.
Proof. intros Hs. split; [done|]. exists []. rewrite app_nil_r. split_and!; [done|by intros i e|]. by left. Qed.

Lemma wp_run_body :
  br_SessionID req <> ""%string -> e_bands env <> inr [] -> wp (run_body cfg env req) (body_post cfg env req w) w.
Proof.
  intros Hne Hb. apply wp_mbind, wp_call; [|intros; apply body_failure|intros; apply body_panic]. intros status Est.
  destruct (bool_decide (status = RunStatusCompleted) || bool_decide (status = RunStatusFailed)) eqn:Et.
  { apply wp_ret, body_skip. left. exists status. split; [done|]. apply orb_true_iff in Et.
    rewrite !bool_decide_eq_true in Et. done. }
  apply wp_mbind, wp_call; [|intros; apply body_failure|intros; apply body_panic].
  intros [scenario|] Esc; [|apply body_failure]. destruct (length _ =? 0)%nat; [apply body_failure|]. fold (workers cfg scenario).
  apply wp_mbind, wp_now. intros t. apply wp_mbind. unfold wp at 1, add, Add. cbn [newSession s_SessionID].
  destruct (rw_sessions w !! br_SessionID req) as [s|] eqn:Es; cbn [fst snd].
  { assert (Ew : mkRunWorld (rw_sessions w) (rw_trace w) = w) by (by destruct w). rewrite Ew. apply wp_ret, body_skip.
    right. by eexists. }
  set (sess := newSession _ _ _). set (w1 := mkRunWorld _ _). apply wp_defer.
  eapply wp_mono; [apply (stage_lease_and_run cfg env (br_SessionID req) (workers cfg scenario)); try done|].
  { exists sess. split_and!; [apply lookup_insert_eq|done..]. }
  intros r w2 (tr & (Hd & Htr & Ha) & Hl & Ho). unfold wp, drop, Drop. cbn [fst snd].
  split. { cbn. rewrite Hd. unfold w1. cbn. rewrite delete_insert_eq. by rewrite delete_id. }
  exists tr. split_and!; [exact Htr|exact Ha|].
  destruct r as [u|p].
  - right. right. by exists scenario.
  - destruct Ho as [[k Hk]|[Hc Hf]]; [left|right].
    + intros evt o Hs. right. right. exists scenario. split_and!; [done| |].
      * by rewrite resources_app, app_nil_r.
      * left. exists k. rewrite statuses_app, Hk. cbn. by rewrite Hs.
    + split; [|done]. right. right. by exists scenario.
Qed.

End Body.

(** C3: every run of a session that has an id ends in an orderly way, whatever the store, the orchestrator, Kafka and
    the allocators answer, whichever of their calls err and whichever panic (an allocator that grants a band grants a
    non-empty list of bands, and does not panic).  The log of a run holds each call with the outcome its callee gave.
    The tracked sessions are as [Run] found them.  A request for a run that is already terminal or tracked calls nothing.
    A request that cannot be admitted hands over one failed status and touches no resource.  An admitted session hands
    over a prefix of deploying, waiting_ready, barrier_fired, running followed by failed, or all of them followed by
    completed, and completed only after the capacity gate, a full ready fan-in and the barrier; granted partition leases
    are released, as is the order band, in reverse order, and for a slot whose creation succeeded the deletion is
    requested once, before the leases are released.  There is exactly one terminal status, with one exception: when the
    publishing of that status or the deletion of the slot panics, a failed status follows it.  [Run] returns, unless the
    publishing of that last failed status panics itself. *)
Theorem run_lifecycle `{Unicode} cfg env req w :
  br_SessionID req <> ""%string -> e_bands env <> inr [] ->
  let '(r, w') := Run cfg env req w in
  rw_sessions w' = rw_sessions w /\
  exists tr, rw_trace w' = rw_trace w ++ tr /\ all_answered env (length (rw_trace w)) tr /\
    (run_shape cfg env req w tr \/
     exists tr1 evt o, tr = tr1 ++ [EStatus evt o] /\ bs_Status evt = RunStatusFailed /\
       run_shape cfg env req w tr1 /\ faulted (br_SessionID req) tr1) /\
    (r = Ret tt \/ exists tr1 evt, tr = tr1 ++ [EStatus evt Panicked] /\ bs_Status evt = RunStatusFailed).
Proof.
  intros Hne Hb.
  assert (HR : wp (Run cfg env req) (fun r w' => rw_sessions w' = rw_sessions w /\
    exists tr, rw_trace w' = rw_trace w ++ tr /\ all_answered env (length (rw_trace w)) tr /\
    (run_shape cfg env req w tr \/
     exists tr1 evt o, tr = tr1 ++ [EStatus evt o] /\ bs_Status evt = RunStatusFailed /\
       run_shape cfg env req w tr1 /\ faulted (br_SessionID req) tr1) /\
    (r = Ret tt \/ exists tr1 evt, tr = tr1 ++ [EStatus evt Panicked] /\ bs_Status evt = RunStatusFailed)) w).
  { apply wp_recover. eapply wp_mono; [by apply wp_run_body|]. intros [[]|p] w1 (Hs & tr & Ht & Ha & Hp).
    { split; [done|]. exists tr. split_and!; auto. }
    apply wp_publishFailure. intros evt o r Hf Ha' Ho. split; [done|]. exists (tr ++ [EStatus evt o]). split_and!.
    - cbn. by rewrite Ht, app_assoc.
    - apply all_answered_app; [done|]. rewrite Ht, length_app in Ha'. by apply all_answered_one.
    - destruct Hp as [Hp|[Hp Hx]]; [left; by apply Hp|right]. by exists tr, evt, o.
    - destruct r as [[]|p']; [by left|right]. simpl in Ho. subst o. by exists tr, evt. }
  unfold wp in HR. destruct (Run cfg env req w) as [r w']. exact HR.
Qed.

(** A session of one worker that runs to completion, with a slot that cannot
    be deleted. *)
Definition ex_env : Env :=
  mkRunEnv (fun n => Z.of_nat n) (fun _ => 7) (fun _ => "1m30s"%string) (Val "requested"%string)
    (Val (Some {| sc_ScenarioID := "sc"; sc_Name := "constant"; sc_DurationNs := 1; sc_TaskSpecs := [ex_task 0] |}))
    (inr [5]) (inr [2]) (Val (Some ex_sub)) (Val tt)
    (Val (mkSlot "sess" "ready" "" (mkEndpoint "10.0.0.1" 9898))) (Err "gone"%string) None false (fun _ => inr "{}"%string)
    (fun _ => None) [ex_sig 0] DeadlineFired (Val tt) false (fun _ => Val tt).

Lemma run_lifecycle_witness :
  let w' := (@Run ex_unicode ex_cfg ex_env ex_req (mkRunWorld ∅ [])).2 in
  statuses (rw_trace w') = ["deploying"; "waiting_ready"; "barrier_fired"; "running"; "completed"]%string /\
  rw_sessions w' = ∅.
Proof.
  pose proof (@run_lifecycle ex_unicode ex_cfg ex_env ex_req (mkRunWorld ∅ [])) as HL. revert HL.
  destruct (Run ex_cfg ex_env ex_req (mkRunWorld ∅ [])) as [r w'] eqn:E. intros HL.
  destruct HL as (Hs & _).
  - done.
  - done.
  - split; [|exact Hs]. vm_compute in E. injection E as _ <-. vm_compute. reflexivity.
Defined.

(** A slot deletion that panics: the status completed is followed by failed. *)
Definition ex_env_panic : Env :=
  mkRunEnv (e_now ex_env) (e_specTime ex_env) (e_durString ex_env) (e_RunStatus ex_env) (e_LoadScenario ex_env)
    (e_leases ex_env) (e_bands ex_env) (e_GetSubmission ex_env) (e_CreateSlot ex_env) (e_WaitForReady ex_env)
    (Crash "boom"%string) None false (e_marshal ex_env) (e_write ex_env) (e_signals ex_env) (e_readyEnd ex_env)
    (e_PublishBarrier ex_env) false (e_PublishStatus ex_env).

Example slot_panic_two_terminals :
  statuses (rw_trace (@Run ex_unicode ex_cfg ex_env_panic ex_req (mkRunWorld ∅ [])).2) =
  ["deploying"; "waiting_ready"; "barrier_fired"; "running"; "completed"; "failed"]%string.
Proof. vm_compute. reflexivity. Qed.
