(* ===== verification/Recovery.v ===== *)
(** * bot-fleet-controller: startup recovery

    [internal/controller/recovery.go] over the [runs] and [run_groups] tables
    that [internal/store/postgres.go] reads and updates.  A table is a map by
    its primary key; the order in which a query without ORDER BY returns its
    rows is arbitrary ([MapRange]). *)

From stdpp Require Import prelude gmap strings list.
From S2P Require Import Prelude Topics Replay Shard Gate Runner.

Open Scope Z_scope.

(** A row of [runs]; [run_group_id] may be NULL. *)
Record RunRow := mkRun {
  ru_SubmissionID : string; ru_RunGroupID : option string; ru_Status : string; ru_Message : string }.

Record Tables := mkTables { db_runs : gmap string RunRow; db_groups : gmap string string }.

Record InFlightRun := mkInFlight {
  if_SessionID : string; if_SubmissionID : string; if_RunGroupID : string; if_Status : string }.

Definition terminal (status : string) : bool :=
  bool_decide (status = RunStatusCompleted) || bool_decide (status = RunStatusFailed).

Definition scan_run (kv : string * RunRow) : InFlightRun :=
  mkInFlight kv.1 (ru_SubmissionID kv.2) (default ""%string (ru_RunGroupID kv.2)) (ru_Status kv.2).

Definition ListInFlightRuns `{MapRange} (db : Tables) : list InFlightRun :=
  map scan_run (map_range (List.filter (fun kv => negb (terminal (ru_Status kv.2))) (map_to_list (db_runs db)))).

(** UPDATE ... WHERE session_id = $1 AND status NOT IN ('completed', 'failed') *)
Definition MarkRunFailed (db : Tables) (sessionID message : string) : Tables :=
  mkTables (alter (fun r => if terminal (ru_Status r) then r
                            else mkRun (ru_SubmissionID r) (ru_RunGroupID r) RunStatusFailed message)
              sessionID (db_runs db)) (db_groups db).

Definition MarkRunGroupFailed (db : Tables) (runGroupID : string) : Tables :=
  if bool_decide (runGroupID = ""%string) then db
  else mkTables (db_runs db) (alter (fun st => if terminal st then st else RunStatusFailed) runGroupID (db_groups db)).

(** [RunStatus]: the empty status when there is no row. *)
Definition RunStatus (db : Tables) (sessionID : string) : string :=
  match db_runs db !! sessionID with Some r => ru_Status r | None => "" end.

Definition recovery_message : string := "controller restart — re-trigger benchmark".

(** Errors of the statements, by key. *)
Record RecEnv := mkRecEnv { re_list : option string; re_run : string -> option string; re_group : string -> option string; re_now : Z }.

Record RecState := mkRec { rs_db : Tables; rs_failedGroups : gset string; rs_published : list BenchmarkStatusUpdated }.

(** One round of the loop; a failed publish is only logged. *)
Definition recover_run (env : RecEnv) (s : RecState) (r : InFlightRun) : RecState :=
  match re_run env (if_SessionID r) with
  | Some _ => s
  | None =>
      let db := MarkRunFailed (rs_db s) (if_SessionID r) recovery_message in
      let g := if_RunGroupID r in
      let '(db, failedGroups) :=
        if bool_decide (g = ""%string) then (db, rs_failedGroups s)
        else if bool_decide (g ∈ rs_failedGroups s) then (db, rs_failedGroups s)
        else (match re_group env g with Some _ => db | None => MarkRunGroupFailed db g end, {[g]} ∪ rs_failedGroups s) in
      mkRec db failedGroups
        (rs_published s ++ [mkStatus (if_SessionID r) (if_SubmissionID r) g RunStatusFailed recovery_message (re_now env)])
  end.

(** The error, or the tables and the statuses handed to the publisher. *)
Definition RecoverInFlightRuns `{MapRange} (env : RecEnv) (db : Tables) : string + (Tables * list BenchmarkStatusUpdated) :=
  match re_list env with
  | Some err => inl ("list in-flight runs: " +:+ err)%string
  | None => let s := foldl (recover_run env) (mkRec db ∅ []) (ListInFlightRuns db) in inr (rs_db s, rs_published s)
  end.

(** ** Lemmas *)

(** A run in flight whose statement succeeds. *)
Definition recovered (env : RecEnv) (sid : string) (r : RunRow) : bool :=
  negb (terminal (ru_Status r)) && bool_decide (re_run env sid = None).

Definition failed_row (r : RunRow) : RunRow := mkRun (ru_SubmissionID r) (ru_RunGroupID r) RunStatusFailed recovery_message.

Lemma recover_run_runs env s r sid :
  db_runs (rs_db (recover_run env s r)) !! sid =
  (if bool_decide (if_SessionID r = sid /\ re_run env sid = None)
   then (fun row => if terminal (ru_Status row) then row else failed_row row) <$> db_runs (rs_db s) !! sid
   else db_runs (rs_db s) !! sid).
Proof.
  unfold recover_run. destruct (re_run env (if_SessionID r)) as [e|] eqn:E.
  { rewrite bool_decide_false; [done|]. intros [<- ?]. congruence. }
  set (f := fun row => _). set (db1 := MarkRunFailed _ _ _).
  assert (Hdb : db_runs db1 !! sid = if bool_decide (if_SessionID r = sid /\ re_run env sid = None)
    then f <$> db_runs (rs_db s) !! sid else db_runs (rs_db s) !! sid).
  { unfold db1, MarkRunFailed. cbn [db_runs]. case_bool_decide as Hb.
    - destruct Hb as [<- _]. by rewrite lookup_alter_eq.
    - rewrite lookup_alter_ne; [done|]. intros <-. by apply Hb. }
  destruct (bool_decide (if_RunGroupID r = ""%string)); [exact Hdb|].
  destruct (bool_decide (if_RunGroupID r ∈ rs_failedGroups s)); [exact Hdb|]. cbn [rs_db].
  destruct (re_group env (if_RunGroupID r)); [exact Hdb|]. unfold MarkRunGroupFailed.
  destruct (bool_decide (if_RunGroupID r = ""%string)); exact Hdb.
Qed.

(** Whether the loop has marked run [sid], or group [g]. *)
Definition marked_run (env : RecEnv) (l : list InFlightRun) (sid : string) : bool :=
  existsb (fun r => bool_decide (if_SessionID r = sid /\ re_run env sid = None)) l.
Definition tried_group (env : RecEnv) (l : list InFlightRun) (g : string) : bool :=
  existsb (fun r => bool_decide (if_RunGroupID r = g /\ g <> ""%string /\ re_run env (if_SessionID r) = None)) l.

Definition fail_row (row : RunRow) : RunRow := if terminal (ru_Status row) then row else failed_row row.
Definition fail_group (st : string) : string := if terminal st then st else RunStatusFailed.

Lemma fail_row_idem row : fail_row (fail_row row) = fail_row row.
Proof. unfold fail_row. destruct (terminal (ru_Status row)) eqn:E; [by rewrite E|]. done. Qed.

Lemma recover_runs env db l sid :
  db_runs (rs_db (foldl (recover_run env) (mkRec db ∅ []) l)) !! sid =
  (if marked_run env l sid then fail_row <$> db_runs db !! sid else db_runs db !! sid).
Proof.
  unfold marked_run. induction l as [|r l IH] using rev_ind; [done|].
  rewrite foldl_snoc, recover_run_runs, IH, existsb_app. cbn [existsb]. rewrite orb_false_r. fold fail_row.
  destruct (existsb _ l), (bool_decide (if_SessionID r = sid /\ re_run env sid = None)); cbn [orb]; try done.
  rewrite <-option_fmap_compose. apply option_fmap_ext. intros row. apply fail_row_idem.
Qed.

Lemma recover_run_groups env s r g :
  (g ∈ rs_failedGroups (recover_run env s r) <->
   g ∈ rs_failedGroups s \/ (if_RunGroupID r = g /\ g <> ""%string /\ re_run env (if_SessionID r) = None)) /\
  db_groups (rs_db (recover_run env s r)) !! g =
  (if bool_decide (if_RunGroupID r = g /\ g <> ""%string /\ re_run env (if_SessionID r) = None /\
                   (g ∉ rs_failedGroups s) /\ re_group env g = None)
   then fail_group <$> db_groups (rs_db s) !! g else db_groups (rs_db s) !! g).
Proof.
  unfold recover_run. destruct (re_run env (if_SessionID r)) as [e|] eqn:E.
  { rewrite bool_decide_false by naive_solver. naive_solver. }
  destruct (bool_decide (if_RunGroupID r = ""%string)) eqn:Eg; cbn [rs_db rs_failedGroups].
  { apply bool_decide_eq_true in Eg. rewrite bool_decide_false by naive_solver. naive_solver. }
  apply bool_decide_eq_false in Eg.
  destruct (bool_decide (if_RunGroupID r ∈ rs_failedGroups s)) eqn:Ef; cbn [rs_db rs_failedGroups].
  { apply bool_decide_eq_true in Ef. rewrite bool_decide_false by naive_solver. naive_solver. }
  apply bool_decide_eq_false in Ef. split; [set_solver|].
  destruct (re_group env (if_RunGroupID r)) as [e|] eqn:Er.
  { rewrite bool_decide_false; [done|]. intros (<- & _ & _ & _ & ?). congruence. }
  unfold MarkRunGroupFailed. rewrite (bool_decide_false _ Eg). cbn [db_groups MarkRunFailed].
  destruct (decide (if_RunGroupID r = g)) as [<-|Hne].
  - by rewrite bool_decide_true, lookup_alter_eq.
  - rewrite bool_decide_false, lookup_alter_ne by naive_solver. done.
Qed.

Lemma recover_groups env db l g :
  (g ∈ rs_failedGroups (foldl (recover_run env) (mkRec db ∅ []) l) <-> tried_group env l g = true) /\
  db_groups (rs_db (foldl (recover_run env) (mkRec db ∅ []) l)) !! g =
  (if tried_group env l g && bool_decide (re_group env g = None)
   then fail_group <$> db_groups db !! g else db_groups db !! g).
Proof.
  unfold tried_group. induction l as [|r l [IH1 IH2]] using rev_ind; [simpl; split; [set_solver|done]|].
  rewrite foldl_snoc, existsb_app. cbn [existsb]. rewrite orb_false_r.
  destruct (recover_run_groups env (foldl (recover_run env) (mkRec db ∅ []) l) r g) as [H1 H2]. split.
  - rewrite H1, IH1, orb_true_iff, bool_decide_eq_true. done.
  - rewrite H2, IH2. destruct (existsb _ l).
    + rewrite bool_decide_false by naive_solver. done.
    + cbn [orb andb]. repeat case_bool_decide; cbn [andb]; naive_solver.
Qed.

Definition recovery_status (env : RecEnv) (r : InFlightRun) : BenchmarkStatusUpdated :=
  mkStatus (if_SessionID r) (if_SubmissionID r) (if_RunGroupID r) RunStatusFailed recovery_message (re_now env).

Lemma recover_published env db l :
  rs_published (foldl (recover_run env) (mkRec db ∅ []) l) =
  map (recovery_status env) (List.filter (fun r => bool_decide (re_run env (if_SessionID r) = None)) l).
Proof.
  induction l as [|r l IH] using rev_ind; [done|]. rewrite foldl_snoc, List.filter_app, map_app, <-IH. unfold recover_run.
  destruct (re_run env (if_SessionID r)) as [e|] eqn:E; cbn; rewrite E; cbn; [by rewrite app_nil_r|].
  repeat case_match; done.
Qed.

(** ** Recovery leaves no run in flight *)

Lemma filter_sublist {A} (f : A -> bool) (l : list A) : List.filter f l `sublist_of` l.
Proof. induction l as [|x l IH]; simpl; [done|]. destruct (f x); [by apply sublist_skip|by apply sublist_cons]. Qed.

Section Listed.
Context `{MapRangeLaws} (db : Tables).

Lemma listed_iff r :
  r ∈ ListInFlightRuns db <->
  exists sid row, db_runs db !! sid = Some row /\ terminal (ru_Status row) = false /\ r = scan_run (sid, row).
Proof.
  unfold ListInFlightRuns. rewrite list_elem_of_fmap. split.
  - intros ([sid row] & -> & Hin). rewrite map_range_perm in Hin. apply list_elem_of_In, filter_In in Hin as [Hin Ht].
    apply list_elem_of_In, elem_of_map_to_list in Hin. exists sid, row. split_and!; [done| |done]. by apply negb_true_iff in Ht.
  - intros (sid & row & Hr & Ht & ->). exists (sid, row). split; [done|]. rewrite map_range_perm.
    apply list_elem_of_In, filter_In. split; [by apply list_elem_of_In, elem_of_map_to_list|]. cbn. by rewrite Ht.
Qed.

Lemma marked_listed env sid row :
  db_runs db !! sid = Some row -> terminal (ru_Status row) = false ->
  marked_run env (ListInFlightRuns db) sid = bool_decide (re_run env sid = None).
Proof.
  intros Hr Ht. unfold marked_run. apply eq_true_iff_eq. rewrite existsb_exists, bool_decide_eq_true. split.
  - intros (r & _ & Hb). rewrite bool_decide_eq_true in Hb. tauto.
  - intros He. exists (scan_run (sid, row)). rewrite bool_decide_eq_true. split; [|done].
    apply list_elem_of_In, listed_iff. by exists sid, row.
Qed.

Lemma listed_nodup : NoDup (map if_SessionID (ListInFlightRuns db)).
Proof.
  unfold ListInFlightRuns. rewrite map_map.
  change (map (fun x => if_SessionID (scan_run x))) with (fmap (M := list) (A := string * RunRow) fst).
  rewrite map_range_perm. eapply sublist_NoDup; [apply (NoDup_fst_map_to_list (db_runs db))|].
  apply fmap_sublist, filter_sublist.
Qed.

End Listed.

(** C20: startup recovery leaves nothing in flight and touches nothing else.  When the in-flight runs can be
    listed: a run is changed exactly when it was not terminal and its statement succeeded, and is then failed
    with the restart message; each such run has one failed status published, and no other run has any; a run
    group is failed exactly when it was not terminal, one of its runs was recovered and its own statement
    succeeded; so when no statement errs every run is terminal afterwards, and a redelivered request for it
    runs nothing. *)
Theorem recovery_complete `{MapRangeLaws} env db db' published :
  RecoverInFlightRuns env db = inr (db', published) ->
  (forall sid, db_runs db' !! sid =
     (fun row => if recovered env sid row then failed_row row else row) <$> db_runs db !! sid) /\
  (forall g, db_groups db' !! g =
     (if tried_group env (ListInFlightRuns db) g && bool_decide (re_group env g = None)
      then fail_group <$> db_groups db !! g else db_groups db !! g)) /\
  NoDup (map bs_SessionID published) /\
  (forall sid, sid ∈ map bs_SessionID published <-> exists row, db_runs db !! sid = Some row /\ recovered env sid row = true) /\
  Forall (fun evt => bs_Status evt = RunStatusFailed) published /\
  ((forall sid, re_run env sid = None) -> forall sid, is_Some (db_runs db !! sid) ->
     terminal (RunStatus db' sid) = true /\
     forall (U : Unicode) cfg renv req w, br_SessionID req = sid -> e_RunStatus renv = Val (RunStatus db' sid) ->
       Run cfg renv req w = (Ret tt, w)).
Proof.
  unfold RecoverInFlightRuns. destruct (re_list env); [done|]. injection 1 as <- <-.
  assert (Hruns : forall sid, db_runs (rs_db (foldl (recover_run env) (mkRec db ∅ []) (ListInFlightRuns db))) !! sid =
     (fun row => if recovered env sid row then failed_row row else row) <$> db_runs db !! sid).
  { intros sid. rewrite recover_runs. destruct (db_runs db !! sid) as [row|] eqn:Hr; [|by case_match].
    unfold recovered, fail_row. destruct (terminal (ru_Status row)) eqn:Ht; cbn; [rewrite Ht; by case_match|].
    rewrite (marked_listed db env sid row) by done. rewrite Ht. by case_bool_decide. }
  split_and!; [done|intros g; apply recover_groups|..].
  - rewrite recover_published, map_map. cbn. change (map (fun x => if_SessionID x)) with (map if_SessionID).
    eapply sublist_NoDup; [apply (listed_nodup db)|]. apply fmap_sublist, filter_sublist.
  - intros sid. rewrite recover_published, map_map, list_elem_of_fmap. cbn. unfold recovered. split.
    + intros (r & -> & Hin). apply list_elem_of_In, filter_In in Hin as [Hin He].
      apply list_elem_of_In, listed_iff in Hin as (sid & row & Hr & Ht & ->). exists row. split; [done|].
      by rewrite Ht, He.
    + intros (row & Hr & Hrec). apply andb_true_iff in Hrec as [Ht He]. apply negb_true_iff in Ht.
      exists (scan_run (sid, row)). split; [done|]. apply list_elem_of_In, filter_In. split; [|done].
      apply list_elem_of_In, listed_iff. by exists sid, row.
  - rewrite recover_published. by apply Forall_map, Forall_forall.
  - intros Hok sid [row Hr]. unfold RunStatus. rewrite Hruns, Hr. cbn.
    assert (Ht : terminal (ru_Status (if recovered env sid row then failed_row row else row)) = true).
    { unfold recovered. rewrite bool_decide_true by done. destruct (terminal (ru_Status row)) eqn:E; [exact E|done]. }
    split; [exact Ht|]. intros U cfg renv req w _ Hst. unfold Run, recover, run_body, bind, call. rewrite Hst.
    unfold terminal in Ht. unfold ret at 1. cbn [fst snd]. by rewrite Ht.
Qed.

Lemma recovery_complete_witness :
  exists db' published,
    @RecoverInFlightRuns MapRange_id (mkRecEnv None (fun _ => None) (fun _ => None) 7)
      (mkTables {["a"%string := mkRun "s" (Some "g"%string) "running" ""; "b"%string := mkRun "s" None "completed" "ok"]}
                {["g"%string := "running"%string]}) = inr (db', published) /\
    RunStatus db' "a" = "failed"%string /\ RunStatus db' "b" = "completed"%string /\
    map bs_SessionID published = ["a"%string] /\ db_runs db' !! "c"%string = None.
Proof.
  destruct (@RecoverInFlightRuns MapRange_id (mkRecEnv None (fun _ => None) (fun _ => None) 7)
      (mkTables {["a"%string := mkRun "s" (Some "g"%string) "running" ""; "b"%string := mkRun "s" None "completed" "ok"]}
                {["g"%string := "running"%string]})) as [err|[db' published]] eqn:E; [vm_compute in E; discriminate|].
  exists db', published. split; [reflexivity|].
  destruct (@recovery_complete MapRange_id MapRange_id_laws _ _ _ _ E) as (Hruns & _ & _ & _ & _ & _).
  pose proof (Hruns "c"%string) as Hc. vm_compute in E. injection E as <- <-.
  split_and!; [vm_compute; reflexivity..|]. rewrite Hc. vm_compute. reflexivity.
Defined.
