(* ===== verification/SubStore.v ===== *)
(** * submission-api: the PostgreSQL store

    [internal/store/postgres.go] of submission-api, with the statements that
    build-worker's and bot-fleet-controller's stores run on the same tables.

    The tables are finite maps by primary key; a statement is one atomic step
    ([exec]) on them, with its WHERE guard and its unique indexes.  The
    environment answers each step ([Oracle]): a statement can be refused, or
    take effect and lose its answer; other transactions may hold row locks.
    A store method or handler is a program ([prog]) over such steps, so that
    concurrent requests interleave between statements and nowhere else. *)

From stdpp Require Import prelude gmap strings list.
From S2P Require Import Prelude GoSort Topics Replay Recovery.

Open Scope Z_scope.

(** ** Tables *)

Record SubmissionMeta := mkSubmission {
  sm_SubmissionID : string; sm_ContestantID : string; sm_SHA256 : string; sm_Language : string;
  sm_Protocol : string; sm_Port : Z; sm_TeamName : string; sm_ArtifactPath : string;
  sm_ImageRef : string; sm_Status : string; sm_CreatedAt : Z }.

Record RunMeta := mkRunMeta {
  rm_SessionID : string; rm_SubmissionID : string; rm_ContestantID : string; rm_RunGroupID : string;
  rm_ScenarioID : string; rm_Status : string; rm_Message : string; rm_CreatedAt : Z; rm_UpdatedAt : Z }.

Record RunGroupMeta := mkGroup {
  rg_RunGroupID : string; rg_SubmissionID : string; rg_ContestantID : string; rg_TeamName : string;
  rg_Status : string; rg_CreatedAt : Z; rg_UpdatedAt : Z }.

Record ScenarioMeta := mkScenario {
  sc_ScenarioID : string; sc_Name : string; sc_SortOrder : Z; sc_DurationNs : Z;
  sc_TaskSpecs : list TaskSpec; sc_CreatedAt : Z }.

(** A row of [runs]: the two columns added by migration may be NULL. *)
Record RunsRow := mkRunsRow {
  run_submission : string; run_contestant : string; run_group : option string; run_scenario : option string;
  run_status : string; run_message : string; run_created : Z; run_updated : Z }.

Record GroupsRow := mkGroupsRow {
  grp_submission : string; grp_contestant : string; grp_status : string; grp_created : Z; grp_updated : Z }.

(** A row of [scenarios]; [task_specs] is JSON text. *)
Record ScenariosRow := mkScenariosRow {
  scn_id : string; scn_sort : Z; scn_duration : Z; scn_specs : string; scn_created : Z }.

(** [scenarios] is keyed by its UNIQUE name; the others by primary key. *)
Record DB := mkDB {
  submissions : gmap string SubmissionMeta; scenarios : gmap string ScenariosRow;
  run_groups : gmap string GroupsRow; runs : gmap string RunsRow }.

Definition set_submissions (db : DB) m := mkDB m (scenarios db) (run_groups db) (runs db).
Definition set_scenarios (db : DB) m := mkDB (submissions db) m (run_groups db) (runs db).
Definition set_groups (db : DB) m := mkDB (submissions db) (scenarios db) m (runs db).
Definition set_runs (db : DB) m := mkDB (submissions db) (scenarios db) (run_groups db) m.

Definition emptyDB : DB := mkDB ∅ ∅ ∅ ∅.

(** What the broker and the object store hold. *)
Record BenchmarkMeta := mkBench {
  bm_SessionID : string; bm_SubmissionID : string; bm_ContestantID : string; bm_RunGroupID : string;
  bm_ScenarioID : string; bm_RequestedAt : Z }.

Record PublishMeta := mkPublish {
  pm_SubmissionID : string; pm_ContestantID : string; pm_SHA256 : string; pm_Language : string;
  pm_Protocol : string; pm_Port : Z; pm_BuildType : string; pm_BuildTarget : string; pm_TeamName : string;
  pm_ArtifactPath : string; pm_RequestedAt : Z }.

Record World := mkWorld {
  w_db : DB; w_requests : list BenchmarkMeta; w_builds : list PublishMeta; w_objects : gmap string string }.

Definition set_db (w : World) (db : DB) : World := mkWorld db (w_requests w) (w_builds w) (w_objects w).

(** ** The environment of one step *)

(** A call goes through, does nothing, or takes effect with an error reported. *)
Inductive Net := Delivered | Refused | Lost.

Record Oracle := mkOracle { o_net : Net; o_locked : list string; o_now : Z; o_uuid : option string }.

Inductive SqlErr := UniqueViolation | OtherSqlErr.
Abbreviation Ans X := (SqlErr + X)%type (only parsing).

(** The collation ORDER BY compares text with. *)
Class Collation := coll_le : string -> string -> bool.
Class CollationLaws `{Collation} : Prop := {
  coll_total a b : coll_le a b = true \/ coll_le b a = true;
  coll_trans a b c : coll_le a b = true -> coll_le b c = true -> coll_le a c = true;
  coll_antisym a b : coll_le a b = true -> coll_le b a = true -> a = b }.

(** The "C" collation: byte order. *)
Definition Collation_C : Collation := String.leb.

Lemma Collation_C_laws : @CollationLaws Collation_C.
Proof.
  unfold Collation_C. split; unfold coll_le.
  - intros a b. destruct (String.le_total a b) as [Hle|Hle]; unfold String.le in Hle; [left|right]; by apply Is_true_eq_true.
  - intros a b c H1 H2. apply Is_true_eq_true, (@transitivity _ String.le _ a b c); by apply Is_true_eq_left.
  - intros a b H1 H2. apply (@anti_symm _ _ String.le _); by apply Is_true_eq_left.
Qed.

(** JSON text of a task list ([encoding/json] on [[]TaskSpec]). *)
Class SpecsJSON := { marshal_specs : list TaskSpec -> string; unmarshal_specs : string -> option (list TaskSpec) }.
Class SpecsJSONLaws `{SpecsJSON} : Prop := unmarshal_marshal specs : unmarshal_specs (marshal_specs specs) = Some specs.

Section Statements.
Context `{MapRange} `{Collation}.

(** ** Queries *)

Definition active (status : string) : bool := negb (terminal status).

(** SELECT ... WHERE submission_id = $1 AND status NOT IN (...) LIMIT 1 *)
Definition scan_group (kv : string * GroupsRow) : RunGroupMeta :=
  mkGroup kv.1 (grp_submission kv.2) (grp_contestant kv.2) "" (grp_status kv.2) (grp_created kv.2) (grp_updated kv.2).

Definition select_active_group (db : DB) (submissionID : string) : option RunGroupMeta :=
  scan_group <$> head (map_range (List.filter
    (fun kv => bool_decide (grp_submission kv.2 = submissionID) && active (grp_status kv.2)) (map_to_list (run_groups db)))).

(** A row of [runs] with COALESCE on the two nullable columns. *)
Definition scan_runmeta (sid : string) (r : RunsRow) : RunMeta :=
  mkRunMeta sid (run_submission r) (run_contestant r) (default ""%string (run_group r)) (default ""%string (run_scenario r))
    (run_status r) (run_message r) (run_created r) (run_updated r).

Definition group_runs (db : DB) (runGroupID : string) : list (string * RunsRow) :=
  List.filter (fun kv => bool_decide (run_group kv.2 = Some runGroupID)) (map_to_list (runs db)).

(** ORDER BY s.sort_order, s.name on the LEFT JOIN with [scenarios]: NULLs last. *)
Definition joined_scenario (db : DB) (r : RunsRow) : option (Z * string) :=
  match run_scenario r with
  | None => None
  | Some id => (fun kv => (scn_sort kv.2, kv.1)) <$> head (List.filter (fun kv => bool_decide (scn_id kv.2 = id)) (map_to_list (scenarios db)))
  end.

Definition sort_key_less (a b : option (Z * string)) : bool :=
  match a, b with
  | Some (s1, n1), Some (s2, n2) => (s1 <? s2) || ((s1 =? s2) && negb (coll_le n2 n1))
  | Some _, None => true
  | None, _ => false
  end.

Definition select_runs_by_group (db : DB) (runGroupID : string) : list RunMeta :=
  map (fun kv => scan_runmeta kv.1 kv.2)
    (sort_stable (fun a b => sort_key_less (joined_scenario db a.2) (joined_scenario db b.2)) (map_range (group_runs db runGroupID))).

(** SELECT ... FROM scenarios ORDER BY sort_order, name *)
Definition select_scenarios (db : DB) : list (string * ScenariosRow) :=
  sort_stable (fun a b => sort_key_less (Some (scn_sort a.2, a.1)) (Some (scn_sort b.2, b.1)))
    (map_range (map_to_list (scenarios db))).

(** SUM(CASE ...) is NULL over no rows. *)
Definition sum_status (rows : list (string * RunsRow)) (status : string) : option Z :=
  match rows with [] => None | _ => Some (Z.of_nat (countb (fun kv => bool_decide (run_status kv.2 = status)) rows)) end.

(** ** Updates *)

(** The columns an UPDATE of [runs] touches. *)
Definition run_set (r : RunsRow) (status message : string) (now : Z) : RunsRow :=
  mkRunsRow (run_submission r) (run_contestant r) (run_group r) (run_scenario r) status message (run_created r) now.

Definition group_set (g : GroupsRow) (status : string) (now : Z) : GroupsRow :=
  mkGroupsRow (grp_submission g) (grp_contestant g) status (grp_created g) now.

(** UPDATE runs ... WHERE session_id = $1 AND status NOT IN (...): the number
    of rows affected. *)
Definition update_run (db : DB) (sid status message : string) (now : Z) : nat * DB :=
  match runs db !! sid with
  | Some r => if active (run_status r) then (1%nat, set_runs db (<[sid := run_set r status message now]> (runs db))) else (0%nat, db)
  | None => (0%nat, db)
  end.

(** The row the sub-select of the claim picks: the earliest by session id of
    the group's requested runs that no other transaction has locked. *)
Fixpoint earliest (rows : list (string * RunsRow)) : option (string * RunsRow) :=
  match rows with
  | [] => None
  | kv :: rows =>
      match earliest rows with
      | None => Some kv
      | Some kv' => Some (if coll_le kv.1 kv'.1 then kv else kv')
      end
  end.

Definition claimable (db : DB) (runGroupID : string) (locked : list string) : list (string * RunsRow) :=
  List.filter (fun kv => bool_decide (run_status kv.2 = RunStatusRequested) && negb (bool_decide (kv.1 ∈ locked)))
    (group_runs db runGroupID).

Definition claim_next (db : DB) (runGroupID : string) (locked : list string) (now : Z) : option (string * RunsRow) * DB :=
  match earliest (claimable db runGroupID locked) with
  | None => (None, db)
  | Some (sid, r) => (Some (sid, r), set_runs db (<[sid := run_set r RunStatusQueued (run_message r) now]> (runs db)))
  end.

(** idx_run_groups_one_active_per_submission: another active group of the
    same submission. *)
Definition active_conflict (db : DB) (runGroupID submissionID : string) : bool :=
  existsb (fun kv => bool_decide (kv.1 <> runGroupID) && bool_decide (grp_submission kv.2 = submissionID) && active (grp_status kv.2))
    (map_to_list (run_groups db)).

(** UPDATE run_groups SET status = $2, updated_at = now() WHERE run_group_id = $1 *)
Definition update_group (db : DB) (runGroupID status : string) (now : Z) : SqlErr + DB :=
  match run_groups db !! runGroupID with
  | None => inr db
  | Some g =>
      if active status && active_conflict db runGroupID (grp_submission g) then inl UniqueViolation
      else inr (set_groups db (<[runGroupID := group_set g status now]> (run_groups db)))
  end.

Definition insert_group (db : DB) (g : RunGroupMeta) : SqlErr + DB :=
  if bool_decide (is_Some (run_groups db !! rg_RunGroupID g)) ||
     (active (rg_Status g) && active_conflict db (rg_RunGroupID g) (rg_SubmissionID g)) then inl UniqueViolation
  else inr (set_groups db (<[rg_RunGroupID g :=
    mkGroupsRow (rg_SubmissionID g) (rg_ContestantID g) (rg_Status g) (rg_CreatedAt g) (rg_UpdatedAt g)]> (run_groups db))).

(** idx_runs_unique_scenario_per_group; the inserted columns are not NULL. *)
Definition scenario_conflict (db : DB) (r : RunMeta) : bool :=
  existsb (fun kv => bool_decide (run_group kv.2 = Some (rm_RunGroupID r)) && bool_decide (run_scenario kv.2 = Some (rm_ScenarioID r)))
    (map_to_list (runs db)).

Definition row_of (r : RunMeta) : RunsRow :=
  mkRunsRow (rm_SubmissionID r) (rm_ContestantID r) (Some (rm_RunGroupID r)) (Some (rm_ScenarioID r))
    (rm_Status r) (rm_Message r) (rm_CreatedAt r) (rm_UpdatedAt r).

Definition insert_run (db : DB) (r : RunMeta) : SqlErr + DB :=
  if bool_decide (is_Some (runs db !! rm_SessionID r)) || scenario_conflict db r then inl UniqueViolation
  else inr (set_runs db (<[rm_SessionID r := row_of r]> (runs db))).

Fixpoint insert_runs (db : DB) (children : list RunMeta) : SqlErr + DB :=
  match children with
  | [] => inr db
  | r :: children => match insert_run db r with inl e => inl e | inr db => insert_runs db children end
  end.

(** The outcome of the transaction of [InsertRunGroupWithChildren]. *)
Inductive TxErr := TxActiveExists | TxFailed.

Definition insert_group_tx (db : DB) (g : RunGroupMeta) (children : list RunMeta) : TxErr + DB :=
  match insert_group db g with
  | inl UniqueViolation => inl TxActiveExists
  | inl OtherSqlErr => inl TxFailed
  | inr db1 => match insert_runs db1 children with inl _ => inl TxFailed | inr db2 => inr db2 end
  end.

(** INSERT INTO submissions: primary key and UNIQUE sha256. *)
Definition sha_conflict (db : DB) (sha : string) : bool :=
  existsb (fun kv => bool_decide (sm_SHA256 kv.2 = sha)) (map_to_list (submissions db)).

Definition insert_submission (db : DB) (m : SubmissionMeta) : SqlErr + DB :=
  if bool_decide (is_Some (submissions db !! sm_SubmissionID m)) || sha_conflict db (sm_SHA256 m) then inl UniqueViolation
  else inr (set_submissions db (<[sm_SubmissionID m := m]> (submissions db))).

Definition select_by_sha (db : DB) (sha : string) : option string :=
  fst <$> head (map_range (List.filter (fun kv => bool_decide (sm_SHA256 kv.2 = sha)) (map_to_list (submissions db)))).

Definition set_contestant (m : SubmissionMeta) (c : string) : SubmissionMeta :=
  mkSubmission (sm_SubmissionID m) c (sm_SHA256 m) (sm_Language m) (sm_Protocol m) (sm_Port m) (sm_TeamName m)
    (sm_ArtifactPath m) (sm_ImageRef m) (sm_Status m) (sm_CreatedAt m).

(** UPDATE submissions SET contestant_id = $2 WHERE submission_id = $1 AND contestant_id = '' *)
Definition claim_contestant (db : DB) (submissionID contestantID : string) : nat * DB :=
  match submissions db !! submissionID with
  | Some m => if bool_decide (sm_ContestantID m = ""%string)
              then (1%nat, set_submissions db (<[submissionID := set_contestant m contestantID]> (submissions db))) else (0%nat, db)
  | None => (0%nat, db)
  end.

(** ** Atomic steps *)

Inductive eff : Type -> Type :=
| SelSubmission (id : string) : eff (Ans (option SubmissionMeta))
| SelBySHA (sha : string) : eff (Ans (option string))
| InsSubmission (m : SubmissionMeta) : eff (Ans unit)
| ClaimContestant (id contestant : string) : eff (Ans nat)
| SelScenarios : eff (Ans (list (string * ScenariosRow)))
| SelActiveGroup (sub : string) : eff (Ans (option RunGroupMeta))
| SelGroup (g : string) : eff (Ans (option RunGroupMeta))
| SelRun (sid : string) : eff (Ans (option RunMeta))
| SelRunsByGroup (g : string) : eff (Ans (list RunMeta))
| TxInsertGroup (g : RunGroupMeta) (children : list RunMeta) : eff (TxErr + unit)
| SelCounts (g : string) : eff (Ans (option Z * option Z * option Z * Z))
| UpdGroup (g status : string) : eff (Ans unit)
| ClaimNext (g : string) : eff (Ans (option (string * RunsRow)))
| UpdRun (sid status message : string) : eff (Ans nat)
| SelRunStatus (sid : string) : eff (Ans (option string))
| PublishBench (m : BenchmarkMeta) : eff (Ans unit)
| PublishBuild (m : PublishMeta) : eff (Ans unit)
| UploadObject (path sha : string) : eff (Ans unit)
| CommitOffset : eff (Ans unit)
| NewUUID : eff (option string)
| Now : eff Z.

(** A query's answer, or the error of a statement that did not go through. *)
Definition answer {X} (o : Oracle) (x : X) (w : World) : Ans X * World :=
  (match o_net o with Delivered => inr x | _ => inl OtherSqlErr end, w).

(** An update with its effect and, when it went through, its answer. *)
Definition effect {X} (o : Oracle) (x : X) (w w' : World) : Ans X * World :=
  match o_net o with Delivered => (inr x, w') | Refused => (inl OtherSqlErr, w) | Lost => (inl OtherSqlErr, w') end.

(** The same for a statement the database itself may reject. *)
Definition effect_sum {E} (bad : E) (o : Oracle) (r : E + DB) (w : World) : (E + unit) * World :=
  match r with
  | inl e => (match o_net o with Delivered => inl e | _ => inl bad end, w)
  | inr db => match o_net o with
              | Delivered => (inr tt, set_db w db) | Refused => (inl bad, w) | Lost => (inl bad, set_db w db) end
  end.

Definition exec {X} (e : eff X) (o : Oracle) (w : World) : X * World :=
  let db := w_db w in
  match e in eff X return X * World with
  | SelSubmission id => answer o (submissions db !! id) w
  | SelBySHA sha => answer o (select_by_sha db sha) w
  | InsSubmission m => effect_sum OtherSqlErr o (insert_submission db m) w
  | ClaimContestant id c => let '(n, db') := claim_contestant db id c in effect o n w (set_db w db')
  | SelScenarios => answer o (select_scenarios db) w
  | SelActiveGroup sub => answer o (select_active_group db sub) w
  | SelGroup g => answer o ((fun r => scan_group (g, r)) <$> run_groups db !! g) w
  | SelRun sid => answer o (scan_runmeta sid <$> runs db !! sid) w
  | SelRunsByGroup g => answer o (select_runs_by_group db g) w
  | TxInsertGroup g children => effect_sum TxFailed o (insert_group_tx db g children) w
  | SelCounts g => let rows := group_runs db g in
      answer o (sum_status rows RunStatusFailed, sum_status rows RunStatusCompleted, sum_status rows RunStatusRequested,
                Z.of_nat (length rows)) w
  | UpdGroup g status => effect_sum OtherSqlErr o (update_group db g status (o_now o)) w
  | ClaimNext g => let '(r, db') := claim_next db g (o_locked o) (o_now o) in effect o r w (set_db w db')
  | UpdRun sid status message => let '(n, db') := update_run db sid status message (o_now o) in effect o n w (set_db w db')
  | SelRunStatus sid => answer o (run_status <$> runs db !! sid) w
  | PublishBench m => effect o tt w (mkWorld db (w_requests w ++ [m]) (w_builds w) (w_objects w))
  | PublishBuild m => effect o tt w (mkWorld db (w_requests w) (w_builds w ++ [m]) (w_objects w))
  | UploadObject path sha => effect o tt w (mkWorld db (w_requests w) (w_builds w) (<[path := sha]> (w_objects w)))
  | CommitOffset => effect o tt w w
  | NewUUID => (o_uuid o, w)
  | Now => (o_now o, w)
  end.

End Statements.

(** ** Programs *)

Inductive prog (A : Type) : Type :=
| Done (a : A)
| Do {X : Type} (e : eff X) (k : X -> prog A).
Arguments Done {A} _.
Arguments Do {A X} _ _.

Fixpoint pbind {A B} (m : prog A) (f : A -> prog B) : prog B :=
  match m with
  | Done a => f a
  | Do e k => Do e (fun x => pbind (k x) f)
  end.

Definition perform {X} (e : eff X) : prog X := Do e Done.

Declare Scope prog_scope.
Delimit Scope prog_scope with prog.
Notation "'let*' x ':=' m 'in' k" := (pbind m (fun x => k)) (at level 10, x pattern, m at level 100, k at level 200) : prog_scope.
Open Scope prog_scope.

(** Running a program alone: one oracle per step. *)
Fixpoint run_prog `{MapRange} `{Collation} {A} (p : prog A) (o : nat -> Oracle) (n : nat) (w : World) : A * nat * World :=
  match p with
  | Done a => (a, n, w)
  | Do e k => let '(x, w') := exec e (o n) w in run_prog (k x) o (S n) w'
  end.

(** ** The store's methods *)

Inductive StoreErr :=
| ErrStoreDatabaseFailed | ErrActiveRunGroupExists | ErrRunNotFound | ErrDuplicateSubmission | ErrSubmissionNotFound.

Definition db_result {X} (e : eff (Ans X)) : prog (StoreErr + X) :=
  let* r := perform e in
  Done match r with inl _ => inl ErrStoreDatabaseFailed | inr x => inr x end.

Definition FindActiveRunGroup (submissionID : string) : prog (StoreErr + option RunGroupMeta) := db_result (SelActiveGroup submissionID).
Definition st_GetRunGroup (runGroupID : string) : prog (StoreErr + option RunGroupMeta) := db_result (SelGroup runGroupID).
Definition st_GetRun (sessionID : string) : prog (StoreErr + option RunMeta) := db_result (SelRun sessionID).
Definition ListRunsByGroup (runGroupID : string) : prog (StoreErr + list RunMeta) := db_result (SelRunsByGroup runGroupID).
Definition FindBySHA256 (sha256hex : string) : prog (StoreErr + option string) := db_result (SelBySHA sha256hex).
Definition GetByID (submissionID : string) : prog (StoreErr + option SubmissionMeta) := db_result (SelSubmission submissionID).

Definition InsertRunGroupWithChildren (g : RunGroupMeta) (children : list RunMeta) : prog (StoreErr + unit) :=
  let* r := perform (TxInsertGroup g children) in
  Done match r with
       | inl TxActiveExists => inl ErrActiveRunGroupExists
       | inl TxFailed => inl ErrStoreDatabaseFailed
       | inr _ => inr tt
       end.

Definition rollup (failed completed requested total : Z) : string :=
  if completed =? total then RunStatusCompleted
  else if (0 <? failed) && (failed + completed =? total) then RunStatusFailed
  else if requested =? total then RunStatusRequested
  else RunStatusRunning.

(** Scanning a NULL sum into an [int] is an error. *)
Definition RecomputeRunGroupStatus (runGroupID : string) : prog (StoreErr + unit) :=
  let* r := perform (SelCounts runGroupID) in
  match r with
  | inr (Some failed, Some completed, Some requested, total) =>
      if total =? 0 then Done (inr tt)
      else
        let* u := perform (UpdGroup runGroupID (rollup failed completed requested total)) in
        Done match u with inl _ => inl ErrStoreDatabaseFailed | inr _ => inr tt end
  | _ => Done (inl ErrStoreDatabaseFailed)
  end.

(** The claimed row is scanned without COALESCE, after the update. *)
Definition ClaimNextRunInGroup (runGroupID : string) : prog (StoreErr + option RunMeta) :=
  let* r := perform (ClaimNext runGroupID) in
  Done match r with
       | inl _ => inl ErrStoreDatabaseFailed
       | inr None => inr None
       | inr (Some (sid, row)) =>
           match run_group row, run_scenario row with
           | Some g, Some sc => inr (Some (mkRunMeta sid (run_submission row) (run_contestant row) g sc "" "" 0 0))
           | _, _ => inl ErrStoreDatabaseFailed
           end
       end.

Definition UpdateRunStatus (sessionID status message : string) : prog (StoreErr + unit) :=
  let* tag := perform (UpdRun sessionID status message) in
  match tag with
  | inl _ => Done (inl ErrStoreDatabaseFailed)
  | inr 0%nat =>
      let* cur := perform (SelRunStatus sessionID) in
      Done match cur with
           | inl _ => inl ErrStoreDatabaseFailed
           | inr None => inl ErrRunNotFound
           | inr (Some _) => inr tt
           end
  | inr _ => Done (inr tt)
  end.

Definition Insert (m : SubmissionMeta) : prog (StoreErr + unit) :=
  let* r := perform (InsSubmission m) in
  Done match r with
       | inl UniqueViolation => inl ErrDuplicateSubmission
       | inl OtherSqlErr => inl ErrStoreDatabaseFailed
       | inr _ => inr tt
       end.

Definition ClaimSubmissionContestantIfEmpty (submissionID contestantID : string) : prog (StoreErr + bool) :=
  if bool_decide (contestantID = ""%string) then Done (inr false)
  else
    let* tag := perform (ClaimContestant submissionID contestantID) in
    Done match tag with inl _ => inl ErrStoreDatabaseFailed | inr n => inr (bool_decide (n = 1%nat)) end.

Section Scenarios.
Context `{SpecsJSON}.

(** Scanning [duration_ns] into a [uint64] refuses a negative BIGINT. *)
Definition scan_scenario (kv : string * ScenariosRow) : option ScenarioMeta :=
  let '(name, r) := kv in
  if scn_duration r <? 0 then None
  else match unmarshal_specs (scn_specs r) with
       | None => None
       | Some specs => Some (mkScenario (scn_id r) name (scn_sort r) (scn_duration r) specs (scn_created r))
       end.

Definition ListScenarios : prog (StoreErr + list ScenarioMeta) :=
  let* r := perform SelScenarios in
  Done match r with
       | inl _ => inl ErrStoreDatabaseFailed
       | inr rows => match mapM scan_scenario rows with Some out => inr out | None => inl ErrStoreDatabaseFailed end
       end.

(** INSERT ... ON CONFLICT (name); a [uint64] past the BIGINT range and a
    second scenario with the same id are errors. *)
Definition seed_insert (db : DB) (reseed : bool) (sc : ScenarioMeta) (now : Z) : SqlErr + DB :=
  if 2 ^ 63 <=? sc_DurationNs sc then inl OtherSqlErr
  else
    let specs := marshal_specs (sc_TaskSpecs sc) in
    match scenarios db !! sc_Name sc with
    | Some r =>
        inr (if reseed then set_scenarios db (<[sc_Name sc :=
               mkScenariosRow (scn_id r) (sc_SortOrder sc) (sc_DurationNs sc) specs (scn_created r)]> (scenarios db)) else db)
    | None =>
        if existsb (fun kv => bool_decide (scn_id kv.2 = sc_ScenarioID sc)) (map_to_list (scenarios db)) then inl UniqueViolation
        else inr (set_scenarios db (<[sc_Name sc :=
               mkScenariosRow (sc_ScenarioID sc) (sc_SortOrder sc) (sc_DurationNs sc) specs now]> (scenarios db)))
    end.

(** UPDATE scenarios SET sort_order = $2 WHERE name = $1 AND sort_order = 0 *)
Definition backfill_sort (db : DB) (sc : ScenarioMeta) : DB :=
  set_scenarios db (alter (fun r => if scn_sort r =? 0
    then mkScenariosRow (scn_id r) (sc_SortOrder sc) (scn_duration r) (scn_specs r) (scn_created r) else r) (sc_Name sc) (scenarios db)).

Definition seed_one (db : DB) (reseed : bool) (now : Z) (sc : ScenarioMeta) : SqlErr + DB :=
  match seed_insert db reseed sc now with inl e => inl e | inr db' => inr (backfill_sort db' sc) end.

(** The tables as they stand when the loop ends or stops at an error; run at
    start-up, before any request. *)
Fixpoint SeedScenarios (db : DB) (scs : list ScenarioMeta) (reseed : bool) (now : Z) : DB * option SqlErr :=
  match scs with
  | [] => (db, None)
  | sc :: scs => match seed_one db reseed now sc with inl e => (db, Some e) | inr db' => SeedScenarios db' scs reseed now end
  end.

End Scenarios.

(** ** build-worker's statements on [submissions] (internal/store/postgres.go) *)

Definition status_rank (status : string) : Z :=
  if bool_decide (status = "uploaded"%string) then 0
  else if bool_decide (status = "building"%string) then 1
  else if bool_decide (status = "scanned"%string) then 2
  else if bool_decide (status = "sbom_ready"%string) then 2
  else if bool_decide (status = "ready"%string) then 3
  else if bool_decide (status = "failed"%string) then 4
  else -1.

Definition validSubmissionStatus (status : string) : bool :=
  bool_decide (status ∈ ["uploaded"; "building"; "scanned"; "sbom_ready"; "ready"; "failed"]%string).

Definition set_status (m : SubmissionMeta) (status : string) : SubmissionMeta :=
  mkSubmission (sm_SubmissionID m) (sm_ContestantID m) (sm_SHA256 m) (sm_Language m) (sm_Protocol m) (sm_Port m)
    (sm_TeamName m) (sm_ArtifactPath m) (sm_ImageRef m) status (sm_CreatedAt m).

Definition set_image (m : SubmissionMeta) (imageRef : string) : SubmissionMeta :=
  mkSubmission (sm_SubmissionID m) (sm_ContestantID m) (sm_SHA256 m) (sm_Language m) (sm_Protocol m) (sm_Port m)
    (sm_TeamName m) (sm_ArtifactPath m) imageRef (sm_Status m) (sm_CreatedAt m).

(** [None]: the invalid status is refused before any statement. *)
Definition UpdateStatus (db : DB) (submissionID status : string) : option DB :=
  if negb (validSubmissionStatus status) then None
  else Some (set_submissions db (alter (fun m =>
    if (0 <=? status_rank status) &&
       (bool_decide (sm_Status m = status) ||
        (negb (bool_decide (sm_Status m = "failed"%string)) && (status_rank (sm_Status m) <=? status_rank status)))
    then set_status m status else m) submissionID (submissions db))).

Definition UpdateImageRef (db : DB) (submissionID imageRef : string) : option DB :=
  if bool_decide (imageRef = ""%string) then None
  else Some (set_submissions db (alter (fun m => set_image m imageRef) submissionID (submissions db))).

(** ** bot-fleet-controller's statements (as in [Recovery], on these rows) *)

Definition ctl_MarkRunFailed (db : DB) (sid message : string) (now : Z) : DB := (update_run db sid RunStatusFailed message now).2.

Definition ctl_MarkRunGroupFailed (db : DB) (g : string) (now : Z) : DB :=
  if bool_decide (g = ""%string) then db
  else set_groups db (alter (fun r => if active (grp_status r) then group_set r RunStatusFailed now else r) g (run_groups db)).
