(* ===== verification/Benchmark.v ===== *)
(** * submission-api: benchmark requests and the status consumer

    [internal/handler] (submit.go, submission.go, benchmark.go, ownership.go) and
    [internal/consumer/kafka.go] as programs over the store of [SubStore], and
    the system they make: any number of requests and status messages in
    progress at once, each advancing one statement at a time, beside the
    statements of the controller and of the build worker. *)

From stdpp Require Import prelude gmap strings list.
From S2P Require Import Prelude Topics Replay Recovery SubStore.

Open Scope Z_scope.

(** ** HTTP *)

Record submissionResponse := mkSubmissionResponse {
  sr_SubmissionID : string; sr_Status : string; sr_Language : string; sr_Protocol : string; sr_Port : Z;
  sr_TeamName : string; sr_SHA256 : string; sr_ImageRef : string; sr_CreatedAt : Z }.

Record runGroupChild := mkChild {
  gc_SessionID : string; gc_ScenarioID : string; gc_ScenarioName : string; gc_Status : string;
  gc_Message : string; gc_CreatedAt : Z; gc_UpdatedAt : Z }.

Record benchmarkResponse := mkBenchResp {
  br_RunGroupID : string; br_SubmissionID : string; br_ContestantID : string; br_TeamName : string;
  br_Status : string; br_CreatedAt : Z; br_Runs : list runGroupChild }.

Record runResponse := mkRunResp {
  rr_SessionID : string; rr_SubmissionID : string; rr_RunGroupID : string; rr_ScenarioID : string;
  rr_Status : string; rr_Message : string; rr_CreatedAt : Z; rr_UpdatedAt : Z }.

Record submitResponse := mkSubmitResp {
  su_SubmissionID : string; su_Status : string; su_SHA256 : string; su_Language : string; su_Protocol : string;
  su_Port : Z; su_TeamName : string; su_CreatedAt : Z }.

Inductive Body :=
| ErrorBody (msg id : string)
| SubmissionBody (r : submissionResponse)
| GroupBody (r : benchmarkResponse)
| RunBody (r : runResponse)
| SubmitBody (r : submitResponse).

Record Response := mkResponse { http_status : Z; http_body : Body }.

Definition writeError (status : Z) (msg : string) : Response := mkResponse status (ErrorBody msg "").
Definition writeErrorWithID (status : Z) (msg id : string) : Response := mkResponse status (ErrorBody msg id).

Definition fail (status : Z) (msg : string) : prog Response := Done (writeError status msg).

(** ** ownership.go *)

Definition claimOrResolveOwner (sub : SubmissionMeta) (contestantID : string) : prog (StoreErr + SubmissionMeta) :=
  if negb (bool_decide (sm_ContestantID sub = ""%string)) then Done (inr sub)
  else
    let* r := ClaimSubmissionContestantIfEmpty (sm_SubmissionID sub) contestantID in
    match r with
    | inl e => Done (inl e)
    | inr true => Done (inr (set_contestant sub contestantID))
    | inr false =>
        let* fresh := GetByID (sm_SubmissionID sub) in
        Done match fresh with
             | inl e => inl e
             | inr None => inl ErrSubmissionNotFound
             | inr (Some m) => inr m
             end
    end.

(** ** submission.go *)

Definition GetSubmission (submissionID contestantID : string) : prog Response :=
  if bool_decide (submissionID = ""%string) then fail 400 "missing submission id"
  else
    let* r := GetByID submissionID in
    match r with
    | inl _ => fail 500 "internal error"
    | inr None => fail 404 "submission not found"
    | inr (Some meta) =>
        if bool_decide (contestantID = ""%string) then fail 401 "authentication required"
        else if negb (bool_decide (sm_ContestantID meta = ""%string)) && negb (bool_decide (sm_ContestantID meta = contestantID))
        then fail 404 "submission not found"
        else Done (mkResponse 200 (SubmissionBody (mkSubmissionResponse (sm_SubmissionID meta) (sm_Status meta) (sm_Language meta)
               (sm_Protocol meta) (sm_Port meta) (sm_TeamName meta) (sm_SHA256 meta) (sm_ImageRef meta) (sm_CreatedAt meta))))
    end.

(** ** benchmark.go *)

Section Handlers.
Context `{SpecsJSON}.

(** The last scenario with the id wins, as a map being filled in order. *)
Definition scenario_name (scs : list ScenarioMeta) (id : string) : string :=
  foldl (fun acc sc => if bool_decide (sc_ScenarioID sc = id) then sc_Name sc else acc) ""%string scs.

Definition child_of (scs : list ScenarioMeta) (r : RunMeta) : runGroupChild :=
  mkChild (rm_SessionID r) (rm_ScenarioID r) (scenario_name scs (rm_ScenarioID r)) (rm_Status r) (rm_Message r)
    (rm_CreatedAt r) (rm_UpdatedAt r).

Definition groupResponse (group : RunGroupMeta) (scs : list ScenarioMeta) : prog (StoreErr + benchmarkResponse) :=
  let* r := ListRunsByGroup (rg_RunGroupID group) in
  Done match r with
       | inl e => inl e
       | inr rows => inr (mkBenchResp (rg_RunGroupID group) (rg_SubmissionID group) (rg_ContestantID group) (rg_TeamName group)
                            (rg_Status group) (rg_CreatedAt group) (map (child_of scs) rows))
       end.

Definition respondWithGroup (group : RunGroupMeta) (scs : list ScenarioMeta) (status : Z) : prog Response :=
  let* r := groupResponse group scs in
  match r with
  | inl _ => fail 500 "failed to load child runs"
  | inr resp => Done (mkResponse status (GroupBody resp))
  end.

(** The loop that mints a child run per scenario; [None] when the generator
    failed. *)
Fixpoint mint_children (sub : SubmissionMeta) (submissionID runGroupID : string) (now : Z) (scs : list ScenarioMeta)
    : prog (option (list RunMeta)) :=
  match scs with
  | [] => Done (Some [])
  | sc :: scs =>
      let* id := perform NewUUID in
      match id with
      | None => Done None
      | Some sessionID =>
          let* rest := mint_children sub submissionID runGroupID now scs in
          Done ((fun l => mkRunMeta sessionID submissionID (sm_ContestantID sub) runGroupID (sc_ScenarioID sc)
                            RunStatusRequested "" now now :: l) <$> rest)
      end
  end.

Definition set_rm_Status (r : RunMeta) (status : string) : RunMeta :=
  mkRunMeta (rm_SessionID r) (rm_SubmissionID r) (rm_ContestantID r) (rm_RunGroupID r) (rm_ScenarioID r) status
    (rm_Message r) (rm_CreatedAt r) (rm_UpdatedAt r).

Definition bench_of (r : RunMeta) (now : Z) : BenchmarkMeta :=
  mkBench (rm_SessionID r) (rm_SubmissionID r) (rm_ContestantID r) (rm_RunGroupID r) (rm_ScenarioID r) now.

(** After the children exist: insert, publish the first, answer. *)
Definition insert_and_publish (group : RunGroupMeta) (first : RunMeta) (others : list RunMeta) (scs : list ScenarioMeta) (now : Z)
    : prog Response :=
  let first := set_rm_Status first RunStatusQueued in
  let* r := InsertRunGroupWithChildren group (first :: others) in
  match r with
  | inl ErrActiveRunGroupExists =>
      let* existing := FindActiveRunGroup (rg_SubmissionID group) in
      match existing with
      | inr (Some g) => respondWithGroup g scs 200
      | _ => fail 500 "concurrent benchmark request conflict"
      end
  | inl _ => fail 500 "failed to create run-group"
  | inr _ =>
      let* p := perform (PublishBench (bench_of first now)) in
      match p with
      | inl _ => fail 500 "failed to publish benchmark request"
      | inr _ => respondWithGroup group scs 202
      end
  end.

(** A new group: ids, children, transaction.  A scenario list that is not
    empty mints at least one child. *)
Definition start_group (sub : SubmissionMeta) (submissionID : string) (scs : list ScenarioMeta) : prog Response :=
  let* id := perform NewUUID in
  match id with
  | None => fail 500 "failed to generate run_group_id"
  | Some runGroupID =>
      let* now := perform Now in
      let* children := mint_children sub submissionID runGroupID now scs in
      match children with
      | None => fail 500 "failed to generate session_id"
      | Some (first :: others) =>
          insert_and_publish (mkGroup runGroupID submissionID (sm_ContestantID sub) "" RunStatusRequested now now) first others scs now
      | Some [] => fail 500 "unreachable: no scenarios"
      end
  end.

Definition StatusReady : string := "ready".

(** The benchmark of a submission the caller owns. *)
Definition start_owned (sub : SubmissionMeta) (submissionID : string) : prog Response :=
  if negb (bool_decide (sm_Status sub = StatusReady))
  then fail 400 ("submission is not in 'ready' status (current: " +:+ sm_Status sub +:+ ")")
  else if bool_decide (sm_ImageRef sub = ""%string) then fail 400 "submission is ready but has no built image ref"
  else
    let* r := ListScenarios in
    match r with
    | inl _ => fail 500 "scenario lookup failed"
    | inr [] => fail 500 "no scenarios configured"
    | inr scs =>
        let* existing := FindActiveRunGroup submissionID in
        match existing with
        | inl _ => fail 500 "lookup failed"
        | inr (Some g) => respondWithGroup g scs 200
        | inr None => start_group sub submissionID scs
        end
    end.

Definition StartBenchmark (submissionID contestantID : string) : prog Response :=
  if bool_decide (submissionID = ""%string) then fail 400 "missing submission_id"
  else
    let* r := GetByID submissionID in
    match r with
    | inl _ => fail 500 "lookup failed"
    | inr None => fail 404 "submission not found"
    | inr (Some sub) =>
        if bool_decide (contestantID = ""%string) then fail 401 "benchmark requires an authenticated contestant"
        else
          let* owner := claimOrResolveOwner sub contestantID in
          match owner with
          | inl ErrSubmissionNotFound => fail 404 "submission not found"
          | inl _ => fail 500 "failed to bind submission"
          | inr sub =>
              if negb (bool_decide (sm_ContestantID sub = contestantID)) then fail 404 "submission not found"
              else start_owned sub submissionID
          end
    end.

Definition GetRunGroup (runGroupID : string) : prog Response :=
  if bool_decide (runGroupID = ""%string) then fail 400 "missing run_group_id"
  else
    let* r := st_GetRunGroup runGroupID in
    match r with
    | inl _ => fail 500 "lookup failed"
    | inr None => fail 404 "run-group not found"
    | inr (Some group) =>
        let* scs := ListScenarios in
        match scs with
        | inl _ => fail 500 "scenario lookup failed"
        | inr scs => respondWithGroup group scs 200
        end
    end.

Definition GetRun (sessionID contestantID : string) : prog Response :=
  if bool_decide (sessionID = ""%string) then fail 400 "missing session_id"
  else
    let* r := st_GetRun sessionID in
    match r with
    | inl _ => fail 500 "lookup failed"
    | inr None => fail 404 "run not found"
    | inr (Some run) =>
        if bool_decide (contestantID = ""%string) then fail 401 "authentication required"
        else if negb (bool_decide (rm_ContestantID run = contestantID)) then fail 404 "run not found"
        else Done (mkResponse 200 (RunBody (mkRunResp (rm_SessionID run) (rm_SubmissionID run) (rm_RunGroupID run)
               (rm_ScenarioID run) (rm_Status run) (rm_Message run) (rm_CreatedAt run) (rm_UpdatedAt run))))
    end.

(** ** submit.go, after the form is parsed and the archive validated *)

Record Upload := mkUpload {
  up_sha256 : string; up_size : Z; up_Language : string; up_Protocol : string; up_Port : Z;
  up_BuildType : string; up_BuildTarget : string; up_TeamName : string }.

Definition submit_ok (m : SubmissionMeta) : submitResponse :=
  mkSubmitResp (sm_SubmissionID m) (sm_Status m) (sm_SHA256 m) (sm_Language m) (sm_Protocol m) (sm_Port m) (sm_TeamName m) (sm_CreatedAt m).

Definition object_path (submissionID : string) : string := ("iicpc-submissions/" +:+ submissionID +:+ "/artifact.zip")%string.

(** [MinioStore.Upload]. *)
Definition Upload_object (submissionID : string) (size : Z) (sha : string) : prog (option string) :=
  if size <=? 0 then Done None
  else
    let* r := perform (UploadObject (object_path submissionID) sha) in
    Done match r with inl _ => None | inr _ => Some (object_path submissionID) end.

(** The artifact is known already: answer with the submission it made. *)
Definition submit_duplicate (existingID contestantID : string) : prog Response :=
  let* r := GetByID existingID in
  match r with
  | inl _ => fail 500 "lookup failed"
  | inr (Some existing) =>
      let* bound := claimOrResolveOwner existing contestantID in
      Done (mkResponse 200 (SubmitBody (submit_ok match bound with inr m => m | inl _ => existing end)))
  | inr None => Done (writeErrorWithID 409 "duplicate submission" existingID)
  end.

(** The insert lost a race with another upload of the same artifact. *)
Definition submit_race (sha contestantID : string) : prog Response :=
  let* r := FindBySHA256 sha in
  match r with
  | inr (Some existingID) =>
      let* g := GetByID existingID in
      match g with
      | inr (Some existing) =>
          let* owner := claimOrResolveOwner existing contestantID in
          match owner with
          | inl _ => fail 409 "duplicate submission"
          | inr m => if negb (bool_decide (sm_ContestantID m = contestantID)) then fail 409 "duplicate submission"
                     else Done (writeErrorWithID 409 "duplicate submission" existingID)
          end
      | _ => Done (writeErrorWithID 409 "duplicate submission" existingID)
      end
  | _ => fail 409 "duplicate submission"
  end.

Definition submit_new (up : Upload) (submissionID contestantID : string) (createdAt : Z) : prog Response :=
  let* path := Upload_object submissionID (up_size up) (up_sha256 up) in
  match path with
  | None => fail 500 "failed to store artifact"
  | Some artifactPath =>
      let meta := mkSubmission submissionID contestantID (up_sha256 up) (up_Language up) (up_Protocol up) (up_Port up)
                    (up_TeamName up) artifactPath "" "uploaded" createdAt in
      let* ins := Insert meta in
      match ins with
      | inl ErrDuplicateSubmission => submit_race (up_sha256 up) contestantID
      | inl _ => fail 500 "failed to save metadata"
      | inr _ =>
          let* _ := perform (PublishBuild (mkPublish submissionID contestantID (up_sha256 up) (up_Language up) (up_Protocol up)
                      (up_Port up) (up_BuildType up) (up_BuildTarget up) (up_TeamName up) artifactPath createdAt)) in
          Done (mkResponse 201 (SubmitBody (submit_ok meta)))
      end
  end.

Definition Submit (up : Upload) (contestantID : string) : prog Response :=
  let* id := perform NewUUID in
  match id with
  | None => fail 500 "failed to generate id"
  | Some submissionID =>
      let* createdAt := perform Now in
      if bool_decide (contestantID = ""%string) then fail 401 "submission requires an authenticated contestant"
      else
        let* r := FindBySHA256 (up_sha256 up) in
        match r with
        | inl _ => fail 500 "lookup failed"
        | inr (Some existingID) => submit_duplicate existingID contestantID
        | inr None => submit_new up submissionID contestantID createdAt
        end
  end.

End Handlers.

(** ** consumer/kafka.go *)

Definition terminalRunStatus (status : string) : bool :=
  bool_decide (status = RunStatusCompleted) || bool_decide (status = RunStatusFailed).

Definition validRunStatus (status : string) : bool :=
  bool_decide (status ∈ [RunStatusRequested; RunStatusDeploying; RunStatusWaitingReady; RunStatusBarrierFired;
                         RunStatusRunning; RunStatusCompleted; RunStatusFailed]).

(** The reset of a claimed run is only logged when it fails. *)
Definition advanceRunGroup (msg : BenchmarkStatusUpdated) : prog bool :=
  let* r := ClaimNextRunInGroup (bs_RunGroupID msg) in
  match r with
  | inl _ => Done false
  | inr None => Done true
  | inr (Some next) =>
      let* now := perform Now in
      let* p := perform (PublishBench (bench_of next now)) in
      match p with
      | inl _ => let* _ := UpdateRunStatus (rm_SessionID next) RunStatusRequested "" in Done false
      | inr _ => Done true
      end
  end.

(** What became of a fetched message: its offset was committed, the commit
    was tried and failed, or it was left for redelivery. *)
Inductive Fate := Committed | CommitFailed | NotCommitted.

Definition commit : prog Fate :=
  let* r := perform CommitOffset in
  Done match r with inl _ => CommitFailed | inr _ => Committed end.

(** The body of [Start]'s loop for one fetched message; [None] when its value
    does not decode. *)
Definition consume (value : option BenchmarkStatusUpdated) : prog Fate :=
  match value with
  | None => commit
  | Some msg =>
      if negb (validRunStatus (bs_Status msg)) then commit
      else
        let* u := UpdateRunStatus (bs_SessionID msg) (bs_Status msg) (bs_Message msg) in
        match u with
        | inl ErrRunNotFound => commit
        | inl _ => Done NotCommitted
        | inr _ =>
            if bool_decide (bs_RunGroupID msg = ""%string) then commit
            else
              let* ok := if terminalRunStatus (bs_Status msg) then advanceRunGroup msg else Done true in
              if negb ok then Done NotCommitted
              else let* _ := RecomputeRunGroupStatus (bs_RunGroupID msg) in commit
        end
  end.

(** ** The system *)

Inductive Outcome := Responded (r : Response) | Consumed (msg : option BenchmarkStatusUpdated) (f : Fate).

Definition http (p : prog Response) : prog Outcome := let* r := p in Done (Responded r).
Definition consumer (v : option BenchmarkStatusUpdated) : prog Outcome := let* f := consume v in Done (Consumed v f).

(** [s_handed]: sessions whose terminal status has been handed to a consumer
    and not given back for redelivery. *)
Record Sys := mkSys { s_world : World; s_threads : list (prog Outcome); s_handed : gset string }.

(** What is assumed of the broker.  [Any]: nothing.  [Exact]: a publish that
    reports an error published nothing, and no status message carries
    "requested", which only this service writes.  [Sequential]: moreover a
    terminal status is handed to a consumer once per published session, and
    again only if the consumer left it uncommitted on purpose. *)
Inductive Mode := Any | Exact | Sequential.

Definition advances (msg : BenchmarkStatusUpdated) : bool :=
  terminalRunStatus (bs_Status msg) && negb (bool_decide (bs_RunGroupID msg = ""%string)).

Definition deliverable (md : Mode) (s : Sys) (v : option BenchmarkStatusUpdated) : Prop :=
  match md, v with
  | Any, _ | _, None => True
  | Exact, Some msg => bs_Status msg <> RunStatusRequested
  | Sequential, Some msg =>
      bs_Status msg <> RunStatusRequested /\
      (advances msg = true ->
        (bs_SessionID msg ∉ s_handed s) /\
        exists m, m ∈ w_requests (s_world s) /\ bm_SessionID m = bs_SessionID msg /\ bm_RunGroupID m = bs_RunGroupID msg)
  end.

Definition hand (s : Sys) (v : option BenchmarkStatusUpdated) : gset string :=
  match v with
  | Some msg => if advances msg then {[bs_SessionID msg]} ∪ s_handed s else s_handed s
  | None => s_handed s
  end.

Definition is_publish {X} (e : eff X) : bool := match e with PublishBench _ => true | _ => false end.

Section Steps.
Context `{MapRange} `{Collation} `{SpecsJSON}.

(** The statements other services run on the tables. *)
Inductive env_step : DB -> DB -> Prop :=
| env_mark_run db sid message now : env_step db (ctl_MarkRunFailed db sid message now)
| env_mark_group db g now : env_step db (ctl_MarkRunGroupFailed db g now)
| env_build_status db id status db' : UpdateStatus db id status = Some db' -> env_step db db'
| env_build_image db id ref db' : UpdateImageRef db id ref = Some db' -> env_step db db'.

Inductive Request :=
| ReqSubmit (up : Upload) (contestant : string)
| ReqGetSubmission (id contestant : string)
| ReqStart (id contestant : string)
| ReqGetGroup (g : string)
| ReqGetRun (sid contestant : string).

Definition handle (r : Request) : prog Response :=
  match r with
  | ReqSubmit up c => Submit up c
  | ReqGetSubmission id c => GetSubmission id c
  | ReqStart id c => StartBenchmark id c
  | ReqGetGroup g => GetRunGroup g
  | ReqGetRun sid c => GetRun sid c
  end.

Inductive step (md : Mode) : Sys -> Sys -> Prop :=
| step_request s r :
    step md s (mkSys (s_world s) (s_threads s ++ [http (handle r)]) (s_handed s))
| step_message s v :
    deliverable md s v ->
    step md s (mkSys (s_world s) (s_threads s ++ [consumer v]) (hand s v))
| step_exec s i X (e : eff X) k o x w' :
    s_threads s !! i = Some (Do e k) ->
    (md <> Any -> is_publish e = true -> o_net o <> Lost) ->
    exec e o (s_world s) = (x, w') ->
    step md s (mkSys w' (<[i := k x]> (s_threads s)) (s_handed s))
| step_give_back s i msg :
    s_threads s !! i = Some (Done (Consumed (Some msg) NotCommitted)) ->
    step md s (mkSys (s_world s) (<[i := Done (Consumed None NotCommitted)]> (s_threads s)) (if advances msg then s_handed s ∖ {[bs_SessionID msg]} else s_handed s))
| step_env s db' :
    env_step (w_db (s_world s)) db' ->
    step md s (mkSys (set_db (s_world s) db') (s_threads s) (s_handed s)).

(** The tables at start-up, seeded with scenarios: no runs, nothing published. *)
Definition initial (scs : list ScenarioMeta) (reseed : bool) (now : Z) : Sys :=
  mkSys (mkWorld (SeedScenarios emptyDB scs reseed now).1 [] [] ∅) [] ∅.

Inductive reachable (md : Mode) : Sys -> Prop :=
| reach_init scs reseed now : reachable md (initial scs reseed now)
| reach_step s s' : reachable md s -> step md s s' -> reachable md s'.

End Steps.
