(* ===== verification/BenchInv.v ===== *)
(** * submission-api: what the tables keep

    Every statement of [SubStore], whoever runs it and whatever is lost on the
    way, keeps history: no change to a finished run, no change of owner, no
    step back of a build. *)

From stdpp Require Import prelude gmap strings list.
From S2P Require Import Prelude GoSort Topics Replay Recovery SubStore Benchmark.

Open Scope Z_scope.

Create HintDb tables.

Lemma existsb_false {A} (f : A -> bool) (l : list A) : existsb f l = false <-> forall x, x ∈ l -> f x = false.
Proof.
  split.
  - intros He x Hx. destruct (f x) eqn:E; [|done]. rewrite <-He. symmetry. apply existsb_exists.
    exists x. by rewrite <-list_elem_of_In.
  - intros Hf. destruct (existsb f l) eqn:E; [|done]. apply existsb_exists in E as (x & Hx & E).
    apply list_elem_of_In in Hx. rewrite Hf in E; done.
Qed.

Lemma existsb_map_false {V} (f : string * V -> bool) (m : gmap string V) :
  existsb f (map_to_list m) = false <-> forall k v, m !! k = Some v -> f (k, v) = false.
Proof.
  rewrite existsb_false. split.
  - intros Hf k v Hk. apply Hf. by apply elem_of_map_to_list.
  - intros Hf [k v] Hk. apply Hf. by apply elem_of_map_to_list.
Qed.

Section Tables.
Context `{MapRange} `{Collation}.

(** ** Every write is one of these *)

Inductive db_write : DB -> DB -> Prop :=
| dw_none db : db_write db db
| dw_submission db m db' : insert_submission db m = inr db' -> db_write db db'
| dw_contestant db id c : db_write db (claim_contestant db id c).2
| dw_group db g children db' : insert_group_tx db g children = inr db' -> db_write db db'
| dw_group_status db g status now db' : update_group db g status now = inr db' -> db_write db db'
| dw_claim db g locked now : db_write db (claim_next db g locked now).2
| dw_run db sid status message now : db_write db (update_run db sid status message now).2.

#[local] Hint Constructors db_write : tables.

Lemma effect_db {X} o (x : X) w w' : forall a w'', effect o x w w' = (a, w'') -> w'' = w \/ w'' = w'.
Proof. unfold effect. intros a w''. destruct (o_net o); naive_solver. Qed.

Lemma effect_sum_db {E} (bad : E) o r w a w' :
  effect_sum bad o r w = (a, w') -> w' = w \/ exists db, r = inr db /\ w' = set_db w db.
Proof. unfold effect_sum. destruct r, (o_net o); naive_solver. Qed.

Lemma exec_db_write {X} (e : eff X) o w x w' : exec e o w = (x, w') -> db_write (w_db w) (w_db w').
Proof.
  intros He. destruct e; cbn [exec] in He;
    try (unfold answer in He; injection He as <- <-; by constructor);
    try (apply effect_sum_db in He as [->|(db & Hr & ->)]; cbn [w_db set_db]; by eauto with tables);
    try (apply effect_db in He as [->| ->]; cbn [w_db set_db]; by constructor).
  - destruct (claim_contestant _ _ _) as [n db'] eqn:E. apply effect_db in He as [->| ->]; cbn [w_db set_db]; [constructor|].
    replace db' with (claim_contestant (w_db w) id contestant).2 by (by rewrite E). constructor.
  - destruct (claim_next _ _ _ _) as [n db'] eqn:E. apply effect_db in He as [->| ->]; cbn [w_db set_db]; [constructor|].
    replace db' with (claim_next (w_db w) g (o_locked o) (o_now o)).2 by (by rewrite E). constructor.
  - destruct (update_run _ _ _ _ _) as [n db'] eqn:E. apply effect_db in He as [->| ->]; cbn [w_db set_db]; [constructor|].
    replace db' with (update_run (w_db w) sid status message (o_now o)).2 by (by rewrite E). constructor.
Qed.

(** One step of the system on the tables. *)
Definition change (db db' : DB) : Prop := db_write db db' \/ env_step db db'.

Lemma step_change `{SpecsJSON} md s s' : step md s s' -> change (w_db (s_world s)) (w_db (s_world s')).
Proof.
  destruct 1; cbn [s_world]; try (left; apply dw_none).
  - left. by eapply exec_db_write.
  - by right.
Qed.

(** ** What the inserts do *)

Lemma insert_group_inv db g db' :
  insert_group db g = inr db' ->
  run_groups db !! rg_RunGroupID g = None /\
  (active (rg_Status g) = true -> active_conflict db (rg_RunGroupID g) (rg_SubmissionID g) = false) /\
  db' = set_groups db (<[rg_RunGroupID g :=
    mkGroupsRow (rg_SubmissionID g) (rg_ContestantID g) (rg_Status g) (rg_CreatedAt g) (rg_UpdatedAt g)]> (run_groups db)).
Proof.
  unfold insert_group. destruct (_ || _) eqn:E; [done|]. apply orb_false_iff in E as [E1 E2].
  apply bool_decide_eq_false, eq_None_not_Some in E1. intros [= <-]. split_and!; [done| |done].
  intros Ha. by rewrite Ha in E2.
Qed.

Lemma insert_runs_inv children : forall db db',
  insert_runs db children = inr db' ->
  submissions db' = submissions db /\ scenarios db' = scenarios db /\ run_groups db' = run_groups db /\
  (forall sid, is_Some (runs db !! sid) -> runs db' !! sid = runs db !! sid) /\
  (forall sid row, runs db' !! sid = Some row -> runs db !! sid = Some row \/
     (runs db !! sid = None /\ exists c, c ∈ children /\ rm_SessionID c = sid /\ row = row_of c)) /\
  (forall c, c ∈ children -> runs db !! rm_SessionID c = None /\ runs db' !! rm_SessionID c = Some (row_of c)) /\
  NoDup (map rm_SessionID children).
Proof.
  induction children as [|c children IH]; intros db db'; simpl.
  { intros [= <-]. split_and!; try done; [naive_solver|set_solver|constructor]. }
  unfold insert_run. destruct (_ || _) eqn:E; [done|]. apply orb_false_iff in E as [E1 _].
  apply bool_decide_eq_false, eq_None_not_Some in E1. intros Hins.
  destruct (IH _ _ Hins) as (Hs & Hsc & Hg & Hold & Hnew & Hin & Hnd). cbn [submissions scenarios run_groups runs set_runs] in *.
  assert (Hc : runs db' !! rm_SessionID c = Some (row_of c)).
  { rewrite Hold; rewrite lookup_insert_eq; [done|]. by eexists. }
  split_and!; try done.
  - intros sid Hsid. assert (rm_SessionID c <> sid) by (intros <-; rewrite E1 in Hsid; by destruct Hsid).
    rewrite Hold; rewrite lookup_insert_ne by done; done.
  - intros sid row Hrow. apply Hnew in Hrow as [Hrow|(Hnone & c' & Hc' & <- & ->)].
    + apply lookup_insert_Some in Hrow as [[<- <-]|[Hne Hrow]]; [right|by left]. split; [done|]. exists c. set_solver.
    + apply lookup_insert_None in Hnone as [Hnone _]. right. split; [done|]. exists c'. set_solver.
  - intros c' Hc'. apply elem_of_cons in Hc' as [->|Hc']; [done|]. apply Hin in Hc' as [Hn Hr].
    apply lookup_insert_None in Hn as [Hn _]. done.
  - constructor; [|done]. rewrite list_elem_of_fmap. intros (c' & Heq & Hc'). apply Hin in Hc' as [Hn _].
    rewrite <-Heq, lookup_insert_eq in Hn. done.
Qed.

Lemma insert_group_tx_inv db g children db' :
  insert_group_tx db g children = inr db' ->
  exists db1, insert_group db g = inr db1 /\ insert_runs db1 children = inr db'.
Proof.
  unfold insert_group_tx. destruct (insert_group db g) as [[]|db1]; [done..|].
  destruct (insert_runs db1 children) eqn:E; [done|]. naive_solver.
Qed.

Lemma earliest_in rows kv : earliest rows = Some kv -> kv ∈ rows.
Proof.
  revert kv. induction rows as [|x rows IH]; intros kv; simpl; [done|].
  destruct (earliest rows) as [y|] eqn:E; intros [= <-]; [|by left].
  destruct (coll_le x.1 y.1); [by left|right; by apply IH].
Qed.

Lemma elem_of_claimable db g locked sid row :
  (sid, row) ∈ claimable db g locked <->
  runs db !! sid = Some row /\ run_group row = Some g /\ run_status row = RunStatusRequested /\ sid ∉ locked.
Proof.
  unfold claimable, group_runs. rewrite <-!list_elem_of_In || idtac.
  rewrite list_elem_of_In, !filter_In, <-list_elem_of_In, elem_of_map_to_list. cbn [fst snd].
  rewrite andb_true_iff, negb_true_iff, !bool_decide_eq_true, bool_decide_eq_false. tauto.
Qed.

Lemma claim_next_inv db g locked now r db' :
  claim_next db g locked now = (r, db') ->
  (r = None /\ db' = db) \/
  exists sid row, r = Some (sid, row) /\ runs db !! sid = Some row /\ run_group row = Some g /\
    run_status row = RunStatusRequested /\
    db' = set_runs db (<[sid := run_set row RunStatusQueued (run_message row) now]> (runs db)).
Proof.
  unfold claim_next. destruct (earliest _) as [[sid row]|] eqn:E; intros [= <- <-]; [right|by left].
  apply earliest_in, elem_of_claimable in E as (? & ? & ? & _). by exists sid, row.
Qed.

Lemma update_run_inv db sid status message now n db' :
  update_run db sid status message now = (n, db') ->
  (n = 0%nat /\ db' = db) \/
  exists row, runs db !! sid = Some row /\ active (run_status row) = true /\
    db' = set_runs db (<[sid := run_set row status message now]> (runs db)).
Proof.
  unfold update_run. destruct (runs db !! sid) as [row|]; [|intros [= <- <-]; by left].
  destruct (active (run_status row)) eqn:E; intros [= <- <-]; [right|by left]. by exists row.
Qed.

(** ** Runs: no deletion, fixed columns, finished rows untouched *)

(** Columns that identify a run never change. *)
Definition same_run (r r' : RunsRow) : Prop :=
  run_submission r' = run_submission r /\ run_contestant r' = run_contestant r /\
  run_group r' = run_group r /\ run_scenario r' = run_scenario r /\ run_created r' = run_created r.

Lemma same_run_refl r : same_run r r.
Proof. done. Qed.

#[local] Hint Resolve same_run_refl : tables.

Lemma update_run_row db sid status message now sid' row :
  runs db !! sid' = Some row ->
  exists row', runs (update_run db sid status message now).2 !! sid' = Some row' /\ same_run row row' /\
    (terminal (run_status row) = true -> row' = row) /\
    (row' = row \/ (sid' = sid /\ row' = run_set row status message now)).
Proof.
  intros Hrow. unfold update_run.
  destruct (runs db !! sid) as [r|] eqn:Es; [|exists row; by auto with tables].
  destruct (active (run_status r)) eqn:Ea; [|exists row; by auto with tables]. cbn [snd runs set_runs].
  destruct (decide (sid = sid')) as [->|Hne].
  - assert (r = row) as -> by congruence. rewrite lookup_insert_eq. eexists. split_and!; [done|done| |by right].
    unfold active in Ea. intros Ht. by rewrite Ht in Ea.
  - rewrite lookup_insert_ne by done. exists row. by auto with tables.
Qed.

Lemma write_run db db' sid row :
  db_write db db' -> runs db !! sid = Some row ->
  exists row', runs db' !! sid = Some row' /\ same_run row row' /\ (terminal (run_status row) = true -> row' = row).
Proof.
  intros Hw Hrow. destruct Hw as [db|db m db' Hi|db id c|db g children db' Hi|db g status now db' Hu|db g locked now|db sid' status message now].
  - exists row. auto with tables.
  - unfold insert_submission in Hi. destruct (_ || _); [done|]. injection Hi as <-. exists row. auto with tables.
  - unfold claim_contestant. destruct (submissions db !! id); [|exists row; by auto with tables].
    case_bool_decide; exists row; by auto with tables.
  - apply insert_group_tx_inv in Hi as (db1 & Hg & Hr). apply insert_group_inv in Hg as (_ & _ & ->).
    apply insert_runs_inv in Hr as (_ & _ & _ & Hold & _). exists row. rewrite Hold; [by auto with tables|by eexists].
  - unfold update_group in Hu. destruct (run_groups db !! g); [|injection Hu as <-; exists row; by auto with tables].
    destruct (_ && _); [done|]. injection Hu as <-. exists row. auto with tables.
  - destruct (claim_next db g locked now) as [r db'] eqn:E.
    apply claim_next_inv in E as [[_ ->]|(sid' & row' & _ & Hs & _ & Hst & ->)]; [exists row; by auto with tables|].
    cbn [snd runs set_runs]. destruct (decide (sid' = sid)) as [->|Hne].
    + rewrite Hs in Hrow. injection Hrow as ->. rewrite lookup_insert_eq. eexists. split_and!; [done|done|].
      rewrite Hst. discriminate.
    + rewrite lookup_insert_ne by done. exists row. auto with tables.
  - destruct (update_run_row db sid' status message now sid row Hrow) as (row' & ? & ? & ? & _). by exists row'.
Qed.

Lemma env_run db db' sid row :
  env_step db db' -> runs db !! sid = Some row ->
  exists row', runs db' !! sid = Some row' /\ same_run row row' /\ (terminal (run_status row) = true -> row' = row).
Proof.
  intros He Hrow. destruct He as [db sid' message now|db g now|db id status db' Hu|db id ref db' Hu].
  - destruct (update_run_row db sid' RunStatusFailed message now sid row Hrow) as (row' & ? & ? & ? & _). by exists row'.
  - unfold ctl_MarkRunGroupFailed. case_bool_decide; exists row; by auto with tables.
  - unfold UpdateStatus in Hu. destruct (negb _); [done|]. injection Hu as <-. exists row. by auto with tables.
  - unfold UpdateImageRef in Hu. case_bool_decide; [done|]. injection Hu as <-. exists row. by auto with tables.
Qed.

(** ** The index on active groups *)

Lemma active_conflict_false db g sub :
  active_conflict db g sub = false <->
  forall g' r, run_groups db !! g' = Some r -> g' <> g -> grp_submission r = sub -> active (grp_status r) = false.
Proof.
  unfold active_conflict. rewrite existsb_map_false. cbn [fst snd]. split.
  - intros Hf g' r Hr Hne Hs. specialize (Hf g' r Hr). rewrite !bool_decide_true in Hf by done. done.
  - intros Hf g' r Hr. case_bool_decide; [|done]. case_bool_decide; [|done]. cbn. by apply (Hf g').
Qed.

(** ** One owner, builds move forward *)

(** What may happen to a submission row: the owner is set once, the build
    status climbs and "failed" is final; the rest is fixed. *)
Definition sub_step (m m' : SubmissionMeta) : Prop :=
  (sm_SubmissionID m', sm_SHA256 m', sm_Language m', sm_Protocol m', sm_Port m', sm_TeamName m', sm_ArtifactPath m', sm_CreatedAt m') =
  (sm_SubmissionID m, sm_SHA256 m, sm_Language m, sm_Protocol m, sm_Port m, sm_TeamName m, sm_ArtifactPath m, sm_CreatedAt m) /\
  (sm_ContestantID m <> ""%string -> sm_ContestantID m' = sm_ContestantID m) /\
  status_rank (sm_Status m) <= status_rank (sm_Status m') /\
  (sm_Status m = "failed"%string -> sm_Status m' = "failed"%string) /\
  (sm_ImageRef m <> ""%string -> sm_ImageRef m' <> ""%string).

Lemma sub_step_refl m : sub_step m m.
Proof. unfold sub_step. split_and!; try done; lia. Qed.

#[local] Hint Resolve sub_step_refl : tables.

Lemma sub_step_trans m1 m2 m3 : sub_step m1 m2 -> sub_step m2 m3 -> sub_step m1 m3.
Proof.
  intros (H1 & H2 & H3 & H4 & H5) (K1 & K2 & K3 & K4 & K5). unfold sub_step. split_and!; [congruence| |lia|auto|auto].
  intros Hc. rewrite K2; [by apply H2|]. rewrite H2; done.
Qed.

Lemma sub_step_alter db id f id' m :
  (forall m, sub_step m (f m)) -> submissions db !! id' = Some m ->
  exists m', alter f id (submissions db) !! id' = Some m' /\ sub_step m m'.
Proof.
  intros Hf Hm. destruct (decide (id = id')) as [->|Hne].
  - rewrite lookup_alter_eq, Hm. by eexists.
  - rewrite lookup_alter_ne by done. exists m. auto with tables.
Qed.

Lemma change_submission db db' id m :
  change db db' -> submissions db !! id = Some m -> exists m', submissions db' !! id = Some m' /\ sub_step m m'.
Proof.
  intros [Hw|He] Hm.
  - destruct Hw as [db|db m0 db' Hi|db id' c|db g children db' Hi|db g status now db' Hu|db g locked now|db sid' status message now].
    + exists m. auto with tables.
    + unfold insert_submission in Hi. destruct (_ || _) eqn:E; [done|]. injection Hi as <-.
      apply orb_false_iff in E as [E _]. apply bool_decide_eq_false, eq_None_not_Some in E.
      exists m. cbn. rewrite lookup_insert_ne by congruence. auto with tables.
    + unfold claim_contestant. destruct (submissions db !! id') as [m'|] eqn:E; [|exists m; by auto with tables].
      case_bool_decide as Hc; [|exists m; by auto with tables]. cbn. destruct (decide (id' = id)) as [->|Hne].
      * assert (m' = m) as -> by congruence. rewrite lookup_insert_eq. eexists. split; [done|].
        unfold sub_step. cbn. split_and!; try done; lia.
      * rewrite lookup_insert_ne by done. exists m. auto with tables.
    + apply insert_group_tx_inv in Hi as (db1 & Hg & Hr). apply insert_group_inv in Hg as (_ & _ & ->).
      apply insert_runs_inv in Hr as (Hs & _). rewrite Hs. exists m. auto with tables.
    + unfold update_group in Hu. destruct (run_groups db !! g); [|injection Hu as <-; exists m; by auto with tables].
      destruct (_ && _); [done|]. injection Hu as <-. exists m. auto with tables.
    + destruct (claim_next db g locked now) as [r db'] eqn:E.
      apply claim_next_inv in E as [[_ ->]|(? & ? & _ & _ & _ & _ & ->)]; exists m; auto with tables.
    + destruct (update_run db sid' status message now) as [n db'] eqn:E.
      apply update_run_inv in E as [[_ ->]|(? & _ & _ & ->)]; exists m; auto with tables.
  - destruct He as [db sid' message now|db g now|db id' status db' Hu|db id' ref db' Hu].
    + unfold ctl_MarkRunFailed. destruct (update_run db sid' RunStatusFailed message now) as [n db'] eqn:E.
      apply update_run_inv in E as [[_ ->]|(? & _ & _ & ->)]; exists m; auto with tables.
    + unfold ctl_MarkRunGroupFailed. case_bool_decide; exists m; auto with tables.
    + unfold UpdateStatus in Hu. destruct (negb _); [done|]. injection Hu as <-. cbn. apply sub_step_alter; [|done].
      clear. intros m. destruct (_ && _) eqn:E; [|by auto with tables]. apply andb_true_iff in E as [_ E].
      unfold sub_step. cbn. split_and!; try done.
      * apply orb_true_iff in E as [E|E]; [apply bool_decide_eq_true in E as ->; lia|].
        apply andb_true_iff in E as [_ E]. by apply Z.leb_le in E.
      * intros Hf. rewrite Hf in E. apply orb_true_iff in E as [E|E]; [by apply bool_decide_eq_true in E as <-|].
        cbn in E. by rewrite bool_decide_true in E.
    + unfold UpdateImageRef in Hu. case_bool_decide; [done|]. injection Hu as <-. cbn. apply sub_step_alter; [|done].
      clear -H1. intros m. unfold sub_step. cbn. split_and!; try done; lia.
Qed.

Lemma change_run db db' sid row :
  change db db' -> runs db !! sid = Some row ->
  exists row', runs db' !! sid = Some row' /\ same_run row row' /\ (terminal (run_status row) = true -> row' = row).
Proof. intros [Hw|He]; [by apply write_run|by apply env_run]. Qed.

Context `{SpecsJSON}.

Lemma seed_other scs reseed now : forall db,
  let db' := (SeedScenarios db scs reseed now).1 in
  submissions db' = submissions db /\ run_groups db' = run_groups db /\ runs db' = runs db.
Proof.
  induction scs as [|sc scs IH]; intros db; simpl; [done|]. unfold seed_one, seed_insert.
  destruct (2 ^ 63 <=? sc_DurationNs sc); [done|]. destruct (scenarios db !! sc_Name sc).
  - destruct (IH (backfill_sort (if reseed then set_scenarios db (<[sc_Name sc :=
      mkScenariosRow (scn_id s) (sc_SortOrder sc) (sc_DurationNs sc) (marshal_specs (sc_TaskSpecs sc)) (scn_created s)]> (scenarios db)) else db) sc)) as (-> & -> & ->).
    by destruct reseed.
  - destruct (existsb _ _); [done|]. match goal with |- context [SeedScenarios ?d scs] => destruct (IH d) as (-> & -> & ->) end. done.
Qed.

Lemma initial_tables scs reseed now :
  let db := w_db (s_world (initial scs reseed now)) in submissions db = ∅ /\ run_groups db = ∅ /\ runs db = ∅.
Proof. apply seed_other. Qed.

Inductive steps (md : Mode) : Sys -> Sys -> Prop :=
| steps_refl s : steps md s s
| steps_cons s1 s2 s3 : step md s1 s2 -> steps md s2 s3 -> steps md s1 s3.

(** History is not rewritten.  From any state on, along any steps: a run is
    never deleted, keeps its submission, contestant, group and scenario, and
    once completed or failed is never touched again; a submission keeps its
    artifact and its declaration, its owner once it has one, its image once it
    has one, and its build status only climbs, failed being final. *)
Theorem history_kept s s' :
  steps Any s s' ->
  (forall sid row, runs (w_db (s_world s)) !! sid = Some row ->
     exists row', runs (w_db (s_world s')) !! sid = Some row' /\ same_run row row' /\
       (terminal (run_status row) = true -> row' = row)) /\
  (forall id m, submissions (w_db (s_world s)) !! id = Some m ->
     exists m', submissions (w_db (s_world s')) !! id = Some m' /\ sub_step m m').
Proof.
  induction 1 as [s|s1 s2 s3 Hstep _ [IH1 IH2]]; [split; [intros sid row|intros id m]; intros Hr; eexists; by auto with tables|].
  apply step_change in Hstep. split.
  - intros sid row Hr. destruct (change_run _ _ _ _ Hstep Hr) as (r2 & H2 & S2 & T2).
    destruct (IH1 _ _ H2) as (r3 & H3 & S3 & T3). exists r3. split_and!; [done| |].
    + unfold same_run in *. naive_solver congruence.
    + intros Ht. pose proof (T2 Ht) as ->. by apply T3.
  - intros id m Hm. destruct (change_submission _ _ _ _ Hstep Hm) as (m2 & H2 & S2).
    destruct (IH2 _ _ H2) as (m3 & H3 & S3). exists m3. split; [done|]. by eapply sub_step_trans.
Qed.

End Tables.
