(* ===== verification/BenchProps.v ===== *)
(** * submission-api: dispatch of a run group

    Who may publish a run, and when.  A thread may publish a session only
    while it holds that session ([HasDisp]), which it gets by claiming the row
    or by inserting it as queued; it may claim the next run of a group only
    while it holds the group ([HasBaton]), which it gets with a terminal status.
    [wp] checks the handlers against these rules; the system's invariant says
    that no two threads hold the same thing. *)

From stdpp Require Import prelude gmap strings list.
From S2P Require Import Prelude GoSort Topics Replay Recovery SubStore Benchmark BenchInv.

Open Scope Z_scope.

Inductive tok := NoTok | HasDisp (sid g : string) | HasBaton (g : string).

Definition tok_group (T : tok) : option string :=
  match T with NoTok => None | HasDisp _ g => Some g | HasBaton g => Some g end.

Definition run_statuses : list string :=
  [RunStatusRequested; RunStatusQueued; RunStatusDeploying; RunStatusWaitingReady; RunStatusBarrierFired;
   RunStatusRunning; RunStatusCompleted; RunStatusFailed].
Definition group_statuses : list string := [RunStatusRequested; RunStatusRunning; RunStatusCompleted; RunStatusFailed].

(** The children a new group may have: the first queued, the others requested. *)
Definition fresh_children (g : RunGroupMeta) (children : list RunMeta) : Prop :=
  rg_Status g = RunStatusRequested /\
  Forall (fun c => rm_RunGroupID c = rg_RunGroupID g) children /\
  match children with
  | first :: others => rm_Status first = RunStatusQueued /\ Forall (fun c => rm_Status c = RunStatusRequested) others
  | [] => False
  end.

Definition first_token (g : RunGroupMeta) (children : list RunMeta) : tok :=
  match children with first :: _ => HasDisp (rm_SessionID first) (rg_RunGroupID g) | [] => NoTok end.

(** What a step needs and what it gives back. *)
Definition spec {X} (e : eff X) (T : tok) : (X -> tok -> Prop) -> Prop :=
  match e in eff X return (X -> tok -> Prop) -> Prop with
  | PublishBench m => fun Q => T = HasDisp (bm_SessionID m) (bm_RunGroupID m) /\ Q (inr tt) NoTok /\ forall err, Q (inl err) T
  | UpdRun sid status _ => fun Q =>
      status ∈ run_statuses /\
      if bool_decide (status = RunStatusRequested)
      then exists g, T = HasDisp sid g /\ forall x, Q x (HasBaton g)
      else forall x, Q x T
  | ClaimNext g => fun Q =>
      T = HasBaton g /\ (forall err, Q (inl err) T) /\ Q (inr None) T /\
      forall sid row, run_group row = Some g -> Q (inr (Some (sid, row))) (HasDisp sid g)
  | TxInsertGroup g children => fun Q =>
      T = NoTok /\ fresh_children g children /\ (forall err, Q (inl err) NoTok) /\ Q (inr tt) (first_token g children)
  | UpdGroup g status => fun Q => status ∈ group_statuses /\ forall x, Q x T
  | InsSubmission m => fun Q => sm_Status m = "uploaded"%string /\ forall x, Q x T
  | _ => fun Q => forall x, Q x T
  end.

Fixpoint wp {A} (p : prog A) (T : tok) (Q : A -> tok -> Prop) : Prop :=
  match p with
  | Done a => Q a T
  | Do e k => spec e T (fun x T' => wp (k x) T' Q)
  end.

Lemma spec_mono {X} (e : eff X) T (Q Q' : X -> tok -> Prop) : (forall x T, Q x T -> Q' x T) -> spec e T Q -> spec e T Q'.
Proof. intros HQ. destruct e; cbn; try (by intuition auto); case_bool_decide; naive_solver. Qed.

Lemma wp_weaken {A} (p : prog A) T (Q Q' : A -> tok -> Prop) : (forall a T, Q a T -> Q' a T) -> wp p T Q -> wp p T Q'.
Proof.
  intros HQ. revert T. induction p as [a|X e k IH]; intros T; cbn; [apply HQ|].
  apply spec_mono. intros x T'. apply IH.
Qed.

Lemma wp_pbind {A B} (m : prog A) (f : A -> prog B) T Q : wp m T (fun a T' => wp (f a) T' Q) -> wp (pbind m f) T Q.
Proof.
  revert T. induction m as [a|X e k IH]; intros T; cbn; [done|]. apply spec_mono. intros x T'. apply IH.
Qed.

Lemma wp_perform {X} (e : eff X) T Q : spec e T Q -> wp (perform e) T Q.
Proof. done. Qed.

(** Programs that never touch a token. *)
Definition quiet {A} (p : prog A) : Prop := forall T (Q : A -> tok -> Prop), (forall a, Q a T) -> wp p T Q.

Lemma quiet_bind {A B} (m : prog A) (f : A -> prog B) : quiet m -> (forall a, quiet (f a)) -> quiet (pbind m f).
Proof. intros Hm Hf T Q HQ. apply wp_pbind, Hm. intros a. by apply Hf. Qed.

Lemma quiet_done {A} (a : A) : quiet (Done a).
Proof. intros T Q HQ. apply HQ. Qed.

Create HintDb quiet.
#[export] Hint Resolve quiet_done : quiet.
Ltac quiet_step :=
  repeat first [ solve [auto with quiet] | apply quiet_bind; [|intros] | case_match
               | match goal with |- quiet (perform _) => intros ? ? HQ; cbn; solve [auto] end ].

Lemma quiet_db_result {X} (e : eff (Ans X)) : quiet (perform e) -> quiet (db_result e).
Proof. intros He. apply quiet_bind; [done|]. intros r. apply quiet_done. Qed.

Lemma quiet_GetByID id : quiet (GetByID id).
Proof. apply quiet_db_result. quiet_step. Qed.
Lemma quiet_FindBySHA256 sha : quiet (FindBySHA256 sha).
Proof. apply quiet_db_result. quiet_step. Qed.
Lemma quiet_FindActiveRunGroup sub : quiet (FindActiveRunGroup sub).
Proof. apply quiet_db_result. quiet_step. Qed.
Lemma quiet_ListRunsByGroup g : quiet (ListRunsByGroup g).
Proof. apply quiet_db_result. quiet_step. Qed.
Lemma quiet_st_GetRunGroup g : quiet (st_GetRunGroup g).
Proof. apply quiet_db_result. quiet_step. Qed.
Lemma quiet_st_GetRun g : quiet (st_GetRun g).
Proof. apply quiet_db_result. quiet_step. Qed.
Lemma quiet_commit : quiet commit.
Proof. unfold commit. quiet_step. Qed.
Lemma quiet_fail status msg : quiet (fail status msg).
Proof. apply quiet_done. Qed.
#[export] Hint Resolve quiet_GetByID quiet_FindBySHA256 quiet_FindActiveRunGroup quiet_ListRunsByGroup quiet_st_GetRunGroup
  quiet_st_GetRun quiet_commit quiet_fail : quiet.

Lemma quiet_Claim id c : quiet (ClaimSubmissionContestantIfEmpty id c).
Proof. unfold ClaimSubmissionContestantIfEmpty. case_bool_decide; quiet_step. Qed.
#[export] Hint Resolve quiet_Claim : quiet.

Lemma quiet_claimOrResolveOwner sub c : quiet (claimOrResolveOwner sub c).
Proof. unfold claimOrResolveOwner. quiet_step. Qed.
Lemma quiet_groupResponse g scs : quiet (groupResponse g scs).
Proof. unfold groupResponse. quiet_step. Qed.
#[export] Hint Resolve quiet_claimOrResolveOwner quiet_groupResponse : quiet.
Lemma quiet_respondWithGroup g scs st : quiet (respondWithGroup g scs st).
Proof. unfold respondWithGroup. quiet_step. Qed.
Lemma quiet_ListScenarios `{SpecsJSON} : quiet ListScenarios.
Proof. unfold ListScenarios. quiet_step. Qed.
Lemma quiet_mint sub id g now scs : quiet (mint_children sub id g now scs).
Proof. induction scs as [|sc scs IH]; cbn [mint_children]; quiet_step. Qed.
#[export] Hint Resolve quiet_respondWithGroup quiet_ListScenarios quiet_mint : quiet.

Lemma quiet_GetSubmission id c : quiet (GetSubmission id c).
Proof. unfold GetSubmission. quiet_step. Qed.
Lemma quiet_GetRunGroup `{SpecsJSON} g : quiet (GetRunGroup g).
Proof. unfold GetRunGroup. quiet_step. Qed.
Lemma quiet_GetRun sid c : quiet (GetRun sid c).
Proof. unfold GetRun. quiet_step. Qed.
Lemma quiet_Insert m : sm_Status m = "uploaded"%string -> quiet (Insert m).
Proof. intros Hm. apply quiet_bind; [intros T Q HQ; cbn; auto|intros r; apply quiet_done]. Qed.
Lemma quiet_Submit up c : quiet (Submit up c).
Proof.
  unfold Submit, submit_duplicate, submit_new, submit_race, Upload_object.
  quiet_step; by apply quiet_Insert.
Qed.

(** ** The handlers keep the rules *)

(** The minted children, when the generator did not fail. *)
Lemma wp_mint sub id g now scs T Q :
  (forall r, (forall l, r = Some l -> length l = length scs /\
     Forall (fun c => rm_RunGroupID c = g /\ rm_Status c = RunStatusRequested) l) -> Q r T) ->
  wp (mint_children sub id g now scs) T Q.
Proof.
  revert T Q. induction scs as [|sc scs IH]; intros T Q HQ; cbn [mint_children].
  - apply HQ. intros l [= <-]. done.
  - apply wp_pbind, wp_perform. cbn [spec]. intros [sessionID|]; [|by apply HQ]. apply wp_pbind, IH. intros r Hr. cbn. apply HQ.
    intros l Hl. destruct r as [l'|]; [|done]. injection Hl as <-. destruct (Hr l' eq_refl) as [Hlen Hall].
    split; [cbn; lia|]. by constructor.
Qed.

Lemma wp_start_group `{SpecsJSON} sub id scs Q :
  (forall a T, Q a T) -> wp (start_group sub id scs) NoTok Q.
Proof.
  intros HQ. unfold start_group. apply wp_pbind, wp_perform. cbn [spec]. intros [g|]; [|apply HQ]. apply wp_pbind, wp_perform. cbn [spec]. intros now.
  apply wp_pbind, wp_mint. intros [[|first others]|] Hr; [apply HQ| |apply HQ].
  destruct (Hr _ eq_refl) as [_ Hall]. inversion Hall as [|? ? [Hg _] Hrest]; subst. clear Hr Hall.
  unfold insert_and_publish. apply wp_pbind, wp_perform. cbn [spec]. split; [done|]. split.
  { split_and!; cbn; [done| |done|].
    - constructor; [done|]. eapply Forall_impl; [exact Hrest|]. intros c Hc. apply Hc.
    - eapply Forall_impl; [exact Hrest|]. intros c Hc. apply Hc. }
  split.
  - intros []; [|apply HQ]. apply wp_pbind, quiet_FindActiveRunGroup. intros [|[g'|]]; try apply HQ.
    apply quiet_respondWithGroup. intros a. apply HQ.
  - apply wp_pbind, wp_perform. cbn [spec]. split_and!; [done| |intros err; apply HQ].
    apply quiet_respondWithGroup. intros a. apply HQ.
Qed.

Lemma wp_StartBenchmark `{SpecsJSON} id c Q : (forall a T, Q a T) -> wp (StartBenchmark id c) NoTok Q.
Proof.
  intros HQ. unfold StartBenchmark. case_bool_decide; [apply HQ|]. apply wp_pbind, quiet_GetByID.
  intros [|[sub|]]; try apply HQ. case_bool_decide; [apply HQ|]. apply wp_pbind, quiet_claimOrResolveOwner.
  intros [[]|sub']; try apply HQ. destruct (negb _); [apply HQ|]. unfold start_owned. destruct (negb _); [apply HQ|].
  case_bool_decide; [apply HQ|]. apply wp_pbind, quiet_ListScenarios. intros [|[|sc scs]]; try apply HQ.
  apply wp_pbind, quiet_FindActiveRunGroup. intros [|[g|]]; try apply HQ.
  - apply quiet_respondWithGroup. intros a. apply HQ.
  - by apply wp_start_group.
Qed.

Lemma wp_handle `{SpecsJSON} r Q : (forall a T, Q a T) -> wp (handle r) NoTok Q.
Proof.
  intros HQ. destruct r; cbn [handle].
  - by apply quiet_Submit.
  - by apply quiet_GetSubmission.
  - by apply wp_StartBenchmark.
  - by apply quiet_GetRunGroup.
  - by apply quiet_GetRun.
Qed.

Lemma rollup_status f c r t : rollup f c r t ∈ group_statuses.
Proof. unfold rollup, group_statuses. repeat case_match; set_solver. Qed.

Lemma quiet_Recompute g : quiet (RecomputeRunGroupStatus g).
Proof.
  intros T Q HQ. unfold RecomputeRunGroupStatus. apply wp_pbind, wp_perform. cbn [spec].
  intros [|[[[[f|] [c|]] [r|]] t]]; try apply HQ. case_match; [apply HQ|]. apply wp_pbind, wp_perform. cbn [spec].
  split; [apply rollup_status|]. intros x. apply HQ.
Qed.

Lemma wp_UpdateRunStatus sid status message T Q :
  status ∈ run_statuses -> status <> RunStatusRequested -> (forall a, Q a T) -> wp (UpdateRunStatus sid status message) T Q.
Proof.
  intros Hs Hne HQ. unfold UpdateRunStatus. apply wp_pbind, wp_perform. cbn [spec]. split; [done|]. rewrite bool_decide_false by done.
  intros [|[|n]]; try apply HQ. apply wp_pbind, wp_perform. cbn [spec]. intros x. apply HQ.
Qed.

Lemma wp_reset sid g message Q : (forall a, Q a (HasBaton g)) -> wp (UpdateRunStatus sid RunStatusRequested message) (HasDisp sid g) Q.
Proof.
  intros HQ. unfold UpdateRunStatus. apply wp_pbind, wp_perform. cbn [spec]. split; [left|]. exists g. split; [done|].
  intros [|[|n]]; try apply HQ. apply wp_pbind, wp_perform. cbn [spec]. intros x. apply HQ.
Qed.

(** Advancing ends with the group still held whenever it reports failure. *)
Lemma wp_advance msg Q :
  (forall T, Q true T) -> (forall T, tok_group T = Some (bs_RunGroupID msg) -> Q false T) ->
  wp (advanceRunGroup msg) (HasBaton (bs_RunGroupID msg)) Q.
Proof.
  intros HT HF. unfold advanceRunGroup, ClaimNextRunInGroup. apply wp_pbind, wp_pbind, wp_perform. cbn [spec]. split_and!; [done| |apply HT|].
  { intros err. by apply HF. }
  intros sid row Hg. rewrite Hg. destruct (run_scenario row); [|by apply HF]. cbn [wp].
  apply wp_pbind, wp_perform. cbn [spec]. intros now. apply wp_pbind, wp_perform. cbn [spec]. split_and!; [done|apply HT|].
  intros err. apply wp_pbind, wp_reset. intros a. by apply HF.
Qed.

(** How a thread that was handed messages of [K] may end. *)
Definition ends (K : BenchmarkStatusUpdated -> Prop) (oc : Outcome) (T : tok) : Prop :=
  match oc with
  | Consumed (Some msg) NotCommitted => advances msg = true -> tok_group T = Some (bs_RunGroupID msg) /\ K msg
  | _ => True
  end.

Definition consumer_token (v : option BenchmarkStatusUpdated) : tok :=
  match v with Some msg => if advances msg then HasBaton (bs_RunGroupID msg) else NoTok | None => NoTok end.

Lemma valid_run_status status : validRunStatus status = true -> status ∈ run_statuses.
Proof. unfold validRunStatus, run_statuses. rewrite bool_decide_eq_true. set_solver. Qed.

Lemma wp_consumer (K : BenchmarkStatusUpdated -> Prop) v :
  (forall msg, v = Some msg -> bs_Status msg <> RunStatusRequested /\ (advances msg = true -> K msg)) ->
  wp (consumer v) (consumer_token v) (ends K).
Proof.
  intros Hreq. unfold consumer. apply wp_pbind. destruct v as [msg|]; [|apply quiet_commit; by intros []].
  assert (Hc : forall T, wp commit T (fun a T' => wp (Done (Consumed (Some msg) a)) T' (ends K))).
  { intros T. unfold commit. apply wp_pbind, wp_perform. cbn [spec]. by intros []. }
  cbn [consume]. destruct (validRunStatus (bs_Status msg)) eqn:Hv; [|apply Hc]. apply valid_run_status in Hv. cbn [negb].
  apply wp_pbind, wp_UpdateRunStatus; [done|by apply Hreq|]. destruct (Hreq msg eq_refl) as [_ HK].
  unfold consumer_token. intros [[]|u]; try (by cbn; intros Ha; rewrite Ha; auto); [by apply Hc|]. unfold advances in *.
  destruct (bool_decide (bs_RunGroupID msg = ""%string)) eqn:Hg; [apply Hc|].
  cbn [negb]. rewrite andb_true_r. apply wp_pbind. destruct (terminalRunStatus (bs_Status msg)) eqn:Ht.
  - apply wp_advance; cbn [negb].
    + intros T. apply wp_pbind, quiet_Recompute. intros a. apply Hc.
    + intros T HT. cbn. auto.
  - cbn [wp negb]. apply wp_pbind, quiet_Recompute. intros a. apply Hc.
Qed.

Lemma wp_http K p : (forall Q, (forall (a : Response) T, Q a T) -> wp p NoTok Q) -> wp (http p) NoTok (ends K).
Proof. intros Hp. unfold http. apply wp_pbind, Hp. done. Qed.

(** ** The invariant *)

Definition pubs (w : World) : list string := map bm_SessionID (w_requests w).

Record world_ok (w : World) : Prop := {
  wo_requested sid row : runs (w_db w) !! sid = Some row -> run_status row = RunStatusRequested -> sid ∉ pubs w;
  wo_nodup : NoDup (pubs w);
  wo_known m : m ∈ w_requests w ->
    exists row, runs (w_db w) !! bm_SessionID m = Some row /\ run_group row = Some (bm_RunGroupID m);
  wo_group sid row g : runs (w_db w) !! sid = Some row -> run_group row = Some g -> is_Some (run_groups (w_db w) !! g) }.

Record toks_ok (w : World) (toks : list tok) : Prop := {
  to_disp i sid g : toks !! i = Some (HasDisp sid g) ->
    (exists row, runs (w_db w) !! sid = Some row /\ run_group row = Some g /\ run_status row <> RunStatusRequested) /\ sid ∉ pubs w;
  to_unique i j sid g g' : toks !! i = Some (HasDisp sid g) -> toks !! j = Some (HasDisp sid g') -> i = j }.

(** A published session whose terminal status nobody has been handed. *)
Definition open_in (w : World) (handed : gset string) (g sid : string) : Prop :=
  (exists m, m ∈ w_requests w /\ bm_SessionID m = sid /\ bm_RunGroupID m = g) /\ sid ∉ handed.

(** At most one of: an open session of the group, a thread holding it. *)
Record seq_ok (w : World) (toks : list tok) (handed : gset string) : Prop := {
  so_known i T g : toks !! i = Some T -> tok_group T = Some g -> is_Some (run_groups (w_db w) !! g);
  so_one i j T1 T2 g : toks !! i = Some T1 -> tok_group T1 = Some g -> toks !! j = Some T2 -> tok_group T2 = Some g -> i = j;
  so_open i T g sid : toks !! i = Some T -> tok_group T = Some g -> ~ open_in w handed g sid;
  so_one_open g s1 s2 : open_in w handed g s1 -> open_in w handed g s2 -> s1 = s2 }.

Lemma tok_at (toks : list tok) i T' j U :
  <[i := T']> toks !! j = Some U -> (j = i /\ U = T') \/ (j <> i /\ toks !! j = Some U).
Proof. rewrite list_lookup_insert_Some. naive_solver. Qed.

(** A change of the tables that no token notices. *)
Record frame (db db' : DB) : Prop := {
  fr_old sid row : runs db !! sid = Some row ->
    exists row', runs db' !! sid = Some row' /\ run_group row' = run_group row /\
      (run_status row' = RunStatusRequested -> run_status row = RunStatusRequested);
  fr_new sid row' g : runs db' !! sid = Some row' -> runs db !! sid = None -> run_group row' = Some g -> is_Some (run_groups db' !! g);
  fr_groups g : is_Some (run_groups db !! g) -> is_Some (run_groups db' !! g) }.

Section Frame.
Context (w w' : World) (Hreq : w_requests w' = w_requests w) (Hf : frame (w_db w) (w_db w')).

Lemma pubs_frame : pubs w' = pubs w.
Proof using Hreq. unfold pubs. by rewrite Hreq. Qed.

Lemma frame_world : world_ok w -> world_ok w'.
Proof using All.
  intros Hw. split.
  - intros sid row Hr Hs. rewrite pubs_frame. destruct (runs (w_db w) !! sid) as [row0|] eqn:E.
    + destruct (fr_old _ _ Hf _ _ E) as (row' & Hr' & _ & Hst). assert (row' = row) as -> by congruence.
      apply (wo_requested _ Hw sid row0); auto.
    + intros Hin. unfold pubs in Hin. apply list_elem_of_fmap in Hin as (m & -> & Hm).
      destruct (wo_known _ Hw m Hm) as (? & ? & _). congruence.
  - rewrite pubs_frame. apply (wo_nodup _ Hw).
  - intros m. rewrite Hreq. intros Hm. destruct (wo_known _ Hw m Hm) as (row & Hr & Hg).
    destruct (fr_old _ _ Hf _ _ Hr) as (row' & ? & ? & _). exists row'. split; [done|congruence].
  - intros sid row g Hr Hg. destruct (runs (w_db w) !! sid) as [row0|] eqn:E.
    + destruct (fr_old _ _ Hf _ _ E) as (row' & Hr' & Hg' & _). apply (fr_groups _ _ Hf), (wo_group _ Hw sid row0); [done|congruence].
    + by eapply (fr_new _ _ Hf).
Qed.

Lemma frame_toks toks : toks_ok w toks -> toks_ok w' toks.
Proof using All.
  intros Ht. split; [|apply Ht]. intros i sid g Hi. rewrite pubs_frame.
  destruct (to_disp _ _ Ht _ _ _ Hi) as [(row & Hr & Hg & Hs) Hp]. split; [|done].
  destruct (fr_old _ _ Hf _ _ Hr) as (row' & Hr' & Hg' & Hs'). exists row'. split_and!; [done|congruence|auto].
Qed.

Lemma open_frame handed g sid : open_in w' handed g sid <-> open_in w handed g sid.
Proof using Hreq. unfold open_in. by rewrite Hreq. Qed.

Lemma frame_seq toks handed : seq_ok w toks handed -> seq_ok w' toks handed.
Proof using All.
  intros Hs. split.
  - intros i T g Hi Hg. by eapply (fr_groups _ _ Hf), (so_known _ _ _ Hs).
  - apply Hs.
  - intros i T g sid Hi Hg. rewrite open_frame. by eapply (so_open _ _ _ Hs).
  - intros g s1 s2. rewrite !open_frame. apply (so_one_open _ _ _ Hs).
Qed.

End Frame.

Lemma frame_runs_eq db db' :
  runs db' = runs db -> (forall g, is_Some (run_groups db !! g) -> is_Some (run_groups db' !! g)) -> frame db db'.
Proof. intros Hr Hg. split; [|congruence|done]. intros sid row Hrow. exists row. by rewrite Hr. Qed.

Lemma frame_refl db : frame db db.
Proof. by apply frame_runs_eq. Qed.

Section Frames.
Context `{MapRange} `{Collation}.

Lemma frame_update_run db sid status message now :
  status <> RunStatusRequested -> frame db (update_run db sid status message now).2.
Proof.
  intros Hne. destruct (update_run db sid status message now) as [n db'] eqn:E.
  apply update_run_inv in E as [[_ ->]|(row & Hr & _ & ->)]; [apply frame_refl|]. cbn [snd]. split; cbn [runs set_runs run_groups].
  - intros sid' row' Hr'. destruct (decide (sid = sid')) as [->|Hn].
    + rewrite lookup_insert_eq. eexists. split_and!; [done|cbn; congruence|cbn; congruence].
    + rewrite lookup_insert_ne by done. eauto.
  - intros sid' row' g. destruct (decide (sid = sid')) as [->|Hn]; [|rewrite lookup_insert_ne by done]; congruence.
  - done.
Qed.

Lemma frame_claim db g locked now : frame db (claim_next db g locked now).2.
Proof.
  destruct (claim_next db g locked now) as [r db'] eqn:E.
  apply claim_next_inv in E as [[_ ->]|(sid & row & _ & Hr & _ & _ & ->)]; [apply frame_refl|]. cbn [snd]. split; cbn [runs set_runs run_groups].
  - intros sid' row' Hr'. destruct (decide (sid = sid')) as [->|Hn].
    + rewrite lookup_insert_eq. eexists. split_and!; [done|cbn; congruence|done].
    + rewrite lookup_insert_ne by done. eauto.
  - intros sid' row' g'. destruct (decide (sid = sid')) as [->|Hn]; [|rewrite lookup_insert_ne by done]; congruence.
  - done.
Qed.

Lemma frame_insert db g children db' : insert_group_tx db g children = inr db' -> fresh_children g children -> frame db db'.
Proof.
  intros Hi (_ & Hg & _). apply insert_group_tx_inv in Hi as (db1 & Hig & Hr). apply insert_group_inv in Hig as (_ & _ & ->).
  apply insert_runs_inv in Hr as (_ & _ & Hgs & Hold & Hnew & _ & _). cbn [runs set_groups run_groups] in *. split.
  - intros sid row Hr. exists row. rewrite Hold; [done|by eexists].
  - intros sid row g' Hr Hn Hrg. apply Hnew in Hr as [?|(_ & c & Hc & _ & ->)]; [congruence|].
    injection Hrg as <-. rewrite Forall_forall in Hg. rewrite (Hg c Hc), Hgs, lookup_insert_eq. by eexists.
  - intros g' Hg'. rewrite Hgs. destruct (decide (rg_RunGroupID g = g')) as [->|Hn]; [rewrite lookup_insert_eq; by eexists|].
    by rewrite lookup_insert_ne.
Qed.

Lemma frame_update_group db g status now db' : update_group db g status now = inr db' -> frame db db'.
Proof.
  unfold update_group. destruct (run_groups db !! g) eqn:E; [|intros [= <-]; apply frame_refl].
  destruct (_ && _); [done|]. intros [= <-]. apply frame_runs_eq; [done|]. cbn. intros g' Hg'.
  destruct (decide (g = g')) as [->|Hn]; [rewrite lookup_insert_eq; by eexists|by rewrite lookup_insert_ne].
Qed.

Lemma frame_env db db' : env_step db db' -> frame db db'.
Proof.
  destruct 1 as [db sid message now|db g now|db id status db' Hu|db id ref db' Hu].
  - by apply frame_update_run.
  - unfold ctl_MarkRunGroupFailed. case_bool_decide; [apply frame_refl|]. apply frame_runs_eq; [done|]. cbn.
    intros g'. by rewrite lookup_alter_is_Some.
  - unfold UpdateStatus in Hu. destruct (negb _); [done|]. injection Hu as <-. by apply frame_runs_eq.
  - unfold UpdateImageRef in Hu. case_bool_decide; [done|]. injection Hu as <-. by apply frame_runs_eq.
Qed.

Lemma frame_submission db m db' : insert_submission db m = inr db' -> frame db db'.
Proof. unfold insert_submission. destruct (_ || _); [done|]. intros [= <-]. by apply frame_runs_eq. Qed.

Lemma frame_contestant db id c : frame db (claim_contestant db id c).2.
Proof.
  unfold claim_contestant. destruct (submissions db !! id); [|apply frame_refl].
  case_bool_decide; [by apply frame_runs_eq|apply frame_refl].
Qed.

(** ** The four steps that move tokens *)

Section Move.
Context (md : Mode) (w : World) (toks : list tok) (handed : gset string) (i : nat).
Context (Hw : world_ok w) (Ht : toks_ok w toks) (Hs : md = Sequential -> seq_ok w toks handed).

Definition moved (w' : World) (T' : tok) : Prop :=
  world_ok w' /\ toks_ok w' (<[i := T']> toks) /\ (md = Sequential -> seq_ok w' (<[i := T']> toks) handed).

Lemma moved_same T w' : toks !! i = Some T -> w_requests w' = w_requests w -> frame (w_db w) (w_db w') -> moved w' T.
Proof using All.
  intros Hi Hr Hf. unfold moved. rewrite list_insert_id by done.
  split_and!; [by apply (frame_world w)|by apply (frame_toks w)|intros ?; by apply (frame_seq w), Hs].
Qed.

(** Tokens of the same group, when only thread [i]'s token changes. *)
Lemma seq_retoken T T' w' :
  toks !! i = Some T -> tok_group T' = tok_group T -> w_requests w' = w_requests w ->
  (forall g, is_Some (run_groups (w_db w) !! g) -> is_Some (run_groups (w_db w') !! g)) ->
  seq_ok w toks handed -> seq_ok w' (<[i := T']> toks) handed.
Proof using.
  intros Hi Hg Hr Hgs Hq.
  assert (Hat : forall j U g, <[i := T']> toks !! j = Some U -> tok_group U = Some g -> exists U0, toks !! j = Some U0 /\ tok_group U0 = Some g).
  { intros j U g Hj HU. apply tok_at in Hj as [[-> ->]|[_ Hj]]; [|by exists U]. exists T. split; [done|congruence]. }
  split.
  - intros j U g Hj HU. destruct (Hat _ _ _ Hj HU) as (U0 & ? & ?). by eapply Hgs, (so_known _ _ _ Hq).
  - intros j1 j2 U1 U2 g H1 G1 H2 G2. destruct (Hat _ _ _ H1 G1) as (V1 & ? & ?), (Hat _ _ _ H2 G2) as (V2 & ? & ?).
    by eapply (so_one _ _ _ Hq).
  - intros j U g sid Hj HU. rewrite (open_frame w w' Hr). destruct (Hat _ _ _ Hj HU) as (U0 & ? & ?). by eapply (so_open _ _ _ Hq).
  - intros g s1 s2. rewrite !(open_frame w w' Hr). apply (so_one_open _ _ _ Hq).
Qed.

Lemma moved_publish m w' :
  toks !! i = Some (HasDisp (bm_SessionID m) (bm_RunGroupID m)) ->
  w_db w' = w_db w -> w_requests w' = w_requests w ++ [m] -> moved w' NoTok.
Proof using Hw Ht Hs.
  intros Hi Hdb Hr. destruct (to_disp _ _ Ht _ _ _ Hi) as [(row & Hrow & Hg & Hst) Hp].
  assert (Hpubs : pubs w' = pubs w ++ [bm_SessionID m]) by (unfold pubs; by rewrite Hr, map_app).
  split_and!.
  - split.
    + intros sid row' Hr' Hq. rewrite Hdb in Hr'. rewrite Hpubs, elem_of_app, list_elem_of_singleton.
      intros [Hin| ->]; [|congruence]. by eapply (wo_requested _ Hw).
    + rewrite Hpubs. apply NoDup_app. split_and!; [apply Hw| |apply NoDup_singleton].
      intros x Hx. rewrite list_elem_of_singleton. by intros ->.
    + intros m'. rewrite Hr, Hdb, elem_of_app, list_elem_of_singleton. intros [Hm| ->]; [by apply (wo_known _ Hw)|by exists row].
    + rewrite Hdb. apply (wo_group _ Hw).
  - split.
    + intros j sid g Hj. apply tok_at in Hj as [[_ ?]|[Hne Hj]]; [done|]. rewrite Hdb, Hpubs.
      destruct (to_disp _ _ Ht _ _ _ Hj) as [? Hn]. split; [done|]. rewrite elem_of_app, list_elem_of_singleton.
      intros [?| ->]; [done|]. apply Hne. by eapply (to_unique _ _ Ht).
    + intros j1 j2 sid g g' H1 H2. apply tok_at in H1 as [[_ ?]|[_ H1]]; [done|]. apply tok_at in H2 as [[_ ?]|[_ H2]]; [done|].
      by eapply (to_unique _ _ Ht).
  - intros Hmd. pose proof (Hs Hmd) as Hq.
    assert (Hopen : forall g sid, open_in w' handed g sid -> open_in w handed g sid \/ (g = bm_RunGroupID m /\ sid = bm_SessionID m)).
    { intros g sid [(m' & Hm' & <- & <-) Hh]. rewrite Hr, elem_of_app, list_elem_of_singleton in Hm'.
      destruct Hm' as [Hm'| ->]; [left|by right]. split; [by exists m'|done]. }
    assert (Hno : forall sid, ~ open_in w handed (bm_RunGroupID m) sid) by (intros sid; by eapply (so_open _ _ _ Hq)).
    split.
    + intros j U g Hj HU. rewrite Hdb. apply tok_at in Hj as [[_ ->]|[_ Hj]]; [done|]. by eapply (so_known _ _ _ Hq).
    + intros j1 j2 U1 U2 g H1 G1 H2 G2. apply tok_at in H1 as [[_ ->]|[_ H1]]; [done|]. apply tok_at in H2 as [[_ ->]|[_ H2]]; [done|].
      by eapply (so_one _ _ _ Hq).
    + intros j U g sid Hj HU Ho. apply tok_at in Hj as [[_ ->]|[Hne Hj]]; [done|].
      apply Hopen in Ho as [Ho|[-> _]]; [by eapply (so_open _ _ _ Hq)|]. apply Hne. by eapply (so_one _ _ _ Hq).
    + intros g s1 s2 O1 O2. apply Hopen in O1 as [O1|[-> ->]], O2 as [O2|[E2 ->]]; subst;
        [by eapply (so_one_open _ _ _ Hq)|by destruct (Hno _ O1)|by destruct (Hno _ O2)|done].
Qed.

Lemma moved_claim g sid row now w' :
  toks !! i = Some (HasBaton g) -> runs (w_db w) !! sid = Some row -> run_group row = Some g ->
  run_status row = RunStatusRequested ->
  w' = set_db w (set_runs (w_db w) (<[sid := run_set row RunStatusQueued (run_message row) now]> (runs (w_db w)))) ->
  frame (w_db w) (w_db w') -> moved w' (HasDisp sid g).
Proof using Hw Ht Hs.
  intros Hi Hr Hg Hst -> Hf. split_and!.
  - apply (frame_world w); [done|exact Hf|done].
  - pose proof (wo_requested _ Hw _ _ Hr Hst) as Hnp.
    assert (Hno : forall j g', toks !! j <> Some (HasDisp sid g')).
    { intros j g' Hj. destruct (to_disp _ _ Ht _ _ _ Hj) as [(row' & ? & _ & ?) _]. congruence. }
    split.
    + intros j sid' g' Hj. apply tok_at in Hj as [[-> [= -> ->]]|[_ Hj]].
      * split; [|done]. eexists. cbn. by rewrite lookup_insert_eq.
      * refine (to_disp _ _ (frame_toks w (set_db w _) _ Hf toks Ht) j sid' g' Hj). done.
    + intros j1 j2 s g1 g2 H1 H2. apply tok_at in H1 as [[-> E1]|[_ H1]], H2 as [[-> E2]|[_ H2]]; simplify_eq; try done;
        [by destruct (Hno _ _ H2)|by destruct (Hno _ _ H1)|by eapply (to_unique _ _ Ht)].
  - intros Hmd. eapply seq_retoken; [done|done|done|apply Hf|by apply Hs].
Qed.

Lemma moved_reset sid g message now w' :
  toks !! i = Some (HasDisp sid g) ->
  (w' = w \/ w' = set_db w (update_run (w_db w) sid RunStatusRequested message now).2) -> moved w' (HasBaton g).
Proof using Hw Ht Hs.
  intros Hi Hw'. destruct (to_disp _ _ Ht _ _ _ Hi) as [(row & Hr & Hg & Hst) Hp].
  assert (Hreq : w_requests w' = w_requests w) by (by destruct Hw' as [->| ->]).
  assert (Hgs : run_groups (w_db w') = run_groups (w_db w)).
  { destruct Hw' as [->| ->]; [done|]. unfold update_run. rewrite Hr. by case_match. }
  assert (Hrows : forall s r', runs (w_db w') !! s = Some r' -> exists r, runs (w_db w) !! s = Some r /\ run_group r' = run_group r /\ (s = sid \/ r' = r)).
  { destruct Hw' as [->| ->]; [by eauto|]. intros s r'. unfold update_run. rewrite Hr. destruct (active _); [|by eauto]. cbn.
    rewrite lookup_insert_Some. intros [[<- <-]|[Hne Hr']]; [exists row; by eauto|by eauto]. }
  assert (Hrows' : forall s r, runs (w_db w) !! s = Some r -> exists r', runs (w_db w') !! s = Some r' /\ run_group r' = run_group r /\ (s = sid \/ r' = r)).
  { destruct Hw' as [->| ->]; [by eauto|]. intros s r Hr0. unfold update_run. rewrite Hr. destruct (active _); [|by eauto]. cbn.
    destruct (decide (sid = s)) as [->|Hne]; [rewrite lookup_insert_eq|rewrite lookup_insert_ne by done; by eauto].
    assert (r = row) as -> by congruence. eexists. split_and!; [done|done|by left]. }
  assert (Hpubs : pubs w' = pubs w) by (unfold pubs; by rewrite Hreq). split_and!.
  - split.
    + intros s r' Hr' Hq. rewrite Hpubs. apply Hrows in Hr' as (r & Hr0 & _ & [->| ->]); [done|]. by eapply (wo_requested _ Hw).
    + rewrite Hpubs. apply Hw.
    + intros m. rewrite Hreq. intros Hm. destruct (wo_known _ Hw m Hm) as (r & Hr0 & Hg0).
      destruct (Hrows' _ _ Hr0) as (r' & ? & ? & _). exists r'. split; [done|congruence].
    + intros s r' g' Hr' Hg'. rewrite Hgs. apply Hrows in Hr' as (r & Hr0 & Hg0 & _). apply (wo_group _ Hw s r); [done|congruence].
  - split.
    + intros j s g' Hj. apply tok_at in Hj as [[_ ?]|[Hne Hj]]; [done|]. rewrite Hpubs.
      destruct (to_disp _ _ Ht _ _ _ Hj) as [(r & Hr0 & Hg0 & Hs0) ?]. split; [|done].
      destruct (Hrows' _ _ Hr0) as (r' & Hr' & Hg' & [->| ->]); [|by exists r].
      destruct Hne. by eapply (to_unique _ _ Ht).
    + intros j1 j2 s g1 g2 H1 H2. apply tok_at in H1 as [[_ ?]|[_ H1]]; [done|]. apply tok_at in H2 as [[_ ?]|[_ H2]]; [done|].
      by eapply (to_unique _ _ Ht).
  - intros Hmd. eapply seq_retoken; [done|done|done|by rewrite Hgs|by apply Hs].
Qed.

Lemma moved_insert g children db' :
  toks !! i = Some NoTok -> fresh_children g children -> insert_group_tx (w_db w) g children = inr db' ->
  moved (set_db w db') (first_token g children).
Proof using Hw Ht Hs.
  intros Hi Hfc Hins. pose proof (frame_insert _ _ _ _ Hins Hfc) as Hf.
  destruct children as [|first others]; [by destruct Hfc as (_ & _ & [])|]. destruct Hfc as (_ & Hcg & Hfst & _).
  apply insert_group_tx_inv in Hins as (db1 & Hig & Hir). apply insert_group_inv in Hig as (Hnog & _ & ->).
  apply insert_runs_inv in Hir as (_ & _ & Hgs & _ & _ & Hin & _). cbn [runs set_groups run_groups] in *.
  destruct (Hin first) as [Hnone Hfirst]; [left|]. inversion Hcg as [|? ? Hfg _]; subst.
  assert (Hnp : rm_SessionID first ∉ pubs w).
  { unfold pubs. rewrite list_elem_of_fmap. intros (m & Hm & Hmin). destruct (wo_known _ Hw m Hmin) as (? & ? & _). congruence. }
  assert (Hno : forall j g', toks !! j <> Some (HasDisp (rm_SessionID first) g')).
  { intros j g' Hj. destruct (to_disp _ _ Ht _ _ _ Hj) as [(row' & ? & _) _]. congruence. }
  pose proof (frame_toks w (set_db w db') (eq_refl (w_requests w)) Hf toks Ht) as Ht'. cbn [first_token]. split_and!.
  - apply (frame_world w); [done|exact Hf|done].
  - split.
    + intros j sid g' Hj. apply tok_at in Hj as [[-> [= -> ->]]|[_ Hj]]; [|by eapply (to_disp _ _ Ht')].
      split; [|done]. eexists. cbn. split; [exact Hfirst|]. cbn. rewrite Hfst. by split; [congruence|].
    + intros j1 j2 s g1 g2 H1 H2. apply tok_at in H1 as [[-> E1]|[_ H1]], H2 as [[-> E2]|[_ H2]]; simplify_eq; try done;
        [by destruct (Hno _ _ H2)|by destruct (Hno _ _ H1)|by eapply (to_unique _ _ Ht)].
  - intros Hmd. pose proof (Hs Hmd) as Hq. pose proof (frame_seq w (set_db w db') (eq_refl (w_requests w)) Hf _ _ Hq) as Hq'.
    assert (Hfresh : forall j U, toks !! j = Some U -> tok_group U <> Some (rg_RunGroupID g)).
    { intros j U Hj HU. destruct (so_known _ _ _ Hq _ _ _ Hj HU). congruence. }
    assert (Hnopen : forall sid, ~ open_in w handed (rg_RunGroupID g) sid).
    { intros sid [(m & Hm & _ & Hmg) _]. destruct (wo_known _ Hw m Hm) as (row & Hr & Hg).
      destruct (wo_group _ Hw _ _ _ Hr Hg). congruence. }
    split.
    + intros j U g' Hj HU. apply tok_at in Hj as [[-> ->]|[_ Hj]]; [|by eapply (so_known _ _ _ Hq')].
      injection HU as <-. cbn. rewrite Hgs, lookup_insert_eq. by eexists.
    + intros j1 j2 U1 U2 g' H1 G1 H2 G2. apply tok_at in H1 as [[-> ->]|[_ H1]], H2 as [[-> ->]|[_ H2]]; try done;
        [injection G1 as <-; by destruct (Hfresh _ _ H2)|injection G2 as <-; by destruct (Hfresh _ _ H1)|by eapply (so_one _ _ _ Hq)].
    + intros j U g' sid Hj HU. apply tok_at in Hj as [[-> ->]|[_ Hj]]; [|by eapply (so_open _ _ _ Hq')].
      injection HU as <-. exact (Hnopen sid).
    + apply (so_one_open _ _ _ Hq').
Qed.

End Move.

Lemma exec_moves md w toks handed i T {X} (e : eff X) o x w' (Q : X -> tok -> Prop) :
  world_ok w -> toks_ok w toks -> (md = Sequential -> seq_ok w toks handed) -> toks !! i = Some T ->
  spec e T Q -> (is_publish e = true -> o_net o <> Lost) -> exec e o w = (x, w') ->
  exists T', Q x T' /\ moved md toks handed i w' T'.
Proof.
  intros Hw Ht Hs Hi Hsp Hpub He.
  assert (Hsame : forall w'', w_requests w'' = w_requests w -> frame (w_db w) (w_db w'') -> moved md toks handed i w'' T)
    by (intros; by eapply moved_same).
  assert (Hself : moved md toks handed i w T) by (apply Hsame; [done|apply frame_refl]).
  destruct e; cbn [exec spec] in *;
    try (unfold answer in He; injection He as <- <-; exists T; by auto);
    try (exists T; split; [by apply Hsp|]; apply effect_db in He as [->| ->]; [done|]; apply Hsame; [done|apply frame_refl]).
  - destruct Hsp as [_ HQ]. exists T. split; [done|]. apply effect_sum_db in He as [->|(db & Hr & ->)]; [done|].
    apply Hsame; [done|]. by eapply frame_submission.
  - exists T. split; [by apply Hsp|]. pose proof (frame_contestant (w_db w) id contestant) as Hf.
    destruct (claim_contestant _ _ _) as [n db']. apply effect_db in He as [->| ->]; [done|]. by apply Hsame.
  - destruct Hsp as (-> & Hfc & HQ1 & HQ2). destruct (insert_group_tx (w_db w) g children) as [err|db'] eqn:Et; cbn [effect_sum] in He.
    + exists NoTok. destruct (o_net o); injection He as <- <-; by auto.
    + pose proof (frame_insert _ _ _ _ Et Hfc) as Hf. unfold effect_sum in He. destruct (o_net o); injection He as <- <-.
      * exists (first_token g children). split; [done|]. by eapply moved_insert.
      * exists NoTok. auto.
      * exists NoTok. split; [done|]. by apply Hsame.
  - destruct Hsp as [_ HQ]. exists T. split; [done|]. apply effect_sum_db in He as [->|(db & Hr & ->)]; [done|].
    apply Hsame; [done|]. by eapply frame_update_group.
  - destruct Hsp as (-> & HQ1 & HQ2 & HQ3). pose proof (frame_claim (w_db w) g (o_locked o) (o_now o)) as Hf.
    destruct (claim_next _ _ _ _) as [r db'] eqn:Ec. cbn [snd] in Hf.
    unfold effect in He. destruct (o_net o); injection He as <- <-; [|exists (HasBaton g); by auto|exists (HasBaton g); by auto].
    apply claim_next_inv in Ec as [[-> ->]|(sid & row & -> & Hr & Hg & Hst & ->)].
    + exists (HasBaton g). split; [done|]. by apply Hsame.
    + exists (HasDisp sid g). split; [by apply HQ3|]. by eapply moved_claim.
  - destruct Hsp as [_ Hsp]. destruct (update_run (w_db w) sid status message (o_now o)) as [n db'] eqn:Eu.
    case_bool_decide as Hst.
    + subst status. destruct Hsp as (g & -> & HQ). exists (HasBaton g). split; [apply HQ|].
      eapply (moved_reset md w toks handed i Hw Ht Hs sid g message (o_now o)); [done|].
      apply effect_db in He as [->| ->]; [by left|right]. by rewrite Eu.
    + exists T. split; [apply Hsp|]. pose proof (frame_update_run (w_db w) sid status message (o_now o) Hst) as Hf.
      rewrite Eu in Hf. apply effect_db in He as [->| ->]; [done|]. by apply Hsame.
  - destruct Hsp as (-> & HQ1 & HQ2). unfold effect in He. destruct (o_net o) eqn:En; injection He as <- <-.
    + exists NoTok. split; [done|]. by eapply moved_publish.
    + exists (HasDisp (bm_SessionID m) (bm_RunGroupID m)). auto.
    + by destruct (Hpub eq_refl).
Qed.

End Frames.

(** ** The system keeps the invariant *)

(** The message speaks of a published session and names its group. *)
Definition speaks_of (w : World) (msg : BenchmarkStatusUpdated) : Prop :=
  exists m, m ∈ w_requests w /\ bm_SessionID m = bs_SessionID msg /\ bm_RunGroupID m = bs_RunGroupID msg.

Definition K_of (md : Mode) (w : World) (msg : BenchmarkStatusUpdated) : Prop := md = Sequential -> speaks_of w msg.

Definition Inv (md : Mode) (s : Sys) : Prop :=
  exists toks,
    Forall2 (fun p T => wp p T (ends (K_of md (s_world s)))) (s_threads s) toks /\ world_ok (s_world s) /\ toks_ok (s_world s) toks /\
    (md = Sequential -> seq_ok (s_world s) toks (s_handed s)).

(** A new thread that holds nothing. *)
Lemma toks_ok_snoc w toks T : (forall sid g, T <> HasDisp sid g) -> toks_ok w toks -> toks_ok w (toks ++ [T]).
Proof.
  intros HT Ht.
  assert (Hat : forall j sid g, (toks ++ [T]) !! j = Some (HasDisp sid g) -> toks !! j = Some (HasDisp sid g)).
  { intros j sid g. rewrite lookup_app_Some, list_lookup_singleton_Some. intros [?|(_ & _ & Heq)]; [done|]. by destruct (HT sid g). }
  split.
  - intros i sid g Hi%Hat. by eapply to_disp.
  - intros i j sid g g' Hi%Hat Hj%Hat. by eapply (to_unique _ _ Ht).
Qed.

Lemma snoc_at (toks : list tok) T j U : (toks ++ [T]) !! j = Some U -> toks !! j = Some U \/ (j = length toks /\ U = T).
Proof. rewrite lookup_app_Some, list_lookup_singleton_Some. intros [?|(? & ? & ?)]; [by left|right]. split; [lia|done]. Qed.

Lemma seq_ok_snoc w toks handed : seq_ok w toks handed -> seq_ok w (toks ++ [NoTok]) handed.
Proof.
  intros Hq.
  assert (Hat : forall j U g, (toks ++ [NoTok]) !! j = Some U -> tok_group U = Some g -> toks !! j = Some U).
  { intros j U g Hj HU. by apply snoc_at in Hj as [?|[_ ->]]. }
  split.
  - intros i T g Hi Hg. eapply (so_known _ _ _ Hq); [|done]. by eapply Hat.
  - intros i j T1 T2 g H1 G1 H2 G2. eapply (so_one _ _ _ Hq i j T1 T2 g); try done; by eapply Hat.
  - intros i T g sid Hi Hg. eapply (so_open _ _ _ Hq); [|done]. by eapply Hat.
  - apply Hq.
Qed.

(** A terminal status moves its session from open to held. *)
Lemma seq_ok_hand w toks handed sid g :
  world_ok w -> open_in w handed g sid -> seq_ok w toks handed -> seq_ok w (toks ++ [HasBaton g]) ({[sid]} ∪ handed).
Proof.
  intros Hw Ho Hq.
  assert (Hopen : forall g' s, open_in w ({[sid]} ∪ handed) g' s -> open_in w handed g' s /\ s <> sid).
  { intros g' s [Hm Hn]. split; [split; [done|]|]; set_solver. }
  assert (Hno : forall i T, toks !! i = Some T -> tok_group T <> Some g).
  { intros i T Hi HT. by eapply (so_open _ _ _ Hq). }
  split.
  - intros i T g' Hi Hg. apply snoc_at in Hi as [Hi|[_ ->]]; [by eapply (so_known _ _ _ Hq)|]. injection Hg as <-.
    destruct Ho as [(m & Hm & _ & Hmg) _]. destruct (wo_known _ Hw m Hm) as (row & Hr & Hrg). subst g. by eapply (wo_group _ Hw).
  - intros i j T1 T2 g' H1 G1 H2 G2. apply snoc_at in H1 as [H1|[-> ->]], H2 as [H2|[-> ->]]; try done;
      [by eapply (so_one _ _ _ Hq)|injection G2 as <-; by destruct (Hno _ _ H1)|injection G1 as <-; by destruct (Hno _ _ H2)].
  - intros i T g' s Hi Hg [Hs Hne]%Hopen. apply snoc_at in Hi as [Hi|[_ ->]]; [by eapply (so_open _ _ _ Hq)|].
    injection Hg as <-. apply Hne. by eapply (so_one_open _ _ _ Hq).
  - intros g' s1 s2 [O1 _]%Hopen [O2 _]%Hopen. by eapply (so_one_open _ _ _ Hq).
Qed.

(** ... and back, when the consumer leaves the message for redelivery. *)
Lemma seq_ok_give_back w toks handed i T g sid :
  toks !! i = Some T -> tok_group T = Some g ->
  (forall g', (exists m, m ∈ w_requests w /\ bm_SessionID m = sid /\ bm_RunGroupID m = g') -> g' = g) ->
  seq_ok w toks handed -> seq_ok w (<[i := NoTok]> toks) (handed ∖ {[sid]}).
Proof.
  intros Hi HT Hown Hq.
  assert (Hopen : forall g' s, open_in w (handed ∖ {[sid]}) g' s -> open_in w handed g' s \/ (g' = g /\ s = sid)).
  { intros g' s [Hm Hn]. destruct (decide (s = sid)) as [->|Hne]; [right; split; [by apply Hown|done]|left; split; [done|set_solver]]. }
  split.
  - intros j U g' Hj HU. apply tok_at in Hj as [[_ ->]|[_ Hj]]; [done|]. by eapply (so_known _ _ _ Hq).
  - intros j1 j2 U1 U2 g' H1 G1 H2 G2. apply tok_at in H1 as [[_ ->]|[_ H1]]; [done|]. apply tok_at in H2 as [[_ ->]|[_ H2]]; [done|].
    by eapply (so_one _ _ _ Hq).
  - intros j U g' s Hj HU Ho. apply tok_at in Hj as [[_ ->]|[Hne Hj]]; [done|].
    apply Hopen in Ho as [Ho|[-> _]]; [by eapply (so_open _ _ _ Hq)|]. apply Hne. by eapply (so_one _ _ _ Hq).
  - intros g' s1 s2 O1 O2. apply Hopen in O1 as [O1|[-> ->]], O2 as [O2|[E2 ->]]; subst;
      [by eapply (so_one_open _ _ _ Hq)|by destruct (so_open _ _ _ Hq _ _ _ _ Hi HT O1)|by destruct (so_open _ _ _ Hq _ _ _ _ Hi HT O2)|done].
Qed.

Section System.
Context `{MapRange} `{Collation} `{SpecsJSON}.

Lemma inv_initial md scs reseed now : Inv md (initial scs reseed now).
Proof.
  destruct (initial_tables scs reseed now) as (_ & _ & Hr). exists []. split_and!.
  - constructor.
  - split; cbn; try set_solver; [constructor|]. intros sid row g. cbn in Hr. by rewrite Hr, lookup_empty.
  - by split.
  - intros _. split; try done. intros g s1 s2 [(m & Hm & _) _]. cbn in Hm. set_solver.
Qed.

(** Nothing published is taken back. *)
Lemma exec_requests {X} (e : eff X) o w x w' : exec e o w = (x, w') -> forall m, m ∈ w_requests w -> m ∈ w_requests w'.
Proof.
  intros He m Hm. destruct e; cbn [exec] in He; repeat case_match;
    try (unfold answer in He; injection He as <- <-; done);
    try (apply effect_sum_db in He as [->|(db & _ & ->)]; done);
    try (apply effect_db in He as [->| ->]; cbn; set_solver);
    injection He as <- <-; done.
Qed.

Lemma threads_mono md w w' ps toks :
  (forall m, m ∈ w_requests w -> m ∈ w_requests w') ->
  Forall2 (fun p T => wp p T (ends (K_of md w))) ps toks -> Forall2 (fun p T => wp p T (ends (K_of md w'))) ps toks.
Proof.
  intros Hsub. intros Hall. eapply Forall2_impl; [exact Hall|]. intros p T. apply wp_weaken. intros [r|[msg|] []] T'; cbn; try done.
  intros Hk Ha. destruct (Hk Ha) as [? HK]. split; [done|]. intros Hmd. destruct (HK Hmd) as (m & Hm & ? & ?). exists m. auto.
Qed.

(** A session is published for one group. *)
Lemma published_group w m1 m2 :
  world_ok w -> m1 ∈ w_requests w -> m2 ∈ w_requests w -> bm_SessionID m1 = bm_SessionID m2 -> bm_RunGroupID m1 = bm_RunGroupID m2.
Proof.
  intros Hw M1 M2 Hs. destruct (wo_known _ Hw m1 M1) as (r1 & R1 & G1), (wo_known _ Hw m2 M2) as (r2 & R2 & G2). congruence.
Qed.

Lemma inv_step md s s' : md <> Any -> Inv md s -> step md s s' -> Inv md s'.
Proof.
  intros Hmd (toks & Hth & Hw & Ht & Hs) Hstep.
  destruct Hstep as [s r|s v Hd|s i X e k o x w' Hi Hpub He|s i msg Hi|s db' He]; unfold Inv; cbn [s_world s_threads s_handed].
  - exists (toks ++ [NoTok]). split_and!; [|done|by apply toks_ok_snoc|intros ?; by apply seq_ok_snoc, Hs].
    apply Forall2_app; [done|]. constructor; [|constructor]. apply wp_http. intros Q HQ. by apply wp_handle.
  - assert (Hreq : forall msg, v = Some msg -> bs_Status msg <> RunStatusRequested /\ (advances msg = true -> K_of md (s_world s) msg)).
    { intros msg ->. destruct md; [done|by split|]. destruct Hd as [Hd1 Hd2]. split; [done|]. intros Ha _. by apply Hd2. }
    exists (toks ++ [consumer_token v]). split_and!; [|done| |].
    + apply Forall2_app; [done|]. constructor; [by apply wp_consumer|constructor].
    + apply toks_ok_snoc; [|done]. intros sid g. unfold consumer_token. destruct v as [msg|]; [|done]. by destruct (advances msg).
    + intros ->. unfold consumer_token, hand. destruct v as [msg|]; [|by apply seq_ok_snoc, Hs].
      destruct (advances msg) eqn:Ha; [|by apply seq_ok_snoc, Hs]. destruct Hd as [_ Hd].
      destruct (Hd Ha) as [Hnh Hm]. apply seq_ok_hand; [done| |by apply Hs]. by split.
  - destruct (Forall2_lookup_l _ _ _ _ _ Hth Hi) as (T & HT & Hwp). cbn [wp] in Hwp.
    destruct (exec_moves md (s_world s) toks (s_handed s) i T e o x w' _ Hw Ht Hs HT Hwp) as (T' & HT' & Hw' & Ht' & Hs'); [by auto|done|].
    exists (<[i := T']> toks). split_and!; [|done..].
    apply (threads_mono md (s_world s)); [by eapply exec_requests|]. by apply Forall2_insert.
  - destruct (Forall2_lookup_l _ _ _ _ _ Hth Hi) as (T & HT & Hwp). cbn [wp ends] in Hwp.
    destruct (advances msg) eqn:Ha.
    + destruct (Hwp eq_refl) as [HTg HK]. exists (<[i := NoTok]> toks). split_and!; [by apply Forall2_insert|done| |].
      * split; [intros j sid g Hj|intros j1 j2 sid g g' J1 J2].
        { apply tok_at in Hj as [[_ ?]|[_ Hj]]; [done|]. by eapply to_disp. }
        apply tok_at in J1 as [[_ ?]|[_ J1]]; [done|]. apply tok_at in J2 as [[_ ?]|[_ J2]]; [done|]. by eapply (to_unique _ _ Ht).
      * intros Hseq. destruct (HK Hseq) as (m0 & Hm0 & Hsid & Hg). eapply seq_ok_give_back; [done|done| |by apply Hs].
        intros g' (m & Hm & Hms & <-). rewrite <-Hg. eapply published_group; [done..|congruence].
    + exists toks. split_and!; [|done..]. rewrite <-(list_insert_id toks i T HT). by apply Forall2_insert.
  - assert (Hf : frame (w_db (s_world s)) db') by (by apply frame_env).
    exists toks. split_and!; [done| | |intros ?].
    + by apply (frame_world (s_world s)).
    + by apply (frame_toks (s_world s)).
    + apply (frame_seq (s_world s)); [done|done|by apply Hs].
Qed.

Lemma inv_reachable md s : md <> Any -> reachable md s -> Inv md s.
Proof. intros Hmd. induction 1 as [|s s' _ IH Hstep]; [apply inv_initial|by eapply inv_step]. Qed.

(** C22: each run is dispatched at most once.  When a publish that reports an
    error published nothing and status messages never say "requested", then in
    every reachable state, for every interleaving of requests, status messages
    (repeated or not) and writes of other services: no session is published
    twice on benchmark.requested, every published session is a run of the
    group the message names, and a run still waiting has not been published. *)
Theorem dispatched_once s :
  reachable Exact s ->
  NoDup (map bm_SessionID (w_requests (s_world s))) /\
  (forall m, m ∈ w_requests (s_world s) ->
     exists row, runs (w_db (s_world s)) !! bm_SessionID m = Some row /\ run_group row = Some (bm_RunGroupID m) /\
       run_status row <> RunStatusRequested).
Proof.
  intros Hr. destruct (inv_reachable Exact s ltac:(done) Hr) as (toks & _ & Hw & _). split; [apply (wo_nodup _ Hw)|].
  intros m Hm. destruct (wo_known _ Hw m Hm) as (row & Hrow & Hg). exists row. split_and!; [done..|].
  intros Hst. apply (wo_requested _ Hw _ _ Hrow Hst). apply list_elem_of_fmap. by exists m.
Qed.


(** ** Statuses are the declared ones *)

Record typed (db : DB) : Prop := {
  ty_runs sid row : runs db !! sid = Some row -> run_status row ∈ run_statuses;
  ty_groups g row : run_groups db !! g = Some row -> grp_status row ∈ group_statuses;
  ty_subs id m : submissions db !! id = Some m -> validSubmissionStatus (sm_Status m) = true }.

Lemma typed_set_run db sid row : typed db -> run_status row ∈ run_statuses -> typed (set_runs db (<[sid := row]> (runs db))).
Proof. intros Hty Hst. split; cbn; [|apply Hty..]. intros s r. rewrite lookup_insert_Some. intros [[_ <-]|[_ ?]]; [done|by eapply ty_runs]. Qed.

Lemma typed_set_group db g row : typed db -> grp_status row ∈ group_statuses -> typed (set_groups db (<[g := row]> (run_groups db))).
Proof. intros Hty Hst. split; cbn; [apply Hty| |apply Hty]. intros s r. rewrite lookup_insert_Some. intros [[_ <-]|[_ ?]]; [done|by eapply ty_groups]. Qed.

Lemma typed_alter_sub db id f :
  (forall m, validSubmissionStatus (sm_Status m) = true -> validSubmissionStatus (sm_Status (f m)) = true) ->
  typed db -> typed (set_submissions db (alter f id (submissions db))).
Proof.
  intros Hf Hty. split; cbn; [apply Hty..|]. intros i m. rewrite lookup_alter. case_match.
  - intros Hm. apply fmap_Some in Hm as (m0 & Hm0 & ->). apply Hf. by eapply ty_subs.
  - by eapply ty_subs.
Qed.

Lemma typed_update_run db sid status message now :
  status ∈ run_statuses -> typed db -> typed (update_run db sid status message now).2.
Proof.
  intros Hst Hty. destruct (update_run db sid status message now) as [n db'] eqn:E.
  apply update_run_inv in E as [[_ ->]|(row & _ & _ & ->)]; [done|]. by apply typed_set_run.
Qed.

Lemma typed_insert_runs children : forall db db',
  Forall (fun c => rm_Status c ∈ run_statuses) children -> insert_runs db children = inr db' -> typed db -> typed db'.
Proof.
  induction children as [|c children IH]; intros db db' Hall; simpl; [by intros [= <-]|]. inversion Hall; subst.
  unfold insert_run. destruct (_ || _); [done|]. intros Hi Hty. eapply IH; [done|exact Hi|]. by apply typed_set_run.
Qed.

Lemma typed_exec {X} (e : eff X) T (Q : X -> tok -> Prop) o w x w' :
  spec e T Q -> exec e o w = (x, w') -> typed (w_db w) -> typed (w_db w').
Proof.
  intros Hsp He Hty. destruct e; cbn [exec spec] in *;
    try (unfold answer in He; injection He as <- <-; done);
    try (apply effect_db in He as [->| ->]; done).
  - apply effect_sum_db in He as [->|(db & Hr & ->)]; [done|]. unfold insert_submission in Hr. destruct (_ || _); [done|].
    injection Hr as <-. split; cbn; [apply Hty..|]. intros i m0. rewrite lookup_insert_Some. intros [[_ <-]|[_ ?]]; [|by eapply ty_subs].
    by rewrite (proj1 Hsp).
  - destruct (claim_contestant _ _ _) as [n db'] eqn:E. apply effect_db in He as [->| ->]; [done|]. cbn.
    unfold claim_contestant in E. destruct (submissions (w_db w) !! id) as [m|] eqn:Em; [|by injection E as <- <-].
    case_bool_decide; injection E as <- <-; [|done]. split; cbn; [apply Hty..|]. intros i m0. rewrite lookup_insert_Some.
    intros [[_ <-]|[_ ?]]; [cbn|]; by eapply ty_subs.
  - apply effect_sum_db in He as [->|(db & Hr & ->)]; [done|]. destruct Hsp as (_ & (Hg & _ & Hc) & _).
    apply insert_group_tx_inv in Hr as (db1 & Hig & Hir). apply insert_group_inv in Hig as (_ & _ & ->).
    eapply typed_insert_runs; [|exact Hir|apply typed_set_group; [done|cbn; rewrite Hg; left]].
    destruct children as [|first others]; [done|]. destruct Hc as [Hf Ho]. constructor; [rewrite Hf; right; left|].
    eapply Forall_impl; [exact Ho|]. intros c ->. left.
  - apply effect_sum_db in He as [->|(db & Hr & ->)]; [done|]. unfold update_group in Hr.
    destruct (run_groups (w_db w) !! g); [|by injection Hr as <-]. destruct (_ && _); [done|]. injection Hr as <-.
    apply typed_set_group; [done|]. apply Hsp.
  - destruct (claim_next _ _ _ _) as [r db'] eqn:E. apply effect_db in He as [->| ->]; [done|]. cbn.
    apply claim_next_inv in E as [[_ ->]|(sid & row & _ & _ & _ & _ & ->)]; [done|]. apply typed_set_run; [done|]. right. left.
  - destruct (update_run _ _ _ _ _) as [n db'] eqn:E. apply effect_db in He as [->| ->]; [done|]. cbn.
    replace db' with (update_run (w_db w) sid status message (o_now o)).2 by (by rewrite E).
    apply typed_update_run; [apply Hsp|done].
Qed.

Lemma typed_env db db' : env_step db db' -> typed db -> typed db'.
Proof.
  destruct 1 as [db sid message now|db g now|db id status db' Hu|db id ref db' Hu]; intros Hty.
  - apply typed_update_run; [|done]. unfold run_statuses. set_solver.
  - unfold ctl_MarkRunGroupFailed. case_bool_decide; [done|]. split; cbn; [apply Hty| |apply Hty].
    intros g' r. rewrite lookup_alter. case_match; [|by eapply ty_groups]. intros Hr. apply fmap_Some in Hr as (r0 & Hr0 & ->).
    case_match; cbn; [unfold group_statuses; set_solver|by eapply ty_groups].
  - unfold UpdateStatus in Hu. destruct (validSubmissionStatus status) eqn:Hv; [|done]. injection Hu as <-.
    apply typed_alter_sub; [|done]. intros m Hm. by destruct (_ && _).
  - unfold UpdateImageRef in Hu. case_bool_decide; [done|]. injection Hu as <-. by apply typed_alter_sub.
Qed.

(** C25: the status columns are well typed, when a publish that reports an error
    published nothing and no status message carries "requested" (messages are
    arbitrary otherwise).  In every reachable state every run
    has one of the eight run statuses, every run group one of requested,
    running, completed and failed, and every submission one of the six build
    statuses: no handler, consumer or store of the three services writes
    anything else. *)
Theorem statuses_typed s :
  reachable Exact s ->
  (forall sid row, runs (w_db (s_world s)) !! sid = Some row -> run_status row ∈ run_statuses) /\
  (forall g row, run_groups (w_db (s_world s)) !! g = Some row -> grp_status row ∈ group_statuses) /\
  (forall id m, submissions (w_db (s_world s)) !! id = Some m -> validSubmissionStatus (sm_Status m) = true).
Proof.
  intros Hr. assert (Hty : typed (w_db (s_world s))); [|by destruct Hty].
  induction Hr as [scs reseed now|s s' Hr IH Hstep].
  - destruct (initial_tables scs reseed now) as (E1 & E2 & E3). split; intros *; [rewrite E3|rewrite E2|rewrite E1]; by rewrite lookup_empty.
  - destruct (inv_reachable Exact s ltac:(done) Hr) as (toks & Hth & _).
    destruct Hstep as [s r|s v Hd|s i X e k o x w' Hi Hpub He|s i msg Hi|s db' He]; cbn [s_world]; try done.
    + destruct (Forall2_lookup_l _ _ _ _ _ Hth Hi) as (T & _ & Hwp). by eapply typed_exec.
    + by eapply typed_env.
Qed.

End System.
