(* ===== verification/GroupRun.v ===== *)
(** * submission-api: a run group from the click to its verdict

    With calm answers (no error, no foreign lock), one benchmark request and
    one terminal status per session dispatch all scenarios, in order, and
    leave the group's verdict. *)

From stdpp Require Import prelude gmap strings list sorting.
From S2P Require Import Prelude GoSort Topics Replay Recovery SubStore Benchmark BenchInv.

Open Scope Z_scope.

Definition calm (o : nat -> Oracle) : Prop := forall n, o_net (o n) = Delivered /\ o_locked (o n) = [].

#[export] Instance filter_perm {A} (f : A -> bool) : Proper ((≡ₚ) ==> (≡ₚ)) (List.filter f).
Proof. induction 1; cbn; repeat case_match; try done; [by constructor|by constructor|by etrans]. Qed.

Section Calm.
Context `{MapRangeLaws} `{CollationLaws} (o : nat -> Oracle) (Ho : calm o).

Lemma run_bind {A B} (m : prog A) (f : A -> prog B) n w :
  run_prog (pbind m f) o n w = (let '(a, n', w') := run_prog m o n w in run_prog (f a) o n' w').
Proof using.
  revert n w. induction m as [a|X e k IH]; intros n w; cbn; [done|]. destruct (exec e (o n) w) as [x w']. apply IH.
Qed.

Lemma run_perform {X} (e : eff X) n w : run_prog (perform e) o n w = ((exec e (o n) w).1, S n, (exec e (o n) w).2).
Proof using. cbn. by destruct (exec e (o n) w). Qed.

Lemma calm_answer {X} n (x : X) w : answer (o n) x w = (inr x, w).
Proof using Ho. unfold answer. by rewrite (proj1 (Ho n)). Qed.

Lemma calm_effect {X} n (x : X) w w' : effect (o n) x w w' = (inr x, w').
Proof using Ho. unfold effect. by rewrite (proj1 (Ho n)). Qed.

Lemma calm_sum {E} (bad : E) n db w : effect_sum bad (o n) (inr db) w = (inr tt, set_db w db).
Proof using Ho. unfold effect_sum. by rewrite (proj1 (Ho n)). Qed.

Lemma run_db_result {X} (e : eff (Ans X)) n w x w' :
  exec e (o n) w = (inr x, w') -> run_prog (db_result e) o n w = (inr x, S n, w').
Proof using. intros He. unfold db_result. rewrite run_bind, run_perform, He. done. Qed.

(** ** Rows of one group *)

Lemma group_runs_iff db g sid row : (sid, row) ∈ group_runs db g <-> runs db !! sid = Some row /\ run_group row = Some g.
Proof using.
  unfold group_runs. rewrite list_elem_of_In, filter_In, <-list_elem_of_In, elem_of_map_to_list, bool_decide_eq_true. done.
Qed.

Lemma group_runs_nodup db g : NoDup (map fst (group_runs db g)).
Proof using.
  unfold group_runs. eapply sublist_NoDup; [apply (NoDup_fst_map_to_list (runs db))|]. apply fmap_sublist, filter_sublist.
Qed.

(** Updating a row of the group in place. *)
Lemma group_runs_update db g A sid row row' B :
  group_runs db g ≡ₚ A ++ (sid, row) :: B -> run_group row' = Some g ->
  group_runs (set_runs db (<[sid := row']> (runs db))) g ≡ₚ A ++ (sid, row') :: B.
Proof using.
  intros Hp Hg.
  assert (Hin : (sid, row) ∈ group_runs db g) by (rewrite Hp; apply elem_of_app; right; left).
  apply group_runs_iff in Hin as [Hr Hrg]. unfold group_runs in *. cbn [runs set_runs].
  assert (Hm : map_to_list (runs db) ≡ₚ (sid, row) :: map_to_list (delete sid (runs db))) by (symmetry; by apply map_to_list_delete).
  rewrite <-(insert_delete_eq (runs db) sid row'), map_to_list_insert by apply lookup_delete_eq.
  cbn [List.filter snd]. rewrite bool_decide_true by done.
  rewrite Hm in Hp. cbn [List.filter snd] in Hp. rewrite bool_decide_true in Hp by done.
  rewrite <-Permutation_middle in *. apply Permutation_cons_inv in Hp. by rewrite Hp.
Qed.

(** ** The earliest row *)

Lemma earliest_min rows kv : earliest rows = Some kv -> forall kv', kv' ∈ rows -> coll_le kv.1 kv'.1 = true.
Proof using H2.
  revert kv. induction rows as [|x rows IH]; intros kv; simpl; [done|].
  destruct (earliest rows) as [y|] eqn:E.
  - intros [= <-] kv' Hin. destruct (coll_le x.1 y.1) eqn:Exy; apply elem_of_cons in Hin as [->|Hin].
    + destruct (coll_total x.1 x.1); done.
    + eapply coll_trans; [exact Exy|]. by apply IH.
    + destruct (coll_total x.1 y.1); congruence.
    + by apply IH.
  - intros [= <-] kv' Hin. apply elem_of_cons in Hin as [->|Hin]; [destruct (coll_total x.1 x.1); done|].
    destruct rows as [|z rows]; [by apply elem_of_nil in Hin|]. simpl in E. by destruct (earliest rows).
Qed.

Lemma earliest_none rows : earliest rows = None -> rows = [].
Proof using. destruct rows as [|x rows]; [done|]. simpl. by destruct (earliest rows). Qed.

Lemma earliest_first rows x l :
  rows ≡ₚ x :: l -> NoDup (map fst rows) -> (forall y, y ∈ l -> coll_le x.1 y.1 = true) -> earliest rows = Some x.
Proof using H2.
  intros Hp Hnd Hmin. destruct (earliest rows) as [y|] eqn:E.
  - assert (Hx : x ∈ rows) by (rewrite Hp; left). pose proof (earliest_min _ _ E x Hx) as H1'. pose proof (earliest_in _ _ E) as Hy.
    assert (Hk : x.1 = y.1).
    { apply coll_antisym; [|done]. rewrite Hp in Hy. apply elem_of_cons in Hy as [->|Hy]; [done|by apply Hmin]. }
    f_equal. apply list_elem_of_lookup in Hx as [i Hi], Hy as [j Hj].
    assert (i = j) as ->. { eapply NoDup_lookup; [exact Hnd| |]; rewrite list_lookup_fmap; [by rewrite Hi|rewrite Hj; cbn; by rewrite Hk]. }
    congruence.
  - apply earliest_none in E as ->. by apply Permutation_nil_cons in Hp.
Qed.

(** ** Where a group stands *)

Definition requested_row (kv : string * RunsRow) : Prop := run_status kv.2 = RunStatusRequested /\ is_Some (run_scenario kv.2).
Definition ended_row (kv : string * RunsRow) : Prop := terminal (run_status kv.2) = true.

(** The sessions of [A] have ended, [cur] is with the controller, those of [B]
    wait, in the order of their ids; no other group of the submission is active. *)
Record stage (w : World) (g sub : string) (A : list (string * RunsRow)) (cur : string * RunsRow) (B : list (string * RunsRow)) : Prop := {
  st_rows : group_runs (w_db w) g ≡ₚ A ++ cur :: B;
  st_ended : Forall ended_row A;
  st_cur : run_status cur.2 = RunStatusQueued;
  st_waiting : Forall requested_row B;
  st_sorted : StronglySorted (fun x y => coll_le x.1 y.1 = true) B;
  st_group : exists r, run_groups (w_db w) !! g = Some r /\ grp_submission r = sub;
  st_alone : active_conflict (w_db w) g sub = false }.

Lemma terminal_ne_requested st : terminal st = true -> st <> RunStatusRequested.
Proof using. by intros Ht ->. Qed.

Lemma queued_active : active RunStatusQueued = true.
Proof using. reflexivity. Qed.

Lemma claimable_stage w g sub A cur B st msg now :
  stage w g sub A cur B -> terminal st = true ->
  let db := set_runs (w_db w) (<[cur.1 := run_set cur.2 st msg now]> (runs (w_db w))) in
  group_runs db g ≡ₚ A ++ (cur.1, run_set cur.2 st msg now) :: B /\ claimable db g [] ≡ₚ B.
Proof using.
  intros Hs Ht db. destruct cur as [sid row]. cbn [fst snd] in *.
  assert (Hg : run_group row = Some g).
  { pose proof (st_rows _ _ _ _ _ _ Hs) as Hp. eapply (proj2 (proj1 (group_runs_iff (w_db w) g sid row) ltac:(rewrite Hp; apply elem_of_app; right; left))). }
  assert (Hp : group_runs db g ≡ₚ A ++ (sid, run_set row st msg now) :: B) by (eapply group_runs_update; [apply Hs|exact Hg]).
  split; [done|]. unfold claimable. rewrite Hp, List.filter_app. cbn [List.filter snd run_set run_status].
  rewrite bool_decide_false by (by apply terminal_ne_requested). cbn [andb].
  assert (HA : List.filter (fun kv => bool_decide (run_status kv.2 = RunStatusRequested) && negb (bool_decide (kv.1 ∈ []))) A = []).
  { pose proof (st_ended _ _ _ _ _ _ Hs) as HA. clear -HA. induction HA as [|x A Hx HA IH]; cbn; [done|].
    rewrite bool_decide_false by (by apply terminal_ne_requested). apply IH. }
  assert (HB : List.filter (fun kv => bool_decide (run_status kv.2 = RunStatusRequested) && negb (bool_decide (kv.1 ∈ []))) B = B).
  { pose proof (st_waiting _ _ _ _ _ _ Hs) as HB. clear -HB. induction HB as [|x B [Hx _] HB IH]; cbn; [done|].
    rewrite bool_decide_true by done. cbn. by rewrite IH. }
  by rewrite HA, HB.
Qed.

(** ** One terminal status *)

(** The roll-up of a list of rows. *)
Definition rollup_of (L : list (string * RunsRow)) : string :=
  let count st := Z.of_nat (countb (fun kv => bool_decide (run_status kv.2 = st)) L) in
  rollup (count RunStatusFailed) (count RunStatusCompleted) (count RunStatusRequested) (Z.of_nat (length L)).

Lemma rollup_of_perm L L' : L ≡ₚ L' -> rollup_of L = rollup_of L'.
Proof using. intros Hp. unfold rollup_of. by rewrite !(countb_perm _ L L' Hp), (Permutation_length Hp). Qed.

Lemma run_Recompute n w g r :
  group_runs (w_db w) g <> [] -> run_groups (w_db w) !! g = Some r -> active_conflict (w_db w) g (grp_submission r) = false ->
  exists n', run_prog (RecomputeRunGroupStatus g) o n w =
    (inr tt, n', set_db w (set_groups (w_db w)
       (<[g := group_set r (rollup_of (group_runs (w_db w) g)) (o_now (o (S n)))]> (run_groups (w_db w))))).
Proof using Ho.
  intros Hne Hr Hc. exists (S (S n)). unfold RecomputeRunGroupStatus. rewrite run_bind, run_perform. cbn [exec].
  rewrite calm_answer. cbn [fst snd]. unfold sum_status, rollup_of.
  destruct (group_runs (w_db w) g) as [|x L] eqn:E; [done|]. cbn [length].
  replace (Z.of_nat (S (length L)) =? 0) with false by (symmetry; apply Z.eqb_neq; lia).
  rewrite run_bind, run_perform. cbn [exec]. unfold update_group. rewrite Hr, Hc, andb_false_r, calm_sum. done.
Qed.

Lemma conflict_self db g sub r : active_conflict (set_groups db (<[g := r]> (run_groups db))) g sub = active_conflict db g sub.
Proof using.
  destruct (active_conflict db g sub) eqn:E.
  - apply not_false_is_true. intros Hf. rewrite active_conflict_false in Hf. cbn [run_groups set_groups] in Hf.
    assert (active_conflict db g sub = false); [|congruence]. apply active_conflict_false.
    intros g' r' Hr Hn. apply (Hf g'); [by rewrite lookup_insert_ne|done].
  - rewrite active_conflict_false in *. cbn [run_groups set_groups]. intros g' r' Hr Hn. rewrite lookup_insert_ne in Hr by done. by apply (E g').
Qed.

Lemma conflict_groups db db' g sub : run_groups db' = run_groups db -> active_conflict db' g sub = active_conflict db g sub.
Proof using. unfold active_conflict. by intros ->. Qed.

Definition ended_msg (sid sub g st : string) : BenchmarkStatusUpdated := mkStatus sid sub g st "" 0.

Lemma run_UpdateRunStatus n w sid row st msg :
  runs (w_db w) !! sid = Some row -> active (run_status row) = true ->
  run_prog (UpdateRunStatus sid st msg) o n w =
    (inr tt, S n, set_db w (set_runs (w_db w) (<[sid := run_set row st msg (o_now (o n))]> (runs (w_db w))))).
Proof using Ho.
  intros Hr Ha. unfold UpdateRunStatus. rewrite run_bind, run_perform. cbn [exec]. unfold update_run. rewrite Hr, Ha, calm_effect. done.
Qed.

Lemma terminal_valid st : terminal st = true -> validRunStatus st = true /\ terminalRunStatus st = true.
Proof using.
  unfold terminal, validRunStatus, terminalRunStatus. intros Ht. split; [|done]. apply bool_decide_eq_true.
  apply orb_true_iff in Ht as [Ht|Ht]; apply bool_decide_eq_true in Ht as ->; repeat (try (left; done); right).
Qed.

Lemma run_commit n w : run_prog commit o n w = (Committed, S n, w).
Proof using Ho. unfold commit. rewrite run_bind, run_perform. cbn [exec]. by rewrite calm_effect. Qed.

Lemma stage_lookup w g sub A cur B : stage w g sub A cur B -> runs (w_db w) !! cur.1 = Some cur.2 /\ run_group cur.2 = Some g.
Proof using.
  intros Hs. destruct cur as [sid row]. cbn. apply group_runs_iff. rewrite (st_rows _ _ _ _ _ _ Hs). apply elem_of_app. right. left.
Qed.

(** The claim of the next waiting run, and its publication. *)
Lemma run_advance n w g sub msg B :
  bs_RunGroupID msg = g -> claimable (w_db w) g [] ≡ₚ B -> Forall requested_row B ->
  StronglySorted (fun x y => coll_le x.1 y.1 = true) B ->
  exists n', run_prog (advanceRunGroup msg) o n w = (true, n',
    match B with
    | [] => w
    | (sid, row) :: _ =>
        mkWorld (set_runs (w_db w) (<[sid := run_set row RunStatusQueued (run_message row) (o_now (o n))]> (runs (w_db w))))
          (w_requests w ++ [mkBench sid (run_submission row) (run_contestant row) g (default sub (run_scenario row)) (o_now (o (S n)))])
          (w_builds w) (w_objects w)
    end).
Proof using Ho H2.
  intros Hg Hcl HB Hsort. unfold advanceRunGroup, ClaimNextRunInGroup. rewrite Hg.
  rewrite run_bind, run_bind, run_perform. cbn [exec]. rewrite (proj2 (Ho n)). unfold claim_next.
  assert (Hnd : NoDup (map fst (claimable (w_db w) g []))).
  { unfold claimable. eapply sublist_NoDup; [apply (group_runs_nodup (w_db w) g)|]. apply fmap_sublist, filter_sublist. }
  destruct B as [|[sid row] B].
  - symmetry in Hcl. apply Permutation_nil_l in Hcl. rewrite <-Hcl. cbn [earliest]. rewrite calm_effect. eexists. destruct w. done.
  - apply StronglySorted_inv in Hsort as [_ Hmin]. apply Forall_cons in HB as [[Hst [sc Hsc]] _].
    rewrite (earliest_first _ (sid, row) B Hcl Hnd) by (intros y Hy; rewrite Forall_forall in Hmin; by apply Hmin).
    rewrite calm_effect. cbn [fst snd run_prog].
    assert (Hrg : run_group row = Some g).
    { assert (Hin : (sid, row) ∈ claimable (w_db w) g []) by (rewrite Hcl; left). apply elem_of_claimable in Hin. tauto. }
    rewrite Hrg. cbn [snd] in Hsc. rewrite Hsc. rewrite run_bind, run_perform. cbn [exec fst snd].
    rewrite run_bind, run_perform. cbn [exec]. rewrite calm_effect. eexists. reflexivity.
Qed.

(** A status message of a session of the stage: the rows after the update. *)
Lemma run_consume_stage n w g sub msub A cur B st :
  stage w g sub A cur B -> terminal st = true -> g <> ""%string ->
  let ended := (cur.1, run_set cur.2 st "" (o_now (o n))) in
  exists n' w2 r r',
    run_prog (consume (Some (ended_msg cur.1 msub g st))) o n w = (Committed, n', set_db w2 (set_groups (w_db w2) (<[g := r']> (run_groups (w_db w2))))) /\
    run_groups (w_db w2) !! g = Some r /\ grp_submission r = sub /\ grp_submission r' = sub /\
    active_conflict (w_db w2) g sub = false /\ grp_status r' = rollup_of (group_runs (w_db w2) g) /\
    match B with
    | [] => w_requests w2 = w_requests w /\ group_runs (w_db w2) g ≡ₚ A ++ [ended]
    | b :: B' =>
        w_requests w2 = w_requests w ++ [mkBench b.1 (run_submission b.2) (run_contestant b.2) g (default sub (run_scenario b.2)) (o_now (o (S (S n))))] /\
        group_runs (w_db w2) g ≡ₚ A ++ [ended] ++ (b.1, run_set b.2 RunStatusQueued (run_message b.2) (o_now (o (S n)))) :: B'
    end.
Proof using Ho H2.
  intros Hs Ht Hg ended. destruct (stage_lookup _ _ _ _ _ _ Hs) as [Hrow Hrg].
  destruct (terminal_valid st Ht) as [Hv Htr]. destruct (st_group _ _ _ _ _ _ Hs) as (r & Hr & Hrs).
  destruct (claimable_stage w g sub A cur B st "" (o_now (o n)) Hs Ht) as [Hrows Hcl].
  set (db1 := set_runs (w_db w) _) in *.
  destruct (run_advance (S n) (set_db w db1) g sub (ended_msg cur.1 msub g st) B eq_refl Hcl (st_waiting _ _ _ _ _ _ Hs) (st_sorted _ _ _ _ _ _ Hs)) as (n1 & Hadv).
  unfold consume. set (msg := ended_msg cur.1 msub g st) in *. change (bs_Status msg) with st. change (bs_SessionID msg) with cur.1.
  change (bs_RunGroupID msg) with g. change (bs_Message msg) with ""%string. rewrite Hv. cbn [negb].
  rewrite run_bind, (run_UpdateRunStatus n w cur.1 cur.2) by (try done; by rewrite (st_cur _ _ _ _ _ _ Hs)).
  fold db1. rewrite bool_decide_false by done. rewrite Htr, run_bind.
  rewrite Hadv. cbn [negb]. rewrite run_bind.
  set (w2 := match B with [] => _ | _ => _ end).
  assert (Hw2 : run_groups (w_db w2) = run_groups (w_db w)) by (by destruct B as [|[]]).
  assert (HB : match B with
    | [] => w_requests w2 = w_requests w /\ group_runs (w_db w2) g ≡ₚ A ++ [ended]
    | b :: B' =>
        w_requests w2 = w_requests w ++ [mkBench b.1 (run_submission b.2) (run_contestant b.2) g (default sub (run_scenario b.2)) (o_now (o (S (S n))))] /\
        group_runs (w_db w2) g ≡ₚ A ++ [ended] ++ (b.1, run_set b.2 RunStatusQueued (run_message b.2) (o_now (o (S n)))) :: B'
    end).
  { unfold w2. destruct B as [|[sid row] B']; [done|]. split; [done|]. cbn [w_db fst snd].
    rewrite app_assoc. eapply group_runs_update; [rewrite <-app_assoc; exact Hrows|]. cbn.
    assert (Hin : (sid, row) ∈ group_runs db1 g) by (rewrite Hrows; apply elem_of_app; right; right; left).
    by apply group_runs_iff in Hin as [_ ?]. }
  assert (Hne : group_runs (w_db w2) g <> []).
  { intros E. destruct B; destruct HB as [_ HB]; rewrite E in HB; apply Permutation_nil_l in HB; symmetry in HB; apply app_eq_nil in HB as [_ ?]; done. }
  destruct (run_Recompute n1 w2 g r Hne) as (n2 & Hrec).
  { by rewrite Hw2. } { rewrite Hrs, (conflict_groups _ _ _ _ Hw2). apply Hs. }
  rewrite Hrec, run_commit. exists (S n2), w2, r. eexists. split_and!; [reflexivity|by rewrite Hw2|done|done| |done|done].
  rewrite (conflict_groups _ _ _ _ Hw2). apply Hs.
Qed.

Lemma group_runs_groups db m g : group_runs (set_groups db m) g = group_runs db g.
Proof using. done. Qed.

Lemma run_consume_mid n w g sub msub A cur b B st :
  stage w g sub A cur (b :: B) -> terminal st = true -> g <> ""%string ->
  exists n' w' t1 t2 t3,
    run_prog (consume (Some (ended_msg cur.1 msub g st))) o n w = (Committed, n', w') /\
    w_requests w' = w_requests w ++ [mkBench b.1 (run_submission b.2) (run_contestant b.2) g (default sub (run_scenario b.2)) t3] /\
    stage w' g sub (A ++ [(cur.1, run_set cur.2 st "" t1)]) (b.1, run_set b.2 RunStatusQueued (run_message b.2) t2) B.
Proof using Ho H2.
  intros Hs Ht Hg. destruct (run_consume_stage n w g sub msub A cur (b :: B) st Hs Ht Hg)
    as (n' & w2 & r & r' & Hrun & Hr & Hrs & Hrs' & Hc & _ & Hreq & Hrows).
  do 5 eexists. split_and!; [exact Hrun|exact Hreq|]. split; cbn [w_db set_db set_groups run_groups].
  - by rewrite <-app_assoc.
  - apply Forall_app. split; [apply Hs|]. constructor; [exact Ht|constructor].
  - done.
  - pose proof (st_waiting _ _ _ _ _ _ Hs) as HB. by inversion HB.
  - pose proof (st_sorted _ _ _ _ _ _ Hs) as HB. apply StronglySorted_inv in HB as [HB _]. exact HB.
  - exists r'. by rewrite lookup_insert_eq.
  - by rewrite (conflict_self (w_db w2)).
Qed.

Lemma run_consume_last n w g sub msub A cur st :
  stage w g sub A cur [] -> terminal st = true -> g <> ""%string ->
  exists n' w' t1 r',
    run_prog (consume (Some (ended_msg cur.1 msub g st))) o n w = (Committed, n', w') /\
    w_requests w' = w_requests w /\ group_runs (w_db w') g ≡ₚ A ++ [(cur.1, run_set cur.2 st "" t1)] /\
    run_groups (w_db w') !! g = Some r' /\ grp_status r' = rollup_of (A ++ [(cur.1, run_set cur.2 st "" t1)]).
Proof using Ho H2.
  intros Hs Ht Hg. destruct (run_consume_stage n w g sub msub A cur [] st Hs Ht Hg)
    as (n' & w2 & r & r' & Hrun & Hr & Hrs & Hrs' & Hc & Hroll & Hreq & Hrows).
  do 4 eexists. split_and!; [exact Hrun|exact Hreq| | |].
  - exact Hrows.
  - cbn. apply lookup_insert_eq.
  - rewrite Hroll. by apply rollup_of_perm.
Qed.

(** ** The rest of the group *)

(** The session published last ends with the next status. *)
Fixpoint drive (sts : list string) (w : World) : World :=
  match sts with
  | [] => w
  | st :: sts =>
      match last (w_requests w) with
      | None => w
      | Some m => drive sts (run_prog (consume (Some (ended_msg (bm_SessionID m) (bm_SubmissionID m) (bm_RunGroupID m) st))) o 0 w).2
      end
  end.

Definition verdict (sts : list string) : string :=
  if forallb (fun st => bool_decide (st = RunStatusCompleted)) sts then RunStatusCompleted else RunStatusFailed.

(** Rows that ended with the given statuses roll up to the verdict. *)
Lemma rollup_ended L :
  L <> [] -> Forall ended_row L -> rollup_of L = verdict (map (fun kv => run_status kv.2) L).
Proof using.
  intros Hne HL.
  assert (Hcount : (countb (fun kv => bool_decide (run_status kv.2 = RunStatusFailed)) L +
                    countb (fun kv => bool_decide (run_status kv.2 = RunStatusCompleted)) L = length L)%nat).
  { clear Hne. unfold countb. induction HL as [|x L Hx HL IH]; cbn; [done|]. unfold ended_row, terminal in Hx.
    apply orb_true_iff in Hx as [Hx|Hx]; apply bool_decide_eq_true in Hx; rewrite Hx.
    - rewrite (bool_decide_false (RunStatusCompleted = RunStatusFailed)), bool_decide_true by done. cbn. lia.
    - rewrite (bool_decide_true (RunStatusFailed = RunStatusFailed)), bool_decide_false by done. cbn. lia. }
  assert (Hall : forallb (fun st => bool_decide (st = RunStatusCompleted)) (map (fun kv => run_status kv.2) L) = true <->
                 countb (fun kv => bool_decide (run_status kv.2 = RunStatusCompleted)) L = length L).
  { clear. unfold countb. induction L as [|x L IH]; cbn; [done|]. pose proof (filter_length_le (fun kv : string * RunsRow => bool_decide (run_status kv.2 = RunStatusCompleted)) L).
    case_bool_decide; cbn; [rewrite IH; lia|split; [done|lia]]. }
  unfold rollup_of, verdict, rollup.
  destruct (forallb _ _) eqn:E.
  - destruct Hall as [Hall _]. rewrite (Hall eq_refl), Z.eqb_refl. done.
  - destruct (Z.eqb_spec (Z.of_nat (countb (fun kv => bool_decide (run_status kv.2 = RunStatusCompleted)) L)) (Z.of_nat (length L))) as [Heq|Hneq].
    { apply Nat2Z.inj in Heq. apply Hall in Heq. congruence. }
    replace (0 <? _) with true by (symmetry; apply Z.ltb_lt; lia). cbn [andb].
    replace (_ =? _) with true by (symmetry; apply Z.eqb_eq; lia). done.
Qed.

Lemma drive_stage sts : forall w g sub A cur B m pre,
  stage w g sub A cur B -> g <> ""%string -> Forall (fun st => terminal st = true) sts -> length sts = S (length B) ->
  w_requests w = pre ++ [m] -> bm_SessionID m = cur.1 -> bm_RunGroupID m = g ->
  exists ms L r,
    w_requests (drive sts w) = w_requests w ++ ms /\ map bm_SessionID ms = map fst B /\
    map bm_ScenarioID ms = map (fun kv => default sub (run_scenario kv.2)) B /\
    Forall (fun m => bm_RunGroupID m = g) ms /\
    group_runs (w_db (drive sts w)) g ≡ₚ A ++ L /\ map fst L = map fst (cur :: B) /\ map (fun kv => run_status kv.2) L = sts /\
    run_groups (w_db (drive sts w)) !! g = Some r /\ grp_status r = verdict (map (fun kv => run_status kv.2) A ++ sts).
Proof using Ho H2.
  induction sts as [|st sts IH]; intros w g sub A cur B m pre Hs Hg Hsts Hlen Hreq Hm Hmg; [done|].
  apply Forall_cons in Hsts as [Ht Hsts]. cbn [drive]. rewrite Hreq, last_snoc, Hm, Hmg.
  destruct B as [|b B].
  - destruct sts; [|done]. destruct (run_consume_last 0 w g sub (bm_SubmissionID m) A cur st Hs Ht Hg)
      as (n' & w' & t1 & r' & Hrun & Hreq' & Hrows & Hr & Hroll).
    rewrite Hrun. cbn [drive snd]. exists [], [(cur.1, run_set cur.2 st "" t1)], r'.
    split_and!; [by rewrite app_nil_r, Hreq', Hreq|done|done|constructor|done|done|done|done|].
    rewrite Hroll, rollup_ended; [by rewrite map_app|by destruct A|].
    apply Forall_app. split; [apply Hs|]. by constructor.
  - destruct (run_consume_mid 0 w g sub (bm_SubmissionID m) A cur b B st Hs Ht Hg) as (n' & w' & t1 & t2 & t3 & Hrun & Hreq' & Hs').
    rewrite Hrun. cbn [snd]. cbn [length] in Hlen.
    match type of Hreq' with _ = _ ++ [?mm] => set (mb := mm) in * end.
    destruct (IH w' g sub _ _ B mb (w_requests w) Hs' Hg Hsts) as (ms & L & r & E1 & E2 & E3 & E4 & E5 & E6 & E7 & E8 & E9);
      [lia|exact Hreq'|done|done|].
    exists (mb :: ms), ((cur.1, run_set cur.2 st "" t1) :: L), r. split_and!.
    + rewrite E1, Hreq', <-Hreq, <-app_assoc. reflexivity.
    + cbn. by rewrite E2.
    + cbn. by rewrite E3.
    + by constructor.
    + rewrite E5, <-app_assoc. done.
    + cbn. by rewrite E6.
    + cbn. by rewrite E7.
    + done.
    + rewrite E9. f_equal. rewrite map_app, <-app_assoc. done.
Qed.

End Calm.

(** ** From the request to the first session *)

(** What google/uuid documents of version 7 ids: non-empty, new, increasing. *)
Record fresh_ids `{Collation} (o : nat -> Oracle) (ids : nat -> string) (db : DB) : Prop := {
  fi_uuid n : o_uuid (o n) = Some (ids n);
  fi_lt i j : (i < j)%nat -> coll_le (ids i) (ids j) = true;
  fi_inj i j : ids i = ids j -> i = j;
  fi_nonempty n : ids n <> ""%string;
  fi_runs n : runs db !! ids n = None;
  fi_groups n : run_groups db !! ids n = None;
  fi_children n sid row : runs db !! sid = Some row -> run_group row <> Some (ids n) }.

Section Start.
Context `{MapRangeLaws} `{CollationLaws} `{SpecsJSON} (o : nat -> Oracle) (Ho : calm o) (ids : nat -> string).

Fixpoint children_from (sub : SubmissionMeta) (id g : string) (now : Z) (n : nat) (scs : list ScenarioMeta) : list RunMeta :=
  match scs with
  | [] => []
  | sc :: scs => mkRunMeta (ids n) id (sm_ContestantID sub) g (sc_ScenarioID sc) RunStatusRequested "" now now ::
                 children_from sub id g now (S n) scs
  end.

Lemma run_mint sub id g now scs (Hu : forall n, o_uuid (o n) = Some (ids n)) : forall n w,
  run_prog (mint_children sub id g now scs) o n w = (Some (children_from sub id g now n scs), (n + length scs)%nat, w).
Proof using.
  induction scs as [|sc scs IH]; intros n w; cbn [mint_children children_from length].
  { by rewrite Nat.add_0_r. }
  rewrite run_bind, run_perform. cbn [exec]. rewrite Hu. cbn [fst snd]. rewrite run_bind, IH. cbn. by rewrite Nat.add_succ_r.
Qed.

Definition pair_of (c : RunMeta) : string * RunsRow := (rm_SessionID c, row_of c).

Lemma insert_runs_rows children : forall db db' g,
  insert_runs db children = inr db' -> Forall (fun c => rm_RunGroupID c = g) children ->
  group_runs db' g ≡ₚ map pair_of children ++ group_runs db g.
Proof using.
  induction children as [|c children IH]; intros db db' g; cbn [insert_runs]; [by intros [= <-]|].
  unfold insert_run. destruct (_ || _) eqn:E; [done|]. intros Hi Hall. apply Forall_cons in Hall as [Hc Hall].
  apply orb_false_iff in E as [E _]. apply bool_decide_eq_false, eq_None_not_Some in E.
  rewrite (IH _ _ _ Hi Hall). cbn [map app].
  assert (Hins : group_runs (set_runs db (<[rm_SessionID c := row_of c]> (runs db))) g ≡ₚ pair_of c :: group_runs db g).
  { unfold group_runs. cbn [runs set_runs]. rewrite map_to_list_insert by done. cbn [List.filter snd row_of run_group].
    rewrite Hc, bool_decide_true by done. done. }
  rewrite Hins, Permutation_middle. done.
Qed.

Lemma insert_runs_ok children : forall db g,
  Forall (fun c => rm_RunGroupID c = g) children ->
  NoDup (map rm_SessionID children) -> NoDup (map rm_ScenarioID children) ->
  Forall (fun c => runs db !! rm_SessionID c = None) children ->
  (forall sid row, runs db !! sid = Some row -> run_group row = Some g ->
     Forall (fun c => run_scenario row <> Some (rm_ScenarioID c)) children) ->
  exists db', insert_runs db children = inr db'.
Proof using.
  induction children as [|c children IH]; intros db g Hg Hn1 Hn2 Hnew Hsc; cbn [insert_runs]; [by eexists|].
  apply Forall_cons in Hg as [Hcg Hg], Hnew as [Hcn Hnew]. cbn in Hn1, Hn2. apply NoDup_cons in Hn1 as [Hc1 Hn1], Hn2 as [Hc2 Hn2].
  unfold insert_run. rewrite bool_decide_false by (rewrite Hcn; by intros [? ?]). cbn [orb].
  assert (scenario_conflict db c = false) as ->.
  { unfold scenario_conflict. rewrite existsb_map_false. intros sid row Hr. cbn. case_bool_decide as Hgr; [|done]. cbn.
    apply bool_decide_eq_false. rewrite Hcg in Hgr. specialize (Hsc sid row Hr Hgr). by apply Forall_cons in Hsc as [? _]. }
  apply (IH _ g Hg Hn1 Hn2).
  - rewrite Forall_forall in *. intros c' Hc'. cbn. rewrite lookup_insert_ne; [by apply Hnew|].
    intros Heq. apply Hc1. rewrite Heq. apply list_elem_of_fmap. by exists c'.
  - intros sid row. cbn. rewrite lookup_insert_Some. intros [[<- <-]|[_ Hr]] Hrg.
    + rewrite Forall_forall. intros c' Hc' [= Heq]. apply Hc2. rewrite Heq. apply list_elem_of_fmap. by exists c'.
    + specialize (Hsc sid row Hr Hrg). by apply Forall_cons in Hsc as [_ ?].
Qed.

Lemma children_group sub id g now n scs : Forall (fun c => rm_RunGroupID c = g) (children_from sub id g now n scs).
Proof using. revert n. induction scs as [|sc scs IH]; intros n; cbn; constructor; auto. Qed.

Lemma children_scenarios sub id g now n scs : map rm_ScenarioID (children_from sub id g now n scs) = map sc_ScenarioID scs.
Proof using. revert n. induction scs as [|sc scs IH]; intros n; cbn; f_equal; auto. Qed.

Lemma children_ids sub id g now n scs c : c ∈ children_from sub id g now n scs ->
  exists i, (n <= i)%nat /\ rm_SessionID c = ids i /\ rm_Status c = RunStatusRequested.
Proof using.
  revert n. induction scs as [|sc scs IH]; intros n; cbn; [by intros ?%elem_of_nil|].
  intros [->|Hc]%elem_of_cons; [exists n; cbn; auto|]. destruct (IH _ Hc) as (i & ? & ? & ?). exists i. split; [lia|auto].
Qed.

Lemma children_nodup sub id g now n scs (Hinj : forall i j, ids i = ids j -> i = j) :
  NoDup (map rm_SessionID (children_from sub id g now n scs)).
Proof using.
  revert n. induction scs as [|sc scs IH]; intros n; cbn; constructor; [|apply IH].
  intros Hin. apply list_elem_of_fmap in Hin as (c & Heq & Hc). apply children_ids in Hc as (i & Hi & Hs & _).
  cbn in Heq. rewrite Hs in Heq. apply Hinj in Heq. lia.
Qed.

Lemma children_sorted sub id g now n scs (Hlt : forall i j, (i < j)%nat -> coll_le (ids i) (ids j) = true) :
  StronglySorted (fun x y => coll_le x.1 y.1 = true) (map pair_of (children_from sub id g now n scs)).
Proof using.
  revert n. induction scs as [|sc scs IH]; intros n; cbn; constructor; [apply IH|].
  rewrite Forall_forall. intros y Hy. apply list_elem_of_fmap in Hy as (c & -> & Hc). apply children_ids in Hc as (i & Hi & Hs & _).
  cbn. rewrite Hs. apply Hlt. lia.
Qed.

(** The owner is settled without touching scenarios, groups or runs. *)
Lemma run_owner n w id m c :
  submissions (w_db w) !! id = Some m -> sm_SubmissionID m = id -> c <> ""%string ->
  (sm_ContestantID m = ""%string \/ sm_ContestantID m = c) ->
  exists n' m' db', run_prog (claimOrResolveOwner m c) o n w = (inr m', n', set_db w db') /\
    sm_ContestantID m' = c /\ sm_Status m' = sm_Status m /\ sm_ImageRef m' = sm_ImageRef m /\
    scenarios db' = scenarios (w_db w) /\ run_groups db' = run_groups (w_db w) /\ runs db' = runs (w_db w).
Proof using Ho.
  intros Hm Hid Hc Hor. unfold claimOrResolveOwner. destruct (decide (sm_ContestantID m = ""%string)) as [He|Hne].
  - rewrite bool_decide_true by done. cbn [negb]. unfold ClaimSubmissionContestantIfEmpty.
    rewrite (bool_decide_false (c = _)) by done. rewrite run_bind, run_bind, run_perform. cbn [exec].
    unfold claim_contestant. rewrite Hid, Hm, bool_decide_true by done. rewrite (calm_effect o Ho). cbn.
    eexists _, _, _. split; [reflexivity|]. done.
  - rewrite bool_decide_false by done. cbn. destruct Hor as [?|Hor]; [done|]. exists n, m, (w_db w).
    split; [by destruct w|]. done.
Qed.

(** The transaction and the publication. *)
Lemma run_insert_first n w gid id con now scs first others :
  run_groups (w_db w) !! gid = None ->
  (forall g r, run_groups (w_db w) !! g = Some r -> grp_submission r = id -> active (grp_status r) = false) ->
  (forall sid row, runs (w_db w) !! sid = Some row -> run_group row <> Some gid) ->
  Forall (fun c => rm_RunGroupID c = gid /\ rm_Status c = RunStatusRequested /\ runs (w_db w) !! rm_SessionID c = None) (first :: others) ->
  NoDup (map rm_SessionID (first :: others)) -> NoDup (map rm_ScenarioID (first :: others)) ->
  StronglySorted (fun x y => coll_le x.1 y.1 = true) (map pair_of (first :: others)) ->
  exists resp n' w',
    run_prog (insert_and_publish (mkGroup gid id con "" RunStatusRequested now now) first others scs now) o n w = (resp, n', w') /\
    http_status resp = 202 /\ w_requests w' = w_requests w ++ [bench_of first now] /\
    stage w' gid id [] (pair_of (set_rm_Status first RunStatusQueued)) (map pair_of others).
Proof using Ho.
  intros Hgn Hact Hnogrp Hall Hnd1 Hnd2 Hsort. unfold insert_and_publish.
  set (first' := set_rm_Status first RunStatusQueued). set (grp := mkGroup gid id con "" RunStatusRequested now now).
  assert (Hig : insert_group (w_db w) grp = inr (set_groups (w_db w) (<[gid := mkGroupsRow id con RunStatusRequested now now]> (run_groups (w_db w))))).
  { unfold insert_group. cbn [rg_RunGroupID rg_Status rg_SubmissionID grp]. rewrite Hgn, bool_decide_false by (by intros [? ?]).
    replace (active_conflict (w_db w) gid id) with false; [by rewrite andb_false_r|]. symmetry. apply active_conflict_false.
    intros g r Hr _ Hs. by eapply Hact. }
  set (db1 := set_groups (w_db w) _) in *.
  assert (Hgs : Forall (fun c => rm_RunGroupID c = gid) (first' :: others)).
  { apply Forall_cons in Hall as [(Hf & _) Ho']. constructor; [done|]. eapply Forall_impl; [exact Ho'|]. intros ch (? & ? & ?). done. }
  destruct (insert_runs_ok (first' :: others) db1 gid Hgs Hnd1 Hnd2) as (db2 & Hir).
  { apply Forall_cons in Hall as [(_ & _ & Hf) Ho']. constructor; [done|]. eapply Forall_impl; [exact Ho'|]. intros ch (? & ? & ?). done. }
  { intros sid row Hr Hg. by destruct (Hnogrp sid row Hr). }
  pose proof (insert_runs_rows _ _ _ _ Hir Hgs) as Hrows.
  apply insert_runs_inv in Hir as Hinv. destruct Hinv as (_ & _ & Hgrp2 & _).
  assert (Hempty : group_runs db1 gid = []).
  { destruct (group_runs db1 gid) as [|[sid row] l] eqn:E; [done|]. exfalso.
    assert (Hin : (sid, row) ∈ group_runs db1 gid) by (rewrite E; left). apply group_runs_iff in Hin as [Hr Hg]. by eapply Hnogrp. }
  rewrite Hempty, app_nil_r in Hrows.
  rewrite run_bind. unfold InsertRunGroupWithChildren. rewrite run_bind, run_perform. cbn [exec]. unfold insert_group_tx.
  rewrite Hig, Hir, (calm_sum o Ho). cbn [fst snd run_prog]. rewrite run_bind, run_perform. cbn [exec]. rewrite (calm_effect o Ho). cbn [fst snd].
  unfold respondWithGroup, groupResponse, ListRunsByGroup. rewrite run_bind, run_bind.
  erewrite (run_db_result o (SelRunsByGroup _)); [|cbn [exec]; apply (calm_answer o Ho)]. cbn [run_prog].
  do 3 eexists. split_and!; [reflexivity|done|done|].
  split; cbn [w_db].
  - exact Hrows.
  - constructor.
  - done.
  - apply Forall_cons in Hall as [_ Ho']. apply Forall_map. eapply Forall_impl; [exact Ho'|]. intros c (_ & Hst & _).
    split; [exact Hst|by eexists].
  - apply StronglySorted_inv in Hsort as [Hsort _]. exact Hsort.
  - cbn. rewrite Hgrp2. unfold db1. cbn. rewrite lookup_insert_eq. by eexists.
  - cbn. rewrite (conflict_groups db1 db2) by done. unfold db1. rewrite conflict_self. apply active_conflict_false.
    intros g r Hr _ Hs. by eapply Hact.
Qed.

Lemma select_active_none db id :
  (forall g r, run_groups db !! g = Some r -> grp_submission r = id -> active (grp_status r) = false) ->
  select_active_group db id = None.
Proof using H0.
  intros Hact. unfold select_active_group.
  destruct (List.filter _ (map_to_list (run_groups db))) as [|[g r] l] eqn:E.
  - assert (map_range (@nil (string * GroupsRow)) = []) as ->; [|done]. apply Permutation_nil_r. by rewrite map_range_perm.
  - exfalso. assert (Hin : In (g, r) ((g, r) :: l)) by (left; done). rewrite <-E in Hin. apply filter_In in Hin as [Hin Hb].
    apply list_elem_of_In, elem_of_map_to_list in Hin. cbn in Hb. apply andb_true_iff in Hb as [Hb1 Hb2].
    apply bool_decide_eq_true in Hb1. rewrite (Hact g r Hin Hb1) in Hb2. done.
Qed.

(** What the request must find. *)
Record startable (w : World) (id c : string) (m : SubmissionMeta) (scs : list ScenarioMeta) : Prop := {
  sb_row : submissions (w_db w) !! id = Some m; sb_id : sm_SubmissionID m = id;
  sb_named : id <> ""%string; sb_caller : c <> ""%string;
  sb_owner : sm_ContestantID m = ""%string \/ sm_ContestantID m = c;
  sb_ready : sm_Status m = StatusReady; sb_image : sm_ImageRef m <> ""%string;
  sb_scenarios : mapM scan_scenario (select_scenarios (w_db w)) = Some scs; sb_some : scs <> [];
  sb_nodup : NoDup (map sc_ScenarioID scs);
  sb_idle g r : run_groups (w_db w) !! g = Some r -> grp_submission r = id -> active (grp_status r) = false }.

(** The request as a whole: the group is created and its first session published. *)
Lemma run_StartBenchmark w id c m scs :
  fresh_ids o ids (w_db w) -> startable w id c m scs ->
  exists resp n w1 gid now first others,
    run_prog (StartBenchmark id c) o 0 w = (resp, n, w1) /\ http_status resp = 202 /\ gid <> ""%string /\ rm_RunGroupID first = gid /\
    w_requests w1 = w_requests w ++ [bench_of first now] /\
    map rm_ScenarioID (first :: others) = map sc_ScenarioID scs /\
    stage w1 gid id [] (pair_of (set_rm_Status first RunStatusQueued)) (map pair_of others).
Proof using Ho H0.
  intros Hfresh [Hm Hmid Hid Hc Hown Hready Himg Hscs Hne Hnd Hact].
  destruct (run_owner 1 w id m c Hm Hmid Hc Hown) as (n1 & m' & db1 & Hrun1 & Hcon & Hst' & Himg' & Hsc1 & Hg1 & Hr1).
  set (gid := ids (S (S n1))). set (now := o_now (o (S (S (S n1))))). set (n4 := S (S (S (S n1)))).
  destruct scs as [|sc scs0]; [done|]. set (scs := sc :: scs0) in *.
  set (first := mkRunMeta (ids n4) id (sm_ContestantID m') gid (sc_ScenarioID sc) RunStatusRequested "" now now).
  set (others := children_from m' id gid now (S n4) scs0).
  assert (Hch : children_from m' id gid now n4 scs = first :: others) by reflexivity.
  assert (Hactnone : select_active_group db1 id = None) by (apply select_active_none; by rewrite Hg1).
  destruct (run_insert_first (n4 + length scs) (set_db w db1) gid id (sm_ContestantID m') now scs first others) as (resp & n' & w' & Hrun2 & Hcode & Hreq & Hstage).
  { cbn. rewrite Hg1. apply Hfresh. } { cbn. by rewrite Hg1. } { cbn. rewrite Hr1. apply Hfresh. }
  { rewrite <-Hch. rewrite Forall_forall. intros ch Hin. pose proof (children_group m' id gid now n4 scs) as Hgrp. rewrite Forall_forall in Hgrp.
    split; [by apply Hgrp|]. apply children_ids in Hin as (i & _ & -> & ->). split; [done|]. cbn. rewrite Hr1. apply Hfresh. }
  { rewrite <-Hch. apply children_nodup, Hfresh. } { rewrite <-Hch, children_scenarios. exact Hnd. }
  { rewrite <-Hch. apply children_sorted, Hfresh. }
  exists resp, n', w', gid, now, first, others.
  split_and!; [|exact Hcode|apply Hfresh|done|exact Hreq|rewrite <-Hch; apply children_scenarios|exact Hstage].
  unfold StartBenchmark. rewrite bool_decide_false by done. rewrite run_bind. unfold GetByID.
  erewrite (run_db_result o (SelSubmission id)); [|cbn [exec]; rewrite (calm_answer o Ho), Hm; reflexivity].
  rewrite bool_decide_false by done. rewrite run_bind, Hrun1, Hcon, bool_decide_true by done. cbn [negb]. unfold start_owned.
  rewrite Hst', Hready, bool_decide_true, Himg', bool_decide_false by done. cbn [negb]. rewrite run_bind. unfold ListScenarios.
  rewrite run_bind, run_perform. cbn [exec]. rewrite (calm_answer o Ho). cbn [fst snd w_db set_db].
  assert (select_scenarios db1 = select_scenarios (w_db w)) as -> by (unfold select_scenarios; by rewrite Hsc1).
  rewrite Hscs. unfold scs. cbn [run_prog]. rewrite run_bind. unfold FindActiveRunGroup.
  erewrite (run_db_result o (SelActiveGroup id)); [|cbn [exec w_db set_db]; rewrite (calm_answer o Ho), Hactnone; reflexivity].
  unfold start_group. rewrite run_bind, run_perform. cbn [exec]. rewrite (fi_uuid _ _ _ Hfresh). cbn [fst snd]. fold gid.
  rewrite run_bind, run_perform. cbn [exec fst snd]. fold now.
  rewrite run_bind, (run_mint m' id gid now (sc :: scs0)) by apply Hfresh. fold n4. fold scs. rewrite Hch. exact Hrun2.
Qed.

(** C23: from the click to the verdict.  When nothing errs, ids are new and increasing, the submission is ready
    and the caller's (or nobody's), scenarios are configured and no group of the submission is active, the
    request is accepted (202) and publishes the first scenario only; and if then each published session ends with a
    terminal status, one after the other, every scenario is dispatched exactly once, in the order of the
    scenario list, whether its predecessors completed or failed; each run ends with the status
    reported for it; and the group ends completed if all did and failed otherwise. *)
Theorem group_runs_to_end w id c m scs sts :
  fresh_ids o ids (w_db w) -> startable w id c m scs ->
  Forall (fun st => terminal st = true) sts -> length sts = length scs ->
  exists resp n w1 gid ms r,
    run_prog (StartBenchmark id c) o 0 w = (resp, n, w1) /\ http_status resp = 202 /\ length (w_requests w1) = S (length (w_requests w)) /\
    w_requests (drive o sts w1) = w_requests w ++ ms /\ map bm_ScenarioID ms = map sc_ScenarioID scs /\
    Forall (fun b => bm_RunGroupID b = gid) ms /\ NoDup (map bm_SessionID ms) /\
    (forall i b st, ms !! i = Some b -> sts !! i = Some st ->
       exists row, runs (w_db (drive o sts w1)) !! bm_SessionID b = Some row /\ run_group row = Some gid /\ run_status row = st) /\
    run_groups (w_db (drive o sts w1)) !! gid = Some r /\ grp_status r = verdict sts.
Proof using Ho H0 H2.
  intros Hfresh Hsb Hsts Hlen.
  destruct (run_StartBenchmark w id c m scs Hfresh Hsb) as (resp & n & w1 & gid & now & first & others & Hrun & Hcode & Hgid & Hfg & Hreq & Hscs & Hstage).
  destruct (drive_stage o Ho sts w1 gid id [] _ _ (bench_of first now) (w_requests w) Hstage Hgid Hsts) as (ms & L & r & E1 & E2 & E3 & E4 & E5 & E6 & E7 & E8 & E9);
    [|exact Hreq|done|done|].
  { rewrite Hlen, length_map, <-(length_map sc_ScenarioID), <-Hscs. cbn. by rewrite length_map. }
  assert (Hids : map bm_SessionID (bench_of first now :: ms) = map fst L) by (rewrite E6; cbn; by rewrite E2).
  exists resp, n, w1, gid, (bench_of first now :: ms), r.
  split_and!; [exact Hrun|exact Hcode| | | | | | |exact E8|exact E9].
  - rewrite Hreq, length_app. cbn. lia.
  - rewrite E1, Hreq, <-app_assoc. reflexivity.
  - cbn [map]. rewrite E3, map_map, <-Hscs. reflexivity.
  - constructor; [done|exact E4].
  - rewrite Hids. pose proof (group_runs_nodup (w_db (drive o sts w1)) gid) as Hn.
    change (map fst (group_runs (w_db (drive o sts w1)) gid)) with (fst <$> group_runs (w_db (drive o sts w1)) gid) in Hn.
    rewrite E5 in Hn. exact Hn.
  - intros i b st Hb Hi. rewrite <-E7 in Hi. apply list_lookup_fmap_Some in Hi as ([sid row] & -> & HL).
    assert (Hsid : bm_SessionID b = sid).
    { assert (Hl : map bm_SessionID (bench_of first now :: ms) !! i = Some (bm_SessionID b)) by (rewrite list_lookup_fmap, Hb; done).
      rewrite Hids in Hl. change (map fst L) with (fst <$> L) in Hl. rewrite list_lookup_fmap, HL in Hl. by injection Hl as <-. }
    assert (Hin : (sid, row) ∈ group_runs (w_db (drive o sts w1)) gid) by (rewrite E5; by eapply list_elem_of_lookup_2).
    apply group_runs_iff in Hin as [Hrow Hrg]. exists row. rewrite Hsid. done.
Qed.

End Start.
