(* ===== verification/BenchDemo.v ===== *)
(** * submission-api: runs of the system

    Serving one request or one message at a time, with calm answers, is one
    way for the system of [Benchmark] to run; and a concrete run: an upload,
    its build, a benchmark of two scenarios, the end of the first. *)

From stdpp Require Import prelude gmap strings list sorting.
From S2P Require Import Prelude GoSort Topics Replay Recovery SubStore Benchmark BenchInv BenchProps GroupRun.

Open Scope Z_scope.

Section Serve.
Context `{MapRange} `{Collation} `{SpecsJSON} (o : nat -> Oracle) (Ho : calm o).

(** Running a thread to its end is a run of the system. *)
Lemma run_reachable md p : forall s i n a n' w',
  reachable md s -> s_threads s !! i = Some p -> run_prog p o n (s_world s) = (a, n', w') ->
  reachable md (mkSys w' (<[i := Done a]> (s_threads s)) (s_handed s)).
Proof using Ho.
  induction p as [x|X e k IH]; intros s i n a n' w' Hr Hi Hrun; cbn in Hrun.
  - injection Hrun as <- <- <-. rewrite list_insert_id by done. by destruct s.
  - destruct (exec e (o n) (s_world s)) as [x w1] eqn:E.
    assert (Hr1 : reachable md (mkSys w1 (<[i := k x]> (s_threads s)) (s_handed s))).
    { eapply reach_step; [exact Hr|]. eapply step_exec; [exact Hi| |exact E]. intros _ _. rewrite (proj1 (Ho n)). done. }
    pose proof (IH x _ i (S n) a n' w' Hr1) as Hend. cbn [s_threads s_world s_handed] in Hend.
    rewrite list_insert_insert_eq in Hend. apply Hend; [|exact Hrun].
    apply list_lookup_insert_eq. by eapply lookup_lt_Some.
Qed.

(** Serve a request, or a message, to its end. *)
Definition serve (s : Sys) (r : Request) : Sys :=
  let '(a, _, w') := run_prog (http (handle r)) o 0 (s_world s) in mkSys w' (s_threads s ++ [Done a]) (s_handed s).

Definition take_message (s : Sys) (v : option BenchmarkStatusUpdated) : Sys :=
  let '(a, _, w') := run_prog (consumer v) o 0 (s_world s) in mkSys w' (s_threads s ++ [Done a]) (hand s v).

Lemma run_spawned md s p handed a n' w' :
  reachable md (mkSys (s_world s) (s_threads s ++ [p]) handed) -> run_prog p o 0 (s_world s) = (a, n', w') ->
  reachable md (mkSys w' (s_threads s ++ [Done a]) handed).
Proof using Ho.
  intros Hr Hrun. pose proof (run_reachable md p _ (length (s_threads s)) 0 a n' w' Hr) as Hend. cbn [s_threads s_world s_handed] in Hend.
  rewrite insert_app_r_alt, Nat.sub_diag in Hend by done. apply Hend; [|exact Hrun].
  rewrite lookup_app_r, Nat.sub_diag by done. done.
Qed.

Lemma serve_reachable md s r : reachable md s -> reachable md (serve s r).
Proof using Ho.
  intros Hr. unfold serve. destruct (run_prog _ _ _ _) as [[a n'] w'] eqn:E. eapply run_spawned; [|exact E].
  eapply reach_step; [exact Hr|constructor].
Qed.

Lemma take_reachable md s v : reachable md s -> deliverable md s v -> reachable md (take_message s v).
Proof using Ho.
  intros Hr Hd. unfold take_message. destruct (run_prog _ _ _ _) as [[a n'] w'] eqn:E. eapply run_spawned; [|exact E].
  eapply reach_step; [exact Hr|by constructor].
Qed.

Lemma env_reachable md s db' : reachable md s -> env_step (w_db (s_world s)) db' -> reachable md (mkSys (set_db (s_world s) db') (s_threads s) (s_handed s)).
Proof. intros Hr He. eapply reach_step; [exact Hr|by constructor]. Qed.

End Serve.

(** ** A concrete run *)

Module Demo.

Fixpoint rep (n : nat) : string := match n with O => "" | S n => String (Ascii.ascii_of_nat 97) (rep n) end.

(** Ids that grow: "a", "aa", "aaa", ... *)
Definition ids (base n : nat) : string := rep (S (base + n)).
Definition oracle (base n : nat) : Oracle := mkOracle Delivered [] (Z.of_nat n) (Some (ids base n)).

Lemma oracle_calm base : calm (oracle base).
Proof. done. Qed.

#[local] Instance coll : Collation := Collation_C.
#[local] Instance range : MapRange := MapRange_id.
#[local] Instance json : SpecsJSON := {| marshal_specs := fun _ => "[]"%string; unmarshal_specs := fun _ => Some [] |}.

Definition scs : list ScenarioMeta :=
  [mkScenario "sc-1" "constant" 1 60 [] 0; mkScenario "sc-2" "spike" 2 60 [] 0; mkScenario "sc-3" "ramp" 3 60 [] 0].

Definition up : Upload := mkUpload "sha" 10 "go" "FIX" 9898 "go" "engine" "team".

Definition s0 : Sys := initial scs false 7.
Definition s1 : Sys := serve (oracle 0) s0 (ReqSubmit up "alice").
Definition sub_id : string := "a".

(** Apply a build statement that is not refused. *)
Definition built (f : DB -> option DB) (s : Sys) : Sys :=
  mkSys (set_db (s_world s) (default emptyDB (f (w_db (s_world s))))) (s_threads s) (s_handed s).

Definition s2 : Sys := built (fun db => UpdateStatus db sub_id "ready") s1.
Definition s3 : Sys := built (fun db => UpdateImageRef db sub_id "image") s2.
Definition s4 : Sys := serve (oracle 10) s3 (ReqStart sub_id "alice").
Definition published : list BenchmarkMeta := w_requests (s_world s4).
Definition first_session : string := default ""%string (bm_SessionID <$> head published).
Definition group : string := default ""%string (bm_RunGroupID <$> head published).
Definition ended : BenchmarkStatusUpdated := mkStatus first_session sub_id group "completed" "" 0.
Definition s5 : Sys := take_message (oracle 30) s4 (Some ended).

Lemma s2_built : UpdateStatus (w_db (s_world s1)) sub_id "ready" = Some (w_db (s_world s2)).
Proof. unfold s2, built, UpdateStatus. reflexivity. Qed.

Lemma s3_built : UpdateImageRef (w_db (s_world s2)) sub_id "image" = Some (w_db (s_world s3)).
Proof. unfold s3, built, UpdateImageRef. reflexivity. Qed.

Lemma s4_reachable md : reachable md s4.
Proof.
  apply serve_reachable; [apply oracle_calm|]. unfold s3, built. apply env_reachable; [|eapply env_build_image; apply s3_built].
  unfold s2, built. apply env_reachable; [|eapply env_build_status; apply s2_built].
  apply serve_reachable; [apply oracle_calm|]. constructor.
Qed.

Lemma s4_published : w_requests (s_world s4) = [mkBench first_session sub_id "alice" group "sc-1" 4].
Proof. vm_compute. reflexivity. Qed.

Lemma s4_handed : s_handed s4 = ∅.
Proof. reflexivity. Qed.

Lemma s5_reachable md : reachable md s5.
Proof.
  apply take_reachable; [apply oracle_calm|apply s4_reachable|].
  assert (Hne : bs_Status ended <> RunStatusRequested) by (vm_compute; discriminate).
  destruct md; [done|exact Hne|]. split; [exact Hne|]. intros _. rewrite s4_handed. split; [set_solver|].
  rewrite s4_published. eexists. split; [left|]. split; reflexivity.
Qed.

Lemma s5_published : map bm_ScenarioID (w_requests (s_world s5)) = ["sc-1"; "sc-2"]%string.
Proof. vm_compute. reflexivity. Qed.

Definition first_row : RunsRow := mkRunsRow sub_id "alice" (Some group) (Some "sc-1"%string) "completed" "" 4 0.

(** The controller's late "failed" does not touch the finished run. *)
Definition s6 : Sys :=
  mkSys (set_db (s_world s5) (ctl_MarkRunFailed (w_db (s_world s5)) first_session "late" 99)) (s_threads s5) (s_handed s5).

Lemma history_kept_witness :
  runs (w_db (s_world s5)) !! first_session = Some first_row /\ runs (w_db (s_world s6)) !! first_session = Some first_row.
Proof.
  assert (E : runs (w_db (s_world s5)) !! first_session = Some first_row) by (vm_compute; reflexivity).
  split; [exact E|].
  destruct (history_kept s5 s6) as [Hruns _].
  { eapply steps_cons; [|apply steps_refl]. apply step_env. apply env_mark_run. }
  destruct (Hruns first_session first_row E) as (row' & Hr & _ & Ht). rewrite Ht in Hr; [exact Hr|reflexivity].
Defined.

Lemma dispatched_once_witness :
  map bm_ScenarioID (w_requests (s_world s5)) = ["sc-1"; "sc-2"]%string /\ NoDup (map bm_SessionID (w_requests (s_world s5))).
Proof. split; [exact s5_published|]. apply (dispatched_once s5 (s5_reachable Exact)). Defined.



Lemma statuses_typed_witness :
  runs (w_db (s_world s5)) !! first_session = Some first_row /\ "completed"%string ∈ run_statuses.
Proof.
  assert (E : runs (w_db (s_world s5)) !! first_session = Some first_row) by (vm_compute; reflexivity).
  split; [exact E|]. destruct (statuses_typed s5 (s5_reachable Exact)) as (Hr & _). exact (Hr first_session first_row E).
Defined.

(** A terminal status that is taken again after its first processing
    succeeded, as after a failed offset commit, claims another run: two
    sessions of the group are then with the controller. *)
Example redelivery_overlaps :
  exists s m1 m2, reachable Exact s /\ w_requests (s_world s) !! 1%nat = Some m1 /\ w_requests (s_world s) !! 2%nat = Some m2 /\
    bm_RunGroupID m1 = bm_RunGroupID m2 /\ bm_SessionID m1 <> bm_SessionID m2 /\
    run_status <$> runs (w_db (s_world s)) !! bm_SessionID m1 = Some RunStatusQueued /\
    run_status <$> runs (w_db (s_world s)) !! bm_SessionID m2 = Some RunStatusQueued.
Proof.
  exists (take_message (oracle 40) s5 (Some ended)). do 2 eexists. split.
  { apply take_reachable; [apply oracle_calm|apply s5_reachable|]. vm_compute. discriminate. }
  split; [vm_compute; reflexivity|]. split; [vm_compute; reflexivity|]. split; [reflexivity|].
  split; [vm_compute; discriminate|]. split; vm_compute; reflexivity.
Qed.

(** ** The whole group *)

Lemma rep_leb n m : (n <= m)%nat -> String.leb (rep n) (rep m) = true.
Proof.
  revert m. induction n as [|n IH]; intros m Hle; [by destruct m|]. destruct m as [|m]; [lia|].
  specialize (IH m ltac:(lia)). unfold String.leb in *. cbn [rep String.compare]. unfold Ascii.compare. by rewrite N.compare_refl.
Qed.

Lemma rep_inj n m : rep n = rep m -> n = m.
Proof. revert m. induction n as [|n IH]; intros [|m]; cbn; try done. intros [= E]. by rewrite (IH m E). Qed.

Lemma ids_fresh : fresh_ids (oracle 10) (ids 10) (w_db (s_world s3)).
Proof.
  assert (Er : runs (w_db (s_world s3)) = ∅) by (vm_compute; reflexivity).
  assert (Eg : run_groups (w_db (s_world s3)) = ∅) by (vm_compute; reflexivity).
  split.
  - reflexivity.
  - intros i j Hij. apply rep_leb. lia.
  - intros i j E. apply rep_inj in E. lia.
  - intros n. discriminate.
  - intros n. by rewrite Er, lookup_empty.
  - intros n. by rewrite Eg, lookup_empty.
  - intros n sid row. by rewrite Er, lookup_empty.
Qed.

Definition demo_sub : SubmissionMeta :=
  mkSubmission sub_id "alice" "sha" "go" "FIX" 9898 "team" "iicpc-submissions/a/artifact.zip" "image" "ready" 1.

Definition demo_scs : list ScenarioMeta :=
  [mkScenario "sc-1" "constant" 1 60 [] 7; mkScenario "sc-2" "spike" 2 60 [] 7; mkScenario "sc-3" "ramp" 3 60 [] 7].

Lemma demo_startable : startable (s_world s3) sub_id "alice" demo_sub demo_scs.
Proof.
  split; [vm_compute; reflexivity|reflexivity|discriminate|discriminate|by right|reflexivity|discriminate|vm_compute; reflexivity|discriminate|..].
  - repeat constructor; set_solver.
  - intros g r. assert (run_groups (w_db (s_world s3)) = ∅) as -> by (vm_compute; reflexivity). by rewrite lookup_empty.
Qed.

(** The second scenario fails, the third still runs, the group fails. *)
Lemma group_runs_to_end_witness :
  exists w1 gid ms r, w_requests (drive (oracle 10) ["completed"; "failed"; "completed"]%string w1) = ms /\
    map bm_ScenarioID ms = ["sc-1"; "sc-2"; "sc-3"]%string /\
    run_groups (w_db (drive (oracle 10) ["completed"; "failed"; "completed"]%string w1)) !! gid = Some r /\ grp_status r = "failed"%string.
Proof.
  destruct (@group_runs_to_end _ MapRange_id_laws _ Collation_C_laws _ (oracle 10) (oracle_calm 10) (ids 10)
              (s_world s3) sub_id "alice" demo_sub demo_scs ["completed"; "failed"; "completed"]%string)
    as (resp & n & w1 & gid & ms & r & _ & _ & _ & Hreq & Hsc & _ & _ & _ & Hr & Hst).
  - exact ids_fresh.
  - exact demo_startable.
  - repeat constructor.
  - reflexivity.
  - exists w1, gid, ms, r. split; [|split; [exact Hsc|split; [exact Hr|exact Hst]]].
    etrans; [exact Hreq|]. assert (w_requests (s_world s3) = []) as -> by (vm_compute; reflexivity). reflexivity.
Defined.

End Demo.
