(* ===== verification/Dispatch.v ===== *)
(** * bot-fleet-controller: the dispatch loop

    [internal/controller/consumer.go]: the loop that fetches benchmark.requested,
    announces each session, waits for one of MAX_CONCURRENT_SESSIONS slots,
    commits and starts the session in its own goroutine; and the loop that
    feeds bot.ready to the session manager.  The loop's program counter and
    every goroutine advance one action at a time; the process can die at any
    point and restart from the committed offset.  The last part puts the loop
    beside the order-band allocator of [Lease]. *)

From stdpp Require Import prelude gmap strings list sorting.
From S2P Require Import Prelude GoSort Topics Replay Gate Lease LeaseProps.

Open Scope Z_scope.

Definition defaultMaxConcurrentSessions : Z := 4.

(** The capacity of the semaphore channel. *)
Definition semaphoreCap (maxConcurrentSessions : Z) : nat :=
  Z.to_nat (if maxConcurrentSessions <=? 0 then defaultMaxConcurrentSessions else maxConcurrentSessions).

(** Where the fetch loop is. *)
Inductive PC :=
| Fetching
| Admitting (off : nat) (req : BenchmarkRequested)     (** first, non-blocking select *)
| Blocked (off : nat) (req : BenchmarkRequested)       (** second select *)
| Committing (off : nat) (req : BenchmarkRequested)
| Starting (off : nat) (req : BenchmarkRequested)
| Returned.

(** A session goroutine: running, or in its deferred function after
    [c.wg.Done()] and before [<-c.sem]. *)
Inductive GState := GRunning | GLeaving.

Record Consumer := mkConsumer {
  c_cap : nat;
  c_log : list (option BenchmarkRequested);
  c_pos : nat;
  c_committed : nat;
  c_pc : PC;
  c_sem : nat;
  c_wg : Z;
  c_sessions : list (BenchmarkRequested * GState);
  c_cancelled : bool;
  c_statuses : list BenchmarkStatusUpdated;
  c_started : list nat }.

Definition NewConsumerWithConcurrency (maxConcurrentSessions : Z) (log : list (option BenchmarkRequested)) : Consumer :=
  mkConsumer (semaphoreCap maxConcurrentSessions) log 0 0 Fetching 0 0 [] false [] [].

Definition set_pc (c : Consumer) (pc : PC) : Consumer :=
  mkConsumer (c_cap c) (c_log c) (c_pos c) (c_committed c) pc (c_sem c) (c_wg c) (c_sessions c) (c_cancelled c) (c_statuses c) (c_started c).

(** [CommitMessages]: the group's offset moves past the message. *)
Definition CommitMessages (ok : bool) (off : nat) (c : Consumer) : Consumer :=
  if ok then mkConsumer (c_cap c) (c_log c) (c_pos c) (Nat.max (c_committed c) (S off)) (c_pc c) (c_sem c) (c_wg c) (c_sessions c)
               (c_cancelled c) (c_statuses c) (c_started c)
  else c.

Definition fetched (c : Consumer) : Consumer :=
  mkConsumer (c_cap c) (c_log c) (S (c_pos c)) (c_committed c) (c_pc c) (c_sem c) (c_wg c) (c_sessions c) (c_cancelled c) (c_statuses c) (c_started c).

(** A failed publish is only logged. *)
Definition publishQueued (ok : bool) (now : Z) (req : BenchmarkRequested) (c : Consumer) : Consumer :=
  if ok then mkConsumer (c_cap c) (c_log c) (c_pos c) (c_committed c) (c_pc c) (c_sem c) (c_wg c) (c_sessions c) (c_cancelled c)
    (c_statuses c ++ [mkStatus (br_SessionID req) (br_SubmissionID req) (br_RunGroupID req) RunStatusQueued "awaiting dispatch slot" now]) (c_started c)
  else c.

(** [c.sem <- struct{}{}], possible while the channel has room. *)
Definition sem_send (c : Consumer) : option Consumer :=
  if (c_sem c <? c_cap c)%nat
  then Some (mkConsumer (c_cap c) (c_log c) (c_pos c) (c_committed c) (c_pc c) (S (c_sem c)) (c_wg c) (c_sessions c) (c_cancelled c) (c_statuses c) (c_started c))
  else None.

(** [startSession]: [c.wg.Add(1)] and the goroutine. *)
Definition startSession (off : nat) (req : BenchmarkRequested) (c : Consumer) : Consumer :=
  mkConsumer (c_cap c) (c_log c) (c_pos c) (c_committed c) (c_pc c) (c_sem c) (c_wg c + 1) (c_sessions c ++ [(req, GRunning)])
    (c_cancelled c) (c_statuses c) (c_started c ++ [off]).

(** The deferred function of [dispatch] runs whether [Run] returned or
    panicked: first [c.wg.Done()], then [<-c.sem]. *)
Definition wg_done (i : nat) (req : BenchmarkRequested) (c : Consumer) : Consumer :=
  mkConsumer (c_cap c) (c_log c) (c_pos c) (c_committed c) (c_pc c) (c_sem c) (c_wg c - 1) (<[i := (req, GLeaving)]> (c_sessions c))
    (c_cancelled c) (c_statuses c) (c_started c).

Definition sem_receive (i : nat) (c : Consumer) : Consumer :=
  mkConsumer (c_cap c) (c_log c) (c_pos c) (c_committed c) (c_pc c) (c_sem c - 1) (c_wg c) (delete i (c_sessions c))
    (c_cancelled c) (c_statuses c) (c_started c).

(** A new process: the topic, its offset and what was published remain. *)
Definition restart (c : Consumer) : Consumer :=
  mkConsumer (c_cap c) (c_log c) (c_committed c) (c_committed c) Fetching 0 0 [] false (c_statuses c) (c_started c).

(** [WaitSessions] reports the join when the counter is back at zero. *)
Definition joined (c : Consumer) : bool := c_wg c =? 0.

(** [cok]: whether commits can fail. *)
Inductive dstep (cok : bool) : Consumer -> Consumer -> Prop :=
| d_fetch_bad c ok :
    c_pc c = Fetching -> c_log c !! c_pos c = Some None -> (cok = true -> ok = true) ->
    dstep cok c (CommitMessages ok (c_pos c) (fetched c))
| d_fetch c req ok now :
    c_pc c = Fetching -> c_log c !! c_pos c = Some (Some req) ->
    dstep cok c (set_pc (publishQueued ok now req (fetched c)) (Admitting (c_pos c) req))
| d_fetch_cancelled c : c_pc c = Fetching -> c_cancelled c = true -> dstep cok c (set_pc c Returned)
| d_admit c off req c' :
    c_pc c = Admitting off req -> sem_send c = Some c' -> dstep cok c (set_pc c' (Committing off req))
| d_block c off req :
    c_pc c = Admitting off req -> sem_send c = None -> dstep cok c (set_pc c (Blocked off req))
| d_unblock c off req c' :
    c_pc c = Blocked off req -> sem_send c = Some c' -> dstep cok c (set_pc c' (Committing off req))
| d_give_up c off req : c_pc c = Blocked off req -> c_cancelled c = true -> dstep cok c (set_pc c Returned)
| d_commit c off req ok :
    c_pc c = Committing off req -> (cok = true -> ok = true) ->
    dstep cok c (set_pc (CommitMessages ok off c) (Starting off req))
| d_start c off req : c_pc c = Starting off req -> dstep cok c (set_pc (startSession off req c) Fetching)
| d_wg_done c i req : c_sessions c !! i = Some (req, GRunning) -> dstep cok c (wg_done i req c)
| d_sem_receive c i req : c_sessions c !! i = Some (req, GLeaving) -> dstep cok c (sem_receive i c)
| d_cancel c :
    dstep cok c (mkConsumer (c_cap c) (c_log c) (c_pos c) (c_committed c) (c_pc c) (c_sem c) (c_wg c) (c_sessions c) true (c_statuses c) (c_started c))
| d_restart c : dstep cok c (restart c).

Definition dreachable (cok : bool) (max : Z) (log : list (option BenchmarkRequested)) (c : Consumer) : Prop :=
  rtc (dstep cok) (NewConsumerWithConcurrency max log) c.

(** [StartBotReady]'s body: a value that does not decode is committed and
    skipped; a signal is committed whether or not its session is known. *)
Definition StartBotReady_body (m : SessionManager) (value : option ReadySignal) : SessionManager * option bool :=
  match value with
  | None => (m, None)
  | Some sig => let '(m', ok) := DispatchReady m sig in (m', Some ok)
  end.

(** ** The slots *)

Definition is_running (s : BenchmarkRequested * GState) : bool := match s.2 with GRunning => true | GLeaving => false end.
Definition running (c : Consumer) : nat := countb is_running (c_sessions c).

(** A slot taken for a session not started yet. *)
Definition reserved (c : Consumer) : nat := match c_pc c with Committing _ _ | Starting _ _ => 1 | _ => 0 end.

Record slots_ok (c : Consumer) : Prop := {
  sl_sem : c_sem c = (length (c_sessions c) + reserved c)%nat;
  sl_cap : (c_sem c <= c_cap c)%nat;
  sl_wg : c_wg c = Z.of_nat (running c) }.

Lemma sem_send_inv c c' : sem_send c = Some c' ->
  (c_sem c < c_cap c)%nat /\
  c' = mkConsumer (c_cap c) (c_log c) (c_pos c) (c_committed c) (c_pc c) (S (c_sem c)) (c_wg c) (c_sessions c) (c_cancelled c) (c_statuses c) (c_started c).
Proof. unfold sem_send. destruct (Nat.ltb_spec (c_sem c) (c_cap c)); [|done]. by intros [= <-]. Qed.

Lemma slots_step cok c c' : dstep cok c c' -> slots_ok c -> slots_ok c'.
Proof.
  intros Hd [H1 H2 H3].
  destruct Hd as [c ok Hpc Hl Hok|c req ok now Hpc Hl|c Hpc _|c off req c' Hpc Hs|c off req Hpc _|c off req c' Hpc Hs|c off req Hpc _|
                  c off req ok Hpc _|c off req Hpc|c i req Hi|c i req Hi|c|c]; unfold reserved in *.
  - unfold CommitMessages. destruct ok; split; cbn; unfold reserved; cbn; rewrite ?Hpc in *; done.
  - unfold publishQueued. destruct ok; split; cbn; rewrite ?Hpc in *; done.
  - split; cbn; rewrite ?Hpc in *; done.
  - apply sem_send_inv in Hs as [Hlt ->]. rewrite Hpc in H1. split; cbn; unfold reserved; cbn; [lia|lia|done].
  - split; cbn; rewrite ?Hpc in *; done.
  - apply sem_send_inv in Hs as [Hlt ->]. rewrite Hpc in H1. split; cbn; unfold reserved; cbn; [lia|lia|done].
  - split; cbn; rewrite ?Hpc in *; done.
  - unfold CommitMessages. destruct ok; split; cbn; rewrite ?Hpc in *; done.
  - rewrite Hpc in H1. split; [cbn|done|cbn [c_wg set_pc startSession]].
    + rewrite length_app. cbn. lia.
    + unfold running in *. cbn [c_sessions set_pc startSession]. rewrite countb_app, Nat2Z.inj_add, H3. done.
  - split; unfold reserved, running in *; cbn [c_sessions wg_done c_sem c_pc c_cap c_wg].
    + by rewrite length_insert.
    + done.
    + pose proof (countb_insert is_running _ i _ (req, GLeaving) Hi) as Hc. cbn in Hc. lia.
  - pose proof (lookup_lt_Some _ _ _ Hi) as Hlt. split; unfold reserved, running in *; cbn [c_sessions sem_receive c_sem c_pc c_cap c_wg].
    + rewrite length_delete by (by eexists). destruct (c_pc c); lia.
    + lia.
    + pose proof (countb_delete is_running _ i _ Hi) as Hc. cbn in Hc. lia.
  - by split.
  - split; cbn; try done. lia.
Qed.

Lemma slots_init max log : slots_ok (NewConsumerWithConcurrency max log).
Proof. split; cbn; try done. lia. Qed.

Lemma dreachable_slots cok max log c : dreachable cok max log c -> slots_ok c.
Proof.
  intros Hr. unfold dreachable in Hr. apply (rtc_ind_r slots_ok) in Hr; [done|apply slots_init|].
  intros y z _ Hyz. by eapply slots_step.
Qed.

Lemma cap_step cok c c' : dstep cok c c' -> c_cap c' = c_cap c /\ c_log c' = c_log c.
Proof.
  destruct 1; try done; try (apply sem_send_inv in H0 as [_ ->]; done).
  - unfold CommitMessages. by destruct ok.
  - unfold publishQueued. by destruct ok.
  - unfold CommitMessages. by destruct ok.
Qed.

Lemma dreachable_cap cok max log c : dreachable cok max log c -> c_cap c = semaphoreCap max /\ c_log c = log.
Proof.
  intros Hr. unfold dreachable in Hr. apply (rtc_ind_r (fun c => c_cap c = semaphoreCap max /\ c_log c = log)) in Hr; [done|done|].
  intros y z _ Hyz [E1 E2]. apply cap_step in Hyz as [-> ->]. done.
Qed.

(** The number of sessions in flight is bounded, and shutdown sees them.  In
    every reachable state, restarts and cancellations included, at most
    MAX_CONCURRENT_SESSIONS goroutines hold a slot (a bound that is not
    positive means 4); the semaphore counts exactly those and the session being
    started; and the wait group is zero, so that [WaitSessions] reports the
    join, exactly when no session is running. *)
Theorem dispatch_bounded cok max log c :
  dreachable cok max log c ->
  (length (c_sessions c) <= semaphoreCap max)%nat /\
  c_sem c = (length (c_sessions c) + reserved c)%nat /\ (c_sem c <= semaphoreCap max)%nat /\
  (joined c = true <-> forall i req st, c_sessions c !! i = Some (req, st) -> st = GLeaving).
Proof.
  intros Hr. destruct (dreachable_slots _ _ _ _ Hr) as [H1 H2 H3]. destruct (dreachable_cap _ _ _ _ Hr) as [Hc _]. rewrite <-Hc.
  split_and!; [lia|done|done|]. unfold joined. rewrite H3. unfold running, countb. rewrite Z.eqb_eq. split.
  - intros E i req st Hi. destruct st; [|done]. exfalso.
    assert (Hin : In (req, GRunning) (List.filter is_running (c_sessions c))).
    { apply filter_In. split; [|done]. apply list_elem_of_In. by eapply list_elem_of_lookup_2. }
    destruct (List.filter is_running (c_sessions c)); [done|cbn in E; lia].
  - intros Hall. destruct (List.filter is_running (c_sessions c)) as [|[req st] l] eqn:E; [done|]. exfalso.
    assert (Hin : In (req, st) ((req, st) :: l)) by (left; done). rewrite <-E in Hin. apply filter_In in Hin as [Hin Hrun].
    apply list_elem_of_In, list_elem_of_lookup in Hin as [i Hi]. rewrite (Hall i req st Hi) in Hrun. done.
Qed.

(** ** At most once *)

(** The message the loop holds, and what it may say about its offset. *)
Record offsets_ok (c : Consumer) : Prop := {
  of_sorted : StronglySorted lt (c_started c);
  of_decoded off : off ∈ c_started c -> exists req, c_log c !! off = Some (Some req);
  of_below off : off ∈ c_started c -> (off < c_committed c)%nat;
  of_pos : (c_committed c <= c_pos c)%nat;
  of_held off req : (c_pc c = Admitting off req \/ c_pc c = Blocked off req \/ c_pc c = Committing off req) ->
    (c_committed c <= off)%nat /\ c_pos c = S off /\ c_log c !! off = Some (Some req);
  of_starting off req : c_pc c = Starting off req ->
    c_committed c = S off /\ c_pos c = S off /\ c_log c !! off = Some (Some req) /\ forall off', off' ∈ c_started c -> (off' < off)%nat }.

Lemma offsets_init max log : offsets_ok (NewConsumerWithConcurrency max log).
Proof.
  split; cbn; try done.
  - constructor.
  - intros off Hin. by apply elem_of_nil in Hin.
  - intros off Hin. by apply elem_of_nil in Hin.
  - intros off req [?|[?|?]]; done.
Qed.

(** The parts of the state the offsets depend on. *)
Lemma offsets_frame c c' :
  c_log c' = c_log c -> c_started c' = c_started c -> c_committed c' = c_committed c -> c_pos c' = c_pos c -> c_pc c' = c_pc c ->
  offsets_ok c -> offsets_ok c'.
Proof. intros E1 E2 E3 E4 E5 [? ? ? ? ? ?]. split; rewrite ?E1, ?E2, ?E3, ?E4, ?E5; done. Qed.

(** The loop moves on with the message it holds. *)
Lemma offsets_hold c pc off req :
  (c_pc c = Admitting off req \/ c_pc c = Blocked off req \/ c_pc c = Committing off req) ->
  (pc = Blocked off req \/ pc = Committing off req \/ pc = Returned) ->
  offsets_ok c -> offsets_ok (set_pc c pc).
Proof.
  intros Hpc Hnew [H1 H2 H3 H4 H5 H6]. split; cbn; try done.
  - intros off' req' Hor. pose proof (H5 off req Hpc). destruct Hnew as [->|[->| ->]], Hor as [E|[E|E]]; try done; by injection E as -> ->.
  - intros off' req' E. destruct Hnew as [->|[->| ->]]; done.
Qed.

Lemma offsets_sem c c' : sem_send c = Some c' -> offsets_ok c -> offsets_ok c' /\ c_pc c' = c_pc c.
Proof. intros [_ ->]%sem_send_inv Ho. split; [|done]. by eapply offsets_frame, Ho. Qed.

Lemma offsets_step c c' : dstep true c c' -> offsets_ok c -> offsets_ok c'.
Proof.
  intros Hd Ho. destruct Hd as [c ok Hpc Hl Hok|c req ok now Hpc Hl|c Hpc _|c off req c' Hpc Hs|c off req Hpc _|c off req c' Hpc Hs|c off req Hpc _|
                  c off req ok Hpc Hok|c off req Hpc|c i req Hi|c i req Hi|c|c].
  - rewrite (Hok eq_refl). destruct Ho as [H1 H2 H3 H4 H5 H6]. cbn. split; cbn; try done; try rewrite Hpc; try done; try lia.
    + intros off Hin. apply H3 in Hin. lia.
    + intros off req [?|[?|?]]; done.
  - assert (Ho' : offsets_ok (set_pc (fetched c) (Admitting (c_pos c) req))).
    { destruct Ho as [H1 H2 H3 H4 H5 H6]. split; cbn; try done; try lia.
      intros off' req' [E|[E|E]]; try done. injection E as <- <-. done. }
    unfold publishQueued. destruct ok; [by eapply offsets_frame, Ho'|done].
  - destruct Ho as [H1 H2 H3 H4 H5 H6]. split; cbn; try done. intros off req [?|[?|?]]; done.
  - destruct (offsets_sem _ _ Hs Ho) as [Ho' Hpc']. apply (offsets_hold c' _ off req); [left; congruence|auto|done].
  - apply (offsets_hold c _ off req); auto.
  - destruct (offsets_sem _ _ Hs Ho) as [Ho' Hpc']. apply (offsets_hold c' _ off req); [right; left; congruence|auto|done].
  - apply (offsets_hold c _ off req); auto.
  - rewrite (Hok eq_refl). destruct Ho as [H1 H2 H3 H4 H5 H6]. destruct (H5 off req) as (Hc & Hp & Hl); [auto|].
    assert (Hmax : Nat.max (c_committed c) (S off) = S off) by lia. split; cbn; rewrite ?Hmax; try done; try lia.
    + intros off' Hin. apply H3 in Hin. lia.
    + intros off' req' [?|[?|?]]; done.
    + intros off' req' [= <- <-]. split_and!; try done. intros off' Hin. apply H3 in Hin. lia.
  - destruct Ho as [H1 H2 H3 H4 H5 H6]. destruct (H6 off req Hpc) as (Hc & Hp & Hl & Hlt). split; cbn; try done.
    + apply StronglySorted_app_iff. split_and!; [done|repeat constructor|].
      intros x y Hx Hy%list_elem_of_singleton. subst y. by apply Hlt.
    + intros off' [Hin| ->%list_elem_of_singleton]%elem_of_app; [by apply H2|by exists req].
    + intros off' [Hin| ->%list_elem_of_singleton]%elem_of_app; [by apply H3|lia].
    + intros off' req' [?|[?|?]]; done.
  - by eapply offsets_frame, Ho.
  - by eapply offsets_frame, Ho.
  - by eapply offsets_frame, Ho.
  - destruct Ho as [H1 H2 H3 H4 H5 H6]. split; cbn; try done. intros off req [?|[?|?]]; done.
Qed.

(** A request starts at most one session, in topic order, across restarts.
    When offset commits succeed, the offsets of the started sessions are
    strictly increasing whatever restarts and cancellations happen, each is
    a request that decodes, and each was committed before its session started:
    a restarted controller never starts it again. *)
Theorem dispatch_once max log c :
  dreachable true max log c ->
  StronglySorted lt (c_started c) /\
  (forall off, off ∈ c_started c -> (off < c_committed c)%nat /\ exists req, log !! off = Some (Some req)) /\
  (c_committed c <= c_pos c)%nat.
Proof.
  intros Hr. destruct (dreachable_cap _ _ _ _ Hr) as [_ Hl]. unfold dreachable in Hr.
  apply (rtc_ind_r offsets_ok) in Hr as [H1 H2 H3 H4 _ _]; [|apply offsets_init|intros y z _ Hyz; by apply offsets_step].
  split_and!; [done| |done]. intros off Hin. split; [by apply H3|]. rewrite <-Hl. by apply H2.
Qed.

(** ** Work conservation *)

(** The loop alone, from a message it holds to its session. *)
Lemma loop_starts cok c off req :
  (c_pc c = Admitting off req \/ c_pc c = Blocked off req) -> (c_sem c < c_cap c)%nat ->
  exists c', rtc (dstep cok) c c' /\ c_pc c' = Fetching /\ c_started c' = c_started c ++ [off] /\
    c_sessions c' = c_sessions c ++ [(req, GRunning)].
Proof.
  intros Hpc Hlt. assert (Hs : exists c1, sem_send c = Some c1) by (unfold sem_send; apply Nat.ltb_lt in Hlt; rewrite Hlt; by eexists).
  destruct Hs as [c1 Hs]. exists (set_pc (startSession off req (set_pc (CommitMessages true off (set_pc c1 (Committing off req))) (Starting off req))) Fetching).
  apply sem_send_inv in Hs as Hinv. destruct Hinv as [_ Hc1]. split_and!; [|done|by subst c1|by subst c1].
  eapply rtc_l. { destruct Hpc as [Hpc|Hpc]; [by eapply d_admit|by eapply d_unblock]. }
  eapply rtc_l. { eapply (d_commit cok _ off req true); done. }
  eapply rtc_l. { by eapply d_start. } apply rtc_refl.
Qed.

(** No slot stays idle while a request waits.  A request the loop holds is
    started by the loop alone as soon as one slot is free; and if none is,
    MAX_CONCURRENT_SESSIONS sessions are in flight and the end of any one of
    them, whether its run returned or panicked, lets the request start. *)
Theorem dispatch_work_conserving cok max log c off req :
  dreachable cok max log c -> (c_pc c = Admitting off req \/ c_pc c = Blocked off req) ->
  ((length (c_sessions c) < semaphoreCap max)%nat ->
     exists c', rtc (dstep cok) c c' /\ c_started c' = c_started c ++ [off] /\ c_sessions c' = c_sessions c ++ [(req, GRunning)]) /\
  (~ (length (c_sessions c) < semaphoreCap max)%nat ->
     length (c_sessions c) = semaphoreCap max /\ (0 < semaphoreCap max)%nat /\
     forall i req', c_sessions c !! i = Some (req', GRunning) ->
       exists c', rtc (dstep cok) (sem_receive i (wg_done i req' c)) c' /\ c_started c' = c_started c ++ [off] /\
         dstep cok c (wg_done i req' c) /\ dstep cok (wg_done i req' c) (sem_receive i (wg_done i req' c))).
Proof.
  intros Hr Hpc. destruct (dreachable_slots _ _ _ _ Hr) as [H1 H2 H3]. destruct (dreachable_cap _ _ _ _ Hr) as [Hc _]. rewrite <-Hc.
  assert (Hres : reserved c = 0%nat) by (unfold reserved; by destruct Hpc as [-> | ->]).
  split.
  - intros Hlt. destruct (loop_starts cok c off req Hpc) as (c' & Hsteps & _ & ? & ?); [lia|]. by exists c'.
  - intros Hnlt. split; [lia|]. split.
    { rewrite Hc. unfold semaphoreCap, defaultMaxConcurrentSessions. destruct (Z.leb_spec max 0); lia. }
    intros i req' Hi. pose proof (lookup_lt_Some _ _ _ Hi) as Hilt.
    destruct (loop_starts cok (sem_receive i (wg_done i req' c)) off req) as (c' & Hsteps & _ & Hst & _); [exact Hpc|cbn; lia|].
    exists c'. split_and!; [done|exact Hst|by apply d_wg_done|]. apply (d_sem_receive _ _ i req'). cbn.
    by rewrite list_lookup_insert_eq.
Qed.

(** ** Slots and order bands *)

(** The loop beside the band allocator: [main] gives both the same bound.  A
    session asks for one band, and only while it runs; it has given its band back
    when its run ends, unless another goroutine of the same session holds it. *)
Inductive bstep (cok : bool) (total : Z) : Consumer * PartitionLeaseAllocator -> Consumer * PartitionLeaseAllocator -> Prop :=
| b_loop c c' a :
    dstep cok c c' -> (forall i req, c_sessions c !! i = Some (req, GRunning) -> c_sessions c' !! i = Some (req, GRunning)) ->
    bstep cok total (c, a) (c', a)
| b_done c a i req :
    c_sessions c !! i = Some (req, GRunning) ->
    (a_leasedBy a !! br_SessionID req = None \/
     exists j req', j <> i /\ c_sessions c !! j = Some (req', GRunning) /\ br_SessionID req' = br_SessionID req) ->
    bstep cok total (c, a) (wg_done i req c, a)
| b_leave c a i req : c_sessions c !! i = Some (req, GLeaving) -> bstep cok total (c, a) (sem_receive i c, a)
| b_acquire c a i req mr (L : @MapRangeLaws mr) ptr out a' :
    c_sessions c !! i = Some (req, GRunning) -> @Acquire mr a ptr (br_SessionID req) 1 = (out, a') ->
    bstep cok total (c, a) (c, a')
| b_release c a i req mr (L : @MapRangeLaws mr) :
    c_sessions c !! i = Some (req, GRunning) -> bstep cok total (c, a) (c, @Release mr a (br_SessionID req))
| b_restart c a : bstep cok total (c, a) (restart c, newLeaseAllocator total).

Definition breachable (cok : bool) (max : Z) (log : list (option BenchmarkRequested)) : Consumer * PartitionLeaseAllocator -> Prop :=
  rtc (bstep cok max) (NewConsumerWithConcurrency max log, newLeaseAllocator max).

(** Every holder runs, holds one band, and nobody waits. *)
Record bands_ok (max : Z) (c : Consumer) (a : PartitionLeaseAllocator) : Prop := {
  bo_slots : slots_ok c;
  bo_cap : c_cap c = semaphoreCap max;
  bo_total : a_total a = max;
  bo_core : core_ok (a_total a) (a_free a) (a_leasedBy a);
  bo_queue : a_queue a = [];
  bo_one s l : a_leasedBy a !! s = Some l -> length l = 1%nat;
  bo_held s l : a_leasedBy a !! s = Some l -> exists i req, c_sessions c !! i = Some (req, GRunning) /\ br_SessionID req = s }.

(** Leases of one band each. *)
Lemma leased_parts_size (leased : gmap string (list Z)) :
  (forall s l, leased !! s = Some l -> length l = 1%nat) -> length (leased_parts leased) = size leased.
Proof.
  intros H1. unfold leased_parts. rewrite <-length_map_to_list.
  assert (Hall : Forall (fun kl : string * list Z => length kl.2 = 1%nat) (map_to_list leased)).
  { rewrite Forall_forall. intros [s l] Hin. apply elem_of_map_to_list in Hin. by eapply H1. }
  clear H1. induction Hall as [|x l Hx Hall IH]; cbn; [done|]. rewrite length_app, Hx, IH. done.
Qed.

Lemma running_ids c (leased : gmap string (list Z)) sid :
  (forall s l, leased !! s = Some l -> exists i req, c_sessions c !! i = Some (req, GRunning) /\ br_SessionID req = s) ->
  leased !! sid = None -> (exists i req, c_sessions c !! i = Some (req, GRunning) /\ br_SessionID req = sid) ->
  (S (size leased) <= length (c_sessions c))%nat.
Proof.
  intros Hheld Hnone Hsid.
  assert (Hsub : {[sid]} ∪ dom leased ⊆ (list_to_set (map (fun s => br_SessionID s.1) (c_sessions c)) : gset string)).
  { intros s Hs. rewrite elem_of_list_to_set, list_elem_of_fmap.
    assert (Hrun : exists i req, c_sessions c !! i = Some (req, GRunning) /\ br_SessionID req = s).
    { apply elem_of_union in Hs as [->%elem_of_singleton|Hs]; [done|]. apply elem_of_dom in Hs as [l Hl]. by eapply Hheld. }
    destruct Hrun as (i & req & Hi & <-). exists (req, GRunning). split; [done|]. by eapply list_elem_of_lookup_2. }
  apply subseteq_size in Hsub. rewrite size_union in Hsub by (apply not_elem_of_dom in Hnone; set_solver).
  rewrite size_singleton, size_dom in Hsub. etrans; [exact Hsub|]. etrans; [apply size_list_to_set_le|]. by rewrite length_map.
Qed.

(** A running session without a band finds one free. *)
Lemma band_free max c a sid :
  0 < max -> bands_ok max c a -> a_leasedBy a !! sid = None ->
  (exists i req, c_sessions c !! i = Some (req, GRunning) /\ br_SessionID req = sid) -> 1 <= Z.of_nat (size (a_free a)).
Proof.
  intros Hmax [Hsl Hcap Htot Hcore _ Hone Hheld] Hnone Hrun. rewrite Htot in Hcore.
  pose proof (core_count max _ _ (Z.lt_le_incl _ _ Hmax) Hcore) as Hcount. rewrite (leased_parts_size _ Hone) in Hcount.
  pose proof (running_ids c _ sid Hheld Hnone Hrun) as Hlen. pose proof (sl_sem _ Hsl). pose proof (sl_cap _ Hsl) as Hle.
  rewrite Hcap in Hle. unfold semaphoreCap in Hle. destruct (Z.leb_spec max 0); lia.
Qed.

Lemma bands_acquire max c a mr (L : @MapRangeLaws mr) ptr sid out a' :
  0 < max -> bands_ok max c a -> (exists i req, c_sessions c !! i = Some (req, GRunning) /\ br_SessionID req = sid) ->
  @Acquire mr a ptr sid 1 = (out, a') ->
  bands_ok max c a' /\ (a_leasedBy a !! sid = None -> exists b, out = Granted [b]).
Proof.
  intros Hmax Hb Hrun. unfold Acquire. cbn [Z.leb Z.compare].
  rewrite (bo_total _ _ _ Hb). destruct (Z.ltb_spec max 1); [lia|].
  case_bool_decide as Hs; [intros [= <- <-]; split; [done|]; intros E; rewrite E in Hs; by destruct Hs|].
  rewrite <-eq_None_not_Some in Hs. rewrite (bo_queue _ _ _ Hb). cbn [length Nat.eqb andb].
  pose proof (band_free max c a sid Hmax Hb Hs Hrun) as Hfree. destruct (Z.leb_spec 1 (Z.of_nat (size (a_free a)))); [|lia].
  assert (Hpre : lease_pre (mkAlloc (a_total a) (a_free a) (a_leasedBy a) [] ∅)).
  { split; cbn; [apply Hb|apply NoDup_nil_2|apply NoDup_nil_2|by intros w Hw%elem_of_nil|intros *; by rewrite lookup_empty|
      by intros w Hw%elem_of_nil|intros *; by rewrite lookup_empty]. }
  pose proof (@takeLocked_spec mr L _ sid 1 Hpre ltac:(cbn; lia)) as (Hnd & Hne & Hlen & Hsub). unfold takeLocked in *. cbn [fst a_free] in *.
  set (parts := sort_stable _ _) in *. intros [= <- <-].
  assert (Hlen1 : length parts = 1%nat) by lia. split.
  - destruct Hb as [Hsl Hcap Htot Hcore Hq Hone Hheld]. split; cbn -[parts]; try done.
    + by apply core_take.
    + intros s l. rewrite lookup_insert_Some. intros [[<- <-]|[_ Hl]]; [done|by eapply Hone].
    + intros s l. rewrite lookup_insert_Some. intros [[<- _]|[_ Hl]]; [done|by eapply Hheld].
  - intros _. destruct parts as [|b [|]]; [done|by exists b|done].
Qed.

Lemma bands_release max c a mr (L : @MapRangeLaws mr) sid : bands_ok max c a -> bands_ok max c (@Release mr a sid).
Proof.
  intros Hb. unfold Release. destruct (a_leasedBy a !! sid) as [parts|] eqn:Es; [|done].
  unfold give_back, serveQueueLocked. cbn [a_queue]. rewrite (bo_queue _ _ _ Hb). cbn [length serve].
  destruct Hb as [Hsl Hcap Htot Hcore Hq Hone Hheld]. split; cbn; try done.
  - by apply core_give.
  - intros s l [_ Hl]%lookup_delete_Some. by eapply Hone.
  - intros s l [_ Hl]%lookup_delete_Some. by eapply Hheld.
Qed.

Lemma bands_step cok max c a c' a' : 0 < max -> bstep cok max (c, a) (c', a') -> bands_ok max c a -> bands_ok max c' a'.
Proof.
  intros Hmax Hs Hb. inversion Hs as [c0 c1 a0 Hd Hkeep|c0 a0 i req Hi Hfree|c0 a0 i req Hi|c0 a0 i req mr L ptr out a1 Hi Hacq|c0 a0 i req mr L Hi|c0 a0]; subst.
  - pose proof (cap_step _ _ _ Hd) as [Hc _]. apply slots_step in Hd; [|apply Hb]. destruct Hb as [Hsl Hcap Htot Hcore Hq Hone Hheld].
    split; try done; [congruence|]. intros s l Hl. destruct (Hheld s l Hl) as (i & req & Hi & <-). exists i, req. auto.
  - assert (Hd : dstep cok c (wg_done i req c)) by (by apply d_wg_done). apply slots_step in Hd; [|apply Hb].
    destruct Hb as [Hsl Hcap Htot Hcore Hq Hone Hheld]. split; try done. intros s l Hl. cbn.
    destruct (Hheld s l Hl) as (j & req' & Hj & Hs'). destruct (decide (j = i)) as [->|Hne].
    + assert (req' = req) as -> by congruence. destruct Hfree as [Hn|(k & req2 & Hk & Hk2 & Hk3)]; [congruence|].
      exists k, req2. rewrite list_lookup_insert_ne by done. split; [done|congruence].
    + exists j, req'. by rewrite list_lookup_insert_ne.
  - assert (Hd : dstep cok c (sem_receive i c)) by (by eapply d_sem_receive). apply slots_step in Hd; [|apply Hb].
    destruct Hb as [Hsl Hcap Htot Hcore Hq Hone Hheld]. split; try done. intros s l Hl. cbn.
    destruct (Hheld s l Hl) as (j & req' & Hj & Hs'). destruct (decide (j = i)) as [->|Hne]; [congruence|].
    destruct (decide (j < i)%nat) as [Hlt|Hge].
    + exists j, req'. rewrite list_lookup_delete_lt by done. done.
    + exists (j - 1)%nat, req'. rewrite list_lookup_delete_ge by lia. replace (S (j - 1)) with j by lia. done.
  - refine (proj1 (bands_acquire max c' a mr L ptr (br_SessionID req) out a' Hmax Hb _ Hacq)). by exists i, req.
  - by apply bands_release.
  - destruct Hb as [Hsl Hcap Htot Hcore Hq Hone Hheld]. assert (Hd : dstep cok c (restart c)) by constructor.
    apply slots_step in Hd; [|done]. split; try done; [by apply core_new|..]; intros *; cbn; by rewrite lookup_empty.
Qed.

Lemma breachable_bands cok max log s : 0 < max -> breachable cok max log s -> bands_ok max s.1 s.2.
Proof.
  intros Hmax Hr. unfold breachable in Hr. apply (rtc_ind_r (fun s => bands_ok max s.1 s.2)) in Hr; [done| |].
  - split; try done; [apply slots_init|exact (core_new max)|..]; intros *; cbn; by rewrite lookup_empty.
  - intros [c a] [c' a'] _ Hstep. by eapply bands_step.
Qed.

(** A dispatched session never waits for an order band.  With as many bands
    as MAX_CONCURRENT_SESSIONS, as [main] configures them, in every reachable state of the loop and the
    allocator together no session is queued for a band, and a running session
    that asks for its band is granted one at once (or told it already holds
    one): admission to a slot is admission to a band. *)
Theorem band_never_waits cok max log c a mr (L : @MapRangeLaws mr) ptr i req out a' :
  0 < max -> breachable cok max log (c, a) -> c_sessions c !! i = Some (req, GRunning) ->
  @Acquire mr a ptr (br_SessionID req) 1 = (out, a') ->
  a_queue a = [] /\
  match a_leasedBy a !! br_SessionID req with
  | None => exists b, out = Granted [b] /\ 0 <= b < max
  | Some _ => out = Refused (AlreadyHolds (br_SessionID req))
  end.
Proof.
  intros Hmax Hr Hi Hacq. pose proof (breachable_bands _ _ _ _ Hmax Hr) as Hb. cbn [fst snd] in Hb. split; [apply Hb|].
  destruct (bands_acquire max c a mr L ptr (br_SessionID req) out a' Hmax Hb ltac:(by exists i, req) Hacq) as [Hb' Hg].
  destruct (a_leasedBy a !! br_SessionID req) as [l|] eqn:El.
  - unfold Acquire in Hacq. cbn in Hacq. rewrite (bo_total _ _ _ Hb), El in Hacq. destruct (Z.ltb_spec max 1); [lia|].
    rewrite bool_decide_true in Hacq by (by eexists). by injection Hacq as <- <-.
  - destruct (Hg eq_refl) as [b ->]. exists b. split; [done|].
    assert (Hl : a_leasedBy a' !! br_SessionID req = Some [b]).
    { unfold Acquire in Hacq. cbn in Hacq. rewrite (bo_total _ _ _ Hb), El, (bo_queue _ _ _ Hb) in Hacq.
      destruct (Z.ltb_spec max 1); [lia|]. rewrite bool_decide_false in Hacq by (by intros [? ?]). cbn in Hacq.
      destruct (1 <=? _); [|done]. injection Hacq as Hp <-. cbn. rewrite lookup_insert_eq. by f_equal. }
    pose proof (bo_core _ _ _ Hb') as (Hc & _). rewrite (bo_total _ _ _ Hb') in Hc. apply Hc. right. exists (br_SessionID req), [b].
    split; [done|left].
Qed.

(** ** A run with one slot: the first session runs, the second request waits *)

Module DispatchDemo.

Definition reqA : BenchmarkRequested := Build_BenchmarkRequested "A" "s" "c" "g" "sc" 0.
Definition reqB : BenchmarkRequested := Build_BenchmarkRequested "B" "s" "c" "h" "sc" 0.
Definition log : list (option BenchmarkRequested) := [Some reqA; None; Some reqB].

Definition started : Consumer :=
  mkConsumer 1 log 1 1 Fetching 1 1 [(reqA, GRunning)] false [mkStatus "A" "s" "g" RunStatusQueued "awaiting dispatch slot" 5] [0%nat].

Definition blocked : Consumer :=
  mkConsumer 1 log 3 2 (Blocked 2 reqB) 1 1 [(reqA, GRunning)] false
    [mkStatus "A" "s" "g" RunStatusQueued "awaiting dispatch slot" 5; mkStatus "B" "s" "h" RunStatusQueued "awaiting dispatch slot" 6] [0%nat].

Lemma started_reachable cok : dreachable cok 1 log started.
Proof.
  eapply rtc_l; [eapply (d_fetch cok _ reqA true 5); reflexivity|].
  eapply rtc_l; [eapply d_admit; reflexivity|]. eapply rtc_l; [eapply (d_commit cok _ _ _ true); reflexivity|].
  eapply rtc_l; [eapply d_start; reflexivity|]. apply rtc_refl.
Qed.

Lemma blocked_reachable cok : dreachable cok 1 log blocked.
Proof.
  unfold dreachable. transitivity started; [apply started_reachable|]. eapply rtc_l; [eapply (d_fetch_bad cok _ true); reflexivity|].
  eapply rtc_l; [eapply (d_fetch cok _ reqB true 6); reflexivity|]. eapply rtc_l; [eapply d_block; reflexivity|]. apply rtc_refl.
Qed.

Lemma dispatch_bounded_witness : length (c_sessions blocked) = 1%nat /\ (c_sem blocked <= semaphoreCap 1)%nat /\ joined blocked = false.
Proof.
  destruct (dispatch_bounded false 1 log blocked (blocked_reachable false)) as (_ & _ & Hc & Hj).
  split; [reflexivity|]. split; [exact Hc|]. reflexivity.
Defined.

Lemma dispatch_once_witness : c_started blocked = [0%nat] /\ exists req, log !! 0%nat = Some (Some req).
Proof.
  destruct (dispatch_once 1 log blocked (blocked_reachable true)) as (_ & Hd & _). split; [reflexivity|].
  apply (Hd 0%nat). left.
Defined.

Lemma dispatch_work_conserving_witness :
  exists c', rtc (dstep false) (sem_receive 0 (wg_done 0 reqA blocked)) c' /\ c_started c' = [0; 2]%nat.
Proof.
  destruct (dispatch_work_conserving false 1 log blocked 2 reqB (blocked_reachable false)) as [_ Hfull]; [right; reflexivity|].
  destruct Hfull as (_ & _ & Hend); [intros Hlt; vm_compute in Hlt; lia|]. destruct (Hend 0%nat reqA eq_refl) as (c' & Hsteps & Hst & _). by exists c'.
Defined.

(** The slot's session is granted its band at once. *)
Lemma band_never_waits_witness :
  exists b, (@Acquire MapRange_id (newLeaseAllocator 1) 1%positive "A" 1).1 = Granted [b] /\ 0 <= b < 1.
Proof.
  destruct (@Acquire MapRange_id (newLeaseAllocator 1) 1%positive "A" 1) as [out a'] eqn:E.
  assert (Hr : breachable false 1 log (started, newLeaseAllocator 1)).
  { assert (Hl : forall c c', dstep false c c' -> c_sessions c = [] -> bstep false 1 (c, newLeaseAllocator 1) (c', newLeaseAllocator 1)).
    { intros c c' Hd Hs. apply b_loop; [done|]. rewrite Hs. done. }
    eapply rtc_l; [apply Hl; [eapply (d_fetch false _ reqA true 5); reflexivity|reflexivity]|].
    eapply rtc_l; [apply Hl; [eapply d_admit; reflexivity|reflexivity]|].
    eapply rtc_l; [apply Hl; [eapply (d_commit false _ _ _ true); reflexivity|reflexivity]|].
    eapply rtc_l; [apply Hl; [eapply d_start; reflexivity|reflexivity]|]. apply rtc_refl. }
  destruct (band_never_waits false 1 log started (newLeaseAllocator 1) MapRange_id MapRange_id_laws 1%positive 0 reqA out a'
              ltac:(lia) Hr eq_refl E) as [_ Hout].
  cbn in Hout. destruct Hout as (b & -> & Hb). exists b. split; [reflexivity|exact Hb].
Defined.

End DispatchDemo.
