(* ===== verification/Archive.v ===== *)
(** * build-worker: archives on disk

    [filepath.Clean] and [filepath.Join] (Unix) on strings,
    [internal/precheck/zipslip.go], and [extractZip] of [cmd/fetcher/main.go],
    which runs right after it.  The zip reader is a parameter: what it
    delivers is a list of entries. *)

From Stdlib Require Import Ascii.
From stdpp Require Import prelude gmap strings list.
From S2P Require Import Prelude Topics.

Open Scope Z_scope.

Definition slash : ascii := "/"%char.

(** ** path/filepath *)

Fixpoint join_slash (ws : list string) : string :=
  match ws with
  | [] => ""
  | [w] => w
  | w :: ws => w +:+ String slash (join_slash ws)
  end.

(** One path component on the stack of those kept so far, last first. *)
Definition clean_step (rooted : bool) (st : list string) (c : string) : list string :=
  if bool_decide (c = ""%string) || bool_decide (c = "."%string) then st
  else if bool_decide (c = ".."%string) then
    match st with
    | top :: rest => if bool_decide (top = ".."%string) then c :: st else rest
    | [] => if rooted then [] else [c]
    end
  else c :: st.

Definition rooted (path : string) : bool := match path with String c _ => Ascii.eqb c slash | EmptyString => false end.

Definition Clean (path : string) : string :=
  if bool_decide (path = ""%string) then "."
  else
    let body := join_slash (rev (foldl (clean_step (rooted path)) [] (split_on slash path))) in
    if rooted path then String slash body else if bool_decide (body = ""%string) then "." else body.

Definition Join (elems : list string) : string :=
  match List.filter (fun e => negb (bool_decide (e = ""%string))) elems with
  | [] => ""
  | elems => Clean (join_slash elems)
  end.

(** [filepath.Dir]: everything up to and including the last slash, cleaned. *)
Definition Dir (path : string) : string := Clean (join_slash (removelast (split_on slash path) ++ [""%string])).

Definition HasPrefix (s prefix : string) : bool := String.prefix prefix s.

(** ** zipslip.go *)

Record ZipFile := mkZipFile { zf_Name : string; zf_IsDir : bool; zf_Data : option string }.

Definition safe_root : string := "/safe".

Definition slips (name : string) : bool :=
  let target := Join [safe_root; name] in
  negb (HasPrefix target (safe_root +:+ String slash "")) && negb (bool_decide (target = safe_root)).

Inductive PrecheckErr := ReadZip | ZipSlip (name : string).

Definition CheckZipSlip (zr : option (list ZipFile)) : PrecheckErr + unit :=
  match zr with
  | None => inl ReadZip
  | Some files => match List.filter (fun f => slips (zf_Name f)) files with f :: _ => inl (ZipSlip (zf_Name f)) | [] => inr tt end
  end.

(** ** extractZip *)

(** What is asked of the file system, in order. *)
Inductive FsOp := MkdirAll (path : string) | WriteFile (path data : string).

Definition op_path (op : FsOp) : string := match op with MkdirAll p | WriteFile p _ => p end.

(** [fs]: whether the operation succeeds.  The operations performed, and
    whether the extraction was completed. *)
Fixpoint extract_files (fs : FsOp -> bool) (destDir : string) (files : list ZipFile) : list FsOp * bool :=
  match files with
  | [] => ([], true)
  | f :: files =>
      let target := Join [destDir; zf_Name f] in
      let continue ops := let '(rest, ok) := extract_files fs destDir files in (ops ++ rest, ok) in
      if zf_IsDir f then
        if fs (MkdirAll target) then continue [MkdirAll target] else ([MkdirAll target], false)
      else if negb (fs (MkdirAll (Dir target))) then ([MkdirAll (Dir target)], false)
      else
        match zf_Data f with
        | None => ([MkdirAll (Dir target)], false)
        | Some data =>
            if fs (WriteFile target data) then continue [MkdirAll (Dir target); WriteFile target data]
            else ([MkdirAll (Dir target); WriteFile target data], false)
        end
  end.

Definition extractZip (fs : FsOp -> bool) (zr : option (list ZipFile)) (destDir : string) : list FsOp * bool :=
  match zr with None => ([], false) | Some files => extract_files fs destDir files end.

(** The fetcher's use of the two. *)
Definition fetch_extract (fs : FsOp -> bool) (zr : option (list ZipFile)) : list FsOp * bool :=
  match CheckZipSlip zr with
  | inl _ => ([], false)
  | inr _ => extractZip fs zr "/workspace"
  end.

(** ** Lemmas *)

Definition no_slash (s : string) : Prop := forall_bytes (fun c => negb (Ascii.eqb c slash)) s = true.

Lemma split_on_no_sep sep s : Forall (fun w => forall_bytes (fun c => negb (Ascii.eqb c sep)) w = true) (split_on sep s).
Proof.
  induction s as [|c s IH]; cbn; [by repeat constructor|]. destruct (Ascii.eqb c sep) eqn:E; [by constructor|].
  destruct (split_on sep s) as [|w ws]; [repeat constructor; cbn; by rewrite E|]. inversion IH; subst.
  constructor; [cbn; by rewrite E|done].
Qed.

(** The stack of a rooted path. *)
Definition walk (st : list string) (cs : list string) : list string := foldl (clean_step true) st cs.

(** An ordinary component. *)
Definition plain (d : string) : Prop := no_slash d /\ d <> ""%string /\ d <> "."%string /\ d <> ".."%string.

Lemma clean_plain st d : plain d -> clean_step true st d = d :: st.
Proof. intros (_ & H1 & H2 & H3). unfold clean_step. by rewrite !bool_decide_false. Qed.

Lemma Join_root d name :
  plain d -> Join [String slash d; name] = String slash (join_slash (rev (walk [d] (split_on slash name)))).
Proof.
  intros Hd. unfold Join. cbn [List.filter]. rewrite (bool_decide_false (String slash d = _)) by done. cbn [negb].
  destruct (decide (name = ""%string)) as [->|Hne].
  - rewrite bool_decide_true by done. cbn [negb List.filter join_slash]. unfold Clean. rewrite bool_decide_false by done.
    change (rooted (String slash d)) with true. change (split_on slash (String slash d)) with (""%string :: split_on slash d).
    rewrite (split_on_none slash d) by apply Hd. cbn [foldl]. by rewrite (clean_plain _ d Hd).
  - rewrite bool_decide_false by done. cbn [negb List.filter join_slash]. unfold Clean. rewrite bool_decide_false by done.
    change (rooted (String slash d +:+ String slash name)) with true.
    change (split_on slash (String slash d +:+ String slash name)) with (""%string :: split_on slash (d +:+ String slash name)).
    rewrite (split_on_app slash d) by apply Hd. cbn [foldl]. change (clean_step true [] "") with (@nil string).
    by rewrite (clean_plain _ d Hd).
Qed.

(** The components of a walk have no slash. *)
Lemma walk_no_slash st cs : Forall no_slash st -> Forall no_slash cs -> Forall no_slash (walk st cs).
Proof.
  revert st. unfold walk. induction cs as [|c cs IH]; intros st Hst Hcs; [done|]. inversion Hcs; subst. cbn [foldl]. apply IH; [|done].
  unfold clean_step. destruct (_ || _); [done|]. case_bool_decide; [|by constructor].
  destruct st as [|top rest]; [constructor|]. inversion Hst; subst. case_bool_decide; [by constructor|done].
Qed.

Lemma walk_plain st cs : Forall plain st -> Forall no_slash cs -> Forall plain (walk st cs).
Proof.
  revert st. unfold walk. induction cs as [|c cs IH]; intros st Hst Hcs; [done|]. inversion Hcs; subst. cbn [foldl]. apply IH; [|done].
  unfold clean_step. destruct (_ || _) eqn:E; [done|]. apply orb_false_iff in E as [E1 E2]. apply bool_decide_eq_false in E1, E2.
  case_bool_decide; [|by repeat constructor].
  destruct st as [|top rest]; [constructor|]. inversion Hst as [|? ? Ht Hr]; subst. rewrite bool_decide_false by apply Ht. done.
Qed.

Lemma walk_push st l : Forall plain l -> walk st l = rev l ++ st.
Proof.
  intros Hl. revert st. unfold walk. induction Hl as [|c l Hc Hl IH]; intros st; [done|]. cbn [foldl rev].
  rewrite (clean_plain _ c Hc), IH, <-app_assoc. done.
Qed.

Lemma split_join_slash ws : ws <> [] -> Forall no_slash ws -> split_on slash (join_slash ws) = ws.
Proof.
  induction ws as [|w ws IH]; intros Hne Hall; [done|]. inversion Hall; subst. destruct ws as [|w' ws].
  - by apply split_on_none.
  - cbn [join_slash]. rewrite split_on_app by done. f_equal. by apply IH.
Qed.

(** [Dir] drops the last component. *)
Lemma Dir_rooted st : st <> [] -> Forall plain st -> Dir (String slash (join_slash st)) = String slash (join_slash (removelast st)).
Proof.
  intros Hne Hst. assert (Hns : Forall no_slash st) by (eapply Forall_impl; [exact Hst|]; by intros c [? _]).
  unfold Dir. change (split_on slash (String slash (join_slash st))) with (""%string :: split_on slash (join_slash st)).
  rewrite split_join_slash by done.
  assert (Hl : removelast (""%string :: st) = ""%string :: removelast st) by (by destruct st). rewrite Hl. cbn [app].
  assert (Hj : join_slash (""%string :: removelast st ++ [""%string]) = String slash (join_slash (removelast st ++ [""%string]))).
  { cbn [join_slash]. destruct (removelast st ++ [""%string]) eqn:E; [by destruct (removelast st)|done]. }
  rewrite Hj. unfold Clean. rewrite bool_decide_false by done. change (rooted (String slash _)) with true.
  change (split_on slash (String slash (join_slash (removelast st ++ [""%string])))) with (""%string :: split_on slash (join_slash (removelast st ++ [""%string]))).
  assert (Hrl : Forall plain (removelast st)).
  { rewrite Forall_forall in *. intros x Hx. apply Hst. rewrite list_elem_of_In in *. rewrite (app_removelast_last ""%string Hne). apply in_or_app. by left. }
  rewrite split_join_slash; [|by destruct (removelast st)|].
  - cbn [foldl]. change (clean_step true [] "") with (@nil string).
    rewrite foldl_app. change (foldl (clean_step true) [] (removelast st)) with (walk [] (removelast st)).
    rewrite (walk_push [] _ Hrl). cbn [foldl]. unfold clean_step. rewrite bool_decide_true by done. cbn [orb].
    rewrite app_nil_r, rev_involutive. done.
  - apply Forall_app. split; [eapply Forall_impl; [exact Hrl|]; by intros c [? _]|by repeat constructor].
Qed.

(** Being [/d] or below it, for a path given by its components. *)
Definition under (d path : string) : Prop := path = String slash d \/ HasPrefix path (String slash d +:+ String slash "") = true.

Lemma app_nil_s (s : string) : ("" +:+ s = s)%string.
Proof. done. Qed.
Lemma app_cons_s x (d s : string) : String x d +:+ s = String x (d +:+ s).
Proof. done. Qed.

(** Reduction of concatenations. *)
Ltac sapp := rewrite ?app_cons_s, ?app_nil_s; cbn [String.prefix forall_bytes].

Lemma prefix_component d c r :
  no_slash d -> no_slash c -> String.prefix (d +:+ String slash "") (c +:+ String slash r) = true -> c = d.
Proof.
  unfold no_slash. revert c. induction d as [|x d IH]; intros [|y c]; sapp; try done.
  - intros _ [Hy _]%andb_true_iff. destruct (ascii_dec slash y) as [<-|]; [|done]. by rewrite Ascii.eqb_refl in Hy.
  - intros [Hx _]%andb_true_iff _. destruct (ascii_dec x slash) as [->|]; [|done]. by rewrite Ascii.eqb_refl in Hx.
  - intros [_ Hd]%andb_true_iff [_ Hc]%andb_true_iff. destruct (ascii_dec x y) as [->|]; [|done]. intros Hp. by rewrite (IH c Hd Hc Hp).
Qed.

Lemma prefix_no_slash d c : no_slash c -> String.prefix (d +:+ String slash "") c = false.
Proof.
  unfold no_slash. revert c. induction d as [|x d IH]; intros [|y c]; sapp; try done.
  - intros [Hy _]%andb_true_iff. destruct (ascii_dec slash y) as [<-|]; [by rewrite Ascii.eqb_refl in Hy|done].
  - intros [_ Hc]%andb_true_iff. destruct (ascii_dec x y); [by apply IH|done].
Qed.

Lemma prefix_refl_app d r : String.prefix (d +:+ String slash "") (d +:+ String slash r) = true.
Proof. induction d as [|x d IH]; sapp; [by destruct r|]. destruct (ascii_dec x x); [done|done]. Qed.

Lemma prefix_cons d t s : String.prefix (String slash d +:+ t) (String slash s) = String.prefix (d +:+ t) s.
Proof. sapp. by destruct (ascii_dec slash slash). Qed.

Lemma has_slash c r : ~ no_slash (c +:+ String slash r).
Proof.
  unfold no_slash. induction c as [|x c IH]; sapp; [by rewrite Ascii.eqb_refl|]. intros [_ Hc]%andb_true_iff. by apply IH.
Qed.

Lemma under_iff d st : no_slash d -> d <> ""%string -> Forall no_slash st -> under d (String slash (join_slash st)) <-> head st = Some d.
Proof.
  intros Hd Hne Hst. unfold under, HasPrefix. rewrite prefix_cons. destruct st as [|c st]; cbn [join_slash head].
  { split; [|done]. intros [E|Hp]; [injection E as <-; done|]. by rewrite prefix_no_slash in Hp. }
  inversion Hst as [|? ? Hc Hst']; subst. destruct st as [|c' st].
  - split; [|intros [= ->]; by left]. intros [E|Hp]; [by injection E as <-|]. by rewrite prefix_no_slash in Hp.
  - split.
    + intros [E|Hp]; [injection E as <-; by apply has_slash in Hd|]. f_equal. by eapply prefix_component.
    + intros [= ->]. right. apply prefix_refl_app.
Qed.

(** ** Two roots, one entry name

    The walks from two bases agree but for the base, until the name climbs
    above it; from then on they are equal. *)
Definition same_walk (a b : string) (s t : list string) : Prop := (exists r, s = r ++ [a] /\ t = r ++ [b] /\ a <> ".."%string /\ b <> ".."%string) \/ s = t.

Lemma same_walk_step a b s t c : same_walk a b s t -> same_walk a b (clean_step true s c) (clean_step true t c).
Proof.
  intros [(r & -> & -> & Ha & Hb)| ->]; [|by right]. unfold clean_step.
  destruct (_ || _); [left; by exists r|]. case_bool_decide; [|left; by exists (c :: r)].
  destruct r as [|top r]; cbn [app].
  - right. by rewrite !bool_decide_false.
  - case_bool_decide; [left; by exists (c :: top :: r)|left; by exists r].
Qed.

Lemma same_walk_all a b cs : a <> ".."%string -> b <> ".."%string -> same_walk a b (walk [a] cs) (walk [b] cs).
Proof.
  intros Ha Hb. assert (Hs : same_walk a b [a] [b]) by (left; by exists []). revert Hs. generalize [a] [b]. unfold walk.
  induction cs as [|c cs IH]; intros s t Hs; [done|]. cbn [foldl]. apply IH. by apply same_walk_step.
Qed.

Lemma plain_safe : plain "safe".
Proof. by split_and!. Qed.

Lemma plain_workspace : plain "workspace".
Proof. by split_and!. Qed.

Lemma slips_iff name : slips name = false <-> under "safe" (Join [safe_root; name]).
Proof.
  unfold slips, under. rewrite andb_false_iff, !negb_false_iff, bool_decide_eq_true. unfold safe_root. tauto.
Qed.

Lemma walk_head_no_slash d name : plain d -> Forall no_slash (rev (walk [d] (split_on slash name))).
Proof.
  intros Hd. apply List.Forall_rev, walk_no_slash; [repeat constructor; apply Hd|].
  apply split_on_no_sep.
Qed.

(** An accepted name lands under the destination, or under [/safe]. *)
Lemma accepted_lands name : slips name = false -> under "workspace" (Join ["/workspace"; name]) \/ under "safe" (Join ["/workspace"; name]).
Proof.
  rewrite slips_iff. change safe_root with (String slash "safe"). change ("/workspace"%string) with (String slash "workspace").
  rewrite !Join_root by (apply plain_safe || apply plain_workspace).
  rewrite !under_iff by (try done; apply walk_head_no_slash; apply plain_safe || apply plain_workspace).
  destruct (same_walk_all "safe" "workspace" (split_on slash name)) as [(r & -> & -> & _)| ->]; [done|done| |by right].
  intros _. left. rewrite rev_app_distr. done.
Qed.

Lemma target_shape d name : plain d ->
  exists st, Join [String slash d; name] = String slash (join_slash st) /\ Forall plain st.
Proof.
  intros Hd. exists (rev (walk [d] (split_on slash name))). split; [by apply Join_root|].
  apply List.Forall_rev, walk_plain; [by apply Forall_singleton|]. apply split_on_no_sep.
Qed.

(** Where the extraction may write. *)
Definition contained (op : FsOp) : Prop :=
  under "workspace" (op_path op) \/ under "safe" (op_path op) \/ op = MkdirAll "/".

Lemma parent_contained d st :
  no_slash d -> d <> ""%string -> Forall plain st -> head st = Some d ->
  under d (Dir (String slash (join_slash st))) \/ Dir (String slash (join_slash st)) = "/"%string.
Proof.
  intros Hd Hne Hst Hh. destruct st as [|c st]; [done|]. injection Hh as ->. rewrite Dir_rooted by done.
  destruct st as [|c st]; [by right|left]. apply under_iff; [done|done| |done].
  apply (Forall_impl plain); [|by intros x [? _]]. rewrite Forall_forall in *. intros x Hx. apply Hst.
  rewrite list_elem_of_In in *. rewrite (app_removelast_last (l := d :: c :: st) ""%string) by done. apply in_or_app. by left.
Qed.

Lemma extract_contained fs files : Forall (fun f => slips (zf_Name f) = false) files -> Forall contained (extract_files fs "/workspace" files).1.
Proof.
  induction 1 as [|f files Hf Hfs IH]; cbn [extract_files]; [constructor|].
  destruct (target_shape "workspace" (zf_Name f) plain_workspace) as (st & Hst & Hpl).
  change (String slash "workspace") with "/workspace"%string in Hst.
  pose proof (accepted_lands _ Hf) as Hland.
  assert (Hns : Forall no_slash st) by (eapply Forall_impl; [exact Hpl|]; by intros c [? _]).
  assert (Htarget : forall op, op_path op = Join ["/workspace"%string; zf_Name f] -> contained op).
  { intros op Hop. unfold contained. rewrite Hop. destruct Hland; auto. }
  assert (Hdir : contained (MkdirAll (Dir (Join ["/workspace"%string; zf_Name f])))).
  { unfold contained. cbn [op_path]. rewrite Hst in *. destruct Hland as [Hl|Hl]; apply under_iff in Hl; try done.
    - destruct (parent_contained "workspace" st) as [?|E]; try done; [by left|]. right. right. by rewrite E.
    - destruct (parent_contained "safe" st) as [?|E]; try done; [by right; left|]. right. right. by rewrite E. }
  destruct (extract_files fs "/workspace" files) as [rest ok]. cbn [fst] in IH.
  repeat case_match; cbn [fst app]; simplify_eq; repeat (constructor; [by auto|]); try done; constructor.
Qed.

(** C27: extraction stays where the precheck looked.  If the fetcher extracts an
    archive at all, whatever the file system answers, every file it
    writes and every directory it creates lies in /workspace, in /safe, or is the
    root directory itself: no entry name, however many dots and slashes it has,
    reaches another part of the file system. *)
Theorem extraction_contained fs zr : Forall contained (fetch_extract fs zr).1.
Proof.
  unfold fetch_extract, CheckZipSlip. destruct zr as [files|]; [|constructor].
  destruct (List.filter (fun f => slips (zf_Name f)) files) as [|f l] eqn:E; [|constructor].
  cbn [extractZip]. apply extract_contained. rewrite Forall_forall. intros f Hf.
  destruct (slips (zf_Name f)) eqn:Es; [|done]. exfalso.
  assert (Hin : In f []) by (rewrite <-E; apply filter_In; split; [by apply list_elem_of_In|done]). done.
Qed.

(** Ordinary names stay in /workspace: those that, resolved, do not climb. *)
Example extract_plain :
  (fetch_extract (fun _ => true) (Some [mkZipFile "src/main.go" false (Some "x"%string)])).1 =
  [MkdirAll "/workspace/src"; WriteFile "/workspace/src/main.go" "x"].
Proof. vm_compute. reflexivity. Qed.

(** The precheck resolves names against /safe, the extraction against
    /workspace: a name that climbs out and back into "safe" passes the first and
    leaves the destination in the second. *)
Example climbs_into_safe :
  CheckZipSlip (Some [mkZipFile "../safe/x" false (Some "evil"%string)]) = inr tt /\
  (fetch_extract (fun _ => true) (Some [mkZipFile "../safe/x" false (Some "evil"%string)])).1 = [MkdirAll "/safe"; WriteFile "/safe/x" "evil"].
Proof. vm_compute. split; reflexivity. Qed.

Example rejects_climbing : CheckZipSlip (Some [mkZipFile "../etc/passwd" false (Some "x"%string)]) = inl (ZipSlip "../etc/passwd").
Proof. vm_compute. reflexivity. Qed.
