(* ===== verification/Intake.v ===== *)
(** * submission-api: what an upload must contain

    [internal/validator/zip.go]: the checks of an uploaded archive.  The zip
    reader delivers a list of entries; the YAML and TOML decoders are the
    parameters of the class [Decoders].  The two regular expressions of the
    source are written out as matchers over bytes, and the one for CMake is
    proved equal to its reading as a decomposition of the file. *)

From Stdlib Require Import Ascii.
From stdpp Require Import prelude gmap strings list.
From S2P Require Import Prelude Topics Archive.

Open Scope Z_scope.

Definition MaxZipBytes : Z := 100 * 2 ^ 20.
Definition maxRootConfigBytes : Z := 2 ^ 20.

Definition validLanguages : list string := ["cpp"; "rust"; "go"].

Record BuildSection := mkBuild { bs_Type : string; bs_Target : string }.

Record BenchmarkConfig := mkConfig {
  bc_Protocol : string; bc_Language : string; bc_Build : BuildSection; bc_Port : Z; bc_TeamName : string }.

Definition zeroConfig : BenchmarkConfig := mkConfig "" "" (mkBuild "" "") 0 "".

Definition set_Port (cfg : BenchmarkConfig) (port : Z) : BenchmarkConfig :=
  mkConfig (bc_Protocol cfg) (bc_Language cfg) (bc_Build cfg) port (bc_TeamName cfg).

(** [yaml.Unmarshal] into a zero [BenchmarkConfig]; [toml.Unmarshal] of the
    manifest, keeping the names of its [[bin]] tables. *)
Class Decoders := { yaml_Unmarshal : string -> option BenchmarkConfig; toml_bins : string -> option (list string) }.

(** What an opened entry delivers: its bytes, then the end of the file or,
    when [rd_fails], an error. *)
Record Reader := mkReader { rd_data : string; rd_fails : bool }.

(** An entry of the archive; opening it may fail. *)
Record Entry := mkEntry { en_Name : string; en_Open : option Reader }.

(** The upload: its bytes, its size, and the entries [zip.NewReader] finds. *)
Record File := mkFile { fl_bytes : string; fl_size : Z; fl_entries : option (list Entry) }.

Inductive ValErr :=
  | ErrTooLarge | ErrNotZip | ErrCorruptZip | ErrDuplicateRootEntry | ErrMultipleBenchmarkYAML
  | OpenFailed (name : string) | ReadFailed (name : string) | RootConfigTooLarge (name : string)
  | InvalidYAML | MultipleBuildFiles (first second : string)
  | ErrNoBenchmarkYAML | ErrNoSrcDir | ErrInvalidProtocol | ErrInvalidLanguage | ErrMissingBuildTarget
  | ErrInvalidPortRange | ErrPortProtocolMismatch | ErrInvalidBuildTarget | ErrInvalidBuildType
  | ErrMissingCMakeLists | ErrMissingCMakeTarget | ErrMissingCargoToml | ErrMissingCargoBin | ErrMissingGoMod.

Definition slen (s : string) : Z := Z.of_nat (String.length s).

(** [io.LimitReader]: at most [n] bytes. *)
Definition limit (n : Z) (s : string) : string := if slen s <=? n then s else String.substring 0 (Z.to_nat n) s.

Definition readLimitedRootFile (name : string) (r : Reader) : ValErr + string :=
  let data := limit (maxRootConfigBytes + 1) (rd_data r) in
  if rd_fails r && (slen (rd_data r) <? maxRootConfigBytes + 1) then inl (ReadFailed name)
  else if maxRootConfigBytes <? slen data then inl (RootConfigTooLarge name)
  else inr data.

(** ** The regular expressions *)

Definition between (a b : N) (c : ascii) : bool := ((a <=? N_of_ascii c) && (N_of_ascii c <=? b))%N.

Definition targetByte (c : ascii) : bool :=
  between 65 90 c || between 97 122 c || between 48 57 c ||
  Ascii.eqb c "_"%char || Ascii.eqb c "."%char || Ascii.eqb c "-"%char.

(** [^[A-Za-z0-9_.-]{1,64}$] *)
Definition validBuildTargetName (s : string) : bool := (1 <=? slen s) && (slen s <=? 64) && forall_bytes targetByte s.

(** [\s]: tab, newline, form feed, return, blank. *)
Definition reSpace (c : ascii) : bool :=
  let n := N_of_ascii c in ((n =? 9) || (n =? 10) || (n =? 12) || (n =? 13) || (n =? 32))%N.

Definition newline : ascii := ascii_of_N 10.

Definition lower (c : ascii) : ascii := if between 65 90 c then ascii_of_N (N_of_ascii c + 32) else c.

(** The encodings a literal byte matches under [(?i)]: its two cases, and the
    Kelvin sign for k, the long s for s. *)
Definition fold_class (c : ascii) : list string :=
  let l := lower c in
  [String l ""; String (upper l) ""] ++
  (if Ascii.eqb l "k"%char then [String (ascii_of_N 226) (String (ascii_of_N 132) (String (ascii_of_N 170) ""))] else []) ++
  (if Ascii.eqb l "s"%char then [String (ascii_of_N 197) (String (ascii_of_N 191) "")] else []).

Fixpoint strip (p s : string) : option string :=
  match p, s with
  | EmptyString, _ => Some s
  | String a p, String b s => if Ascii.eqb a b then strip p s else None
  | _, _ => None
  end.

Fixpoint strip_any (ps : list string) (s : string) : option string :=
  match ps with
  | [] => None
  | p :: ps => match strip p s with Some rest => Some rest | None => strip_any ps s end
  end.

Fixpoint strip_fold (lit s : string) : option string :=
  match lit with
  | EmptyString => Some s
  | String c lit => match strip_any (fold_class c) s with Some rest => strip_fold lit rest | None => None end
  end.

Fixpoint skip_space (s : string) : string :=
  match s with String c s' => if reSpace c then skip_space s' else s | EmptyString => s end.

Definition closes (c : ascii) : bool := reSpace c || Ascii.eqb c ")"%char || Ascii.eqb c ","%char.

(** The expression at a line start. *)
Definition match_here (target s : string) : bool :=
  match strip_fold "add_executable" (skip_space s) with
  | None => false
  | Some s =>
      match skip_space s with
      | String c s =>
          Ascii.eqb c "("%char &&
          match strip_fold target (skip_space s) with Some (String c _) => closes c | _ => false end
      | EmptyString => false
      end
  end.

Fixpoint match_after_newline (target s : string) : bool :=
  match s with
  | EmptyString => false
  | String c s => (Ascii.eqb c newline && match_here target s) || match_after_newline target s
  end.

(** [(?im)^\s*add_executable\s*\(\s*TARGET[\s),]] *)
Definition cmakeHasTarget (data target : string) : bool := match_here target data || match_after_newline target data.

Section Validator.
Context `{Unicode} `{Decoders}.

Definition cargoHasBin (data target : string) : bool :=
  match toml_bins data with None => false | Some bins => bool_decide (target ∈ bins) end.

(** ** Ports *)

Definition validatePortPolicy (protocol : string) (port : Z) : ValErr + unit :=
  match ParseProtocols protocol with
  | inl _ => inl ErrInvalidProtocol
  | inr (p :: []) => if negb (port mod 2 ^ 16 =? PortForProtocol p) then inl ErrPortProtocolMismatch else inr tt
  | inr _ => inr tt
  end.

Definition normalizePort (cfg : BenchmarkConfig) : ValErr + Z :=
  if bc_Port cfg =? 0 then
    match ParseProtocols (bc_Protocol cfg) with
    | inr (p :: _) => inr (PortForProtocol p)
    | _ => inl ErrInvalidProtocol
    end
  else if (bc_Port cfg <? 1024) || (65535 <? bc_Port cfg) then inl ErrInvalidPortRange
  else match validatePortPolicy (bc_Protocol cfg) (bc_Port cfg) with inl e => inl e | inr _ => inr (bc_Port cfg) end.

Definition validateBuildTarget (cfg : BenchmarkConfig) (buildFileName buildFileContent : string) : ValErr + unit :=
  let target := bs_Target (bc_Build cfg) in
  let type := bs_Type (bc_Build cfg) in
  if negb (validBuildTargetName target) then inl ErrInvalidBuildTarget
  else if bool_decide (bc_Language cfg = "cpp"%string) then
    if negb (bool_decide (type = "cmake"%string)) then inl ErrInvalidBuildType
    else if negb (bool_decide (buildFileName = "CMakeLists.txt"%string)) then inl ErrMissingCMakeLists
    else if cmakeHasTarget buildFileContent target then inr tt else inl ErrMissingCMakeTarget
  else if bool_decide (bc_Language cfg = "rust"%string) then
    if negb (bool_decide (type = "cargo"%string)) then inl ErrInvalidBuildType
    else if negb (bool_decide (buildFileName = "Cargo.toml"%string)) then inl ErrMissingCargoToml
    else if cargoHasBin buildFileContent target then inr tt else inl ErrMissingCargoBin
  else if bool_decide (bc_Language cfg = "go"%string) then
    if negb (bool_decide (type = "go"%string)) then inl ErrInvalidBuildType
    else if negb (bool_decide (buildFileName = "go.mod"%string)) then inl ErrMissingGoMod
    else inr tt
  else inr tt.

(** ** The loop over the entries *)

Record Scan := mkScan {
  sc_cfg : BenchmarkConfig; sc_foundBenchmark : bool; sc_foundSrc : bool;
  sc_buildFileContent : string; sc_buildFileName : string; sc_rootEntries : gset string }.

Definition scan0 : Scan := mkScan zeroConfig false false "" "" ∅.

Definition is_yaml (name : string) : bool := bool_decide (name = "benchmark.yaml"%string) || bool_decide (name = "benchmark.yml"%string).
Definition is_build_file (name : string) : bool :=
  bool_decide (name = "CMakeLists.txt"%string) || bool_decide (name = "Cargo.toml"%string) || bool_decide (name = "go.mod"%string).
Definition is_root (name : string) : bool := forall_bytes (fun c => negb (Ascii.eqb c slash)) name.

(** Open the entry and read it. *)
Definition read_entry (f : Entry) : ValErr + string :=
  match en_Open f with None => inl (OpenFailed (en_Name f)) | Some rc => readLimitedRootFile (en_Name f) rc end.

Definition scan_entry (st : Scan) (f : Entry) : ValErr + Scan :=
  let name := en_Name f in
  let foundSrc := HasPrefix name "src/" || sc_foundSrc st in
  if negb (is_root name) then
    inr (mkScan (sc_cfg st) (sc_foundBenchmark st) foundSrc (sc_buildFileContent st) (sc_buildFileName st) (sc_rootEntries st))
  else if bool_decide (name ∈ sc_rootEntries st) then inl ErrDuplicateRootEntry
  else
    let rootEntries := {[name]} ∪ sc_rootEntries st in
    if is_yaml name then
      if sc_foundBenchmark st then inl ErrMultipleBenchmarkYAML
      else match read_entry f with
           | inl e => inl e
           | inr data =>
               match yaml_Unmarshal data with
               | None => inl InvalidYAML
               | Some cfg => inr (mkScan cfg true foundSrc (sc_buildFileContent st) (sc_buildFileName st) rootEntries)
               end
           end
    else if is_build_file name then
      if negb (bool_decide (sc_buildFileName st = ""%string)) then inl (MultipleBuildFiles (sc_buildFileName st) name)
      else match read_entry f with
           | inl e => inl e
           | inr data => inr (mkScan (sc_cfg st) (sc_foundBenchmark st) foundSrc data name rootEntries)
           end
    else inr (mkScan (sc_cfg st) (sc_foundBenchmark st) foundSrc (sc_buildFileContent st) (sc_buildFileName st) rootEntries).

Fixpoint scan (st : Scan) (files : list Entry) : ValErr + Scan :=
  match files with
  | [] => inr st
  | f :: files => match scan_entry st f with inl e => inl e | inr st => scan st files end
  end.

(** The checks after the loop. *)
Definition check_config (st : Scan) : ValErr + BenchmarkConfig :=
  let cfg := sc_cfg st in
  if negb (sc_foundBenchmark st) then inl ErrNoBenchmarkYAML
  else if negb (sc_foundSrc st) then inl ErrNoSrcDir
  else match ParseProtocols (bc_Protocol cfg) with
       | inl _ => inl ErrInvalidProtocol
       | inr _ =>
           if negb (bool_decide (bc_Language cfg ∈ validLanguages)) then inl ErrInvalidLanguage
           else if bool_decide (bs_Target (bc_Build cfg) = ""%string) then inl ErrMissingBuildTarget
           else match normalizePort cfg with
                | inl e => inl e
                | inr port =>
                    let cfg := set_Port cfg port in
                    match validateBuildTarget cfg (sc_buildFileName st) (sc_buildFileContent st) with
                    | inl e => inl e
                    | inr _ => inr cfg
                    end
                end
       end.

Definition magic : string := String "P" (String "K" (String (ascii_of_N 3) (String (ascii_of_N 4) ""))).

Definition ValidateSubmissionZip (r : File) : ValErr + BenchmarkConfig :=
  if MaxZipBytes <? fl_size r then inl ErrTooLarge
  else if slen (fl_bytes r) <? 4 then inl ErrNotZip
  else if negb (HasPrefix (fl_bytes r) magic) then inl ErrNotZip
  else match fl_entries r with
       | None => inl ErrCorruptZip
       | Some files => match scan scan0 files with inl e => inl e | inr st => check_config st end
       end.

End Validator.

(** ** The CMake expression as a decomposition *)

(** [t] spells the literal [lit], case folded. *)
Inductive folds : string -> string -> Prop :=
  | folds_nil : folds "" ""
  | folds_cons c lit v t : v ∈ fold_class c -> folds lit t -> folds (String c lit) (v +:+ t).

Definition spaces (w : string) : Prop := forall_bytes reSpace w = true.

(** Some line of [data] starts, after blanks, with [add_executable], blanks,
    a parenthesis, blanks, the target, and a byte that ends the word. *)
Definition cmake_declares (data target : string) : Prop :=
  exists pre w1 kw w2 w3 t c post,
    data = pre +:+ w1 +:+ kw +:+ w2 +:+ String "("%char (w3 +:+ t +:+ String c post) /\
    (pre = ""%string \/ exists p, pre = p +:+ String newline "") /\
    spaces w1 /\ spaces w2 /\ spaces w3 /\ folds "add_executable" kw /\ folds target t /\ closes c = true.

Lemma app_assoc_s (a b c : string) : (a +:+ b) +:+ c = a +:+ b +:+ c.
Proof. induction a as [|x a IH]; sapp; [done|]. by rewrite IH. Qed.

Lemma app_nil_r_s (a : string) : a +:+ "" = a.
Proof. induction a as [|x a IH]; sapp; [done|]. by rewrite IH. Qed.

Lemma strip_app p s : strip p (p +:+ s) = Some s.
Proof. induction p as [|x p IH]; sapp; [done|]. cbn [strip]. by rewrite Ascii.eqb_refl. Qed.

Lemma strip_some p s r : strip p s = Some r -> s = p +:+ r.
Proof.
  revert s. induction p as [|x p IH]; intros s; cbn [strip]; [by intros [= ->]|]. destruct s as [|y s]; [done|].
  destruct (Ascii.eqb x y) eqn:E; [|done]. apply Ascii.eqb_eq in E as <-. intros Hs%IH. subst s. by sapp.
Qed.

Lemma strip_any_some ps s r : strip_any ps s = Some r -> exists v, v ∈ ps /\ s = v +:+ r.
Proof.
  induction ps as [|p ps IH]; cbn [strip_any]; [done|]. destruct (strip p s) eqn:E.
  - intros [= ->]. exists p. split; [by left|]. by apply strip_some.
  - intros (v & Hv & ->)%IH. exists v. split; [by right|done].
Qed.

(** A byte's spellings differ in their first byte, so the first that fits is
    the only one. *)
Lemma strip_any_fold c v s : v ∈ fold_class c -> strip_any (fold_class c) (v +:+ s) = Some s.
Proof.
  destruct c as [[] [] [] [] [] [] [] []]; intros Hv%list_elem_of_In; vm_compute in Hv;
    repeat (destruct Hv as [<-|Hv]; [reflexivity|]); destruct Hv.
Qed.

Lemma strip_fold_iff lit s r : strip_fold lit s = Some r <-> exists t, s = t +:+ r /\ folds lit t.
Proof.
  revert s. induction lit as [|c lit IH]; intros s; cbn [strip_fold].
  - split; [intros [= ->]; exists ""%string; split; [done|constructor]|]. intros (t & -> & Ht). by inversion Ht; subst.
  - split.
    + destruct (strip_any _ s) as [s'|] eqn:E; [|done]. apply strip_any_some in E as (v & Hv & ->).
      intros (t & -> & Ht)%IH. exists (v +:+ t). rewrite app_assoc_s. split; [done|by constructor].
    + intros (t & -> & Ht). inversion Ht as [|? ? v t' Hv Ht']; subst. rewrite app_assoc_s, strip_any_fold by done.
      apply IH. by exists t'.
Qed.

Lemma strip_fold_app lit t s : folds lit t -> strip_fold lit (t +:+ s) = Some s.
Proof. intros Ht. apply strip_fold_iff. by exists t. Qed.

Lemma skip_space_split s : exists w, s = w +:+ skip_space s /\ spaces w.
Proof.
  unfold spaces. induction s as [|c s (w & Hs & Hw)]; cbn [skip_space]; [by exists ""%string|].
  destruct (reSpace c) eqn:E; [|by exists ""%string]. exists (String c w). sapp. by rewrite E, <-Hs.
Qed.

Definition starts_word (s : string) : Prop := match s with String c _ => reSpace c = false | EmptyString => False end.

Lemma skip_space_app w s : spaces w -> starts_word s -> skip_space (w +:+ s) = s.
Proof.
  unfold spaces. induction w as [|c w IH]; sapp.
  - intros _ Hs. destruct s as [|c s]; [done|]. cbn in *. by rewrite Hs.
  - intros [Hc Hw]%andb_true_iff Hs. cbn [skip_space]. rewrite Hc. by apply IH.
Qed.

Lemma fold_class_word c v s : targetByte c = true -> v ∈ fold_class c -> starts_word (v +:+ s).
Proof.
  destruct c as [[] [] [] [] [] [] [] []]; intros Hc Hv%list_elem_of_In; try discriminate Hc; vm_compute in Hv;
    repeat (destruct Hv as [<-|Hv]; [reflexivity|]); destruct Hv.
Qed.

Lemma folds_word lit t s : lit <> ""%string -> forall_bytes targetByte lit = true -> folds lit t -> starts_word (t +:+ s).
Proof.
  intros Hne Hlit Ht. destruct Ht as [|c lit v t Hv Ht]; [done|]. cbn in Hlit. apply andb_true_iff in Hlit as [Hc _].
  rewrite app_assoc_s. by apply (fold_class_word c).
Qed.

Lemma match_here_iff target s :
  validBuildTargetName target = true ->
  match_here target s = true <->
  exists w1 kw w2 w3 t c post,
    s = w1 +:+ kw +:+ w2 +:+ String "("%char (w3 +:+ t +:+ String c post) /\
    spaces w1 /\ spaces w2 /\ spaces w3 /\ folds "add_executable" kw /\ folds target t /\ closes c = true.
Proof.
  unfold validBuildTargetName. intros [[Hne _]%andb_true_iff Htb]%andb_true_iff.
  assert (target <> ""%string) by (intros ->; done). unfold match_here. split.
  - destruct (strip_fold "add_executable" _) as [s1|] eqn:E1; [|done]. apply strip_fold_iff in E1 as (kw & E1 & Hkw).
    destruct (skip_space s1) as [|c1 s2] eqn:E2; [done|]. intros [->%Ascii.eqb_eq Hm]%andb_true_iff.
    destruct (strip_fold target _) as [[|c post]|] eqn:E3; try done. apply strip_fold_iff in E3 as (t & E3 & Ht).
    destruct (skip_space_split s) as (w1 & Hs & ?). destruct (skip_space_split s1) as (w2 & Hs1 & ?).
    destruct (skip_space_split s2) as (w3 & Hs2 & ?). exists w1, kw, w2, w3, t, c, post. split; [|done].
    rewrite Hs, E1, Hs1, E2, Hs2, E3. done.
  - intros (w1 & kw & w2 & w3 & t & c & post & -> & ? & ? & ? & Hkw & Ht & Hc).
    rewrite skip_space_app; [|done|by apply (folds_word "add_executable")].
    rewrite (strip_fold_app "add_executable") by done.
    rewrite skip_space_app by done. rewrite Ascii.eqb_refl. cbn [andb].
    rewrite skip_space_app; [|done|by apply (folds_word target)].
    by rewrite (strip_fold_app target).
Qed.

Lemma match_after_newline_iff target s :
  match_after_newline target s = true <-> exists p r, s = p +:+ String newline r /\ match_here target r = true.
Proof.
  induction s as [|c s IH]; cbn [match_after_newline].
  - split; [done|]. intros ([|] & r & Hs & _); by sapp.
  - rewrite orb_true_iff, andb_true_iff, IH, Ascii.eqb_eq. split.
    + intros [[-> Hm]|(p & r & -> & Hm)]; [by exists ""%string, s|]. exists (String c p), r. by sapp.
    + intros ([|x p] & r & Hs & Hm); revert Hs; sapp; intros [= -> ->]; [by left|right; by exists p, r].
Qed.

Lemma cmakeHasTarget_iff data target :
  validBuildTargetName target = true -> cmakeHasTarget data target = true <-> cmake_declares data target.
Proof.
  intros Ht. unfold cmakeHasTarget, cmake_declares. rewrite orb_true_iff, match_after_newline_iff, (match_here_iff _ _ Ht). split.
  - intros [(w1 & kw & w2 & w3 & t & c & post & -> & Hr)|(p & r & -> & Hm)].
    + exists ""%string, w1, kw, w2, w3, t, c, post. split; [done|]. split; [by left|done].
    + apply (match_here_iff _ _ Ht) in Hm as (w1 & kw & w2 & w3 & t & c & post & -> & Hr).
      exists (p +:+ String newline ""), w1, kw, w2, w3, t, c, post. split; [|split; [by eauto|done]].
      rewrite app_assoc_s. by sapp.
  - intros (pre & w1 & kw & w2 & w3 & t & c & post & -> & [->|[p ->]] & Hr); [left; by exists w1, kw, w2, w3, t, c, post|right].
    exists p, (w1 +:+ kw +:+ w2 +:+ String "("%char (w3 +:+ t +:+ String c post)).
    split; [rewrite app_assoc_s; by sapp|]. apply (match_here_iff _ _ Ht). by exists w1, kw, w2, w3, t, c, post.
Qed.

(** ** What an accepted upload is *)

Section Accepted.
Context `{Unicode} `{Decoders}.

(** The bytes of an entry that can be read and is small enough. *)
Definition holds (f : Entry) (data : string) : Prop :=
  en_Open f = Some (mkReader data false) /\ slen data <= maxRootConfigBytes.

Definition yaml_entries (files : list Entry) : list Entry := List.filter (fun f => is_yaml (en_Name f)) files.
Definition build_entries (files : list Entry) : list Entry := List.filter (fun f => is_build_file (en_Name f)) files.
Definition root_names (files : list Entry) : list string := List.filter is_root (en_Name <$> files).

Definition toolchain (cfg : BenchmarkConfig) (name content : string) : Prop :=
  let target := bs_Target (bc_Build cfg) in
  let type := bs_Type (bc_Build cfg) in
  (bc_Language cfg = "cpp"%string /\ type = "cmake"%string /\ name = "CMakeLists.txt"%string /\ cmake_declares content target) \/
  (bc_Language cfg = "rust"%string /\ type = "cargo"%string /\ name = "Cargo.toml"%string /\
   exists bins, toml_bins content = Some bins /\ target ∈ bins) \/
  (bc_Language cfg = "go"%string /\ type = "go"%string /\ name = "go.mod"%string).

(** The port the platform uses, given the protocols declared. *)
Definition resolves (declared : Z) (protocols : list string) (port : Z) : Prop :=
  match protocols with
  | [] => False
  | [p] => port = PortForProtocol p /\ (declared = 0 \/ declared = port)
  | p :: _ => (declared = 0 /\ port = PortForProtocol p) \/ (1024 <= declared <= 65535 /\ port = declared)
  end.

(** An upload the platform takes, and the configuration it takes it with. *)
Definition well_formed_upload (r : File) (result : BenchmarkConfig) : Prop :=
  exists files y yaml b content cfg protocols port,
    fl_size r <= MaxZipBytes /\ (exists rest, fl_bytes r = magic +:+ rest) /\ fl_entries r = Some files /\
    NoDup (root_names files) /\
    Exists (fun f => HasPrefix (en_Name f) "src/" = true) files /\
    yaml_entries files = [y] /\ holds y yaml /\ yaml_Unmarshal yaml = Some cfg /\
    build_entries files = [b] /\ holds b content /\
    ParseProtocols (bc_Protocol cfg) = inr protocols /\
    validBuildTargetName (bs_Target (bc_Build cfg)) = true /\
    toolchain cfg (en_Name b) content /\
    resolves (bc_Port cfg) protocols port /\ result = set_Port cfg port.

(** What the loop knows after the entries [files]. *)
Record scanned (files : list Entry) (st : Scan) : Prop := {
  sc_roots : NoDup (root_names files);
  sc_set : sc_rootEntries st = list_to_set (root_names files);
  sc_src : sc_foundSrc st = existsb (fun f => HasPrefix (en_Name f) "src/") files;
  sc_yaml : match yaml_entries files with
            | [] => sc_foundBenchmark st = false /\ sc_cfg st = zeroConfig
            | [y] => sc_foundBenchmark st = true /\ exists data, read_entry y = inr data /\ yaml_Unmarshal data = Some (sc_cfg st)
            | _ => False
            end;
  sc_build : match build_entries files with
             | [] => sc_buildFileName st = ""%string /\ sc_buildFileContent st = ""%string
             | [b] => sc_buildFileName st = en_Name b /\ read_entry b = inr (sc_buildFileContent st)
             | _ => False
             end }.

Lemma scanned_nil : scanned [] scan0.
Proof. constructor; cbn; try done. constructor. Qed.

Lemma scanned_det files st st' : scanned files st -> scanned files st' -> st = st'.
Proof.
  intros [_ S1 F1 Y1 B1] [_ S2 F2 Y2 B2]. destruct st, st'; cbn in *. subst.
  destruct (yaml_entries files) as [|y [|]], (build_entries files) as [|b [|]]; try done;
    repeat match goal with H : _ /\ _ |- _ => destruct H | H : exists _, _ |- _ => destruct H end; congruence.
Qed.

Lemma root_names_app l l' : root_names (l ++ l') = root_names l ++ root_names l'.
Proof. unfold root_names. by rewrite fmap_app, List.filter_app. Qed.

Lemma yaml_root name : is_yaml name = true -> is_root name = true /\ is_build_file name = false.
Proof. unfold is_yaml. intros [?%bool_decide_eq_true|?%bool_decide_eq_true]%orb_true_iff; by subst. Qed.

Lemma build_root name : is_build_file name = true -> is_root name = true /\ is_yaml name = false /\ name <> ""%string.
Proof. unfold is_build_file. intros [[?%bool_decide_eq_true|?%bool_decide_eq_true]%orb_true_iff|?%bool_decide_eq_true]%orb_true_iff; by subst. Qed.

Lemma yaml_snoc l f : yaml_entries (l ++ [f]) = yaml_entries l ++ (if is_yaml (en_Name f) then [f] else []).
Proof. unfold yaml_entries. by rewrite List.filter_app. Qed.

Lemma build_snoc l f : build_entries (l ++ [f]) = build_entries l ++ (if is_build_file (en_Name f) then [f] else []).
Proof. unfold build_entries. by rewrite List.filter_app. Qed.

Lemma src_snoc l f :
  existsb (fun f => HasPrefix (en_Name f) "src/") (l ++ [f]) = HasPrefix (en_Name f) "src/" || existsb (fun f => HasPrefix (en_Name f) "src/") l.
Proof. rewrite existsb_app. cbn. by rewrite orb_false_r, orb_comm. Qed.

Lemma roots_snoc l f :
  is_root (en_Name f) = true -> NoDup (root_names l) -> en_Name f ∉ root_names l ->
  NoDup (root_names (l ++ [f])) /\ {[en_Name f]} ∪ list_to_set (root_names l) = list_to_set (root_names (l ++ [f])) :> gset string.
Proof.
  intros Er Hr Hin. rewrite root_names_app. replace (root_names [f]) with [en_Name f] by (unfold root_names; cbn; by rewrite Er). split.
  - apply NoDup_app. split; [done|]. split; [|apply NoDup_singleton]. by intros x Hx ->%list_elem_of_singleton.
  - rewrite list_to_set_app_L. set_solver.
Qed.

Lemma scan_entry_ok l st f st' : scanned l st -> scan_entry st f = inr st' -> scanned (l ++ [f]) st'.
Proof.
  intros [Hr Hs Hf Hy Hb]. unfold scan_entry. rewrite Hf, <-src_snoc. destruct (is_root (en_Name f)) eqn:Er; cbn [negb].
  - case_bool_decide as Hin; [done|]. rewrite Hs, elem_of_list_to_set in Hin. rewrite Hs.
    destruct (roots_snoc l f Er Hr Hin) as [HN ->].
    destruct (is_yaml (en_Name f)) eqn:Ey; [|destruct (is_build_file (en_Name f)) eqn:Eb].
    + destruct (yaml_root _ Ey) as [_ Eb]. destruct (sc_foundBenchmark st) eqn:EB; [done|].
      destruct (read_entry f) as [|data] eqn:Ed; [done|]. destruct (yaml_Unmarshal data) as [cfg|] eqn:Ec; [|done].
      intros [= <-]. constructor; cbn; rewrite ?yaml_snoc, ?build_snoc, ?Ey, ?Eb, ?app_nil_r; [done|done|done| |done].
      destruct (yaml_entries l) as [|y [|]]; cbn; [by eauto|by destruct Hy|done].
    + case_bool_decide as EB; [|done]. cbn [negb]. destruct (read_entry f) as [|data] eqn:Ed; [done|].
      intros [= <-]. constructor; cbn; rewrite ?yaml_snoc, ?build_snoc, ?Ey, ?Eb, ?app_nil_r; [done|done|done|done|].
      destruct (build_entries l) as [|b [|]] eqn:El; cbn; [done| |done]. destruct Hb as [Hb _]. exfalso.
      assert (Hin' : b ∈ build_entries l) by (rewrite El; by left). apply list_elem_of_In, filter_In in Hin' as [_ Hb'].
      destruct (build_root _ Hb') as (_ & _ & Hne). congruence.
    + intros [= <-]. by constructor; cbn; rewrite ?yaml_snoc, ?build_snoc, ?Ey, ?Eb, ?app_nil_r.
  - intros [= <-]. assert (Ey : is_yaml (en_Name f) = false) by (destruct (is_yaml _) eqn:E; [apply yaml_root in E as [? _]; congruence|done]).
    assert (Eb : is_build_file (en_Name f) = false) by (destruct (is_build_file _) eqn:E; [apply build_root in E as [? _]; congruence|done]).
    constructor; cbn; rewrite ?yaml_snoc, ?build_snoc, ?Ey, ?Eb, ?app_nil_r, ?root_names_app; try done.
    all: replace (root_names [f]) with (@nil string) by (unfold root_names; cbn; by rewrite Er); by rewrite app_nil_r.
Qed.

Lemma scan_entry_err l st f rest e st' : scanned l st -> scan_entry st f = inl e -> ~ scanned (l ++ f :: rest) st'.
Proof.
  intros [Hr Hs Hf Hy Hb] He [Hr' _ _ Hy' Hb']. revert He. unfold scan_entry.
  destruct (is_root (en_Name f)) eqn:Er; cbn [negb]; [|done]. case_bool_decide as Hin.
  - intros _. rewrite Hs, elem_of_list_to_set in Hin. rewrite root_names_app in Hr'. apply NoDup_app in Hr' as (_ & Hd & _).
    apply (Hd _ Hin). unfold root_names. cbn. rewrite Er. by left.
  - destruct (is_yaml (en_Name f)) eqn:Ey; [|destruct (is_build_file (en_Name f)) eqn:Eb; [|done]].
    + unfold yaml_entries in *. rewrite List.filter_app in Hy'. cbn [List.filter] in Hy'. rewrite Ey in Hy'.
      destruct (List.filter _ l) as [|y [|]] eqn:El; cbn [app] in Hy'; [|done|done].
      destruct Hy as [-> _]. destruct (List.filter _ rest); [|done]. destruct Hy' as (_ & data & -> & ->). done.
    + unfold build_entries in *. rewrite List.filter_app in Hb'. cbn [List.filter] in Hb'. rewrite Eb in Hb'.
      destruct (List.filter _ l) as [|b [|]] eqn:El; cbn [app] in Hb'; [|done|done].
      destruct Hb as [-> _]. rewrite bool_decide_true by done. cbn [negb].
      destruct (List.filter _ rest); [|done]. destruct Hb' as (_ & ->). done.
Qed.

Lemma scan_iff files st : scan scan0 files = inr st <-> scanned files st.
Proof.
  assert (Hgen : forall l st0, scanned l st0 -> scan st0 files = inr st <-> scanned (l ++ files) st).
  { induction files as [|f files IH]; intros l st0 Hst0; cbn [scan].
    - rewrite app_nil_r. split; [by intros [= <-]|]. intros Hst. by rewrite (scanned_det l st0 st).
    - destruct (scan_entry st0 f) as [e|st1] eqn:E.
      + split; [done|]. intros Hst. by apply (scan_entry_err l st0 f files e st) in Hst.
      + rewrite (IH (l ++ [f]) st1) by (by eapply scan_entry_ok). by rewrite <-app_assoc. }
  apply (Hgen [] scan0), scanned_nil.
Qed.

Lemma length_substring n s : String.length (String.substring 0 n s) = (n `min` String.length s)%nat.
Proof. revert s. induction n as [|n IH]; intros [|c s]; cbn; [done..|]. by rewrite IH. Qed.

Lemma slen_limit n s : 0 <= n -> slen (limit n s) = n `min` slen s.
Proof. intros Hn. unfold limit, slen. destruct (Z.leb_spec (Z.of_nat (String.length s)) n); [lia|]. rewrite length_substring. lia. Qed.

Lemma read_entry_iff f data : read_entry f = inr data <-> holds f data.
Proof.
  unfold read_entry, holds, readLimitedRootFile. destruct (en_Open f) as [[d fails]|]; cbn [rd_data rd_fails]; [|by split; [|intros [? _]]].
  assert (Hm : 0 <= maxRootConfigBytes + 1) by done. rewrite slen_limit by done. revert Hm. generalize maxRootConfigBytes. intros m Hm.
  destruct (Z.ltb_spec (slen d) (m + 1)).
  - assert (limit (m + 1) d = d) as -> by (unfold limit; by destruct (Z.leb_spec (slen d) (m + 1)); [|lia]).
    destruct (Z.ltb_spec m ((m + 1) `min` slen d)); [lia|]. destruct fails; cbn; [by split; [|intros [? _]]|].
    split; [intros [= <-]; split; [done|lia]|by intros [[= ->] _]].
  - rewrite andb_false_r. destruct (Z.ltb_spec m ((m + 1) `min` slen d)); [|lia].
    split; [done|]. intros [[= <- _] ?]. lia.
Qed.

Lemma prefix_iff p s : HasPrefix s p = true <-> exists rest, s = p +:+ rest.
Proof.
  unfold HasPrefix. revert s. induction p as [|x p IH]; intros s.
  - split; [by exists s|]. by destruct s.
  - destruct s as [|y s]; [by split; [|intros [rest Hs]; revert Hs; sapp]|]. cbn [String.prefix]. destruct (ascii_dec x y) as [->|Hne].
    + rewrite IH. split; intros [rest Hs]; exists rest; [by rewrite Hs|]. revert Hs. sapp. by intros [= ->].
    + split; [done|]. intros [rest Hs]. revert Hs. sapp. by intros [= <- _].
Qed.

Lemma magic_iff s : (slen s <? 4) = false /\ HasPrefix s magic = true <-> exists rest, s = magic +:+ rest.
Proof.
  rewrite prefix_iff. split; [by intros [_ ?]|]. intros [rest ->]. split; [|by eauto].
  unfold slen, magic. sapp. cbn [String.length]. apply Z.ltb_ge. lia.
Qed.

Lemma validateBuildTarget_iff cfg name content :
  validateBuildTarget cfg name content = inr tt /\ bc_Language cfg ∈ validLanguages <->
  validBuildTargetName (bs_Target (bc_Build cfg)) = true /\ toolchain cfg name content.
Proof.
  unfold validateBuildTarget, toolchain, cargoHasBin, validLanguages.
  destruct (validBuildTargetName _) eqn:Et; cbn [negb]; [|by split; [intros [? _]|intros [? _]]].
  pose proof (cmakeHasTarget_iff content _ Et) as Hc. rewrite !elem_of_cons, elem_of_nil.
  split.
  - intros [Hv Hl]. split; [done|]. revert Hv.
    repeat case_bool_decide; cbn [negb]; try done; [|right; left|right; right; done|naive_solver].
    + destruct (cmakeHasTarget _ _); [|done]. left. by rewrite <-Hc.
    + destruct (toml_bins content) as [bins|]; [|done]. case_bool_decide; [by eauto 10|done].
  - intros [_ [(-> & -> & -> & Hd)|[(-> & -> & -> & bins & -> & Hin)|(-> & -> & ->)]]]; cbn [bool_decide].
    + rewrite (proj2 Hc Hd). by auto.
    + rewrite (bool_decide_true (_ ∈ bins)) by done. by auto.
    + by auto.
Qed.

Lemma port_inrange p : PortForProtocol p mod 2 ^ 16 = PortForProtocol p /\ 1024 <= PortForProtocol p <= 65535.
Proof. unfold PortForProtocol. by case_bool_decide. Qed.

Lemma protocols_nonempty decl ps : ParseProtocols decl = inr ps -> ps <> [].
Proof.
  unfold ParseProtocols. case_bool_decide; [by intros [= <-]|]. rewrite (parse_parts_ok decl _ ∅ [] ps) by set_solver. by intros (_ & ? & _).
Qed.

Lemma normalizePort_iff cfg protocols port :
  ParseProtocols (bc_Protocol cfg) = inr protocols -> normalizePort cfg = inr port <-> resolves (bc_Port cfg) protocols port.
Proof.
  intros Hp. pose proof (protocols_nonempty _ _ Hp) as Hne. unfold normalizePort, validatePortPolicy, resolves. rewrite Hp.
  destruct (Z.eqb_spec (bc_Port cfg) 0) as [E|E].
  - destruct protocols as [|p [|q ps]]; [done| |].
    + split; [intros [= <-]; by auto|by intros [-> _]].
    + rewrite E. split; [intros [= <-]; by auto|]. intros [[_ ->]|[? _]]; [done|lia].
  - destruct (Z.ltb_spec (bc_Port cfg) 1024), (Z.ltb_spec 65535 (bc_Port cfg)); cbn [orb].
    all: destruct protocols as [|p [|q ps]]; [done|pose proof (port_inrange p)|].
    all: try (split; [done|]; first [intros [-> [?|?]]; lia|intros [[? _]|[? _]]; lia]).
    2: { split; [intros [= <-]; right; by split|]. intros [[? _]|[_ ->]]; [done|done]. }
    rewrite (Z.mod_small (bc_Port cfg)) by lia. destruct (Z.eqb_spec (bc_Port cfg) (PortForProtocol p)); cbn [negb].
    + split; [intros [= <-]; by auto|intros [-> _]; congruence].
    + split; [done|]. intros [-> [?|?]]; congruence.
Qed.

Lemma check_config_iff st result :
  check_config st = inr result <->
  sc_foundBenchmark st = true /\ sc_foundSrc st = true /\
  exists protocols port, ParseProtocols (bc_Protocol (sc_cfg st)) = inr protocols /\
    validBuildTargetName (bs_Target (bc_Build (sc_cfg st))) = true /\
    toolchain (sc_cfg st) (sc_buildFileName st) (sc_buildFileContent st) /\
    resolves (bc_Port (sc_cfg st)) protocols port /\ result = set_Port (sc_cfg st) port.
Proof.
  unfold check_config. destruct (sc_foundBenchmark st), (sc_foundSrc st); cbn [negb]; [|naive_solver..].
  set (cfg := sc_cfg st). destruct (ParseProtocols (bc_Protocol cfg)) as [|ps] eqn:Ep; [naive_solver|].
  pose proof (normalizePort_iff cfg ps) as Hport.
  pose proof (fun port => validateBuildTarget_iff (set_Port cfg port) (sc_buildFileName st) (sc_buildFileContent st)) as Hb.
  cbn [set_Port bc_Language bc_Build] in Hb.
  split.
  - case_bool_decide as Hl; [|done]. cbn [negb]. case_bool_decide; [done|]. destruct (normalizePort cfg) as [|port]; [done|].
    destruct (validateBuildTarget _ _ _) as [|[]] eqn:Ev; [done|]. intros [= <-].
    destruct (proj1 (Hb port) (conj Ev Hl)) as [Ht Htc]. split_and!; [done..|]. exists ps, port.
    split_and!; try done. by apply Hport.
  - intros (_ & _ & ps' & port & [= <-] & Ht & Htc & Hr & ->). destruct (proj2 (Hb port) (conj Ht Htc)) as [Ev Hl].
    rewrite (bool_decide_true (_ ∈ _)) by done. cbn [negb]. rewrite bool_decide_false by (intros E; by rewrite E in Ht).
    rewrite (proj2 (Hport port Ep) Hr). by rewrite Ev.
Qed.

Lemma accepted_language r cfg :
  ValidateSubmissionZip r = inr cfg -> validBuildTargetName (bs_Target (bc_Build cfg)) = true /\ bc_Language cfg ∈ validLanguages.
Proof.
  unfold ValidateSubmissionZip. repeat (destruct (_ <? _); [done|]). destruct (negb _); [done|].
  destruct (fl_entries r) as [files|]; [|done]. destruct (scan scan0 files) as [|st]; [done|].
  intros (_ & _ & ps & port & _ & Ht & Htc & _ & ->)%check_config_iff. split; [done|].
  by apply (validateBuildTarget_iff (sc_cfg st) (sc_buildFileName st) (sc_buildFileContent st)).
Qed.

(** C26: an upload is accepted exactly when it is well formed, and with the
    configuration its [benchmark.yaml] declares: at most 100 MB behind a zip
    signature, no two entries of the same name at the root, a [src/]
    directory, one readable [benchmark.yaml] or [benchmark.yml] and one build
    file of at most 1 MB each, known protocols, the build system of the
    language, a target of 1 to 64 plain bytes that the build file really
    declares, and a port that is the platform's port of the protocol when
    only one is declared.  Anything else is refused. *)
Theorem upload_accepted_iff r cfg : ValidateSubmissionZip r = inr cfg <-> well_formed_upload r cfg.
Proof.
  unfold ValidateSubmissionZip, well_formed_upload. split.
  - destruct (Z.ltb_spec MaxZipBytes (fl_size r)); [done|]. destruct (slen (fl_bytes r) <? 4) eqn:El; [done|].
    destruct (HasPrefix (fl_bytes r) magic) eqn:Em; [|done]. cbn [negb]. destruct (fl_entries r) as [files|]; [|done].
    destruct (scan scan0 files) as [|st] eqn:Es; [done|]. apply scan_iff in Es as [Hr _ Hsrc Hy Hb].
    intros (EB & ES & ps & port & Hp & Ht & Htc & Hres & ->)%check_config_iff.
    destruct (yaml_entries files) as [|y [|]] eqn:Hye; [destruct Hy; congruence| |done]. destruct Hy as (_ & yaml & Hy & Hc).
    destruct (build_entries files) as [|b [|]] eqn:Hbe; [|destruct Hb as [Hn Hb]|done].
    { destruct Hb as [Hn _]. rewrite Hn in Htc. exfalso. by destruct Htc as [(_ & _ & ? & _)|[(_ & _ & ? & _)|(_ & _ & ?)]]. }
    rewrite read_entry_iff in Hy, Hb. rewrite Hn in Htc.
    exists files, y, yaml, b, (sc_buildFileContent st), (sc_cfg st), ps, port.
    split_and!; try done; [by apply magic_iff|]. rewrite Hsrc in ES. apply List.existsb_exists in ES as (f & Hin & Hf).
    apply Exists_exists. exists f. by rewrite list_elem_of_In.
  - intros (files & y & yaml & b & content & c & ps & port & Hsz & Hm & Hfl & Hr & Hsrc & Hy & Hyd & Hc & Hb & Hbd & Hp & Ht & Htc & Hres & ->).
    destruct (Z.ltb_spec MaxZipBytes (fl_size r)); [lia|]. apply magic_iff in Hm as [-> ->]. cbn [negb]. rewrite Hfl.
    rewrite <-read_entry_iff in Hyd, Hbd.
    rewrite (proj2 (scan_iff files (mkScan c true true content (en_Name b) (list_to_set (root_names files))))).
    + apply check_config_iff. cbn. by eauto 10.
    + constructor; cbn; rewrite ?Hy, ?Hb; try done; [|by eauto]. symmetry. apply List.existsb_exists.
      apply Exists_exists in Hsrc as (f & Hin & Hf). exists f. by rewrite <-list_elem_of_In.
Qed.

End Accepted.
