(* ===== verification/Dockerfile.v ===== *)
(** * build-worker: the Dockerfile of a build

    [internal/dockerfile/generate.go], the two ways its result reaches the
    image build ([withGeneratedDockerfile] and [zipToTar] of the local
    pipeline; base64 in an environment variable and [cmd/fetcher/main.go] on
    Kubernetes), and the standard library's base64 in between. *)

From Stdlib Require Import Ascii.
From stdpp Require Import prelude gmap strings list pretty.
From S2P Require Import Prelude Topics Archive Intake.

Open Scope Z_scope.

(** ** generate.go *)

Definition validTarget (s : string) : bool := validBuildTargetName s.

Record templateVars := mkVars { tv_Target : string; tv_Port : Z }.

(** A double quote. *)
Definition dq : string := String (ascii_of_N 34) "".

Definition cppTemplate : string :=
"FROM ubuntu:22.04 AS builder
RUN apt-get update && apt-get install -y --no-install-recommends \
    cmake build-essential ca-certificates && rm -rf /var/lib/apt/lists/*
WORKDIR /build
COPY . .
RUN cmake -B out -DCMAKE_BUILD_TYPE=Release && \
    cmake --build out --target {{.Target}} -j$(nproc)

FROM ubuntu:22.04
RUN apt-get update && apt-get install -y --no-install-recommends \
    ca-certificates && rm -rf /var/lib/apt/lists/*
WORKDIR /app
COPY --from=builder /build/out/{{.Target}} /app/{{.Target}}
EXPOSE {{.Port}}
ENTRYPOINT [" +:+ dq +:+ "/app/{{.Target}}" +:+ dq +:+ "]
".

Definition rustTemplate : string :=
"FROM rust:1.80-slim AS builder
WORKDIR /build
COPY . .
RUN cargo build --release --bin {{.Target}}

FROM debian:12-slim
RUN apt-get update && apt-get install -y --no-install-recommends \
    ca-certificates && rm -rf /var/lib/apt/lists/*
WORKDIR /app
COPY --from=builder /build/target/release/{{.Target}} /app/{{.Target}}
EXPOSE {{.Port}}
ENTRYPOINT [" +:+ dq +:+ "/app/{{.Target}}" +:+ dq +:+ "]
".

Definition goTemplate : string :=
"FROM golang:1.23-alpine AS builder
WORKDIR /build
COPY . .
RUN CGO_ENABLED=0 GOOS=linux go build -o /bin/{{.Target}} ./src

FROM alpine:3.20
RUN apk add --no-cache ca-certificates
WORKDIR /app
COPY --from=builder /bin/{{.Target}} /app/{{.Target}}
EXPOSE {{.Port}}
ENTRYPOINT [" +:+ dq +:+ "/app/{{.Target}}" +:+ dq +:+ "]
".

(** [text/template] on the two actions the templates use; [skip] bytes of
    an action already replaced are still to be passed over. *)
Fixpoint Execute (vars : templateVars) (skip : nat) (s : string) : string :=
  match s with
  | EmptyString => ""
  | String c s' =>
      match skip with
      | S skip => Execute vars skip s'
      | O =>
          if HasPrefix s "{{.Target}}" then tv_Target vars +:+ Execute vars 10 s'
          else if HasPrefix s "{{.Port}}" then pretty (tv_Port vars) +:+ Execute vars 8 s'
          else String c (Execute vars 0 s')
      end
  end.

Inductive GenErr := InvalidTarget (target : string) | UnsupportedLanguage (language : string).

Definition template_of (language : string) : option string :=
  if bool_decide (language = "cpp"%string) then Some cppTemplate
  else if bool_decide (language = "rust"%string) then Some rustTemplate
  else if bool_decide (language = "go"%string) then Some goTemplate
  else None.

Definition Generate (language buildType target : string) (port : Z) : GenErr + string :=
  if negb (validTarget target) then inl (InvalidTarget target)
  else match template_of language with
       | None => inl (UnsupportedLanguage language)
       | Some tmpl => inr (Execute (mkVars target port) 0 tmpl)
       end.

(** ** encoding/base64, the standard alphabet with padding *)

Definition b64_char (n : Z) : ascii :=
  ascii_of_N (Z.to_N (if n <? 26 then n + 65 else if n <? 52 then n + 71 else if n <? 62 then n - 4 else if n =? 62 then 43 else 47)).

Definition b64_value (c : ascii) : option Z :=
  let n := Z.of_N (N_of_ascii c) in
  if (65 <=? n) && (n <=? 90) then Some (n - 65)
  else if (97 <=? n) && (n <=? 122) then Some (n - 71)
  else if (48 <=? n) && (n <=? 57) then Some (n + 4)
  else if n =? 43 then Some 62 else if n =? 47 then Some 63 else None.

Definition byte_of (c : ascii) : Z := Z.of_N (N_of_ascii c).
Definition to_byte (n : Z) : ascii := ascii_of_N (Z.to_N n).
Definition pad : ascii := "="%char.

Fixpoint EncodeToString (s : string) : string :=
  match s with
  | EmptyString => ""
  | String a EmptyString =>
      let x := byte_of a in
      String (b64_char (x / 4)) (String (b64_char (x mod 4 * 16)) (String pad (String pad "")))
  | String a (String b EmptyString) =>
      let x := byte_of a * 256 + byte_of b in
      String (b64_char (x / 1024)) (String (b64_char (x / 16 mod 64)) (String (b64_char (x mod 16 * 4)) (String pad "")))
  | String a (String b (String c s)) =>
      let x := byte_of a * 65536 + byte_of b * 256 + byte_of c in
      String (b64_char (x / 262144)) (String (b64_char (x / 4096 mod 64))
        (String (b64_char (x / 64 mod 64)) (String (b64_char (x mod 64)) (EncodeToString s))))
  end.

(** The decoder passes over line breaks. *)
Fixpoint drop_breaks (s : string) : string :=
  match s with
  | EmptyString => ""
  | String c s => if Ascii.eqb c newline || Ascii.eqb c (ascii_of_N 13) then drop_breaks s else String c (drop_breaks s)
  end.

Fixpoint decode_quads (s : string) : option string :=
  match s with
  | EmptyString => Some ""%string
  | String a (String b (String c (String d s))) =>
      match b64_value a, b64_value b with
      | Some va, Some vb =>
          match b64_value c with
          | Some vc =>
              match b64_value d with
              | Some vd =>
                  let x := va * 262144 + vb * 4096 + vc * 64 + vd in
                  match decode_quads s with
                  | Some rest => Some (String (to_byte (x / 65536)) (String (to_byte (x / 256 mod 256)) (String (to_byte (x mod 256)) rest)))
                  | None => None
                  end
              | None =>
                  if Ascii.eqb d pad && bool_decide (s = ""%string) then
                    let x := va * 1024 + vb * 16 + vc / 4 in
                    Some (String (to_byte (x / 256)) (String (to_byte (x mod 256)) ""))
                  else None
              end
          | None =>
              if Ascii.eqb c pad && Ascii.eqb d pad && bool_decide (s = ""%string) then
                Some (String (to_byte (va * 4 + vb / 16)) "")
              else None
          end
      | _, _ => None
      end
  | _ => None
  end.

Definition DecodeString (s : string) : option string := decode_quads (drop_breaks s).

(** ** cmd/fetcher/main.go *)

(** The registry credentials the fetcher writes for kaniko; [None] in ECR
    mode.  The JSON text is the parameter. *)
Definition writeKanikoDockerConfig (fs : FsOp -> bool) (json : string) : list FsOp * bool :=
  let mk := MkdirAll "/kaniko/.docker" in
  let wr := WriteFile "/kaniko/.docker/config.json" json in
  if fs mk then ([mk; wr], fs wr) else ([mk], false).

Definition write_dockerfile (fs : FsOp -> bool) (DOCKERFILE_B64 : string) (harbor : option string) : list FsOp * bool :=
  match DecodeString DOCKERFILE_B64 with
  | None => ([], false)
  | Some data =>
      let wr := WriteFile "/workspace/Dockerfile" data in
      if negb (fs wr) then ([wr], false)
      else match harbor with
           | None => ([wr], true)
           | Some json => let '(ops, ok) := writeKanikoDockerConfig fs json in (wr :: ops, ok)
           end
  end.

(** [main] once the archive is downloaded: the operations performed, and
    whether the container exits with success. *)
Definition fetcher_main (fs : FsOp -> bool) (zr : option (list ZipFile)) (DOCKERFILE_B64 : string) (harbor : option string)
    : list FsOp * bool :=
  let '(ops, ok) := fetch_extract fs zr in
  if negb ok then (ops, false)
  else if bool_decide (DOCKERFILE_B64 = ""%string) then (ops, false)
  else let '(ops', ok) := write_dockerfile fs DOCKERFILE_B64 harbor in (ops ++ ops', ok).

(** The files the operations leave behind. *)
Definition apply_op (files : gmap string string) (op : FsOp) : gmap string string :=
  match op with MkdirAll _ => files | WriteFile path data => <[path := data]> files end.

(** ** The local pipeline *)

(** [accepts]: whether the zip writer takes an entry. *)
Fixpoint copy_entries (accepts : ZipFile -> bool) (files : list ZipFile) : option (list ZipFile) :=
  match files with
  | [] => Some []
  | f :: files =>
      if bool_decide (zf_Name f = "Dockerfile"%string) then copy_entries accepts files
      else match zf_Data f with
           | None => None
           | Some _ =>
               if accepts f then match copy_entries accepts files with Some rest => Some (f :: rest) | None => None end else None
           end
  end.

Inductive BuildZipErr := Gen (e : GenErr) | OpenZip | CopyEntry.

Definition withGeneratedDockerfile (accepts : ZipFile -> bool) (zr : option (list ZipFile)) (language buildType target : string) (port : Z)
    : BuildZipErr + list ZipFile :=
  match Generate language buildType target port with
  | inl e => inl (Gen e)
  | inr content =>
      match zr with
      | None => inl OpenZip
      | Some files =>
          match copy_entries accepts files with
          | None => inl CopyEntry
          | Some copied =>
              let f := mkZipFile "Dockerfile" false (Some content) in
              if accepts f then inr (copied ++ [f]) else inl CopyEntry
          end
      end
  end.

Record TarEntry := mkTar { tar_Name : string; tar_IsDir : bool; tar_Data : string }.

Definition tar_of (f : ZipFile) (data : string) : TarEntry :=
  if zf_IsDir f then mkTar (zf_Name f +:+ "/") true "" else mkTar (zf_Name f) false data.

Fixpoint tar_entries (accepts : TarEntry -> bool) (files : list ZipFile) : option (list TarEntry) :=
  match files with
  | [] => Some []
  | f :: files =>
      match zf_Data f with
      | None => None
      | Some data =>
          if accepts (tar_of f data) then
            match tar_entries accepts files with Some rest => Some (tar_of f data :: rest) | None => None end
          else None
      end
  end.

Definition zipToTar (accepts : TarEntry -> bool) (zr : option (list ZipFile)) : option (list TarEntry) :=
  match zr with None => None | Some files => tar_entries accepts files end.

(** ** base64 round trip *)

Lemma b64_value_char n : 0 <= n < 64 -> b64_value (b64_char n) = Some n.
Proof.
  intros Hn. assert (Hall : forallb (fun n => bool_decide (b64_value (b64_char n) = Some n)) (seqZ 0 64) = true) by (vm_compute; reflexivity).
  rewrite forallb_forall in Hall. apply (bool_decide_eq_true_1 _), Hall, list_elem_of_In, elem_of_seqZ. lia.
Qed.

(** No line break among the digits. *)
Lemma b64_char_plain n : 0 <= n < 64 -> Ascii.eqb (b64_char n) newline || Ascii.eqb (b64_char n) (ascii_of_N 13) = false.
Proof.
  intros Hn. assert (Hall : forallb (fun n => negb (Ascii.eqb (b64_char n) newline || Ascii.eqb (b64_char n) (ascii_of_N 13))) (seqZ 0 64) = true)
    by (vm_compute; reflexivity).
  rewrite forallb_forall in Hall. apply negb_true_iff, Hall, list_elem_of_In, elem_of_seqZ. lia.
Qed.

Lemma byte_bound c : 0 <= byte_of c < 256.
Proof. unfold byte_of. pose proof (N_ascii_bounded c). lia. Qed.

Lemma to_byte_is n c : n = byte_of c -> to_byte n = c.
Proof. intros ->. unfold to_byte, byte_of. rewrite N2Z.id. apply ascii_N_embedding. Qed.

Lemma drop_breaks_digit n s : 0 <= n < 64 -> drop_breaks (String (b64_char n) s) = String (b64_char n) (drop_breaks s).
Proof. intros Hn. cbn [drop_breaks]. by rewrite b64_char_plain. Qed.

Lemma string_ind3 (P : string -> Prop) :
  P ""%string -> (forall a, P (String a "")) -> (forall a b, P (String a (String b ""))) ->
  (forall a b c s, P s -> P (String a (String b (String c s)))) -> forall s, P s.
Proof.
  intros H0 H1 H2 H3 s. enough (P s /\ (forall a, P (String a s)) /\ (forall a b, P (String a (String b s)))) as [? _] by done.
  induction s as [|c s (IH0 & IH1 & IH2)]; [by split_and!|]. split_and!; [apply IH1|intros a; apply IH2|]. intros a b. by apply H3.
Qed.

Ltac digits := Z.div_mod_to_equations; lia.

Lemma base64_roundtrip s : DecodeString (EncodeToString s) = Some s.
Proof.
  unfold DecodeString. induction s as [|a|a b|a b c s IH] using string_ind3; [done|..]; cbn [EncodeToString];
    pose proof (byte_bound a) as Ha; try pose proof (byte_bound b) as Hb; try pose proof (byte_bound c) as Hc.
  - rewrite !drop_breaks_digit by digits. cbn [drop_breaks Ascii.eqb]. cbn [decode_quads]. rewrite !b64_value_char by digits.
    cbn -[to_byte Z.mul Z.add Z.div Z.modulo]. do 2 f_equal. apply to_byte_is. digits.
  - rewrite !drop_breaks_digit by digits. cbn [decode_quads]. rewrite !b64_value_char by digits.
    cbn -[to_byte Z.mul Z.add Z.div Z.modulo]. f_equal. f_equal; [|f_equal].
    + apply to_byte_is. digits.
    + apply to_byte_is. digits.
  - rewrite !drop_breaks_digit by digits. cbn [decode_quads]. rewrite !b64_value_char by digits. rewrite IH.
    f_equal. f_equal; [|f_equal; [|f_equal]].
    + apply to_byte_is. digits.
    + apply to_byte_is. digits.
    + apply to_byte_is. digits.
Qed.

(** ** Line by line *)

Definition lines (s : string) : list string := split_on newline s.
Definition no_newline (s : string) : Prop := forall_bytes (fun c => negb (Ascii.eqb c newline)) s = true.

Lemma forall_bytes_app f s t : forall_bytes f (s +:+ t) = forall_bytes f s && forall_bytes f t.
Proof. induction s as [|c s IH]; sapp; [done|]. by rewrite IH, andb_assoc. Qed.

Lemma forall_bytes_impl (f g : ascii -> bool) s :
  (forall c, f c = true -> g c = true) -> forall_bytes f s = true -> forall_bytes g s = true.
Proof.
  intros Hfg. induction s as [|c s IH]; cbn; [done|]. intros [Hc Hs]%andb_true_iff. by rewrite (Hfg c Hc), IH.
Qed.

Lemma digit_no_newline n : Ascii.eqb (pretty_N_char n) newline = false.
Proof. unfold pretty_N_char. by repeat case_match. Qed.

Lemma pretty_N_no_newline (n : N) : no_newline (pretty n).
Proof.
  unfold pretty, pretty_N, no_newline. case_decide; [done|].
  assert (Hgo : forall s, no_newline s -> no_newline (pretty_N_go n s)); [|by apply Hgo].
  unfold no_newline. induction (N.lt_wf_0 n) as [n _ IH]; intros s Hs.
  destruct (decide (n = 0%N)) as [->|]; [by rewrite pretty_N_go_0|]. rewrite pretty_N_go_step by lia.
  destruct (decide (n / 10 = 0)%N) as [->|].
  - rewrite pretty_N_go_0. cbn [forall_bytes]. by rewrite digit_no_newline.
  - apply IH; [apply N.div_lt; lia|done|]. cbn [forall_bytes]. by rewrite digit_no_newline.
Qed.

Lemma pretty_no_newline (z : Z) : no_newline (pretty z).
Proof.
  destruct z as [|p|p]; [done|apply (pretty_N_no_newline (Npos p))|].
  change (pretty (Z.neg p)) with (String "-"%char (pretty (Npos p))). apply (pretty_N_no_newline (Npos p)).
Qed.

Lemma target_no_newline s : validTarget s = true -> no_newline s.
Proof.
  unfold validTarget, validBuildTargetName. intros [_ Hs]%andb_true_iff. revert Hs. apply forall_bytes_impl.
  intros c Hc. apply negb_true_iff, Ascii.eqb_neq. intros ->. done.
Qed.

(** No newline among the next [k] bytes. *)
Fixpoint calm (k : nat) (s : string) : bool :=
  match k, s with S k, String c s => negb (Ascii.eqb c newline) && calm k s | _, _ => true end.

Lemma calm_prefix p s : no_newline p -> HasPrefix s p = true -> calm (String.length p) s = true.
Proof.
  intros Hp (rest & ->)%prefix_iff. unfold no_newline in Hp. induction p as [|c p IH]; [done|]. sapp. cbn [calm String.length].
  cbn [forall_bytes] in Hp. apply andb_true_iff in Hp as [-> Hp]. by apply IH.
Qed.

Lemma split_cons c s :
  Ascii.eqb c newline = false -> split_on newline (String c s) = String c (hd "" (split_on newline s)) :: tl (split_on newline s).
Proof. intros E. cbn [split_on]. rewrite E. by destruct (split_on newline s). Qed.

Lemma first_line_prefix p s : no_newline p -> HasPrefix (hd "" (split_on newline s)) p = HasPrefix s p.
Proof.
  unfold no_newline, HasPrefix. revert s. induction p as [|x p IH]; intros s Hp.
  - by destruct (hd "" _), s.
  - cbn in Hp. apply andb_true_iff in Hp as [Hx Hp]. destruct s as [|c s]; [done|].
    destruct (Ascii.eqb c newline) eqn:E.
    + apply Ascii.eqb_eq in E as ->. cbn [split_on]. rewrite Ascii.eqb_refl. cbn [hd String.prefix]. destruct (ascii_dec x newline) as [->|]; [done|done].
    + rewrite (split_cons c s E). cbn [hd String.prefix]. destruct (ascii_dec x c); [by apply IH|done].
Qed.

Lemma split_prepend t s :
  no_newline t -> split_on newline (t +:+ s) = (t +:+ hd "" (split_on newline s)) :: tl (split_on newline s).
Proof.
  unfold no_newline. pose proof (split_on_nonempty newline s) as Hne. induction t as [|c t IH]; sapp.
  - by destruct (split_on newline s).
  - intros [Hc Ht]%andb_true_iff. cbn [split_on]. apply negb_true_iff in Hc. by rewrite Hc, (IH Ht).
Qed.

Lemma calm_after p c s : no_newline p -> HasPrefix (String c s) p = true -> calm (pred (String.length p)) s = true.
Proof.
  intros Hp Hs. pose proof (calm_prefix p _ Hp Hs) as Hc. destruct p as [|x p]; [by destruct s|]. cbn in *.
  by apply andb_true_iff in Hc as [_ ?].
Qed.

(** Filling the holes keeps the lines apart. *)
Lemma Execute_lines vars k s :
  no_newline (tv_Target vars) -> calm k s = true ->
  lines (Execute vars k s) = Execute vars k (hd "" (lines s)) :: (Execute vars 0 <$> tl (lines s)).
Proof.
  intros Ht. unfold lines. revert k. induction s as [|c s IH]; intros k Hk; [done|].
  pose proof (split_on_nonempty newline s) as Hne. destruct (Ascii.eqb c newline) eqn:E.
  - apply Ascii.eqb_eq in E as ->. destruct k; [|done]. cbn [split_on]. rewrite Ascii.eqb_refl. cbn [Execute hd tl].
    change (HasPrefix (String newline s) "{{.Target}}") with false. change (HasPrefix (String newline s) "{{.Port}}") with false.
    cbn [split_on]. rewrite Ascii.eqb_refl, (IH 0%nat) by (by destruct s). by destruct (split_on newline s).
  - rewrite (split_cons c s E). cbn [hd tl]. destruct k as [|k]; cbn [Execute].
    + rewrite <-!(first_line_prefix _ (String c s)), (split_cons c s E) by done. cbn [hd].
      destruct (HasPrefix (String c (hd "" _)) "{{.Target}}") eqn:Et; [|destruct (HasPrefix (String c (hd "" _)) "{{.Port}}") eqn:Ep].
      * rewrite split_prepend by done.
        assert (Hc : calm 10 s = true).
        { apply (calm_after "{{.Target}}" c); [done|]. by rewrite <-first_line_prefix, (split_cons c s E). }
        by rewrite (IH 10%nat Hc).
      * rewrite split_prepend by apply pretty_no_newline.
        assert (Hc : calm 8 s = true).
        { apply (calm_after "{{.Port}}" c); [done|]. by rewrite <-first_line_prefix, (split_cons c s E). }
        by rewrite (IH 8%nat Hc).
      * rewrite (split_cons c _ E), (IH 0%nat) by (by destruct s). done.
    + cbn [calm] in Hk. apply andb_true_iff in Hk as [_ Hk]. by apply IH.
Qed.

(** ** Whichever way the Dockerfile travels, it is the generated one *)

Lemma Generate_lines language buildType target port d :
  Generate language buildType target port = inr d ->
  exists tmpl, template_of language = Some tmpl /\ lines d = Execute (mkVars target port) 0 <$> lines tmpl.
Proof.
  unfold Generate. destruct (validTarget target) eqn:Ht; [|done]. cbn [negb]. destruct (template_of language) as [tmpl|]; [|done].
  intros [= <-]. exists tmpl. split; [done|]. rewrite Execute_lines; [|by apply target_no_newline|by destruct tmpl].
  unfold lines. by destruct (split_on newline tmpl) eqn:E; [apply split_on_nonempty in E|].
Qed.

Lemma fetcher_last fs zr d harbor ops files :
  fetcher_main fs zr (EncodeToString d) harbor = (ops, true) -> foldl apply_op files ops !! "/workspace/Dockerfile"%string = Some d.
Proof.
  unfold fetcher_main. destruct (fetch_extract fs zr) as [ops1 []]; [|done]. cbn [negb]. case_bool_decide; [done|].
  unfold write_dockerfile. rewrite base64_roundtrip. destruct (fs (WriteFile _ d)); [|done]. cbn [negb].
  destruct harbor as [json|]; [unfold writeKanikoDockerConfig; destruct (fs _); [|done]|];
    intros Hops; injection Hops as <-; rewrite foldl_app; cbn [foldl apply_op].
  - rewrite lookup_insert_ne by done. by rewrite lookup_insert_eq.
  - by rewrite lookup_insert_eq.
Qed.

Lemma copy_entries_spec accepts files copied :
  copy_entries accepts files = Some copied ->
  copied = List.filter (fun f => negb (bool_decide (zf_Name f = "Dockerfile"%string))) files.
Proof.
  revert copied. induction files as [|f files IH]; cbn [copy_entries List.filter]; intros copied; [by intros [= <-]|].
  case_bool_decide; cbn [negb]; [by apply IH|]. destruct (zf_Data f); [|done]. destruct (accepts f); [|done].
  destruct (copy_entries accepts files); [|done]. intros [= <-]. by rewrite (IH _ eq_refl).
Qed.

Lemma tar_entries_app accepts l f tar :
  tar_entries accepts (l ++ [f]) = Some tar -> exists front data, zf_Data f = Some data /\ tar = front ++ [tar_of f data] /\
    length front = length l.
Proof.
  revert tar. induction l as [|g l IH]; cbn [app tar_entries]; intros tar.
  - destruct (zf_Data f) as [data|]; [|done]. destruct (accepts _); [|done]. intros [= <-]. by exists [], data.
  - destruct (zf_Data g) as [gd|]; [|done]. destruct (accepts _); [|done].
    destruct (tar_entries accepts (l ++ [f])) as [rest|]; [|done]. intros [= <-].
    destruct (IH rest eq_refl) as (front & data & ? & -> & Hl). exists (tar_of g gd :: front), data. cbn. by rewrite Hl.
Qed.

Section Accepted.
Context `{Unicode} `{Decoders}.

(** An accepted upload is built from the platform's own Dockerfile.  For
    every upload the intake accepts, [Generate] succeeds, and its result is
    the template of the language, line for line, with only the holes filled:
    nothing the contestant chose can add or remove an instruction.  Whatever
    the archive contains (a Dockerfile of its own, names that climb), a
    fetcher that exits with success leaves exactly this text at the path
    kaniko reads, and the local pipeline's build context keeps no root entry
    [Dockerfile] of the archive and ends with this one. *)
Theorem accepted_build_uses_template r cfg :
  ValidateSubmissionZip r = inr cfg ->
  let '(language, type, target, port) := (bc_Language cfg, bs_Type (bc_Build cfg), bs_Target (bc_Build cfg), bc_Port cfg) in
  exists tmpl d,
    template_of language = Some tmpl /\ Generate language type target port = inr d /\
    lines d = Execute (mkVars target port) 0 <$> lines tmpl /\
    (forall fs zr harbor ops files, fetcher_main fs zr (EncodeToString d) harbor = (ops, true) ->
       foldl apply_op files ops !! "/workspace/Dockerfile"%string = Some d) /\
    (forall accepts zr ctx accepts' tar,
       withGeneratedDockerfile accepts zr language type target port = inr ctx -> zipToTar accepts' (Some ctx) = Some tar ->
       exists front, tar = front ++ [mkTar "Dockerfile" false d] /\
         Forall (fun f => zf_Name f <> "Dockerfile"%string) (removelast ctx) /\ length front = length (removelast ctx)).
Proof.
  intros Hv. cbn zeta. apply accepted_language in Hv as [Ht Hl].
  assert (Htm : exists tmpl, template_of (bc_Language cfg) = Some tmpl).
  { unfold validLanguages in Hl. rewrite !elem_of_cons, elem_of_nil in Hl. destruct Hl as [->|[->|[->|[]]]]; cbn; by eauto. }
  destruct Htm as [tmpl Htm]. exists tmpl, (Execute (mkVars (bs_Target (bc_Build cfg)) (bc_Port cfg)) 0 tmpl).
  assert (Hg : Generate (bc_Language cfg) (bs_Type (bc_Build cfg)) (bs_Target (bc_Build cfg)) (bc_Port cfg)
               = inr (Execute (mkVars (bs_Target (bc_Build cfg)) (bc_Port cfg)) 0 tmpl)).
  { unfold Generate, validTarget. by rewrite Ht, Htm. }
  split_and!; [done|done| |intros; by eapply fetcher_last|].
  - apply Generate_lines in Hg as (tmpl' & Htm' & ->). by simplify_eq.
  - intros accepts zr ctx accepts' tar. unfold withGeneratedDockerfile, zipToTar. rewrite Hg. destruct zr as [files|]; [|done].
    destruct (copy_entries accepts files) as [copied|] eqn:Ec; [|done]. destruct (accepts _); [|done]. intros [= <-] Htar.
    apply tar_entries_app in Htar as (front & data & [= <-] & -> & Hlen). exists front. rewrite removelast_last. split_and!; [done| |done].
    apply copy_entries_spec in Ec as ->. apply Forall_forall. intros f [_ Hf]%list_elem_of_In%filter_In. by case_bool_decide.
Qed.

End Accepted.

(** ** A worked upload *)

Module DockerDemo.

#[local] Instance ascii_only : Unicode := {| map_ToUpper := fun s => s; trim_Space := fun s => s |}.

Definition config : BenchmarkConfig := mkConfig "fix" "cpp" (mkBuild "cmake" "engine") 0 "team".

(** Decoders that know one file each. *)
#[local] Instance decoders : Decoders :=
  {| yaml_Unmarshal := fun s => if bool_decide (s = "protocol: fix"%string) then Some config else None;
     toml_bins := fun _ => None |}.

Definition cmake : string := "project(x)
  Add_Executable( ENGINE src/main.cpp )
".

Definition entry (name data : string) : Entry := mkEntry name (Some (mkReader data false)).

Definition upload : File :=
  mkFile (magic +:+ "...") 7
    (Some [entry "benchmark.yaml" "protocol: fix"; entry "CMakeLists.txt" cmake; entry "src/main.cpp" "int main() {}"]).

Example cmake_found : cmakeHasTarget cmake "engine" = true.
Proof. reflexivity. Qed.

(** A longer name with the same beginning is another target. *)
Example cmake_other : cmakeHasTarget "add_executable(engine2 main.cpp)" "engine" = false.
Proof. reflexivity. Qed.

(** A commented line does not count. *)
Example cmake_comment : cmakeHasTarget "# add_executable(engine main.cpp)" "engine" = false.
Proof. reflexivity. Qed.

Example base64_padding : EncodeToString "Dockerfil" = "RG9ja2VyZmls"%string /\ EncodeToString "Dock" = "RG9jaw=="%string.
Proof. split; reflexivity. Qed.

(** The same upload with a root entry twice. *)
Example duplicate_refused :
  ValidateSubmissionZip (mkFile (magic +:+ "...") 7 (Some [entry "go.mod" ""; entry "go.mod" ""])) = inl ErrDuplicateRootEntry.
Proof. vm_compute. reflexivity. Qed.

Lemma accepted_build_uses_template_witness :
  ValidateSubmissionZip upload = inr (set_Port config 9898) /\
  exists d, Generate "cpp" "cmake" "engine" 9898 = inr d /\ lines d !! 13%nat = Some "EXPOSE 9898"%string /\
    forall fs zr ops, fetcher_main fs zr (EncodeToString d) None = (ops, true) ->
      foldl apply_op ∅ ops !! "/workspace/Dockerfile"%string = Some d.
Proof.
  assert (Hv : ValidateSubmissionZip upload = inr (set_Port config 9898)) by (vm_compute; reflexivity).
  split; [exact Hv|].
  destruct (accepted_build_uses_template upload (set_Port config 9898) Hv) as (tmpl & d & Ht & Hg & Hl & Hf & _).
  exists d. split; [exact Hg|]. split.
  - rewrite Hl. change (template_of "cpp") with (Some cppTemplate) in Ht. injection Ht as <-. vm_compute. reflexivity.
  - intros fs zr ops. apply Hf.
Defined.

End DockerDemo.
