(* ===== verification/Build.v ===== *)
(** * build-worker: from a build request to an image

    [internal/pipeline/pipeline.go] (the local worker), [internal/k8s/spawner.go]
    (the Kubernetes worker) and [internal/consumer/kafka.go], as programs over
    calls to the outside: the answer to every call is arbitrary, except that a
    statement on the database does what [SubStore] says it does, when it
    reaches it.  The two goroutines of the second phase run interleaved in
    every order. *)

From Stdlib Require Import Ascii.
From stdpp Require Import prelude gmap strings list.
From S2P Require Import Prelude Prog Topics Archive Intake Dockerfile SubStore.

Open Scope Z_scope.

Record SubmissionBuildRequested := mkBuildRequest {
  br_SubmissionID : string; br_ArtifactPath : string; br_Language : string; br_Port : Z; br_BuildType : string; br_BuildTarget : string }.

(** ** Names *)

(** The first ten digits of the hexadecimal SHA-256 of a string. *)
Class Sha256 := sha256_hex10 : string -> string.

Definition hexDigit (c : ascii) : bool := between 48 57 c || between 97 102 c.

Class Sha256Laws `{Sha256} : Prop :=
  sha256_hex s : String.length (sha256_hex10 s) = 10%nat /\ forall_bytes hexDigit (sha256_hex10 s) = true.

Definition hyphen : ascii := "-"%char.

Fixpoint dns_bytes (value : string) (lastHyphen : bool) : string :=
  match value with
  | EmptyString => ""
  | String c value =>
      if between 97 122 c || between 48 57 c then String c (dns_bytes value false)
      else if between 65 90 c then String (lower c) (dns_bytes value false)
      else if lastHyphen then dns_bytes value lastHyphen else String hyphen (dns_bytes value true)
  end.

Fixpoint trim_left_byte (b : ascii) (s : string) : string :=
  match s with String c s' => if Ascii.eqb c b then trim_left_byte b s' else s | EmptyString => s end.

(** [strings.Trim] with a cutset of one byte. *)
Definition Trim (b : ascii) (s : string) : string := String.rev (trim_left_byte b (String.rev (trim_left_byte b s))).

Definition dnsLabelFragment (value : string) : string := Trim hyphen (dns_bytes value false).

Definition maxK8sNameLen : Z := 63.

Definition resourceName `{Sha256} (prefix submissionID : string) : string :=
  let hashSuffix := sha256_hex10 submissionID in
  let budget := maxK8sNameLen - slen prefix - slen hashSuffix - 2 in
  let suffixBudget := if budget <? 1 then 1 else budget in
  let safe := dnsLabelFragment submissionID in
  let safe := if suffixBudget <? slen safe then Trim hyphen (String.substring 0 (Z.to_nat suffixBudget) safe) else safe in
  let safe := if bool_decide (safe = ""%string) then "submission"%string else safe in
  prefix +:+ "-" +:+ safe +:+ "-" +:+ hashSuffix.

Definition colon : ascii := ":"%char.

Fixpoint join_on (sep : ascii) (ws : list string) : string :=
  match ws with [] => "" | [w] => w | w :: ws => w +:+ String sep (join_on sep ws) end.

(** The part before the last colon. *)
Definition cut_tag (s : string) : string :=
  match split_on colon s with [w] => w | ws => join_on colon (removelast ws) end.

Definition ecrRepositoryName (imageRef : string) : string :=
  let segs := match split_on slash imageRef with [w] => [w] | ws => tl ws end in
  join_on slash (removelast segs ++ [cut_tag (List.last segs "")]).

Definition image_ref (endpoint project submissionID : string) : string :=
  endpoint +:+ "/" +:+ project +:+ "/" +:+ submissionID +:+ ":latest".

Definition TrimPrefix (s prefix : string) : string := match strip prefix s with Some rest => rest | None => s end.

Fixpoint Contains (s sub : string) : bool :=
  HasPrefix s sub || match s with String _ s => Contains s sub | EmptyString => false end.

Definition isLocalRegistry `{Unicode} (endpoint : string) : bool :=
  let endpoint := TrimSpace (TrimPrefix (TrimPrefix endpoint "http://") "https://") in
  HasPrefix endpoint "localhost:" || HasPrefix endpoint "127.0.0.1:" || Contains endpoint "kind-registry".

(** [LocalRunner.imageRef]. *)
Definition TrimSuffix_slash (s : string) : string :=
  match strip "/" (String.rev s) with Some rest => String.rev rest | None => s end.

Definition local_imageRef `{Unicode} (registryEndpoint registryProject submissionID : string) : string :=
  let endpoint := TrimSuffix_slash registryEndpoint in
  let project := Trim slash (TrimSpace registryProject) in
  if bool_decide (endpoint = ""%string) || bool_decide (project = ""%string)
  then "iicpc-" +:+ submissionID +:+ ":latest"
  else image_ref endpoint project submissionID.

(** ** Calls to the outside *)

Inductive Creation := Created | AlreadyExists | CreateFailed.
Inductive Updated := UpdateOk | NotFound | UpdateFailed.

(** Conditions of a job, as the cluster reports them. *)
Record Condition := mkCond { cd_Type : string; cd_True : bool; cd_Message : string }.
Definition Job := list Condition.

(** Why the wait for a job stops when no poll has ended it. *)
Inductive Stop := CtxDone | DeadlineExceeded.

Inductive Mode := ModeBuild (dockerfileB64 : string) | ModeScan | ModeSBOM.

Inductive call : Type -> Type :=
  | Download (path : string) : call (option (option (list ZipFile)))
  | PublishStatus (id status message : string) : call bool
  | UpdateDBStatus (id status : string) : call bool
  | SetImageRef (id ref : string) : call bool
  | UploadBytes (path : string) : call bool
  | CreateRepository (repo : string) : call Creation
  | DockerConfigJSON : call bool
  | SecretUpdate : call Updated
  | SecretCreate : call bool
  | CreateJob (name : string) (mode : Mode) (stagingRef : string) : call Creation
  | Watch (name : string) : call (list (option Job) * Stop)
  | ReadLogs (name container : string) : call bool
  | CopyImage (src dst : string) (insecure : bool) : call bool
  | RunnerBuild (id : string) (zip : list ZipFile) : call bool
  | RunnerScan (ref : string) : call bool
  | RunnerSBOM (ref : string) : call bool
  | RunnerPush (ref : string) : call bool
  | RunnerCleanup (ref : string) : call bool
  | Choose : call bool
  | CommitMessage : call bool.

Abbreviation prog := (Prog call).
Abbreviation par := (interleave Choose).

Open Scope prog_scope.

Definition StatusUploaded : string := "uploaded".
Definition StatusBuilding : string := "building".
Definition StatusScanned : string := "scanned".
Definition StatusSBOMReady : string := "sbom_ready".
Definition StatusReady : string := "ready".
Definition StatusFailed : string := "failed".

(** [setStatus] of both workers: a failure to publish or to store is only
    logged.  The message leaves out the text of the error it wraps. *)
Definition setStatus (id status message : string) : prog unit :=
  ask (PublishStatus id status message);; ask (UpdateDBStatus id status);; Ret tt.

(** ** Waiting for a job *)

Definition isJobComplete (job : Job) : bool := existsb (fun c => bool_decide (cd_Type c = "Complete"%string) && cd_True c) job.
Definition isJobFailed (job : Job) : bool := existsb (fun c => bool_decide (cd_Type c = "Failed"%string) && cd_True c) job.

Definition jobFailureMessage (job : Job) : string :=
  match List.filter (fun c => bool_decide (cd_Type c = "Failed"%string)) job with c :: _ => cd_Message c | [] => "job failed" end.

Inductive WaitErr := Stopped (s : Stop) | JobFailed (message : string).

(** The loop over the polls made before the deadline or the cancellation; a
    poll that fails is skipped. *)
Fixpoint waitForJob (polls : list (option Job)) (stop : Stop) : WaitErr + unit :=
  match polls with
  | [] => inl (Stopped stop)
  | None :: polls => waitForJob polls stop
  | Some job :: polls =>
      if isJobFailed job then inl (JobFailed (jobFailureMessage job))
      else if isJobComplete job then inr tt
      else waitForJob polls stop
  end.

Definition wait_job (name : string) : prog (WaitErr + unit) :=
  let! (polls, stop) := ask (Watch name) in Ret (waitForJob polls stop).

Definition createJob (name : string) (mode : Mode) (stagingRef : string) : prog bool :=
  let! r := ask (CreateJob name mode stagingRef) in
  Ret (match r with Created | AlreadyExists => true | CreateFailed => false end).

(** ** The Kubernetes worker *)

Record JobConfig := mkJobConfig {
  HarborStagingEndpoint : string; HarborProductionEndpoint : string; HarborProject : string; RegistryInsecure : bool;
  RegistryECR : bool }.

Definition path_of (id file : string) : string := "submissions/" +:+ id +:+ "/" +:+ file.

(** The channels of the second phase, drained. *)
Definition phase2Outcome (statuses : list string) (errs : list string) : string + list string :=
  match errs with e :: _ => inl e | [] => inr statuses end.

Section Spawner.
Context `{Unicode} `{Sha256}.
Variable cfg : JobConfig.

Definition registryInsecure (endpoint : string) : bool := RegistryInsecure cfg || isLocalRegistry endpoint.

Definition ensureRepository (imageRef : string) : prog bool :=
  if negb (RegistryECR cfg) then Ret true
  else let! r := ask (CreateRepository (ecrRepositoryName imageRef)) in
       Ret (match r with Created | AlreadyExists => true | CreateFailed => false end).

Definition ensureDockerConfigSecret : prog bool :=
  let! ok := ask DockerConfigJSON in
  if negb ok then Ret false
  else let! r := ask SecretUpdate in
       match r with UpdateOk => Ret true | NotFound => ask SecretCreate | UpdateFailed => Ret false end.

(** One goroutine of the second phase: the error it sends, or the status. *)
Definition phase2_job (id name mode file status : string) : prog (string + string) :=
  let! r := wait_job name in
  match r with
  | inl _ => Ret (inl mode)
  | inr _ => ask (ReadLogs name "");; ask (UploadBytes (path_of id file));; Ret (inr status)
  end.

(** What the goroutines send, in the order they send it. *)
Definition sent (a b : string + string) (first : bool) : list string * list string :=
  let results := if first then [a; b] else [b; a] in
  (omap (fun r => match r with inr s => Some s | inl _ => None end) results,
   omap (fun r => match r with inl e => Some e | inr _ => None end) results).

Fixpoint set_statuses (id : string) (oks : list string) : prog unit :=
  match oks with [] => Ret tt | st :: oks => setStatus id st (st +:+ " complete");; set_statuses id oks end.

Definition fail (id message : string) : prog unit := setStatus id StatusFailed message.

(** The last part of [Run]: promote the image and mark it ready. *)
Definition promote (id stagingRef : string) : prog unit :=
  let finish productionRef :=
    let! ok := ask (SetImageRef id productionRef) in
    if negb ok then fail id "persist image ref"
    else setStatus id StatusReady "image ready" in
  if RegistryECR cfg then finish stagingRef
  else
    let productionRef := image_ref (HarborProductionEndpoint cfg) (HarborProject cfg) id in
    let! ok := ensureRepository productionRef in
    if negb ok then fail id "ensure production repository"
    else
      let insecure := registryInsecure (HarborStagingEndpoint cfg) || registryInsecure (HarborProductionEndpoint cfg) in
      let! ok := ask (CopyImage stagingRef productionRef insecure) in
      if negb ok then fail id "promote staging→production"
      else finish productionRef.

(** Scan and SBOM, side by side. *)
Definition phase2 (id stagingRef : string) : prog unit :=
  let scanJobName := resourceName "scan" id in
  let sbomJobName := resourceName "sbom" id in
  let! ok := createJob scanJobName ModeScan stagingRef in
  if negb ok then fail id "create scan job"
  else
    let! ok := createJob sbomJobName ModeSBOM stagingRef in
    if negb ok then fail id "create sbom job"
    else
      let! (a, b) := par (phase2_job id scanJobName "scan" "trivy-report.json" StatusScanned)
                         (phase2_job id sbomJobName "sbom" "sbom.json" StatusSBOMReady) in
      let! first := ask Choose in
      let '(statuses, errs) := sent a b first in
      match phase2Outcome statuses errs with
      | inl e => fail id e
      | inr oks => set_statuses id oks;; promote id stagingRef
      end.

Definition build_phase (msg : SubmissionBuildRequested) (dockerfileB64 stagingRef : string) : prog unit :=
  let id := br_SubmissionID msg in
  let buildJobName := resourceName "build" id in
  setStatus id StatusBuilding "building image";;
  let! ok := ensureRepository stagingRef in
  if negb ok then fail id "ensure staging repository"
  else
    let! ok := if RegistryECR cfg then ensureDockerConfigSecret else Ret true in
    if negb ok then fail id "ensure ecr auth"
    else
      let! ok := createJob buildJobName (ModeBuild dockerfileB64) stagingRef in
      if negb ok then fail id "create build job"
      else
        let! buildErr := wait_job buildJobName in
        ask (ReadLogs buildJobName "build");;
        ask (UploadBytes (path_of id "build.log"));;
        match buildErr with
        | inl _ => fail id "build"
        | inr _ => phase2 id stagingRef
        end.

Definition Spawner_Run (msg : SubmissionBuildRequested) : prog unit :=
  let id := br_SubmissionID msg in
  let stagingRef := image_ref (HarborStagingEndpoint cfg) (HarborProject cfg) id in
  let! zipData := ask (Download (br_ArtifactPath msg)) in
  match zipData with
  | None => fail id "download artifact"
  | Some zr =>
      match CheckZipSlip zr with
      | inl _ => fail id "zip-slip"
      | inr _ =>
          match Generate (br_Language msg) (br_BuildType msg) (br_BuildTarget msg) (br_Port msg) with
          | inl _ => fail id "generate dockerfile"
          | inr dockerfileContent => build_phase msg (EncodeToString dockerfileContent) stagingRef
          end
      end
  end.

End Spawner.

(** ** The local worker *)

Section Local.
Variable accepts : ZipFile -> bool.
Variable imageRef : string -> string.

(** From a built image to a stored reference: the error, if any. *)
Definition after_build (id ref : string) : prog (option string) :=
  let! ok := ask (RunnerScan ref) in
  if negb ok then Ret (Some "trivy scan"%string)
  else
    ask (UploadBytes (path_of id "trivy-report.json"));;
    setStatus id StatusScanned "vulnerability scan complete";;
    let! ok := ask (RunnerSBOM ref) in
    if negb ok then Ret (Some "syft sbom"%string)
    else
      ask (UploadBytes (path_of id "sbom.json"));;
      setStatus id StatusSBOMReady "SBOM generated";;
      let! ok := ask (RunnerPush ref) in
      if negb ok then Ret (Some "push"%string)
      else
        let! ok := ask (SetImageRef id ref) in
        if negb ok then Ret (Some "persist image ref"%string)
        else setStatus id StatusReady "image ready";; Ret None.

Definition pipeline_run (msg : SubmissionBuildRequested) : prog (option string) :=
  let id := br_SubmissionID msg in
  let! zipData := ask (Download (br_ArtifactPath msg)) in
  match zipData with
  | None => Ret (Some "download artifact"%string)
  | Some zr =>
      setStatus id StatusBuilding "building image";;
      match withGeneratedDockerfile accepts zr (br_Language msg) (br_BuildType msg) (br_BuildTarget msg) (br_Port msg) with
      | inl _ => Ret (Some "generate dockerfile"%string)
      | inr buildZip =>
          let ref := imageRef id in
          let! ok := ask (RunnerBuild id buildZip) in
          ask (UploadBytes (path_of id "build.log"));;
          if negb ok then Ret (Some "build"%string)
          else let! err := after_build id ref in ask (RunnerCleanup ref);; Ret err
      end
  end.

Definition Pipeline_Run (msg : SubmissionBuildRequested) : prog unit :=
  let! err := pipeline_run msg in
  match err with None => Ret tt | Some e => setStatus (br_SubmissionID msg) StatusFailed e end.

End Local.

(** ** The consumer: one message *)

Definition consume_build (Run : SubmissionBuildRequested -> prog unit) (value : option SubmissionBuildRequested) : prog unit :=
  match value with
  | None => ask CommitMessage;; Ret tt
  | Some msg => Run msg;; ask CommitMessage;; Ret tt
  end.

(** ** What a call may do *)

(** A statement that reaches the database takes effect, whether or not its
    answer comes back; nothing else changes the tables. *)
Definition statement (db : DB) (r : option DB) (x : bool) (db' : DB) : Prop :=
  match r with
  | None => x = false /\ db' = db
  | Some d => (x = true /\ db' = d) \/ (x = false /\ (db' = db \/ db' = d))
  end.

Definition answers {X} (c : call X) (db : DB) : X -> DB -> Prop :=
  match c in call X return X -> DB -> Prop with
  | UpdateDBStatus id status => statement db (UpdateStatus db id status)
  | SetImageRef id ref => statement db (UpdateImageRef db id ref)
  | _ => fun _ db' => db' = db
  end.

(** ** The worker among its neighbours *)

Inductive Worker :=
  | KubernetesWorker (cfg : JobConfig)
  | LocalWorker (accepts : ZipFile -> bool) (registryEndpoint registryProject : string).

Section System.
Context `{Unicode} `{Sha256}.

Definition handler (wk : Worker) : SubmissionBuildRequested -> prog unit :=
  match wk with
  | KubernetesWorker cfg => Spawner_Run cfg
  | LocalWorker accepts endpoint project => Pipeline_Run accepts (local_imageRef endpoint project)
  end.

(** The image a submission is built to. *)
Definition image_of (wk : Worker) (id : string) : string :=
  match wk with
  | KubernetesWorker cfg =>
      if RegistryECR cfg then image_ref (HarborStagingEndpoint cfg) (HarborProject cfg) id
      else image_ref (HarborProductionEndpoint cfg) (HarborProject cfg) id
  | LocalWorker _ endpoint project => local_imageRef endpoint project id
  end.

Record Sys := mkSys { b_db : DB; b_threads : list (prog unit) }.

(** Any number of workers handle any number of copies of a request, in any
    interleaving and with crashes; a request names a submission that is
    stored, since the API publishes it after the insert.  The API goes on
    inserting and claiming submissions. *)
Inductive bstep (wk : Worker) : Sys -> Sys -> Prop :=
  | bs_request s msg :
      is_Some (submissions (b_db s) !! br_SubmissionID msg) ->
      bstep wk s (mkSys (b_db s) (b_threads s ++ [consume_build (handler wk) (Some msg)]))
  | bs_garbage s : bstep wk s (mkSys (b_db s) (b_threads s ++ [consume_build (handler wk) None]))
  | bs_call s i X (c : call X) k x db' :
      b_threads s !! i = Some (Call c k) -> answers c (b_db s) x db' ->
      bstep wk s (mkSys db' (<[i := k x]> (b_threads s)))
  | bs_crash s i : bstep wk s (mkSys (b_db s) (delete i (b_threads s)))
  | bs_insert s m db' :
      sm_Status m = StatusUploaded -> insert_submission (b_db s) m = inr db' -> bstep wk s (mkSys db' (b_threads s))
  | bs_claim s id contestant n db' :
      claim_contestant (b_db s) id contestant = (n, db') -> bstep wk s (mkSys db' (b_threads s)).

Definition reached (wk : Worker) (s : Sys) : Prop := rtc (bstep wk) (mkSys emptyDB []) s.

End System.

(** ** One request, with an obedient database *)

Definition event := {X : Type & (call X * X)%type}.

(** The answers after which the worker goes on. *)
Definition fine {X} (c : call X) : X -> bool :=
  match c in call X return X -> bool with
  | Download _ => fun x => match x with Some zr => match CheckZipSlip zr with inr _ => true | inl _ => false end | None => false end
  | CreateRepository _ => fun x => match x with CreateFailed => false | _ => true end
  | DockerConfigJSON => fun x => x
  | SecretUpdate => fun x => match x with UpdateFailed => false | _ => true end
  | SecretCreate => fun x => x
  | CreateJob _ _ _ => fun x => match x with CreateFailed => false | _ => true end
  | Watch _ => fun x => match waitForJob x.1 x.2 with inr _ => true | inl _ => false end
  | CopyImage _ _ _ => fun x => x
  | _ => fun _ => true
  end.

(** A run in which every statement on the database succeeds, with its trace
    and the tables it leaves. *)
Inductive runs {A} : prog A -> DB -> list event -> A -> DB -> Prop :=
  | runs_ret a db : runs (Ret a) db [] a db
  | runs_call X (c : call X) k db x db1 tr a db' :
      answers c db x db1 ->
      match c in call X return X -> Prop with UpdateDBStatus _ _ | SetImageRef _ _ => fun x => x = true | _ => fun _ => True end x ->
      runs (k x) db1 tr a db' ->
      runs (Call c k) db (existT X (c, x) :: tr) a db'.

Definition all_fine (tr : list event) : bool := forallb (fun e => fine (projT2 e).1 (projT2 e).2) tr.
