(* ===== verification/BuildProps.v ===== *)
(** * build-worker: what its runs guarantee

    Three results over [Build]: a submission marked ready has its image, in
    every interleaving; the status of a submission only moves forward; and a
    request handled without losing the database ends in ready or failed
    according to the answers the worker got.  The last one is proved with a
    weakest-precondition reading of the programs. *)

From Stdlib Require Import Ascii.
From stdpp Require Import prelude gmap strings list relations.
From S2P Require Import Prelude Prog Topics Archive Intake Dockerfile SubStore Build.

Open Scope Z_scope.

(** ** Rows *)

(** The row a status update leaves. *)
Definition move (m : SubmissionMeta) (status : string) : SubmissionMeta :=
  if (0 <=? status_rank status) &&
     (bool_decide (sm_Status m = status) ||
      (negb (bool_decide (sm_Status m = "failed"%string)) && (status_rank (sm_Status m) <=? status_rank status)))
  then set_status m status else m.

Lemma UpdateStatus_row db id status db' i :
  UpdateStatus db id status = Some db' ->
  submissions db' !! i = (if bool_decide (i = id) then (fun m => move m status) <$> submissions db !! i else submissions db !! i).
Proof.
  unfold UpdateStatus. destruct (negb _); [done|]. intros [= <-]. cbn. case_bool_decide; subst.
  - by rewrite lookup_alter_eq.
  - by rewrite lookup_alter_ne.
Qed.

Lemma UpdateImageRef_row db id ref db' i :
  UpdateImageRef db id ref = Some db' ->
  submissions db' !! i = (if bool_decide (i = id) then (fun m => set_image m ref) <$> submissions db !! i else submissions db !! i).
Proof.
  unfold UpdateImageRef. case_bool_decide; [done|]. intros [= <-]. cbn. case_bool_decide; subst.
  - by rewrite lookup_alter_eq.
  - by rewrite lookup_alter_ne.
Qed.

Lemma claim_row db id c n db' i :
  claim_contestant db id c = (n, db') ->
  submissions db' !! i = submissions db !! i \/ exists m, submissions db !! i = Some m /\ submissions db' !! i = Some (set_contestant m c).
Proof.
  unfold claim_contestant. destruct (submissions db !! id) as [m|] eqn:E; [|intros [= _ <-]; by left].
  case_bool_decide; intros [= _ <-]; [|by left]. cbn. destruct (decide (i = id)) as [->|].
  - rewrite lookup_insert_eq. right. by exists m.
  - rewrite lookup_insert_ne by done. by left.
Qed.

Lemma insert_row db m db' i :
  insert_submission db m = inr db' ->
  submissions db' !! i = submissions db !! i \/ (submissions db !! i = None /\ submissions db' !! i = Some m).
Proof.
  unfold insert_submission. destruct (_ || _) eqn:E; [done|]. intros [= <-]. apply orb_false_iff in E as [E _].
  apply bool_decide_eq_false in E. cbn. destruct (decide (i = sm_SubmissionID m)) as [->|].
  - rewrite lookup_insert_eq. right. split; [by apply eq_None_not_Some|done].
  - rewrite lookup_insert_ne by done. by left.
Qed.

Lemma move_image m st : sm_ImageRef (move m st) = sm_ImageRef m.
Proof. unfold move. by destruct (_ && _). Qed.

Lemma move_status m st : sm_Status (move m st) = sm_Status m \/ sm_Status (move m st) = st.
Proof. unfold move. destruct (_ && _); [by right|by left]. Qed.

(** ** Knowing that the image is stored *)

Section Ready.
Context `{Unicode} `{Sha256}.
Variable wk : Worker.

(** [need]: what a call of the worker asks for, with [known] whether this
    program has stored the image of [id]; [gain]: what its answer teaches. *)
Definition need (id : string) (known : bool) {X} (c : call X) : Prop :=
  match c with
  | UpdateDBStatus id' status => status = StatusReady -> id' = id /\ known = true
  | SetImageRef id' ref => id' = id /\ ref = image_of wk id
  | _ => True
  end.

Definition gain (known : bool) {X} (c : call X) : X -> bool :=
  match c in call X return X -> bool with SetImageRef _ _ => fun x => x || known | _ => fun _ => known end.

Definition knows {A} (id : string) (known : bool) (p : prog A) (Q : A -> bool -> Prop) : Prop :=
  wp (fun X c known => need id known c) (fun X c known x known' => known' = gain known c x) p known Q.

Lemma knows_bind {A B} id kn (p : prog A) (f : A -> prog B) Q :
  knows id kn p (fun a kn => knows id kn (f a) Q) -> knows id kn (bind p f) Q.
Proof. apply wp_bind. Qed.

(** Programs that touch no row. *)
Definition quiet {X} (c : call X) : Prop := match c with UpdateDBStatus _ _ | SetImageRef _ _ => False | _ => True end.

Fixpoint quietly {A} (p : prog A) (P : A -> Prop) : Prop :=
  match p with Ret a => P a | Call c k => quiet c /\ forall x, quietly (k x) P end.

Lemma quietly_bind {A B} (p : prog A) (f : A -> prog B) P R :
  quietly p P -> (forall a, P a -> quietly (f a) R) -> quietly (bind p f) R.
Proof. intros Hp Hf. induction p as [a|X c k IH]; cbn in *; [by apply Hf|]. destruct Hp as [Hc Hk]. split; [done|]. intros x. by apply IH. Qed.

Lemma quietly_par {A B} (p : prog A) (q : prog B) P R :
  quietly p P -> quietly q R -> quietly (par p q) (fun ab => P ab.1 /\ R ab.2).
Proof.
  revert q. induction p as [a|X c k IH]; intros q Hp.
  - intros Hq. destruct q as [b|Y d l]; cbn in *; [done|]. destruct Hq as [Hc Hk]. split; [done|]. intros x.
    eapply quietly_bind; [apply Hk|]. by intros b Hb.
  - induction q as [b|Y d l IHq]; intros Hq; cbn.
    + destruct Hp as [Hc Hk]. split; [done|]. intros x. eapply quietly_bind; [apply Hk|]. by intros a Ha.
    + destruct Hp as [Hc Hk]. split; [done|]. intros [].
      * cbn. split; [done|]. intros x. apply IH; [apply Hk|done].
      * destruct Hq as [Hd Hl]. cbn. split; [done|]. intros y. apply IHq, Hl.
Qed.

Lemma knows_quietly {A} id kn (p : prog A) P (Q : A -> bool -> Prop) :
  quietly p P -> (forall a, P a -> Q a kn) -> knows id kn p Q.
Proof.
  intros Hp HQ. induction p as [a|X c k IH]; cbn in *; [by apply HQ|]. destruct Hp as [Hc Hk]. split; [by destruct c|].
  intros x kn' ->. replace (gain kn c x) with kn by (by destruct c). by apply IH.
Qed.

Lemma knows_ret {A} id kn (a : A) (Q : A -> bool -> Prop) : Q a kn -> knows id kn (Ret a) Q.
Proof. done. Qed.

Lemma knows_ask {X} id kn (c : call X) Q : need id kn c -> (forall x, Q x (gain kn c x)) -> knows id kn (ask c) Q.
Proof. intros Hn HQ. apply wp_ask; [done|]. intros x kn' ->. apply HQ. Qed.

Lemma knows_setStatus id kn id' st msg Q :
  (st = StatusReady -> id' = id /\ kn = true) -> Q tt kn -> knows id kn (setStatus id' st msg) Q.
Proof. intros Hst HQ. apply knows_bind, knows_ask; [done|]. intros x. apply knows_bind, knows_ask; [done|]. done. Qed.

Lemma quiet_wait name : quietly (wait_job name) (fun _ => True).
Proof. cbn. split; [done|]. by intros [polls stop]. Qed.

Lemma quiet_job id name mode file status :
  quietly (phase2_job id name mode file status) (fun r => match r with inr st => st = status | inl _ => True end).
Proof. eapply quietly_bind; [apply quiet_wait|]. intros [|] _; cbn; by repeat split. Qed.

Lemma quiet_create name mode ref : quietly (createJob name mode ref) (fun _ => True).
Proof. by repeat split. Qed.

Lemma quiet_repository cfg ref : quietly (ensureRepository cfg ref) (fun _ => True).
Proof. unfold ensureRepository. by destruct (negb _); repeat split. Qed.

Lemma quiet_secret : quietly ensureDockerConfigSecret (fun _ => True).
Proof. cbn. split; [done|]. intros []; cbn; [|done]. split; [done|]. by intros []; repeat split. Qed.

End Ready.

Create HintDb quiet.
#[export] Hint Resolve quiet_wait quiet_job quiet_create quiet_repository quiet_secret quietly_par : quiet.

(** Symbolic execution under [knows]. *)
Ltac know :=
  lazymatch goal with
  | |- knows _ _ _ (fail _ _) _ => apply knows_setStatus; [done|]
  | |- knows _ _ _ (setStatus _ _ _) _ => apply knows_setStatus; [try done|]
  | |- knows _ _ _ (bind _ _) _ => apply knows_bind; know
  | |- knows _ _ _ (ask _) _ => apply knows_ask; [try done|intros ?; cbn [gain]]
  | |- knows _ _ _ (Ret _) _ => apply knows_ret
  | |- knows _ _ _ ?p _ => try (eapply knows_quietly; [solve [eauto with quiet]|intros ? ?])
  | _ => idtac
  end.

Section Programs.
Context `{Unicode} `{Sha256}.

Lemma knows_promote cfg id Q :
  (forall kn, Q tt kn) ->
  knows (KubernetesWorker cfg) id false (promote cfg id (image_ref (HarborStagingEndpoint cfg) (HarborProject cfg) id)) Q.
Proof.
  intros HQ. unfold promote.
  assert (Hf : forall ref, ref = image_of (KubernetesWorker cfg) id ->
    knows (KubernetesWorker cfg) id false (let! ok := ask (SetImageRef id ref) in if negb ok then fail id "persist image ref"
                                           else setStatus id StatusReady "image ready") Q).
  { intros ref ->. apply knows_bind, knows_ask; [done|]. intros []; cbn [negb gain orb].
    - apply knows_setStatus; [done|apply HQ].
    - apply knows_setStatus; [done|apply HQ]. }
  cbn [image_of] in Hf. destruct (RegistryECR cfg); [by apply Hf|].
  know. destruct (negb _); [know; apply HQ|]. know. destruct (negb _); [know; apply HQ|]. by apply Hf.
Qed.

Lemma knows_set_statuses wk id l Q :
  Forall (fun st => st <> StatusReady) l -> Q tt false -> knows wk id false (set_statuses id l) Q.
Proof. intros Hl HQ. induction Hl as [|st l Hst Hl IH]; [done|]. cbn [set_statuses]. know. by apply IH. Qed.

(** A failed step ends the run. *)
Ltac bail HQ := destruct (negb _); [know; apply HQ|].

Lemma knows_phase2 cfg id Q :
  (forall kn, Q tt kn) ->
  knows (KubernetesWorker cfg) id false (phase2 cfg id (image_ref (HarborStagingEndpoint cfg) (HarborProject cfg) id)) Q.
Proof.
  intros HQ. unfold phase2. know. bail HQ. know. bail HQ.
  eapply knows_bind, knows_quietly; [apply quietly_par; apply quiet_job|]. intros [a' b] [Ha Hb]. cbn [fst snd] in Ha, Hb. know.
  assert (Hs : Forall (fun st => st <> StatusReady) (sent a' b x).1) by (destruct a', b, x; subst; by repeat constructor).
  destruct (sent a' b x) as [statuses errs]. destruct errs; cbn [phase2Outcome]; [|know; apply HQ].
  know. apply knows_set_statuses; [done|]. by apply knows_promote.
Qed.

Lemma knows_spawner cfg msg Q :
  (forall kn, Q tt kn) -> knows (KubernetesWorker cfg) (br_SubmissionID msg) false (Spawner_Run cfg msg) Q.
Proof.
  intros HQ. unfold Spawner_Run. know. case_match; [|know; apply HQ]. case_match; [know; apply HQ|].
  case_match; [know; apply HQ|]. unfold build_phase. know. know. bail HQ. apply knows_bind.
  destruct (RegistryECR cfg); know.
  all: bail HQ; know; bail HQ; know; know; know; case_match; [know; apply HQ|by apply knows_phase2].
Qed.

Lemma knows_pipeline accepts endpoint project msg R :
  (forall e kn, R e kn) ->
  knows (LocalWorker accepts endpoint project) (br_SubmissionID msg) false (pipeline_run accepts (local_imageRef endpoint project) msg) R.
Proof.
  intros HR. unfold pipeline_run. know. case_match; [|know; apply HR]. know. case_match; [know; apply HR|]. know. know.
  bail HR. apply knows_bind. unfold after_build. know. destruct (negb _); [by know; know; know|]. know. know. know.
  destruct (negb _); [by know; know; know|]. know. know. know. destruct (negb _); [by know; know; know|].
  apply knows_bind, knows_ask; [done|]. intros []; cbn [gain negb orb]; know; know; know; apply HR.
Qed.

Lemma knows_handler wk msg Q :
  (forall kn, Q tt kn) -> knows wk (br_SubmissionID msg) false (handler wk msg) Q.
Proof.
  intros HQ. destruct wk as [cfg|accepts endpoint project]; cbn [handler]; [by apply knows_spawner|].
  unfold Pipeline_Run. apply knows_bind, knows_pipeline. intros [e|] kn; know; apply HQ.
Qed.

(** ** Every interleaving *)

(** How a row may change: its status by a move, its image to the one image
    of the submission. *)
Definition row_change (wk : Worker) (id : string) (m m' : SubmissionMeta) : Prop :=
  (sm_Status m' = sm_Status m \/ exists st, m' = move m st) /\ (sm_ImageRef m' = sm_ImageRef m \/ sm_ImageRef m' = image_of wk id).

Definition rows_change (wk : Worker) (db db' : DB) : Prop :=
  forall id m, submissions db !! id = Some m -> exists m', submissions db' !! id = Some m' /\ row_change wk id m m'.

Definition stored (wk : Worker) (db : DB) (id : string) : Prop :=
  exists m, submissions db !! id = Some m /\ sm_ImageRef m = image_of wk id.

Definition ready_stored (wk : Worker) (db : DB) : Prop :=
  forall id m, submissions db !! id = Some m -> sm_Status m = StatusReady -> sm_ImageRef m = image_of wk id.

Definition thread_ok (wk : Worker) (db : DB) (p : prog unit) : Prop :=
  quietly p (fun _ => True) \/
  exists id kn, knows wk id kn p (fun _ _ => True) /\ is_Some (submissions db !! id) /\ (kn = true -> stored wk db id).

Lemma rows_change_refl wk db : rows_change wk db db.
Proof. intros id m Hm. exists m. split; [done|]. split; by left. Qed.

Lemma stored_change wk db db' id : rows_change wk db db' -> stored wk db id -> stored wk db' id.
Proof. intros Hc (m & Hm & Hi). destruct (Hc id m Hm) as (m' & Hm' & _ & [E|E]); exists m'; split; try done; congruence. Qed.

Lemma thread_change wk db db' p : rows_change wk db db' -> thread_ok wk db p -> thread_ok wk db' p.
Proof.
  intros Hc [Hq|(id & kn & Hk & [m Hm] & Hs)]; [by left|]. right. exists id, kn. split; [done|]. split.
  - destruct (Hc id m Hm) as (m' & -> & _). by eexists.
  - intros Hkn. by eapply stored_change, Hs.
Qed.

Lemma status_change wk db id st db' : UpdateStatus db id st = Some db' -> rows_change wk db db'.
Proof.
  intros Hu i m Hm. rewrite (UpdateStatus_row _ _ _ _ i Hu), Hm. case_bool_decide; cbn [fmap option_fmap option_map].
  - exists (move m st). split; [done|]. split; [right; by exists st|left; apply move_image].
  - exists m. split; [done|]. split; by left.
Qed.

Lemma image_change wk db id db' : UpdateImageRef db id (image_of wk id) = Some db' -> rows_change wk db db'.
Proof.
  intros Hu i m Hm. rewrite (UpdateImageRef_row _ _ _ _ i Hu), Hm. case_bool_decide; subst; cbn [fmap option_fmap option_map].
  - eexists. split; [done|]. split; [by left|by right].
  - exists m. split; [done|]. split; by left.
Qed.

Lemma status_ready wk db id st db' :
  UpdateStatus db id st = Some db' -> (st = StatusReady -> stored wk db id) -> ready_stored wk db -> ready_stored wk db'.
Proof.
  intros Hu Hst HI i m. rewrite (UpdateStatus_row _ _ _ _ i Hu). case_bool_decide as E; [|apply HI]. subst i.
  destruct (submissions db !! id) as [m0|] eqn:E0; [|done]. cbn. intros [= <-]. rewrite move_image. intros Hr.
  destruct (move_status m0 st) as [E|E]; [by apply (HI id m0 E0); rewrite <-E|].
  destruct Hst as (m1 & Hm1 & Hi); [congruence|]. congruence.
Qed.

Lemma image_ready wk db id db' :
  UpdateImageRef db id (image_of wk id) = Some db' -> ready_stored wk db -> ready_stored wk db' /\ (is_Some (submissions db !! id) -> stored wk db' id).
Proof.
  intros Hu HI. split.
  - intros i m. rewrite (UpdateImageRef_row _ _ _ _ i Hu). case_bool_decide as E; [|apply HI]. subst i.
    destruct (submissions db !! id); [|done]. cbn. by intros [= <-].
  - intros [m Hm]. exists (set_image m (image_of wk id)). split; [|done]. rewrite (UpdateImageRef_row _ _ _ _ id Hu), Hm.
    by rewrite bool_decide_true.
Qed.

(** One call of a thread. *)
Lemma call_ok wk X (c : call X) k db x db' :
  thread_ok wk db (Call c k) -> answers c db x db' -> ready_stored wk db ->
  rows_change wk db db' /\ ready_stored wk db' /\ thread_ok wk db' (k x).
Proof.
  intros Ht Ha HI.
  assert (Hquiet : quiet c -> rows_change wk db db' /\ ready_stored wk db' /\ thread_ok wk db' (k x)).
  { intros Hc. assert (db' = db) as -> by (by destruct c). split; [apply rows_change_refl|]. split; [done|].
    destruct Ht as [[_ Hk]|(id & kn & [_ Hk] & Hrow & Hs)]; [left; apply Hk|]. right. exists id, kn. split; [|done].
    specialize (Hk x _ eq_refl). by destruct c. }
  destruct c as [|? ? ?|id st|id ref| | | | | | | | | | | | | | | |]; try (by apply Hquiet); clear Hquiet.
  - destruct Ht as [[[] _]|(id' & kn & [Hn Hk] & Hrow & Hs)]. cbn in Ha, Hn.
    assert (Hdb : db' = db \/ UpdateStatus db id st = Some db') by (destruct (UpdateStatus db id st); cbn in Ha; naive_solver).
    destruct Hdb as [->|Hu].
    + split; [apply rows_change_refl|]. split; [done|]. right. exists id', kn. split; [by apply (Hk x)|done].
    + pose proof (status_change wk _ _ _ _ Hu) as Hc. split; [done|]. split.
      * apply (status_ready wk db id st); [done| |done]. intros Hst. destruct (Hn Hst) as [-> ?]. by apply Hs.
      * apply (thread_change wk db); [done|]. right. exists id', kn. split; [by apply (Hk x)|done].
  - destruct Ht as [[[] _]|(id' & kn & [[-> ->] Hk] & Hrow & Hs)]. cbn in Ha.
    destruct (UpdateImageRef db id' (image_of wk id')) as [d|] eqn:Hu; cbn in Ha.
    + assert (Hdb : db' = d \/ (db' = db /\ x = false)) by naive_solver. destruct Hdb as [->|[-> ->]].
      * pose proof (image_change wk _ _ _ Hu) as Hc. destruct (image_ready wk _ _ _ Hu HI) as [HI' Hst].
        split; [done|]. split; [done|]. right. exists id', (x || kn). split; [by apply (Hk x)|]. split; [|by auto].
        destruct (Hst Hrow) as (m & -> & _). by eexists.
      * split; [apply rows_change_refl|]. split; [done|]. right. exists id', kn. split; [by apply (Hk false)|done].
    + destruct Ha as [-> ->]. split; [apply rows_change_refl|]. split; [done|]. right. exists id', kn. split; [by apply (Hk false)|done].
Qed.

Definition build_inv (wk : Worker) (s : Sys) : Prop := ready_stored wk (b_db s) /\ Forall (thread_ok wk (b_db s)) (b_threads s).

Lemma insert_change wk db m db' :
  insert_submission db m = inr db' -> sm_Status m = StatusUploaded -> rows_change wk db db' /\ (ready_stored wk db -> ready_stored wk db').
Proof.
  intros Hi Hst. split.
  - intros i m0 Hm0. exists m0. destruct (insert_row _ _ _ i Hi) as [->|[? _]]; [|congruence]. split; [done|]. split; by left.
  - intros HI i m0. destruct (insert_row _ _ _ i Hi) as [->|[_ ->]]; [apply HI|]. intros [= <-]. by rewrite Hst.
Qed.

Lemma claim_change wk db id c n db' :
  claim_contestant db id c = (n, db') -> rows_change wk db db' /\ (ready_stored wk db -> ready_stored wk db').
Proof.
  intros Hi. split.
  - intros i m0 Hm0. destruct (claim_row _ _ _ _ _ i Hi) as [->|(m & Hm & ->)].
    + exists m0. split; [done|]. split; by left.
    + rewrite Hm0 in Hm. injection Hm as <-. eexists. split; [done|]. split; by left.
  - intros HI i m0. destruct (claim_row _ _ _ _ _ i Hi) as [->|(m & Hm & ->)]; [apply HI|]. intros [= <-]. cbn. by apply HI.
Qed.

Lemma request_ok wk db msg : is_Some (submissions db !! br_SubmissionID msg) -> thread_ok wk db (consume_build (handler wk) (Some msg)).
Proof.
  intros Hrow. right. exists (br_SubmissionID msg), false. split; [|done]. cbn [consume_build].
  apply knows_bind, knows_handler. intros kn. by cbn.
Qed.

Lemma threads_change wk db db' ts : rows_change wk db db' -> Forall (thread_ok wk db) ts -> Forall (thread_ok wk db') ts.
Proof. intros Hc Hts. eapply Forall_impl; [exact Hts|]. intros p. by apply thread_change. Qed.

Lemma step_build wk s s' : build_inv wk s -> bstep wk s s' -> rows_change wk (b_db s) (b_db s') /\ build_inv wk s'.
Proof.
  intros [HI Hts]. destruct 1 as [s msg Hrow|s|s i X c k x db' Hi Ha|s i|s m db' Hst Hins|s id c n db' Hcl]; cbn [b_db].
  - split; [apply rows_change_refl|]. split; [done|]. apply Forall_app. split; [done|]. apply Forall_singleton. by apply request_ok.
  - split; [apply rows_change_refl|]. split; [done|]. apply Forall_app. split; [done|]. apply Forall_singleton. left. by repeat split.
  - pose proof (Forall_lookup_1 _ _ _ _ Hts Hi) as Ht. destruct (call_ok wk X c k _ x db' Ht Ha HI) as (Hc & HI' & Hk).
    split; [done|]. split; [done|]. cbn. apply Forall_insert; [by eapply threads_change|done].
  - split; [apply rows_change_refl|]. split; [done|]. by apply Forall_delete.
  - destruct (insert_change wk _ _ _ Hins Hst) as [Hc HI']. split; [done|]. split; [by apply HI'|by eapply threads_change].
  - destruct (claim_change wk _ _ _ _ _ Hcl) as [Hc HI']. split; [done|]. split; [by apply HI'|by eapply threads_change].
Qed.

Lemma reached_inv wk s : reached wk s -> build_inv wk s.
Proof.
  intros Hr. unfold reached in Hr. apply (rtc_ind_r (build_inv wk)) in Hr; [done|split; [by intros id m ?|constructor]|].
  intros y z _ Hyz Hy. by apply (step_build wk y z).
Qed.

(** C28: a submission that is marked ready has its image.  In every state the
    build workers can reach, with any number of them handling any number of
    copies of the same requests in any interleaving, with crashes, failed
    steps and statements whose answer is lost, a row whose status is ready
    carries the reference of that submission's own image. *)
Theorem ready_has_image wk s id m :
  reached wk s -> submissions (b_db s) !! id = Some m -> sm_Status m = StatusReady -> sm_ImageRef m = image_of wk id.
Proof. intros Hr. apply (reached_inv wk s Hr). Qed.

Lemma move_rank m st : status_rank (sm_Status m) <= status_rank (sm_Status (move m st)) /\ (sm_Status m = StatusFailed -> sm_Status (move m st) = StatusFailed).
Proof.
  unfold move. destruct (_ && _) eqn:E; [|by split; [lia|]]. apply andb_true_iff in E as [_ E]. cbn. apply orb_true_iff in E as [E|E].
  - apply bool_decide_eq_true in E. rewrite E. split; [lia|done].
  - apply andb_true_iff in E as [E1 E2%Z.leb_le]. split; [done|]. intros Hf. rewrite Hf in E1. done.
Qed.

(** A submission's status only moves forward.  From any reachable state,
    whatever happens next, every submission is still there, its status has
    not gone back in the order uploaded, building, scanned or sbom_ready,
    ready, failed, a failed submission stays failed, and the image reference
    is what it was or the submission's own image. *)
Theorem status_moves_forward wk s s' id m :
  reached wk s -> rtc (bstep wk) s s' -> submissions (b_db s) !! id = Some m ->
  exists m', submissions (b_db s') !! id = Some m' /\
    status_rank (sm_Status m) <= status_rank (sm_Status m') /\ (sm_Status m = StatusFailed -> sm_Status m' = StatusFailed) /\
    (sm_ImageRef m' = sm_ImageRef m \/ sm_ImageRef m' = image_of wk id).
Proof.
  intros Hr%reached_inv Hs Hm. induction Hs as [s|s s1 s' Hs1 Hs IH] in m, Hr, Hm |- *; [exists m; split_and!; auto; lia|].
  destruct (step_build wk s s1 Hr Hs1) as [Hc Hr1]. destruct (Hc id m Hm) as (m1 & Hm1 & Hst & Him).
  destruct (IH m1 Hr1 Hm1) as (m' & Hm' & Hrk & Hf & Him'). exists m'. split; [done|].
  assert (H1 : status_rank (sm_Status m) <= status_rank (sm_Status m1) /\ (sm_Status m = StatusFailed -> sm_Status m1 = StatusFailed)).
  { destruct Hst as [->|[st ->]]; [by split; [lia|]|apply move_rank]. }
  split_and!; [lia|tauto|]. destruct Him as [E|E], Him' as [E'|E']; rewrite ?E', ?E; auto.
Qed.

End Programs.

(** ** The outcome of one request *)

(** Statements on the database succeed. *)
Definition obeyed {X} (c : call X) : X -> Prop :=
  match c in call X return X -> Prop with UpdateDBStatus _ _ | SetImageRef _ _ => fun x => x = true | _ => fun _ => True end.

(** [leads p db good Q]: however the calls are answered, [p] ends with [Q],
    which is told whether all the answers so far were fine. *)
Fixpoint leads {A} (p : prog A) (db : DB) (good : bool) (Q : A -> DB -> bool -> Prop) : Prop :=
  match p with
  | Ret a => Q a db good
  | Call c k => forall x db1, answers c db x db1 -> obeyed c x -> leads (k x) db1 (good && fine c x) Q
  end.

Lemma leads_sound {A} (p : prog A) db tr a db' good Q :
  runs p db tr a db' -> leads p db good Q -> Q a db' (good && all_fine tr).
Proof.
  intros Hr. revert good. induction Hr as [a db|X c k db x db1 tr a db' Ha Ho Hr IH]; intros good; cbn.
  - by rewrite andb_true_r.
  - intros Hl. rewrite andb_assoc. by apply IH, Hl.
Qed.

Lemma leads_bind {A B} (p : prog A) (f : A -> prog B) db good Q :
  leads p db good (fun a db good => leads (f a) db good Q) -> leads (bind p f) db good Q.
Proof. revert db good. induction p as [a|X c k IH]; intros db good; cbn; [done|]. intros Hl x db1 Ha Ho. by apply IH, Hl. Qed.

Lemma leads_impl {A} (p : prog A) db good (Q R : A -> DB -> bool -> Prop) :
  (forall a db good, Q a db good -> R a db good) -> leads p db good Q -> leads p db good R.
Proof. intros HQ. revert db good. induction p as [a|X c k IH]; intros db good; cbn; [by apply HQ|]. intros Hl x db1 Ha Ho. by apply IH, Hl. Qed.

(** A program that leaves the tables alone and whose result says whether its
    answers were fine. *)
Fixpoint tally {A} (p : prog A) (acc : bool) (ok : A -> bool) : Prop :=
  match p with Ret a => ok a = acc | Call c k => quiet c /\ forall x, tally (k x) (acc && fine c x) ok end.

Lemma tally_bind {A B} (p : prog A) (f : A -> prog B) acc ok ok' :
  tally p acc ok -> (forall a, tally (f a) (ok a) ok') -> tally (bind p f) acc ok'.
Proof.
  intros Hp Hf. revert acc Hp. induction p as [a|X c k IH]; intros acc Hp; cbn in *; [by rewrite <-Hp|].
  destruct Hp as [Hc Hk]. split; [done|]. intros x. by apply IH.
Qed.

Lemma tally_frame {A B} (p : prog A) acc ok b (f : A -> B) ok' :
  tally p acc ok -> (forall a, ok' (f a) = b && ok a) -> tally (bind p (fun a => Ret (f a))) (b && acc) ok'.
Proof.
  intros Hp Hf. revert acc Hp. induction p as [a|X c k IH]; intros acc Hp; cbn in *; [by rewrite Hf, Hp|].
  destruct Hp as [Hc Hk]. split; [done|]. intros x. rewrite <-andb_assoc. by apply IH.
Qed.

Lemma tally_par {A B} (p : prog A) (q : prog B) a b ok ok' :
  tally p a ok -> tally q b ok' -> tally (par p q) (a && b) (fun r => ok r.1 && ok' r.2).
Proof.
  revert a b q. induction p as [v|X c k IH]; intros a b q Hp.
  - intros Hq. cbn in Hp. subst a. assert (Hb : tally (bind q (fun w => Ret (v, w))) (ok v && b) (fun r => ok r.1 && ok' r.2))
      by (by apply (tally_frame q b ok')). by destruct q.
  - revert b. induction q as [w|Y d l IHq]; intros b Hq.
    + cbn in Hq. subst b. rewrite andb_comm.
      change (par (Call c k) (Ret w)) with (bind (Call c k) (fun v => Ret (v, w))).
      apply (tally_frame (Call c k) a ok); [done|]. intros v. cbn. apply andb_comm.
    + cbn [interleave]. destruct Hp as [Hc Hk]. cbn [tally]. split; [done|]. intros []; rewrite andb_true_r.
      * cbn [tally]. split; [done|]. intros x. replace (a && b && fine c x) with ((a && fine c x) && b) by (by destruct a, b, (fine c x)).
        by apply IH.
      * destruct Hq as [Hd Hl]. cbn [tally]. split; [done|]. intros y. rewrite <-andb_assoc. by apply IHq.
Qed.

Lemma leads_tally {A} (p : prog A) acc ok db good Q :
  tally p acc ok -> (forall a, Q a db (good && ok a)) -> leads p db (good && acc) Q.
Proof.
  intros Hp HQ. revert acc Hp. induction p as [a|X c k IH]; intros acc Hp; cbn in *; [rewrite <-Hp; apply HQ|].
  destruct Hp as [Hc Hk]. intros x db1 Ha Ho. assert (db1 = db) as -> by (by destruct c). rewrite <-andb_assoc. by apply IH.
Qed.

Lemma leads_quiet {A} (p : prog A) ok db good Q :
  tally p true ok -> (forall a, Q a db (good && ok a)) -> leads p db good Q.
Proof. intros Hp HQ. rewrite <-(andb_true_r good). by eapply leads_tally. Qed.

(** The same, knowing something of the result. *)
Lemma leads_quietly {A} (p : prog A) ok P db good Q :
  tally p true ok -> quietly p P -> (forall a, P a -> Q a db (good && ok a)) -> leads p db good Q.
Proof.
  intros Hp Hq HQ. rewrite <-(andb_true_r good). revert Hp. generalize true. induction p as [a|X c k IH]; intros acc Hp; cbn in *; [rewrite <-Hp; by apply HQ|].
  destruct Hp as [Hc Hk], Hq as [_ Hq]. intros x db1 Ha Ho. assert (db1 = db) as -> by (by destruct c). rewrite <-andb_assoc. by apply IH.
Qed.

Lemma tally_wait name : tally (wait_job name) true (fun r => match r with inr _ => true | inl _ => false end).
Proof. cbn. split; [done|]. by intros [polls stop]. Qed.

Lemma tally_create name mode ref : tally (createJob name mode ref) true (fun b => b).
Proof. cbn. split; [done|]. by intros []. Qed.

Lemma tally_job id name mode file status :
  tally (phase2_job id name mode file status) true (fun r => match r with inr _ => true | inl _ => false end).
Proof. eapply tally_bind; [apply tally_wait|]. intros [|]; cbn; by repeat split. Qed.

Lemma tally_repository cfg ref : tally (ensureRepository cfg ref) true (fun b => b).
Proof. unfold ensureRepository. destruct (negb _); cbn; [done|]. split; [done|]. by intros []. Qed.

Lemma tally_secret : tally ensureDockerConfigSecret true (fun b => b).
Proof. cbn. split; [done|]. intros []; cbn; [|done]. split; [done|]. intros []; cbn; [done| |done]. split; [done|]. by intros []. Qed.

(** The tables with the row of [id] replaced. *)
Definition set_row (db : DB) (id : string) (m : SubmissionMeta) : DB := set_submissions db (<[id := m]> (submissions db)).

Lemma set_row_same db id m : submissions db !! id = Some m -> set_row db id m = db.
Proof. intros Hm. unfold set_row, set_submissions. rewrite insert_id by done. by destruct db. Qed.

Lemma UpdateStatus_set_row db id m st :
  validSubmissionStatus st = true -> UpdateStatus (set_row db id m) id st = Some (set_row db id (move m st)).
Proof.
  intros Hv. unfold UpdateStatus. rewrite Hv. cbn. f_equal. unfold set_row, set_submissions. cbn. f_equal.
  rewrite alter_insert_eq. done.
Qed.

Lemma UpdateImageRef_set_row db id m ref :
  ref <> ""%string -> UpdateImageRef (set_row db id m) id ref = Some (set_row db id (set_image m ref)).
Proof.
  intros Hv. unfold UpdateImageRef. rewrite bool_decide_false by done. f_equal. unfold set_row, set_submissions. cbn. f_equal.
  by rewrite alter_insert_eq.
Qed.

Lemma leads_setStatus db id m st msg good Q :
  validSubmissionStatus st = true -> Q tt (set_row db id (move m st)) good -> leads (setStatus id st msg) (set_row db id m) good Q.
Proof.
  intros Hv HQ. cbn. intros x db1 -> _ y db2 Ha Hy. rewrite UpdateStatus_set_row in Ha by done. cbn in Ha. subst y.
  destruct Ha as [[_ ->]|[? _]]; [|done]. by rewrite !andb_true_r.
Qed.

Lemma leads_setImage db id m ref good Q :
  ref <> ""%string -> Q true (set_row db id (set_image m ref)) good -> leads (ask (SetImageRef id ref)) (set_row db id m) good Q.
Proof.
  intros Hv HQ. cbn. intros x db1 Ha Hx. rewrite UpdateImageRef_set_row in Ha by done. cbn in Ha. subst x.
  destruct Ha as [[_ ->]|[? _]]; [|done]. by rewrite !andb_true_r.
Qed.

(** A row under way: known status, [dead] when it has failed before, with the
    image [img]. *)
Definition live (dead : bool) (img : string) (m : SubmissionMeta) : Prop :=
  validSubmissionStatus (sm_Status m) = true /\ bool_decide (sm_Status m = StatusFailed) = dead /\ sm_ImageRef m = img.

Lemma live_cases dead img m : live dead img m ->
  if dead then sm_Status m = StatusFailed
  else sm_Status m = "uploaded"%string \/ sm_Status m = "building"%string \/
       sm_Status m = "scanned"%string \/ sm_Status m = "sbom_ready"%string \/ sm_Status m = "ready"%string.
Proof.
  intros (Hv & <- & _). unfold validSubmissionStatus in Hv. apply bool_decide_eq_true in Hv.
  rewrite !elem_of_cons, elem_of_nil in Hv. case_bool_decide as Hf; [done|]. unfold StatusFailed in Hf. tauto.
Qed.

Lemma move_live dead img m st :
  st ∈ [StatusBuilding; StatusScanned; StatusSBOMReady] -> live dead img m -> live dead img (move m st).
Proof.
  intros Hst Hl. pose proof (live_cases _ _ _ Hl) as Hc. destruct Hl as (Hv & Hf & Hi).
  rewrite !elem_of_cons, elem_of_nil in Hst. unfold live. rewrite move_image.
  assert (Hm : sm_Status (move m st) = sm_Status m \/ (dead = false /\ sm_Status (move m st) = st)).
  { destruct dead; [left|destruct (move_status m st); auto]. unfold move. rewrite Hc. by destruct Hst as [->|[->|[->|[]]]]. }
  destruct Hm as [->|[-> ->]]; [done|]. by destruct Hst as [->|[->|[->|[]]]].
Qed.

Lemma move_ready dead img m : live dead img m -> sm_Status (move m StatusReady) = if dead then StatusFailed else StatusReady.
Proof.
  intros Hl. apply live_cases in Hl. unfold move. destruct dead; [by rewrite Hl|]. by destruct Hl as [->|[->|[->|[->| ->]]]].
Qed.

Lemma move_failed dead img m : live dead img m -> sm_Status (move m StatusFailed) = StatusFailed.
Proof.
  intros Hl. apply live_cases in Hl. unfold move. destruct dead; [by rewrite Hl|]. by destruct Hl as [->|[->|[->|[->| ->]]]].
Qed.

Section Outcome.
Context `{Unicode} `{Sha256}.
Variable cfg : JobConfig.
Variable db : DB.
Variables id img : string.
Variable dead : bool.
#[local] Abbreviation live := (live dead).

(** How a run ends: ready with the image when every answer was fine (failed if
    it had failed before), failed with the image untouched otherwise. *)
Definition ends (good : bool) (db' : DB) : Prop :=
  exists m', db' = set_row db id m' /\
    if good then sm_Status m' = (if dead then StatusFailed else StatusReady) /\ sm_ImageRef m' = image_of (KubernetesWorker cfg) id
    else sm_Status m' = StatusFailed /\ sm_ImageRef m' = img.

Lemma image_nonempty : image_of (KubernetesWorker cfg) id <> ""%string.
Proof.
  assert (Hr : forall e p, image_ref e p id <> ""%string) by (intros [|c e] p; unfold image_ref; sapp; done).
  cbn. destruct (RegistryECR cfg); apply Hr.
Qed.

Lemma leads_failed m msg good :
  live img m -> leads (fail id msg) (set_row db id m) good (fun _ db' g => g = good /\ ends false db').
Proof.
  intros Hl. apply leads_setStatus; [done|]. split; [done|]. eexists. split; [done|]. split; [by eapply move_failed|]. rewrite move_image. apply Hl.
Qed.

Lemma leads_fail m msg good : live img m -> good = false -> leads (fail id msg) (set_row db id m) good (fun _ db' good => ends good db').
Proof. intros Hl ->. eapply leads_impl; [|by apply leads_failed]. by intros _ db' g [-> ?]. Qed.

Lemma leads_finish m ref good :
  live img m -> ref = image_of (KubernetesWorker cfg) id -> good = true ->
  leads (let! ok := ask (SetImageRef id ref) in if negb ok then fail id "persist image ref" else setStatus id StatusReady "image ready")
    (set_row db id m) good (fun _ db' good => ends good db').
Proof.
  intros Hl -> ->. apply leads_bind, leads_setImage; [apply image_nonempty|]. cbn [negb]. apply leads_setStatus; [done|].
  eexists. split; [done|]. split; [|by rewrite move_image]. apply (move_ready dead (image_of (KubernetesWorker cfg) id)).
  destruct Hl as (? & ? & ?). by split_and!.
Qed.

(** A quiet step whose result is its tally. *)
Lemma leads_step {A B} (p : prog A) ok (f : A -> prog B) db0 good Q :
  tally p true ok -> (forall a, leads (f a) db0 (good && ok a) Q) -> leads (bind p f) db0 good Q.
Proof. intros Hp Hf. apply leads_bind. by eapply leads_quiet. Qed.

Lemma leads_promote m :
  live img m ->
  leads (promote cfg id (image_ref (HarborStagingEndpoint cfg) (HarborProject cfg) id)) (set_row db id m) true (fun _ db' good => ends good db').
Proof.
  intros Hl. unfold promote. pose proof (leads_finish m) as Hfin. cbn [image_of] in Hfin. destruct (RegistryECR cfg) eqn:Ee; [by apply Hfin|].
  eapply leads_step; [apply tally_repository|]. intros []; cbn [negb andb]; [|by apply leads_fail].
  eapply (leads_step _ (fun b => b)); [cbn; split; [done|]; by intros []|]. intros []; cbn [negb andb]; [|by apply leads_fail]. by apply Hfin.
Qed.

Lemma leads_set_statuses m l good (Q : unit -> DB -> bool -> Prop) :
  live img m -> Forall (fun st => st ∈ [StatusBuilding; StatusScanned; StatusSBOMReady]) l ->
  (forall m, live img m -> Q tt (set_row db id m) good) -> leads (set_statuses id l) (set_row db id m) good Q.
Proof.
  intros Hm Hl HQ. revert m Hm. induction Hl as [|st l Hst Hl IH]; intros m Hm; cbn [set_statuses]; [by apply HQ|].
  apply leads_bind, leads_setStatus; [|apply IH; by apply move_live].
  rewrite !elem_of_cons, elem_of_nil in Hst. by destruct Hst as [->|[->|[->|[]]]].
Qed.
Lemma leads_phase2 m :
  live img m ->
  leads (phase2 cfg id (image_ref (HarborStagingEndpoint cfg) (HarborProject cfg) id)) (set_row db id m) true (fun _ db' good => ends good db').
Proof.
  intros Hl. unfold phase2. eapply leads_step; [apply tally_create|]. intros []; cbn [negb andb]; [|by apply leads_fail].
  eapply leads_step; [apply tally_create|]. intros []; cbn [negb andb]; [|by apply leads_fail].
  eapply leads_bind, leads_quietly; [apply (tally_par _ _ true true); apply tally_job|apply quietly_par; apply quiet_job|].
  intros [a b] [Ha Hb]. cbn [fst snd] in *. cbn [bind ask leads]. intros first db1 Hdb _. cbn in Hdb. subst db1. rewrite andb_true_r.
  destruct a as [ea|sa], b as [eb|sb]; cbn [andb].
  1-3: by destruct first; apply leads_fail.
  subst sa sb. assert (Hs : sent (inr StatusScanned) (inr StatusSBOMReady) first =
    (if first then [StatusScanned; StatusSBOMReady] else [StatusSBOMReady; StatusScanned], [])) by (by destruct first).
  rewrite Hs. cbn [phase2Outcome]. apply leads_bind, leads_set_statuses; [done| |].
  - destruct first; repeat constructor; set_solver.
  - intros m' Hm'. by apply leads_promote.
Qed.

End Outcome.

Section OutcomeTheorem.
Context `{Unicode} `{Sha256}.

Lemma leads_build cfg db msg m b64 dead :
  live dead (sm_ImageRef m) m ->
  leads (build_phase cfg msg b64 (image_ref (HarborStagingEndpoint cfg) (HarborProject cfg) (br_SubmissionID msg)))
    (set_row db (br_SubmissionID msg) m) true (fun _ db' good => ends cfg db (br_SubmissionID msg) (sm_ImageRef m) dead good db').
Proof.
  intros Hl. unfold build_phase. apply leads_bind, leads_setStatus; [done|]. pose proof (move_live _ _ m StatusBuilding ltac:(set_solver) Hl) as Hl'.
  eapply leads_step; [apply tally_repository|]. intros []; cbn [negb andb]; [|by apply leads_fail].
  eapply (leads_step _ (fun b => b)).
  { destruct (RegistryECR cfg); [apply tally_secret|done]. }
  intros []; cbn [negb andb]; [|by apply leads_fail].
  eapply leads_step; [apply tally_create|]. intros []; cbn [negb andb]; [|by apply leads_fail].
  eapply leads_step; [apply tally_wait|]. intros err. cbn [bind ask leads].
  intros x db1 Hdb _ y db2 Hdb2 _. cbn in Hdb, Hdb2. subst db1 db2. rewrite !andb_true_r. destruct err; cbn [andb].
  - by apply leads_fail.
  - by apply leads_phase2.
Qed.

(** C29: what a build request comes to.  Take a stored submission, and a run of the Kubernetes worker on its request in
    which the statements on the database succeed; every other call may answer anything, and the two jobs of the second
    phase finish in any order.  If every answer was fine and the request names a supported language and a valid target,
    the submission ends with its image, and ready unless it had failed before; otherwise it ends failed with its image
    reference untouched.  No other row and no other table changes.  So handling the request of a ready submission again,
    successfully, leaves it ready, and handling that of a failed one again, successfully, stores its image and leaves it
    failed. *)
Theorem build_outcome cfg msg db m tr db' :
  submissions db !! br_SubmissionID msg = Some m ->
  validSubmissionStatus (sm_Status m) = true ->
  runs (Spawner_Run cfg msg) db tr tt db' ->
  let generated := match Generate (br_Language msg) (br_BuildType msg) (br_BuildTarget msg) (br_Port msg) with inr _ => true | inl _ => false end in
  exists m', db' = set_submissions db (<[br_SubmissionID msg := m']> (submissions db)) /\
    if all_fine tr && generated
    then sm_Status m' = (if bool_decide (sm_Status m = StatusFailed) then StatusFailed else StatusReady) /\
         sm_ImageRef m' = image_of (KubernetesWorker cfg) (br_SubmissionID msg)
    else sm_Status m' = StatusFailed /\ sm_ImageRef m' = sm_ImageRef m.
Proof.
  intros Hm Hv Hr. cbn zeta. set (dead := bool_decide (sm_Status m = StatusFailed)).
  assert (Hl : live dead (sm_ImageRef m) m) by done.
  set (generated := match Generate _ _ _ _ with inr _ => true | inl _ => false end).
  apply (leads_sound _ _ _ _ _ true
    (fun _ db' good => ends cfg db (br_SubmissionID msg) (sm_ImageRef m) dead (good && generated) db')) in Hr; [done|].
  rewrite <-(set_row_same db _ m Hm) at 1. unfold Spawner_Run. cbn [bind ask leads]. intros zip db1 Hdb _. cbn in Hdb. subst db1.
  cbn [andb fine].
  assert (Hfail : forall msg' good, good && generated = false ->
    leads (fail (br_SubmissionID msg) msg') (set_row db (br_SubmissionID msg) m) good
      (fun _ db' good => ends cfg db (br_SubmissionID msg) (sm_ImageRef m) dead (good && generated) db')).
  { intros msg' good Hg. eapply leads_impl; [|by apply (leads_failed cfg db _ (sm_ImageRef m) dead)].
    intros _ db1 g [-> He]. by rewrite Hg. }
  destruct zip as [zr|]; [|by apply Hfail]. destruct (CheckZipSlip zr) as [|[]]; [by apply Hfail|].
  subst generated. destruct (Generate _ _ _ _) as [e|d]; [by apply Hfail|].
  eapply leads_impl; [|by apply leads_build]. intros u db1 good He. by rewrite andb_true_r.
Qed.

End OutcomeTheorem.
