(* ===== verification/BuildNames.v ===== *)
(** * build-worker: the names it gives to Kubernetes jobs

    [resourceName] and [dnsLabelFragment] of [internal/k8s/spawner.go], for
    the three jobs of a build. *)

From Stdlib Require Import Ascii.
From stdpp Require Import prelude gmap strings list.
From S2P Require Import Prelude Topics Archive Intake Dockerfile SubStore Build.

Open Scope Z_scope.

(** A byte of a DNS label, and one a label may start and end with. *)
Definition alnum (c : ascii) : bool := between 97 122 c || between 48 57 c.
Definition dnsByte (c : ascii) : bool := alnum c || Ascii.eqb c hyphen.

Lemma length_app_s (a b : string) : String.length (a +:+ b) = (String.length a + String.length b)%nat.
Proof. induction a as [|c a IH]; sapp; [done|]. cbn [String.length]. by rewrite IH. Qed.

Lemma slen_app (a b : string) : slen (a +:+ b) = slen a + slen b.
Proof. unfold slen. rewrite length_app_s. lia. Qed.

(** ** Pieces *)

Lemma lower_alnum c : between 65 90 c = true -> alnum (lower c) = true.
Proof. destruct c as [[] [] [] [] [] [] [] []]; vm_compute; done. Qed.

Lemma dns_bytes_ok value last : forall_bytes dnsByte (dns_bytes value last) = true.
Proof.
  revert last. induction value as [|c value IH]; intros last; [done|]. cbn [dns_bytes].
  destruct (between 97 122 c || between 48 57 c) eqn:E1; [|destruct (between 65 90 c) eqn:E2]; [| |destruct last]; cbn [forall_bytes].
  - rewrite IH. unfold dnsByte, alnum. by rewrite E1.
  - rewrite IH. unfold dnsByte. by rewrite (lower_alnum c E2).
  - apply IH.
  - by rewrite IH.
Qed.

Lemma rev_string_app (a : string) c : String.rev (String c a) = String.rev a +:+ String c "".
Proof.
  unfold String.rev. assert (Hg : forall a b, String.rev_app a b = String.rev_app a "" +:+ b).
  { clear. intros a. induction a as [|x a IH]; intros b; cbn; [done|]. rewrite (IH (String x b)), (IH (String x "")), app_assoc_s. done. }
  cbn. by rewrite Hg.
Qed.

Lemma forall_bytes_rev f s : forall_bytes f (String.rev s) = forall_bytes f s.
Proof. induction s as [|c s IH]; [done|]. rewrite rev_string_app, forall_bytes_app, IH. cbn. by rewrite andb_true_r, andb_comm. Qed.

Lemma length_rev s : String.length (String.rev s) = String.length s.
Proof. induction s as [|c s IH]; [done|]. rewrite rev_string_app, length_app_s, IH. cbn. lia. Qed.

Lemma trim_left_ok f b s :
  forall_bytes f s = true -> forall_bytes f (trim_left_byte b s) = true /\ (String.length (trim_left_byte b s) <= String.length s)%nat.
Proof.
  induction s as [|c s IH]; cbn [trim_left_byte]; [done|]. intros Hs. destruct (Ascii.eqb c b); [|done].
  cbn in Hs. apply andb_true_iff in Hs as [_ Hs]. destruct (IH Hs). split; [done|]. cbn. lia.
Qed.

Lemma Trim_ok f b s : forall_bytes f s = true -> forall_bytes f (Trim b s) = true /\ slen (Trim b s) <= slen s.
Proof.
  intros Hs. unfold Trim, slen. rewrite forall_bytes_rev, length_rev. destruct (trim_left_ok f b s Hs) as [H1 L1].
  destruct (trim_left_ok f b (String.rev (trim_left_byte b s))) as [H2 L2]; [by rewrite forall_bytes_rev|]. split; [done|].
  rewrite length_rev in L2. lia.
Qed.

Lemma substring_ok f n s : forall_bytes f s = true -> forall_bytes f (String.substring 0 n s) = true.
Proof.
  revert n. induction s as [|c s IH]; intros [|n]; cbn; try done. intros [Hc Hs]%andb_true_iff. by rewrite Hc, IH.
Qed.

(** The middle part of a name. *)
Definition middle (budget : Z) (submissionID : string) : string :=
  let safe := dnsLabelFragment submissionID in
  let safe := if budget <? slen safe then Trim hyphen (String.substring 0 (Z.to_nat budget) safe) else safe in
  if bool_decide (safe = ""%string) then "submission"%string else safe.

Lemma middle_ok budget id : 10 <= budget -> forall_bytes dnsByte (middle budget id) = true /\ slen (middle budget id) <= budget.
Proof.
  intros Hb. unfold middle.
  destruct (Trim_ok dnsByte hyphen _ (dns_bytes_ok id false)) as [Hs _]. fold (dnsLabelFragment id) in Hs.
  set (safe := dnsLabelFragment id) in *. case_bool_decide; [split; [done|]; change (slen "submission") with 10; lia|].
  destruct (Z.ltb_spec budget (slen safe)); [|done].
  destruct (Trim_ok dnsByte hyphen (String.substring 0 (Z.to_nat budget) safe)) as [Ht Hl]; [by apply substring_ok|]. split; [done|].
  unfold slen in *. rewrite length_substring in Hl. lia.
Qed.

Section Names.
Context `{Sha256} `{!Sha256Laws}.

Definition modes : list string := ["build"; "scan"; "sbom"].

Lemma resourceName_parts prefix id :
  slen prefix <= 41 -> resourceName prefix id = prefix +:+ "-" +:+ middle (51 - slen prefix) id +:+ "-" +:+ sha256_hex10 id.
Proof.
  intros Hp. unfold resourceName. destruct (sha256_hex id) as [Hl _].
  replace (maxK8sNameLen - slen prefix - slen (sha256_hex10 id) - 2) with (51 - slen prefix) by (unfold maxK8sNameLen, slen; rewrite Hl; lia).
  destruct (Z.ltb_spec (51 - slen prefix) 1); [lia|]. done.
Qed.

Lemma mode_cases mode : mode ∈ modes -> mode = "build"%string \/ mode = "scan"%string \/ mode = "sbom"%string.
Proof. unfold modes. rewrite !elem_of_cons, elem_of_nil. tauto. Qed.

(** Two strings of the same length at the end of the same string are equal. *)
Lemma suffix_unique (a b s t : string) : a +:+ s = b +:+ t -> String.length s = String.length t -> s = t.
Proof.
  revert b. induction a as [|x a IH]; intros [|y b]; sapp; intros E Hl; [done| | |].
  - subst s. cbn [String.length] in Hl. rewrite length_app_s in Hl. lia.
  - subst t. cbn [String.length] in Hl. rewrite length_app_s in Hl. lia.
  - injection E as _ E. by apply (IH b).
Qed.

Lemma last_byte s : s <> ""%string -> exists init c, s = init +:+ String c "".
Proof.
  induction s as [|x s IH]; [done|]. intros _. destruct s as [|y s]; [by exists ""%string, x|].
  destruct IH as (init & c & E); [done|]. exists (String x init), c. sapp. by rewrite E.
Qed.

Lemma hex_alnum c : hexDigit c = true -> alnum c = true /\ dnsByte c = true.
Proof. destruct c as [[] [] [] [] [] [] [] []]; vm_compute; done. Qed.

(** Job names are valid and do not collide.  For every submission id,
    whatever bytes it holds, the name of each of its three jobs is a DNS
    label of at most 63 bytes that starts with the mode and ends in the hash;
    jobs of different modes never share a name, and two submissions share
    one only if the first ten digits of their hashes agree. *)
Theorem resource_names mode id mode' id' :
  mode ∈ modes -> mode' ∈ modes ->
  slen (resourceName mode id) <= 63 /\ forall_bytes dnsByte (resourceName mode id) = true /\
  (exists c rest, resourceName mode id = String c rest /\ alnum c = true) /\
  (exists init c, resourceName mode id = init +:+ String c "" /\ alnum c = true) /\
  (resourceName mode id = resourceName mode' id' -> mode = mode' /\ sha256_hex10 id = sha256_hex10 id').
Proof using Type*.
  intros Hm Hm'. assert (Hlen : forall mode, mode ∈ modes -> slen mode <= 41) by (intros ? [->|[->| ->]]%mode_cases; done).
  rewrite !resourceName_parts by auto. destruct (sha256_hex id) as [Hl Hh], (sha256_hex id') as [Hl' _].
  destruct (middle_ok (51 - slen mode) id) as [Hmid Hml]; [specialize (Hlen mode Hm); lia|]. split_and!.
  - rewrite !slen_app. assert (slen (sha256_hex10 id) = 10) by (unfold slen; by rewrite Hl). change (slen "-") with 1. lia.
  - rewrite !forall_bytes_app, Hmid, (forall_bytes_impl hexDigit dnsByte _ (fun c Hc => proj2 (hex_alnum c Hc)) Hh).
    by apply mode_cases in Hm as [->|[->| ->]].
  - apply mode_cases in Hm as [->|[->| ->]]; sapp; by eexists _, _.
  - destruct (last_byte (sha256_hex10 id)) as (i & c & E); [by intros E; rewrite E in Hl|]. rewrite E in Hh |- *.
    exists (mode +:+ "-" +:+ middle (51 - slen mode) id +:+ "-" +:+ i), c. rewrite !app_assoc_s. split; [done|].
    rewrite forall_bytes_app in Hh. apply andb_true_iff in Hh as [_ Hc]. cbn in Hc. rewrite andb_true_r in Hc. by apply hex_alnum.
  - intros E. split.
    + clear -Hm Hm' E. apply mode_cases in Hm as [->|[->| ->]], Hm' as [->|[->| ->]]; try done; revert E; sapp; intros E; discriminate E.
    + rewrite <-!app_assoc_s in E. apply suffix_unique in E; [done|congruence].
Qed.

End Names.

(** ** A worked example *)

Module NamesDemo.

(** A hash that is constant: the names still satisfy the theorem. *)
#[local] Instance zero_hash : Sha256 := fun _ => "0123456789"%string.
#[local] Instance zero_hash_laws : Sha256Laws.
Proof. intros s. split; reflexivity. Qed.

Example mixed_case : resourceName "build" "Team_42/../x" = "build-team-42-x-0123456789"%string.
Proof. reflexivity. Qed.

Example no_usable_byte : resourceName "scan" "***" = "scan-submission-0123456789"%string.
Proof. reflexivity. Qed.

Lemma resource_names_witness :
  slen (resourceName "build" "Team_42") <= 63 /\ resourceName "build" "Team_42" <> resourceName "sbom" "Team_42".
Proof.
  destruct (resource_names "build" "Team_42" "sbom" "Team_42") as (Hl & _ & _ & _ & Hn);
    [unfold modes; rewrite !elem_of_cons; tauto|unfold modes; rewrite !elem_of_cons; tauto|].
  split; [exact Hl|]. intros E. destruct (Hn E) as [E' _]. discriminate E'.
Defined.

End NamesDemo.
