(* ===== verification/BuildDemo.v ===== *)
(** * build-worker: runs carried out

    An evaluator for the programs of [Build], related to their steps, and the
    results of [BuildProps] at a concrete request. *)

From Stdlib Require Import Ascii.
From stdpp Require Import prelude gmap strings list relations.
From S2P Require Import Prelude Prog Topics Archive Intake Dockerfile SubStore Build BuildProps.

Open Scope Z_scope.

(** ** Playing a program *)

Definition strategy := forall X, call X -> X.

Definition respond (db : DB) {X} (c : call X) : X -> X * DB :=
  match c in call X return X -> X * DB with
  | UpdateDBStatus id st => fun _ => match UpdateStatus db id st with Some d => (true, d) | None => (false, db) end
  | SetImageRef id ref => fun _ => match UpdateImageRef db id ref with Some d => (true, d) | None => (false, db) end
  | _ => fun x => (x, db)
  end.

Fixpoint play {A} (ans : strategy) (p : prog A) (db : DB) : list event * A * DB :=
  match p with
  | Ret a => ([], a, db)
  | @Call _ _ X c k =>
      let '(x, db1) := respond db c (ans X c) in
      let '(tr, a, db') := play ans (k x) db1 in (existT X (c, x) :: tr, a, db')
  end.

Definition obeyedb (e : event) : bool :=
  let '(existT X (c, x)) := e in
  match c in call X return X -> bool with UpdateDBStatus _ _ | SetImageRef _ _ => fun x => x | _ => fun _ => true end x.

Lemma respond_answers db X (c : call X) x : answers c db (respond db c x).1 (respond db c x).2.
Proof.
  destruct c; cbn; try done; unfold statement; [destruct (UpdateStatus _ _ _) as [d|] eqn:E|destruct (UpdateImageRef _ _ _) as [d|] eqn:E]; cbn; auto.
Qed.

Lemma play_runs {A} ans (p : prog A) db tr a db' :
  play ans p db = (tr, a, db') -> forallb obeyedb tr = true -> runs p db tr a db'.
Proof.
  revert db tr a db'. induction p as [v|X c k IH]; intros db tr a db'; cbn; [intros [= <- <- <-] _; constructor|].
  pose proof (respond_answers db X c (ans X c)) as Ha. destruct (respond db c (ans X c)) as [x db1]. cbn in Ha.
  destruct (play ans (k x) db1) as [[tr1 a1] db2] eqn:E. intros [= <- <- <-]. cbn [forallb]. intros [Ho Hr]%andb_true_iff.
  econstructor; [exact Ha| |by apply (IH x db1)]. by destruct c; cbn in *.
Qed.

(** A thread that plays is a thread that steps. *)
Lemma runs_steps `{Unicode} `{Sha256} wk (p : prog unit) db tr a db' i ts :
  runs p db tr a db' -> ts !! i = Some p -> rtc (bstep wk) (mkSys db ts) (mkSys db' (<[i := Ret a]> ts)).
Proof.
  intros Hr. revert ts. induction Hr as [a db|X c k db x db1 tr a db' Ha Ho Hr IH]; intros ts Hi.
  - by rewrite list_insert_id.
  - eapply rtc_l; [by eapply (bs_call wk (mkSys db ts) i X c k x db1)|]. cbn.
    rewrite <-(list_insert_insert_eq ts i (Ret a) (k x)). apply IH. apply list_lookup_insert_eq. by eapply lookup_lt_Some.
Qed.

(** ** One submission *)

Module BuildDemo.

#[local] Instance ascii_only : Unicode := {| map_ToUpper := fun s => s; trim_Space := fun s => s |}.
#[local] Instance some_hash : Sha256 := fun _ => "0123456789"%string.

Definition cfg : JobConfig := mkJobConfig "staging:443" "prod:443" "iicpc" false false.
Definition wk : Worker := KubernetesWorker cfg.
Definition msg : SubmissionBuildRequested := mkBuildRequest "s1" "s1/artifact.zip" "cpp" 9898 "cmake" "engine".
Definition row : SubmissionMeta := mkSubmission "s1" "" "abc" "cpp" "FIX" 9898 "" "s1/artifact.zip" "" "uploaded" 0.

Definition complete : Job := [mkCond "Complete" true ""].

(** Every call succeeds; the build job completes on the second poll. *)
Definition good : strategy := fun X c =>
  match c in call X return X with
  | Download _ => Some (Some [mkZipFile "src/main.cpp" false (Some "int main() {}"%string)])
  | CreateRepository _ | CreateJob _ _ _ => Created
  | SecretUpdate => UpdateOk
  | Watch _ => ([None; Some complete], DeadlineExceeded)
  | PublishStatus _ _ _ | UpdateDBStatus _ _ | SetImageRef _ _ | UploadBytes _ | DockerConfigJSON | SecretCreate | ReadLogs _ _
  | CopyImage _ _ _ | RunnerBuild _ _ | RunnerScan _ | RunnerSBOM _ | RunnerPush _ | RunnerCleanup _ | Choose | CommitMessage => true
  end.

(** The same, but for the scan, which runs out of time. *)
Definition slow_scan : strategy := fun X c =>
  match c in call X return X -> X with
  | Watch name => fun x => if HasPrefix name "scan" then ([Some []], DeadlineExceeded) else x
  | _ => fun x => x
  end (good X c).

Definition db0 : DB := set_submissions emptyDB {["s1"%string := row]}.

Definition job : prog unit := consume_build (handler wk) (Some msg).
Definition final (ans : strategy) : DB := (play ans job db0).2.

Lemma row_stored : submissions db0 !! "s1"%string = Some row.
Proof. vm_compute. reflexivity. Qed.

Lemma job_started : reached wk (mkSys db0 [job]).
Proof.
  assert (Hi : insert_submission emptyDB row = inr db0) by (vm_compute; reflexivity).
  assert (S1 : bstep wk (mkSys emptyDB []) (mkSys db0 [])) by exact (bs_insert wk (mkSys emptyDB []) row db0 eq_refl Hi).
  assert (S2 : bstep wk (mkSys db0 []) (mkSys db0 [job])) by exact (bs_request wk (mkSys db0 []) msg (ex_intro _ row row_stored)).
  exact (rtc_l _ _ _ _ S1 (rtc_once _ _ S2)).
Qed.

Lemma job_runs ans : forallb obeyedb (play ans job db0).1.1 = true -> rtc (bstep wk) (mkSys db0 [job]) (mkSys (final ans) [Ret tt]).
Proof.
  unfold final. generalize job. intros p Ho. destruct (play ans p db0) as [[tr []] db'] eqn:E. cbn [fst snd] in *.
  apply (runs_steps wk p db0 tr tt db' 0 [p]); [|reflexivity]. by eapply play_runs.
Qed.

Lemma ready_has_image_witness :
  exists m, submissions (final good) !! "s1"%string = Some m /\ sm_Status m = StatusReady /\ sm_ImageRef m = "prod:443/iicpc/s1:latest"%string.
Proof.
  assert (Hs : rtc (bstep wk) (mkSys db0 [job]) (mkSys (final good) [Ret tt])) by (apply job_runs; vm_compute; reflexivity).
  assert (Hm : submissions (final good) !! "s1"%string = Some (set_image (set_status row "ready") "prod:443/iicpc/s1:latest")) by (vm_compute; reflexivity).
  exists (set_image (set_status row "ready") "prod:443/iicpc/s1:latest"). split; [exact Hm|]. split; [reflexivity|].
  apply (ready_has_image wk (mkSys (final good) [Ret tt]) "s1" _ (transitivity (R := rtc (bstep wk)) job_started Hs) Hm). reflexivity.
Defined.

Lemma status_moves_forward_witness :
  exists m, submissions (final slow_scan) !! "s1"%string = Some m /\ 0 <= status_rank (sm_Status m).
Proof.
  assert (Hs : rtc (bstep wk) (mkSys db0 [job]) (mkSys (final slow_scan) [Ret tt])) by (apply job_runs; vm_compute; reflexivity).
  destruct (status_moves_forward wk _ _ "s1" row job_started Hs row_stored) as (m & Hm & Hrk & _).
  exists m. split; [exact Hm|exact Hrk].
Defined.

Lemma build_outcome_witness :
  exists m, submissions (play slow_scan (Spawner_Run cfg msg) db0).2 !! "s1"%string = Some m /\ sm_Status m = StatusFailed.
Proof.
  destruct (play slow_scan (Spawner_Run cfg msg) db0) as [[tr []] db'] eqn:E.
  assert (Hr : runs (Spawner_Run cfg msg) db0 tr tt db').
  { apply (play_runs slow_scan); [exact E|]. change tr with (tr, tt, db').1.1. rewrite <-E. vm_compute. reflexivity. }
  assert (Hf : all_fine tr = false) by (change tr with (tr, tt, db').1.1; rewrite <-E; vm_compute; reflexivity).
  destruct (build_outcome cfg msg db0 row tr db') as (m & -> & Hm);
    [exact row_stored|reflexivity|exact Hr|].
  rewrite Hf in Hm. exists m. split; [apply lookup_insert_eq|apply Hm].
Defined.

End BuildDemo.
