(* ===== verification/Scoring.v ===== *)
(** * score-computer: from events to leaderboard rows

    [internal/store/store.go] (the tables score_progress, scoring_config and
    scores, beside the ones submission-api owns), [internal/trigger/consumer.go]
    (which run groups are due) and [internal/worker/worker.go] (scoring one),
    as programs over statements.  [score.Compute] is [Score.Compute]. *)

From Stdlib Require Import Floats.SpecFloat Ascii.
From stdpp Require Import prelude gmap strings list.
From S2P Require Import Prelude GoSort Float64 Replay Topics Score Service SubStore Prog.

Open Scope Z_scope.
Open Scope prog_scope.

(** ** Tables *)

(** The columns [RecordCorrectness] writes, always together. *)
Record CorrectCols := mkCols {
  cc_valid : Z; cc_total : Z; cc_score : float64; cc_violations : Z; cc_at_ns : Z;
  cc_sent : Z; cc_acked : Z; cc_matched : Z;
  cc_p50 : float64; cc_p99 : float64; cc_p999 : float64; cc_max : float64; cc_inv : float64 }.

(** A row of [score_progress], keyed by session: [None] is NULL. *)
Record ProgressRow := mkProgress {
  sp_group : string; sp_submission : string; sp_contestant : string;
  sp_terminal : option (string * Z); sp_correct : option CorrectCols }.

(** A row of [scores], keyed by run group; BIGINT columns hold [int64].  The
    JSON detail is the result itself. *)
Record ScoreRow := mkScoreRow {
  so_submission : string; so_contestant : string; so_team : string;
  so_peak : Z; so_p99 : Z; so_recovery : Z; so_correctness : float64;
  so_disqualified : bool; so_code : string; so_incomplete : bool;
  so_detail : Result; so_rank : option (Z * Z); so_published : bool }.

Record ConfigRow := mkConfigRow {
  cr_dq : float64; cr_max_error : float64; cr_max_p99 : Z; cr_wave : Z; cr_min_coverage : float64 }.

Record SDB := mkSDB {
  meta : SubStore.DB; progress : gmap string ProgressRow; scores : gmap string ScoreRow; scoring_config : option ConfigRow }.

Definition set_progress (db : SDB) p := mkSDB (meta db) p (scores db) (scoring_config db).
Definition set_scores (db : SDB) s := mkSDB (meta db) (progress db) s (scoring_config db).
Definition set_meta (db : SDB) m := mkSDB m (progress db) (scores db) (scoring_config db).

(** ** Statements *)

Definition select_run (db : SDB) (sessionID : string) : option (string * string * string) :=
  match runs (meta db) !! sessionID with
  | None => None
  | Some r =>
      let g := default ""%string (run_group r) in
      if bool_decide (g = ""%string) then None else Some (g, run_submission r, run_contestant r)
  end.

(** INSERT ... ON CONFLICT (session_id) DO UPDATE: the columns the statement
    names are replaced, the others kept. *)
Definition upsert_status (db : SDB) (g sid sub contestant status : string) (at_ : Z) : SDB :=
  let kept := match progress db !! sid with Some r => sp_correct r | None => None end in
  set_progress db (<[sid := mkProgress g sub contestant (Some (status, at_)) kept]> (progress db)).

Definition cols_of (ev : CorrectnessScoreEvent) : CorrectCols :=
  mkCols (i64 (ce_ValidFills ev)) (i64 (ce_TotalFills ev)) (ce_CorrectnessScore ev) (i64 (ce_ViolationCount ev))
    (i64 (ce_ComputedAtNS ev)) (i64 (ce_SentCount ev)) (i64 (ce_AckedCount ev)) (i64 (ce_MatchedCount ev))
    (ce_JitterP50US ev) (ce_JitterP99US ev) (ce_JitterP999US ev) (ce_JitterMaxUS ev) (ce_JitterInvRate ev).

Definition upsert_correctness (db : SDB) (g sub contestant : string) (ev : CorrectnessScoreEvent) : SDB :=
  let sid := ce_SessionID ev in
  let kept := match progress db !! sid with Some r => sp_terminal r | None => None end in
  set_progress db (<[sid := mkProgress g sub contestant kept (Some (cols_of ev))]> (progress db)).

(** The rows of a group that join [runs]. *)
Definition group_progress (db : SDB) (g : string) : list (string * ProgressRow) :=
  List.filter (fun kv => bool_decide (sp_group kv.2 = g) && bool_decide (is_Some (runs (meta db) !! kv.1))) (map_to_list (progress db)).

(** BOOL_AND passes over NULL, and is NULL (not true) over no other value. *)
Definition bool_and (xs : list (option bool)) : option bool :=
  match omap (fun x => x) xs with [] => None | bs => Some (forallb (fun b => b) bs) end.

Definition terminal_in (r : ProgressRow) : option bool :=
  match sp_terminal r with
  | None => None
  | Some (st, _) => Some (bool_decide (st = "completed"%string) || bool_decide (st = "failed"%string))
  end.

Definition total_present (r : ProgressRow) : option bool := Some (match sp_correct r with Some _ => true | None => false end).

(** The HAVING clause, for one group. *)
Definition having (db : SDB) (g : string) : bool :=
  let rows := group_progress db g in
  Nat.eqb (length rows) (length (group_runs (meta db) g)) && Nat.leb 1 (length rows) &&
  bool_decide (bool_and (map (fun kv => terminal_in kv.2) rows) = Some true) &&
  bool_decide (bool_and (map (fun kv => total_present kv.2) rows) = Some true).

Definition due (db : SDB) (g : string) : bool := negb (bool_decide (is_Some (scores db !! g))) && having db g.

Definition select_ready (db : SDB) (g : string) : list string := if due db g then [g] else [].

Section Statements.
Context `{SortSlice} `{MapRange} `{Collation} `{SpecsJSON}.

(** The groups of the progress rows, each once, in no particular order. *)
Definition progress_groups (db : SDB) : list string :=
  map_range (elements (list_to_set (map (fun kv => sp_group kv.2) (map_to_list (progress db))) : gset string)).

Definition select_pending (db : SDB) : list string := List.filter (due db) (progress_groups db).

Definition select_config (db : SDB) : option Config :=
  match scoring_config db with
  | None => None
  | Some c =>
      Some (WithDefaults (mkConfig (cr_dq c) (cr_max_error c) (if 0 <? cr_max_p99 c then cr_max_p99 c else 0)
              (if 0 <? cr_wave c then cr_wave c else 0) (cr_min_coverage c)))
  end.

Definition select_group (db : SDB) (g : string) : option (string * string * string) :=
  match run_groups (meta db) !! g with
  | None => None
  | Some r =>
      Some (grp_submission r, grp_contestant r,
            match submissions (meta db) !! grp_submission r with Some m => sm_TeamName m | None => ""%string end)
  end.

(** A row of the join of [runs], [scenarios] and [score_progress]. *)
Record SessionRow := mkSessionRow {
  sr_session : string; sr_contestant : string; sr_scenario : string; sr_duration : Z; sr_specs : string;
  sr_sort : Z; sr_correct : option CorrectCols }.

Definition session_rows (db : SDB) (kv : string * RunsRow) : list SessionRow :=
  match run_scenario kv.2, progress db !! kv.1 with
  | Some id, Some p =>
      map (fun sc => mkSessionRow kv.1 (run_contestant kv.2) sc.1 (scn_duration sc.2) (scn_specs sc.2) (scn_sort sc.2) (sp_correct p))
        (List.filter (fun sc => bool_decide (scn_id sc.2 = id)) (map_to_list (scenarios (meta db))))
  | _, _ => []
  end.

Definition select_sessions (db : SDB) (g : string) : list SessionRow :=
  sort_stable (fun a b => sort_key_less (Some (sr_sort a, sr_scenario a)) (Some (sr_sort b, sr_scenario b)))
    (map_range (concat (map (session_rows db) (group_runs (meta db) g)))).

Definition maxInt64 : Z := 2 ^ 63 - 1.

Definition uint64ToInt64 (v : Z) : option Z := if maxInt64 <? v then None else Some v.

Definition nonNegativeUint64 (v : Z) : Z := if v <=? 0 then 0 else v.

(** INSERT INTO scores ... ON CONFLICT (run_group_id) DO NOTHING: the number
    of rows, and the table. *)
Definition score_row (res : Result) (peak p99 recovery : Z) : ScoreRow :=
  mkScoreRow (res_SubmissionID res) (res_ContestantID res) (res_TeamName res) peak p99 recovery (res_TotalCorrectness res)
    (res_Disqualified res) (res_DisqualificationCode res) (res_IncompleteTelemetry res) res None false.

Definition insert_score (db : SDB) (res : Result) (row : ScoreRow) : bool * SDB :=
  match scores db !! res_RunGroupID res with
  | Some _ => (false, db)
  | None => (true, set_scores db (<[res_RunGroupID res := row]> (scores db)))
  end.

Definition update_published (db : SDB) (g : string) (rank rankDelta : Z) : SDB :=
  set_scores db (alter (fun r => mkScoreRow (so_submission r) (so_contestant r) (so_team r) (so_peak r) (so_p99 r) (so_recovery r)
    (so_correctness r) (so_disqualified r) (so_code r) (so_incomplete r) (so_detail r) (Some (rank, rankDelta)) true) g (scores db)).

(** rankOrderBy: disqualified, peak DESC, p99, recovery, correctness DESC,
    group.  PostgreSQL puts NaN above every other double. *)
Definition sql_double_gt (x y : float64) : bool :=
  match x, y with
  | S754_nan, S754_nan => false
  | S754_nan, _ => true
  | _, _ => fltb y x
  end.

Definition rank_before (a b : string * ScoreRow) : bool :=
  let '(ga, ra) := a in let '(gb, rb) := b in
  if negb (Bool.eqb (so_disqualified ra) (so_disqualified rb)) then so_disqualified rb
  else if negb (so_peak ra =? so_peak rb) then so_peak rb <? so_peak ra
  else if negb (so_p99 ra =? so_p99 rb) then so_p99 ra <? so_p99 rb
  else if negb (so_recovery ra =? so_recovery rb) then so_recovery ra <? so_recovery rb
  else if sql_double_gt (so_correctness ra) (so_correctness rb) then true
  else if sql_double_gt (so_correctness rb) (so_correctness ra) then false
  else negb (coll_le gb ga).

(** ROW_NUMBER() OVER (ORDER BY ...) of a group. *)
Definition select_rank (db : SDB) (g : string) : option Z :=
  match scores db !! g with
  | None => None
  | Some r => Some (1 + Z.of_nat (countb (fun kv => rank_before kv (g, r)) (map_to_list (scores db))))
  end.

End Statements.

(** ** Calls *)

Record LeaderboardUpdateEvent := mkUpdate {
  lu_RunGroupID : string; lu_SubmissionID : string; lu_ContestantID : string; lu_TeamName : string;
  lu_Rank : Z; lu_RankDelta : Z; lu_PeakSustainedTPS : Z; lu_P99NSAtPeakTPS : Z; lu_SpikeRecoveryNS : Z;
  lu_TotalCorrectness : float64; lu_Disqualified : bool; lu_DisqualificationCode : string; lu_UpdatedAtNS : Z }.

Inductive stmt : Type -> Type :=
  | LookupRun (sessionID : string) : stmt (option (string * string * string))
  | UpsertStatus (g sid sub contestant status : string) (at_ : Z) : stmt bool
  | UpsertCorrectness (g sub contestant : string) (ev : CorrectnessScoreEvent) : stmt bool
  | QueryReady (g : string) : stmt (option (list string))
  | QueryPending : stmt (option (list string))
  | Enqueue (g : string) : stmt bool
  | Commit : stmt bool
  | QueryConfig : stmt (option Config)
  | QueryGroup (g : string) : stmt (option (string * string * string))
  | QuerySessions (g : string) : stmt (option (list SessionRow))
  | QueryMetrics (sessionID contestantID : string) : stmt (option (list MetricRow))
  | InsertScore (res : Result) (row : ScoreRow) : stmt (option bool)
  | QueryRank (g : string) : stmt (option Z)
  | UpdatePublished (g : string) (rank rankDelta : Z) : stmt bool
  | NowNS : stmt Z
  | Publish (ev : LeaderboardUpdateEvent) : stmt bool.

Abbreviation sprog := (Prog stmt).

(** ** store.go *)

(** [None]: an error. *)
Definition RecordStatus (ev : BenchmarkStatusUpdated) : sprog (option (list string)) :=
  if negb (bool_decide (bs_Status ev = RunStatusCompleted)) && negb (bool_decide (bs_Status ev = RunStatusFailed)) then Ret (Some [])
  else
    let! found := ask (LookupRun (bs_SessionID ev)) in
    let go g sub contestant :=
      let! ok := ask (UpsertStatus g (bs_SessionID ev) sub contestant (bs_Status ev) (bs_UpdatedAt ev)) in
      if negb ok then Ret None else ask (QueryReady g) in
    match found with
    | Some (g, sub, contestant) =>
        go (if bool_decide (bs_RunGroupID ev = ""%string) then g else bs_RunGroupID ev)
           (if bool_decide (bs_SubmissionID ev = ""%string) then sub else bs_SubmissionID ev) contestant
    | None =>
        if bool_decide (bs_RunGroupID ev = ""%string) || bool_decide (bs_SubmissionID ev = ""%string) then Ret None
        else go (bs_RunGroupID ev) (bs_SubmissionID ev) ""%string
    end.

Definition RecordCorrectness (ev : CorrectnessScoreEvent) : sprog (option (list string)) :=
  let! found := ask (LookupRun (ce_SessionID ev)) in
  match found with
  | None => Ret None
  | Some (g, sub, contestant) =>
      let contestant := if bool_decide (ce_ContestantID ev = ""%string) then contestant else ce_ContestantID ev in
      let! ok := ask (UpsertCorrectness g sub contestant ev) in
      if negb ok then Ret None else ask (QueryReady g)
  end.

Section Worker.
Context `{SortSlice} `{MapRange} `{SpecsJSON}.

Definition correct_of (sid : string) (c : CorrectCols) : Correctness :=
  Build_Correctness sid (nonNegativeUint64 (cc_valid c)) (nonNegativeUint64 (cc_total c)) (nonNegativeUint64 (cc_violations c))
    (nonNegativeUint64 (cc_sent c)) (nonNegativeUint64 (cc_acked c)) (nonNegativeUint64 (cc_matched c))
    (cc_p50 c) (cc_p99 c) (cc_p999 c) (cc_max c) (cc_inv c).

(** The loop over the rows: a NULL where a number is scanned, unreadable task
    specs or a failed metrics query end it with an error. *)
Fixpoint load_sessions (rows : list SessionRow) (contestantID : string) : sprog (option (list Session * string)) :=
  match rows with
  | [] => Ret (Some ([], contestantID))
  | r :: rows =>
      match sr_correct r with
      | None => Ret None
      | Some c =>
          let contestantID := if bool_decide (contestantID = ""%string) then sr_contestant r else contestantID in
          match unmarshal_specs (sr_specs r) with
          | None => Ret None
          | Some specs =>
              let! metrics := ask (QueryMetrics (sr_session r) contestantID) in
              match metrics with
              | None => Ret None
              | Some metrics =>
                  let sess := Build_Session (sr_session r) (sr_scenario r) specs (correct_of (sr_session r) c) metrics
                                (nonNegativeUint64 (sr_duration r)) in
                  let! rest := load_sessions rows contestantID in
                  match rest with None => Ret None | Some (sessions, cid) => Ret (Some (sess :: sessions, cid)) end
              end
          end
      end
  end.

Definition LoadInput (runGroupID : string) : sprog (option Input) :=
  let! cfg := ask QueryConfig in
  match cfg with
  | None => Ret None
  | Some cfg =>
      let! group := ask (QueryGroup runGroupID) in
      match group with
      | None => Ret None
      | Some (sub, contestant, team) =>
          let! rows := ask (QuerySessions runGroupID) in
          match rows with
          | None => Ret None
          | Some rows =>
              let! loaded := load_sessions rows contestant in
              match loaded with
              | None => Ret None
              | Some (sessions, contestant) => Ret (Some (Build_Input runGroupID sub contestant team sessions cfg))
              end
          end
      end
  end.

(** [json.Marshal] refuses numbers that are not finite. *)
Definition finite (f : float64) : bool := negb (fIsNaN f) && negb (fIsInf f).
Definition marshals (res : Result) : bool :=
  finite (res_TotalCorrectness res) && finite (res_JitterP50US res) && finite (res_JitterP99US res) &&
  finite (res_JitterP999US res) && finite (res_JitterMaxUS res) && finite (res_JitterInvRate res).

Definition SaveScore (res : Result) : sprog (option bool) :=
  if negb (marshals res) then Ret None
  else match uint64ToInt64 (res_PeakSustainedTPS res), uint64ToInt64 (res_P99AtPeakNS res), uint64ToInt64 (res_SpikeRecoveryNS res) with
       | Some peak, Some p99, Some recovery => ask (InsertScore res (score_row res peak p99 recovery))
       | _, _, _ => Ret None
       end.

(** ** worker.go *)

Definition update_event (res : Result) (rank rankDelta now : Z) : LeaderboardUpdateEvent :=
  mkUpdate (res_RunGroupID res) (res_SubmissionID res) (res_ContestantID res) (res_TeamName res) rank rankDelta
    (res_PeakSustainedTPS res) (res_P99AtPeakNS res) (res_SpikeRecoveryNS res) (res_TotalCorrectness res)
    (res_Disqualified res) (res_DisqualificationCode res) now.

(** [true]: no error. *)
Definition score (runGroupID : string) : sprog bool :=
  let! inp := LoadInput runGroupID in
  match inp with
  | None => Ret false
  | Some inp =>
      match Compute inp with
      | (_, Some _) => Ret false
      | (res, None) =>
          let! inserted := SaveScore res in
          match inserted with
          | None => Ret false
          | Some false => Ret true
          | Some true =>
              let! rank := ask (QueryRank runGroupID) in
              match rank with
              | None => Ret false
              | Some rank =>
                  let! ok := ask (UpdatePublished runGroupID rank 0) in
                  if negb ok then Ret false
                  else let! now := ask NowNS in ask (Publish (update_event res rank 0 now))
              end
          end
      end
  end.

End Worker.

(** ** consumer.go, one message *)

Fixpoint enqueue_all (ids : list string) : sprog unit :=
  match ids with [] => Ret tt | id :: ids => ask (Enqueue id);; enqueue_all ids end.

(** A message: decoded, of a syntax or type the decoder rejects, or rejected
    for another reason (a time it cannot parse). *)
Inductive Decoded (A : Type) := Parsed (ev : A) | DecodeError | OtherError.
Arguments Parsed {A}.
Arguments DecodeError {A}.
Arguments OtherError {A}.

(** Processed messages and decoding errors are committed, other errors leave
    the message uncommitted. *)
Definition handle {A} (record : A -> sprog (option (list string))) (value : Decoded A) : sprog unit :=
  match value with
  | DecodeError => ask Commit;; Ret tt
  | OtherError => Ret tt
  | Parsed ev =>
      let! ready := record ev in
      match ready with
      | None => Ret tt
      | Some ids => enqueue_all ids;; ask Commit;; Ret tt
      end
  end.

Definition RunStatus_body : Decoded BenchmarkStatusUpdated -> sprog unit := handle RecordStatus.
Definition RunCorrectness_body : Decoded CorrectnessScoreEvent -> sprog unit := handle RecordCorrectness.

(** main.go: the start-up scan. *)
Definition recover_pending : sprog unit :=
  let! pending := ask QueryPending in
  match pending with None => Ret tt | Some ids => enqueue_all ids end.

(** ** What a call does *)

Record Shared := mkShared { h_db : SDB; h_queue : list string; h_published : list LeaderboardUpdateEvent }.

Definition with_db (h : Shared) (db : SDB) : Shared := mkShared db (h_queue h) (h_published h).

(** A query answers with what is there; a statement that reaches the database
    takes effect.  With [faults], a query may fail instead, a statement may
    not arrive, or its answer may be lost. *)
Definition query (faults : bool) {X} (h : Shared) (v : option X) (x : option X) (h' : Shared) : Prop :=
  h' = h /\ (x = v \/ (faults = true /\ x = None)).

Definition effect (faults : bool) {X} (h : Shared) (ok bad : X) (done : Shared) (x : X) (h' : Shared) : Prop :=
  (x = ok /\ h' = done) \/ (faults = true /\ x = bad /\ (h' = h \/ h' = done)).

Section Meaning.
Context `{SortSlice} `{MapRange} `{Collation} `{SpecsJSON}.

Definition does (faults : bool) (X : Type) (c : stmt X) (h : Shared) : X -> Shared -> Prop :=
  let db := h_db h in
  let query {X} := @query faults X in
  let effect {X} := @effect faults X in
  match c in stmt X return X -> Shared -> Prop with
  | LookupRun sid => query h (select_run db sid)
  | UpsertStatus g sid sub contestant status at_ => effect h true false (with_db h (upsert_status db g sid sub contestant status at_))
  | UpsertCorrectness g sub contestant ev => effect h true false (with_db h (upsert_correctness db g sub contestant ev))
  | QueryReady g => query h (Some (select_ready db g))
  | QueryPending => query h (Some (select_pending db))
  | Enqueue g => effect h true false (mkShared db (h_queue h ++ [g]) (h_published h))
  | Commit => fun _ h' => h' = h
  | QueryConfig => query h (select_config db)
  | QueryGroup g => query h (select_group db g)
  | QuerySessions g => query h (Some (select_sessions db g))
  | QueryMetrics _ _ => fun _ h' => h' = h
  | InsertScore res row => let '(b, db') := insert_score db res row in effect h (Some b) None (with_db h db')
  | QueryRank g => query h (select_rank db g)
  | UpdatePublished g rank rankDelta => effect h true false (with_db h (update_published db g rank rankDelta))
  | NowNS => fun _ h' => h' = h
  | Publish ev => effect h true false (mkShared db (h_queue h) (h_published h ++ [ev]))
  end.

(** ** The service *)

Record Sys := mkSys { s_shared : Shared; s_threads : list (sprog unit) }.

(** Messages of both topics arrive, again and again, and are handled
    concurrently; workers take run groups from the queue; a process may die
    and come back, losing its queue and threads; the other services change
    the tables they own. *)
Inductive sstep : Sys -> Sys -> Prop :=
  | ss_status s v : sstep s (mkSys (s_shared s) (s_threads s ++ [RunStatus_body v]))
  | ss_correctness s v : sstep s (mkSys (s_shared s) (s_threads s ++ [RunCorrectness_body v]))
  | ss_worker s g q :
      h_queue (s_shared s) = g :: q ->
      sstep s (mkSys (mkShared (h_db (s_shared s)) q (h_published (s_shared s))) (s_threads s ++ [score g;; Ret tt]))
  | ss_call s i X (c : stmt X) k x h' :
      s_threads s !! i = Some (Call c k) -> does true X c (s_shared s) x h' -> sstep s (mkSys h' (<[i := k x]> (s_threads s)))
  | ss_restart s : sstep s (mkSys (mkShared (h_db (s_shared s)) [] (h_published (s_shared s))) [recover_pending])
  | ss_tables s m : sstep s (mkSys (with_db (s_shared s) (set_meta (h_db (s_shared s)) m)) (s_threads s)).

Definition sinit (m : SubStore.DB) (cfg : option ConfigRow) : Sys := mkSys (mkShared (mkSDB m ∅ ∅ cfg) [] []) [recover_pending].

Definition sreached (s : Sys) : Prop := exists m cfg, rtc sstep (sinit m cfg) s.

End Meaning.
