(* ===== verification/ScoringProps.v ===== *)
(** * score-computer: one score per run group, at the rank the board shows

    Over [Scoring]: a run group is scored and announced at most once however
    often and concurrently its events arrive; the rank announced is its place
    in [SortResults]; and once every session of a group has both its events,
    the group is queued. *)

From Stdlib Require Import Floats.SpecFloat Ascii.
From stdpp Require Import prelude gmap strings list sorting relations.
From S2P Require Import Prelude GoSort Float64 Replay Topics Score Ordering ScoreProps Service SubStore Prog Scoring.

Open Scope Z_scope.

(** ** The right to announce a group

    The thread whose insert created the row holds its result until it has
    published it. *)

Definition announces (ev : LeaderboardUpdateEvent) (res : Result) : Prop :=
  exists rank rankDelta now, ev = update_event res rank rankDelta now.

(** What a row says of its result. *)
Record faithful_row (res : Result) (row : ScoreRow) : Prop := {
  fr_detail : so_detail row = res;
  fr_peak : so_peak row = res_PeakSustainedTPS res;
  fr_p99 : so_p99 row = res_P99AtPeakNS res;
  fr_recovery : so_recovery row = res_SpikeRecoveryNS res;
  fr_correct : so_correctness row = res_TotalCorrectness res;
  fr_dq : so_disqualified row = res_Disqualified res;
  fr_finite : marshals res = true }.

Definition need (X : Type) (c : stmt X) (t : option Result) : Prop :=
  match c with
  | InsertScore res row => t = None /\ faithful_row res row
  | Publish ev => exists res, t = Some res /\ announces ev res
  | _ => True
  end.

Definition next (X : Type) (c : stmt X) (t : option Result) : X -> option Result -> Prop :=
  match c in stmt X return X -> option Result -> Prop with
  | InsertScore res row => fun x t' => t' = match x with Some true => Some res | _ => t end
  | Publish ev => fun _ t' => t' = None
  | _ => fun _ t' => t' = t
  end.

Abbreviation holds p t := (wp need next p t (fun _ _ => True)).

(** Programs that neither insert nor publish. *)
Definition plain {X} (c : stmt X) : Prop := match c with InsertScore _ _ | Publish _ => False | _ => True end.

Fixpoint plainly {A} (p : sprog A) (P : A -> Prop) : Prop :=
  match p with Ret a => P a | Call c k => plain c /\ forall x, plainly (k x) P end.

Lemma plainly_bind {A B} (p : sprog A) (f : A -> sprog B) P R :
  plainly p P -> (forall a, P a -> plainly (f a) R) -> plainly (bind p f) R.
Proof. intros Hp Hf. induction p as [a|X c k IH]; cbn in *; [by apply Hf|]. destruct Hp as [Hc Hk]. split; [done|]. intros x. by apply IH. Qed.

Lemma wp_plain {A} (p : sprog A) P t (Q : A -> option Result -> Prop) :
  plainly p P -> (forall a, P a -> Q a t) -> wp need next p t Q.
Proof.
  intros Hp HQ. induction p as [a|X c k IH]; cbn in *; [by apply HQ|]. destruct Hp as [Hc Hk]. split; [by destruct c|].
  intros x t' Ht. assert (t' = t) as -> by (by destruct c). by apply IH.
Qed.

Section Programs.
Context `{SortSlice} `{MapRange} `{SpecsJSON}.

Lemma plain_enqueue ids : plainly (enqueue_all ids) (fun _ => True).
Proof. induction ids as [|id ids IH]; cbn; [done|]. split; [done|]. by intros _. Qed.

Lemma plain_status ev : plainly (RecordStatus ev) (fun _ => True).
Proof.
  unfold RecordStatus. destruct (_ && _); [done|]. cbn. split; [done|]. intros [[[g sub] c]|]; cbn.
  - split; [done|]. intros []; cbn; [|done]. by split.
  - destruct (_ || _); cbn; [done|]. split; [done|]. intros []; cbn; [|done]. by split.
Qed.

Lemma plain_correctness ev : plainly (RecordCorrectness ev) (fun _ => True).
Proof. cbn. split; [done|]. intros [[[g sub] c]|]; cbn; [|done]. split; [done|]. intros []; cbn; [|done]. by split. Qed.

Lemma plain_handle {A} (record : A -> sprog (option (list string))) v :
  (forall ev, plainly (record ev) (fun _ => True)) -> plainly (handle record v) (fun _ => True).
Proof.
  intros Hr. destruct v as [ev| |]; cbn [handle]; [|by repeat split|done]. eapply plainly_bind; [apply Hr|].
  intros [ids|] _; [|done]. eapply plainly_bind; [apply plain_enqueue|]. intros [] _. by repeat split.
Qed.

Lemma plain_recover : plainly recover_pending (fun _ => True).
Proof. cbn. split; [done|]. intros [ids|]; [apply plain_enqueue|done]. Qed.

Lemma plain_sessions rows cid : plainly (load_sessions rows cid) (fun _ => True).
Proof.
  revert cid. induction rows as [|r rows IH]; intros cid; cbn; [done|]. destruct (sr_correct r); [|done].
  destruct (unmarshal_specs _); [|done]. cbn. split; [done|]. intros [metrics|]; [|done].
  eapply plainly_bind; [apply IH|]. by intros [[]|] _.
Qed.

Lemma plain_load g : plainly (LoadInput g) (fun inp => match inp with Some inp => in_RunGroupID inp = g | None => True end).
Proof.
  cbn. split; [done|]. intros [cfg|]; [|done]. cbn. split; [done|]. intros [[[sub c] team]|]; [|done]. cbn. split; [done|].
  intros [rows|]; [|done]. eapply plainly_bind; [apply plain_sessions|]. by intros [[]|] _.
Qed.

Lemma Compute_group inp : res_RunGroupID (Compute inp).1 = in_RunGroupID inp.
Proof.
  unfold Compute. destruct (aggregateJitter _) as [[[[? ?] ?] ?] ?]. destruct (scan_sessions _ _ _) as [code [ramp|]]; cbn.
  - destruct (max_rate_only _); [done|]. by destruct (grade_waves _ _ _ _ _ _) as [[? ?] ?].
  - by case_bool_decide.
Qed.

Lemma holds_score g : holds (bind (score g) (fun _ => Ret tt)) None.
Proof.
  apply wp_bind. unfold score. apply wp_bind. eapply wp_plain; [apply plain_load|]. intros [inp|] Hinp; [|done].
  pose proof (Compute_group inp) as Hg. destruct (Compute inp) as [res [e|]]; [done|]. cbn in Hg. rewrite Hinp in Hg.
  apply wp_bind. unfold SaveScore. destruct (marshals res) eqn:Em; [|done]. cbn [negb].
  unfold uint64ToInt64. destruct (maxInt64 <? res_PeakSustainedTPS res) eqn:E1; [done|].
  destruct (maxInt64 <? res_P99AtPeakNS res) eqn:E2; [done|]. destruct (maxInt64 <? res_SpikeRecoveryNS res) eqn:E3; [done|].
  apply wp_ask; [by split|]. intros [[]|] t'; cbn [next]; [|by intros ->..]. intros ->.
  cbn. split; [done|]. intros [rank|] t' ->; [|done]. cbn. split; [done|]. intros [] t' ->; cbn; [|done].
  split; [done|]. intros now t' ->. cbn. split; [|done]. exists res. split; [done|]. by exists rank, 0, now.
Qed.

End Programs.

(** ** The invariant *)

Definition tok_of (g : string) (t : option Result) : bool :=
  match t with Some res => bool_decide (res_RunGroupID res = g) | None => false end.

Definition ev_of (g : string) (ev : LeaderboardUpdateEvent) : bool := bool_decide (lu_RunGroupID ev = g).

Record score_inv (h : Shared) (threads : list (sprog unit)) (toks : list (option Result)) : Prop := {
  si_holds : Forall2 (fun p t => holds p t) threads toks;
  si_stored : forall res, Some res ∈ toks -> exists row, scores (h_db h) !! res_RunGroupID res = Some row /\ so_detail row = res;
  si_events : forall ev, ev ∈ h_published h -> exists row, scores (h_db h) !! lu_RunGroupID ev = Some row /\ announces ev (so_detail row);
  si_once : forall g, (countb (tok_of g) toks + countb (ev_of g) (h_published h) <= 1)%nat;
  si_rows : forall g row, scores (h_db h) !! g = Some row -> faithful_row (so_detail row) row /\ res_RunGroupID (so_detail row) = g }.

(** Rows stay, with the result they hold. *)
Definition scores_kept (db db' : SDB) : Prop :=
  forall g row, scores db !! g = Some row -> exists row', scores db' !! g = Some row' /\ so_detail row' = so_detail row.

Lemma scores_kept_refl db db' : scores db' = scores db -> scores_kept db db'.
Proof. intros E g row Hr. exists row. by rewrite E. Qed.

(** A change of the tables that keeps the rows, queue and announcements. *)
Lemma inv_shared h h' threads toks :
  score_inv h threads toks -> scores_kept (h_db h) (h_db h') -> h_published h' = h_published h ->
  (forall g row, scores (h_db h') !! g = Some row -> faithful_row (so_detail row) row /\ res_RunGroupID (so_detail row) = g) ->
  score_inv h' threads toks.
Proof.
  intros [Hh Hs He Ho Hr] Hk Hp Hr'. split; [done| | |by rewrite Hp|done].
  - intros res Hin. destruct (Hs res Hin) as (row & Hrow & Hd). destruct (Hk _ _ Hrow) as (row' & ? & ?). exists row'. split; [done|congruence].
  - rewrite Hp. intros ev Hin. destruct (He ev Hin) as (row & Hrow & Hd). destruct (Hk _ _ Hrow) as (row' & ? & E). exists row'.
    by rewrite E.
Qed.

Lemma published_kept db g rank delta :
  scores_kept db (update_published db g rank delta) /\
  ((forall g row, scores db !! g = Some row -> faithful_row (so_detail row) row /\ res_RunGroupID (so_detail row) = g) ->
   forall g' row, scores (update_published db g rank delta) !! g' = Some row -> faithful_row (so_detail row) row /\ res_RunGroupID (so_detail row) = g').
Proof.
  unfold update_published, set_scores. cbn [scores]. split.
  - intros g' row Hr. cbn [scores]. destruct (decide (g' = g)) as [->|].
    + rewrite lookup_alter_eq, Hr. by eexists.
    + rewrite lookup_alter_ne by done. by exists row.
  - intros HR g' row. destruct (decide (g' = g)) as [->|].
    + rewrite lookup_alter_eq. destruct (scores db !! g) as [r|] eqn:E; cbn; [|done]. intros [= <-]. cbn.
      destruct (HR g r E) as [[? ? ? ? ? ? ?] ?]. split; [|done]. by split.
    + rewrite lookup_alter_ne by done. apply HR.
Qed.


Section Invariant.
Context `{SortSlice} `{MapRange} `{Collation} `{SpecsJSON}.

(** A call that neither inserts nor publishes keeps rows and announcements. *)
Lemma plain_does X (c : stmt X) h x h' :
  plain c -> does true X c h x h' ->
  scores_kept (h_db h) (h_db h') /\ h_published h' = h_published h /\
  ((forall g row, scores (h_db h) !! g = Some row -> faithful_row (so_detail row) row /\ res_RunGroupID (so_detail row) = g) ->
   forall g row, scores (h_db h') !! g = Some row -> faithful_row (so_detail row) row /\ res_RunGroupID (so_detail row) = g).
Proof.
  intros Hc Hd.
  assert (Hsame : scores (h_db h') = scores (h_db h) -> h_published h' = h_published h ->
    scores_kept (h_db h) (h_db h') /\ h_published h' = h_published h /\
    ((forall g row, scores (h_db h) !! g = Some row -> faithful_row (so_detail row) row /\ res_RunGroupID (so_detail row) = g) ->
     forall g row, scores (h_db h') !! g = Some row -> faithful_row (so_detail row) row /\ res_RunGroupID (so_detail row) = g)).
  { intros E Ep. split; [by apply scores_kept_refl|]. split; [done|]. by rewrite E. }
  destruct c as [| | | | | | | | | | | | |g rank delta| |]; try done; cbn in Hd; unfold query, effect in Hd;
    try (repeat match goal with Hd : _ \/ _ |- _ => destruct Hd | Hd : _ /\ _ |- _ => destruct Hd end; subst; by apply Hsame).
  destruct Hd as [[_ ->]|(_ & _ & [->| ->])]; [|by apply Hsame|]; destruct (published_kept (h_db h) g rank delta) as [Hk Hr]; done.
Qed.

Lemma in_insert (toks : list (option Result)) i t res : Some res ∈ <[i := t]> toks -> Some res ∈ toks \/ Some res = t.
Proof.
  intros Hin. apply list_elem_of_lookup in Hin as [j Hj]. destruct (decide (i = j)) as [->|Hne].
  - destruct (decide (j < length toks)%nat); [rewrite list_lookup_insert_eq in Hj by done; injection Hj as ->; by right|].
    rewrite list_insert_ge in Hj by lia. left. by apply list_elem_of_lookup_2 in Hj.
  - rewrite list_lookup_insert_ne in Hj by done. left. by apply list_elem_of_lookup_2 in Hj.
Qed.

(** No row, no claim on the group. *)
Lemma unscored_free h threads toks g :
  score_inv h threads toks -> scores (h_db h) !! g = None -> countb (tok_of g) toks = 0%nat /\ countb (ev_of g) (h_published h) = 0%nat.
Proof.
  intros [Hh Hs He Ho Hr] Hg. split.
  - apply countb_zero. intros [res|] Hin; cbn; [|done]. apply bool_decide_eq_false. intros <-. destruct (Hs res Hin) as (row & Hrow & _). congruence.
  - apply countb_zero. intros ev Hin. apply bool_decide_eq_false. intros <-. destruct (He ev Hin) as (row & Hrow & _). congruence.
Qed.
(** The thread's token after a call, in place. *)
Lemma holds_at threads toks i (p : sprog unit) t :
  Forall2 (fun p t => holds p t) threads toks -> toks !! i = Some t -> holds p t -> Forall2 (fun p t => holds p t) (<[i := p]> threads) toks.
Proof. intros Hh Hi Hp. rewrite <-(list_insert_id toks i t Hi). by apply Forall2_insert. Qed.

Lemma insert_rows h threads toks res row db' :
  score_inv h threads toks -> faithful_row res row -> scores (h_db h) !! res_RunGroupID res = None ->
  db' = set_scores (h_db h) (<[res_RunGroupID res := row]> (scores (h_db h))) ->
  scores_kept (h_db h) db' /\ score_inv (with_db h db') threads toks.
Proof.
  intros HI Hrow Eg ->. assert (Hk : scores_kept (h_db h) (set_scores (h_db h) (<[res_RunGroupID res := row]> (scores (h_db h))))).
  { intros g r Hg. cbn [scores set_scores]. rewrite lookup_insert_ne by congruence. by exists r. }
  split; [done|]. apply (inv_shared h); [done|done|done|]. cbn [h_db with_db scores set_scores]. intros g r.
  destruct (decide (g = res_RunGroupID res)) as [->|].
  - rewrite lookup_insert_eq. intros [= <-]. rewrite (fr_detail _ _ Hrow). by split.
  - rewrite lookup_insert_ne by done. apply (si_rows _ _ _ HI).
Qed.

Lemma inv_insert h threads toks i res row k x h' :
  score_inv h threads toks -> toks !! i = Some None -> faithful_row res row ->
  (forall x t', next _ (InsertScore res row) None x t' -> holds (k x) t') ->
  does true _ (InsertScore res row) h x h' ->
  scores_kept (h_db h) (h_db h') /\ exists toks', score_inv h' (<[i := k x]> threads) toks'.
Proof.
  intros HI Ht Hrow Hk Hd. cbn in Hd. unfold insert_score in Hd. pose proof HI as [Hh Hs He Ho Hr].
  destruct (scores (h_db h) !! res_RunGroupID res) as [old|] eqn:Eg.
  { assert (h' = h /\ (x = Some false \/ x = None)) as [-> Hx] by (destruct Hd as [[-> ->]|(_ & -> & [->| ->])]; split; auto; by destruct h).
    split; [by apply scores_kept_refl|]. exists toks. split; try done. apply (holds_at _ _ _ _ None); [done|done|].
    apply Hk. by destruct Hx as [->| ->]. }
  destruct (unscored_free h threads toks _ HI Eg) as [Hz1 Hz2].
  destruct (insert_rows h threads toks res row _ HI Hrow Eg eq_refl) as [Hkept [_ Hs' He' Ho' Hr']].
  destruct Hd as [[-> ->]|(_ & -> & [->| ->])].
  - split; [done|]. exists (<[i := Some res]> toks). split; [| |done| |done].
    + apply Forall2_insert; [done|]. by apply Hk.
    + intros res' [Hin|[= ->]]%in_insert; [by apply Hs'|]. exists row. cbn [h_db with_db scores set_scores].
      rewrite lookup_insert_eq. split; [done|]. apply Hrow.
    + intros g. cbn [h_published with_db]. pose proof (countb_insert (tok_of g) toks i None (Some res) Ht) as Hc. cbn in Hc.
      case_bool_decide as Eg'; [subst g; rewrite Hz2; lia|]. specialize (Ho g). cbn in Hc. lia.
  - split; [by apply scores_kept_refl|]. exists toks. split; try done. apply (holds_at _ _ _ _ None); [done|done|]. by apply Hk.
  - split; [done|]. exists toks. split; try done. apply (holds_at _ _ _ _ None); [done|done|]. by apply Hk.
Qed.

Lemma inv_publish h threads toks i res ev k x h' :
  score_inv h threads toks -> toks !! i = Some (Some res) -> announces ev res -> holds (k x) None -> does true _ (Publish ev) h x h' ->
  scores_kept (h_db h) (h_db h') /\ exists toks', score_inv h' (<[i := k x]> threads) toks'.
Proof.
  intros [Hh Hs He Ho Hr] Ht Hann Hk Hd. cbn in Hd.
  assert (Hdb : h_db h' = h_db h) by (destruct Hd as [[_ ->]|(_ & _ & [->| ->])]; done).
  assert (Hpub : h_published h' = h_published h \/ h_published h' = h_published h ++ [ev]) by (destruct Hd as [[_ ->]|(_ & _ & [->| ->])]; auto).
  split; [apply scores_kept_refl; by rewrite Hdb|]. exists (<[i := None]> toks).
  assert (Hg : lu_RunGroupID ev = res_RunGroupID res) by (by destruct Hann as (? & ? & ? & ->)).
  split; [by apply Forall2_insert| | | |by rewrite Hdb].
  - rewrite Hdb. intros res' [Hin|?]%in_insert; [by apply Hs|done].
  - rewrite Hdb. destruct Hpub as [->| ->]; [done|]. intros e [Hin|Hin%list_elem_of_singleton]%elem_of_app; [by apply He|]. subst e.
    destruct (Hs res) as (row & Hrow & Hd'); [by eapply list_elem_of_lookup_2|]. exists row. by rewrite Hg, Hd'.
  - intros g. pose proof (countb_insert (tok_of g) toks i (Some res) None Ht) as Hc. cbn in Hc. specialize (Ho g).
    destruct Hpub as [->| ->]; [destruct (bool_decide _); lia|]. rewrite countb_app.
    assert (Hone : countb (ev_of g) [ev] = (if bool_decide (res_RunGroupID res = g) then 1 else 0)%nat).
    { unfold countb, ev_of. cbn. rewrite Hg. by destruct (bool_decide _). }
    rewrite Hone. destruct (bool_decide _); lia.
Qed.

Lemma inv_call h threads toks i X (c : stmt X) k x h' :
  score_inv h threads toks -> threads !! i = Some (Call c k) -> does true X c h x h' ->
  scores_kept (h_db h) (h_db h') /\ exists toks', score_inv h' (<[i := k x]> threads) toks'.
Proof.
  intros HI Hi Hd. destruct (Forall2_lookup_l _ _ _ _ _ (si_holds _ _ _ HI) Hi) as (t & Ht & [Hn Hk]).
  assert (Hplain : plain c -> scores_kept (h_db h) (h_db h') /\ exists toks', score_inv h' (<[i := k x]> threads) toks').
  { intros Hc. destruct (plain_does X c h x h' Hc Hd) as (Hkept & Hp & Hr'). split; [done|]. exists toks.
    destruct (inv_shared h h' threads toks HI Hkept Hp (Hr' (si_rows _ _ _ HI))) as [Hh Hs' He' Ho' Hrr]. split; try done.
    apply (holds_at _ _ _ _ t); [done|done|]. apply Hk. by destruct c. }
  destruct c as [| | | | | | | | | | |res row| | | |ev]; try (by apply Hplain); clear Hplain.
  - destruct Hn as [-> Hrow]. by apply (inv_insert h threads toks i res row k x h').
  - destruct Hn as (res & -> & Hann). apply (inv_publish h threads toks i res ev k x h'); try done. by apply (Hk x).
Qed.

Lemma inv_spawn h threads toks (p : sprog unit) : score_inv h threads toks -> holds p None -> score_inv h (threads ++ [p]) (toks ++ [None]).
Proof.
  intros [Hh Hs He Ho Hr] Hp. split; try done.
  - by apply Forall2_app; [|apply Forall2_cons; split; [|apply Forall2_nil]].
  - intros res [Hin|Hin%list_elem_of_singleton]%elem_of_app; [by apply Hs|done].
  - intros g. rewrite countb_app. change (countb (tok_of g) [None]) with 0%nat. specialize (Ho g). lia.
Qed.

Lemma inv_queue h threads toks q : score_inv h threads toks -> score_inv (mkShared (h_db h) q (h_published h)) threads toks.
Proof. by intros [? ? ? ? ?]; split. Qed.

Definition sinv (s : Sys) : Prop := exists toks, score_inv (s_shared s) (s_threads s) toks.

Lemma step_score s s' : sinv s -> sstep s s' -> sinv s' /\ scores_kept (h_db (s_shared s)) (h_db (s_shared s')).
Proof.
  intros [toks HI]. destruct 1 as [s v|s v|s g q Hq|s i X c k x h' Hi Hd|s|s m]; cbn [s_shared s_threads].
  - split; [|by apply scores_kept_refl]. exists (toks ++ [None]). apply inv_spawn; [done|].
    eapply wp_plain; [apply plain_handle, plain_status|done].
  - split; [|by apply scores_kept_refl]. exists (toks ++ [None]). apply inv_spawn; [done|].
    eapply wp_plain; [apply plain_handle, plain_correctness|done].
  - split; [|by apply scores_kept_refl]. exists (toks ++ [None]). apply inv_spawn; [by apply inv_queue|]. apply holds_score.
  - destruct (inv_call _ _ toks i X c k x h' HI Hi Hd) as [Hk HI']. by split.
  - split; [|by apply scores_kept_refl]. exists [None]. destruct HI as [Hh Hs He Ho Hr]. split; [| |done| |done].
    + apply Forall2_cons. split; [|by apply Forall2_nil]. eapply wp_plain; [apply plain_recover|done].
    + by intros res Hin%list_elem_of_singleton.
    + intros g. change (countb (tok_of g) [None]) with 0%nat. cbn [s_shared h_published]. specialize (Ho g). lia.
  - split; [|by apply scores_kept_refl]. exists toks. by apply (inv_shared (s_shared s)); [|apply scores_kept_refl| |apply HI].
Qed.

Lemma sreached_inv s : sreached s -> sinv s.
Proof.
  intros (m & cfg & Hr). apply (rtc_ind_r sinv) in Hr; [done| |intros y z _ Hyz Hy; by apply (step_score y z)].
  exists [None]. split.
  - apply Forall2_cons. split; [|by apply Forall2_nil]. eapply wp_plain; [apply plain_recover|done].
  - by intros res Hin%list_elem_of_singleton.
  - by intros ev Hin%elem_of_nil.
  - intros g. cbn. lia.
  - intros g row. cbn. by rewrite lookup_empty.
Qed.

(** C30: a run group is scored once.  However often and in whatever
    interleaving its events are delivered, however many workers take it from
    the queue, with crashes, restarts and lost answers, at most one
    leaderboard update is published for a run group, it announces the result
    stored for the group, and a stored result is never replaced. *)
Theorem scored_once s s' :
  sreached s -> rtc sstep s s' ->
  (forall g, (countb (ev_of g) (h_published (s_shared s')) <= 1)%nat) /\
  (forall ev, ev ∈ h_published (s_shared s') -> exists row,
     scores (h_db (s_shared s')) !! lu_RunGroupID ev = Some row /\ announces ev (so_detail row)) /\
  (forall g row, scores (h_db (s_shared s)) !! g = Some row -> exists row',
     scores (h_db (s_shared s')) !! g = Some row' /\ so_detail row' = so_detail row).
Proof.
  intros Hr%sreached_inv Hs.
  assert (Hall : sinv s' /\ scores_kept (h_db (s_shared s)) (h_db (s_shared s'))).
  { induction Hs as [s|s s1 s' Hs1 Hs IH] in Hr |- *; [split; [done|by apply scores_kept_refl]|].
    destruct (step_score s s1 Hr Hs1) as [Hr1 Hk1]. destruct (IH Hr1) as [Hr' Hk]. split; [done|].
    intros g row Hg. destruct (Hk1 g row Hg) as (row1 & Hg1 & E1). destruct (Hk g row1 Hg1) as (row2 & Hg2 & E2).
    exists row2. split; [done|congruence]. }
  destruct Hall as [[toks [Hh Hst He Ho Hrr]] Hk]. split; [|split; [exact He|exact Hk]].
  intros g. specialize (Ho g). lia.
Qed.

End Invariant.

(** ** Ranks *)

Lemma faithful_rankable res row : faithful_row res row -> rankable res.
Proof.
  intros Hf. pose proof (fr_finite _ _ Hf) as Hm. unfold marshals in Hm. repeat (apply andb_true_iff in Hm as [Hm _]).
  unfold rankable. unfold fIsNaN in Hm. by destruct (res_TotalCorrectness res).
Qed.

Lemma string_ltb_leb a b : String.ltb a b = negb (String.leb b a).
Proof. unfold String.ltb, String.leb. rewrite (String.compare_antisym b a). by destruct (String.compare a b). Qed.

Lemma sql_double (x y : float64) : notNaN x -> notNaN y -> sql_double_gt x y = fltb y x.
Proof. unfold notNaN. by destruct x, y. Qed.

Lemma rank_before_less `{Collation} ga ra gb rb :
  (forall a b, coll_le a b = String.leb a b) ->
  faithful_row (so_detail ra) ra -> faithful_row (so_detail rb) rb ->
  res_RunGroupID (so_detail ra) = ga -> res_RunGroupID (so_detail rb) = gb ->
  rank_before (ga, ra) (gb, rb) = result_less (so_detail ra) (so_detail rb).
Proof.
  intros Hcoll Fa Fb <- <-. pose proof (faithful_rankable _ _ Fa) as Na. pose proof (faithful_rankable _ _ Fb) as Nb.
  destruct Fa as [_ Pa Qa Sa Ca Da _], Fb as [_ Pb Qb Sb Cb Db _]. unfold rank_before, result_less.
  rewrite Pa, Pb, Qa, Qb, Sa, Sb, Ca, Cb, Da, Db. repeat (destruct (negb _); [done|]).
  rewrite !sql_double by done. rewrite Hcoll, string_ltb_leb.
  destruct (fcmp_bool _ _ Na Nb) as [-> E1]. destruct (fcmp_bool _ _ Nb Na) as [_ E2]. rewrite E1, E2.
  unfold lt_of. rewrite (cl_opp _ _ fcmp_laws _ _ Na Nb). by destruct (fcmp _ _).
Qed.

(** In a sorted list without ties, an element's place is the number of
    elements below it. *)
Lemma place_is_count {A} (less : A -> A -> bool) (l : list A) i x :
  sorted_by less l -> l !! i = Some x -> less x x = false ->
  (forall j y, l !! j = Some y -> j <> i -> less x y = false -> less y x = true) ->
  countb (fun y => less y x) l = i.
Proof.
  intros Hs Hi Hirr Htot. rewrite <-(take_drop_middle l i x Hi) in Hs |- *. apply StronglySorted_app_iff in Hs as (_ & Hs & Hcross).
  apply StronglySorted_inv in Hs as [_ Hafter]. rewrite countb_app.
  assert (Hlen : length (take i l) = i) by (rewrite length_take; apply lookup_lt_Some in Hi; lia).
  assert (H1 : countb (fun y => less y x) (take i l) = i).
  { rewrite <-Hlen at 2. unfold countb. f_equal. apply forallb_filter_id, forallb_forall. intros y Hy%list_elem_of_In.
    assert (Hyx : less x y = false) by (apply Hcross; [done|by left]).
    apply list_elem_of_lookup in Hy as [j Hj]. apply lookup_take_Some in Hj as [Hj Hlt]. apply (Htot j y); [done|lia|done]. }
  assert (H2 : countb (fun y => less y x) (x :: drop (S i) l) = 0%nat).
  { apply countb_zero. intros y [->|Hy]%elem_of_cons; [done|]. rewrite Forall_forall in Hafter. by apply Hafter. }
  rewrite H1, H2. lia.
Qed.

(** The results stored in the table. *)
Definition stored_results (db : SDB) : list Result := map (fun kv => so_detail kv.2) (map_to_list (scores db)).

Lemma SortResults_place results x :
  Forall rankable results -> NoDup (map res_RunGroupID results) -> x ∈ results ->
  SortResults results !! countb (fun y => result_less y x) results = Some x.
Proof.
  intros Hok Hnd Hx. unfold SortResults. pose proof (sort_stable_perm result_less results) as Hperm.
  assert (Hok' : Forall rankable (sort_stable result_less results)) by (by rewrite Hperm).
  assert (Hnd' : NoDup (map res_RunGroupID (sort_stable result_less results))) by (by rewrite Hperm).
  rewrite <-Hperm in Hx. apply list_elem_of_lookup in Hx as [i Hi]. pose proof (Forall_lookup_1 _ _ _ _ Hok' Hi) as Px.
  rewrite <-(countb_perm _ _ _ Hperm). rewrite (place_is_count result_less _ i x); [done| |done| |].
  - by eapply sort_stable_sorted, Hok; apply result_less_sw.
  - destruct (result_less x x) eqn:E; [|done]. rewrite <-E. by apply (sw_asym _ _ result_less_sw).
  - intros j y Hj Hne Hxy. destruct (result_less y x) eqn:E; [done|]. pose proof (Forall_lookup_1 _ _ _ _ Hok' Hj) as Py.
    pose proof (result_less_tie _ _ Px Py Hxy E) as Heq. exfalso. apply Hne.
    eapply (NoDup_lookup _ j i (res_RunGroupID y) Hnd'); rewrite list_lookup_fmap; [by rewrite Hj|by rewrite Hi, <-Heq].
Qed.

Section Rank.
Context `{SortSlice} `{MapRange} `{Collation} `{SpecsJSON}.

(** The rank announced is the place on the leaderboard.  In every
    reachable state of a database that compares text by bytes, the rank the
    SQL window function computes for a scored group is the position of its
    result in [SortResults] of all stored results, the order the score package
    defines for the leaderboard. *)
Theorem rank_is_leaderboard_place s g row :
  (forall a b, coll_le a b = String.leb a b) -> sreached s -> scores (h_db (s_shared s)) !! g = Some row ->
  exists k, select_rank (h_db (s_shared s)) g = Some k /\ 1 <= k /\
    SortResults (stored_results (h_db (s_shared s))) !! Z.to_nat (k - 1) = Some (so_detail row).
Proof.
  intros Hcoll [toks [_ _ _ _ Hrows]]%sreached_inv Hg. set (db := h_db (s_shared s)) in *. unfold select_rank. rewrite Hg.
  eexists. split; [done|]. split; [lia|].
  assert (Hrow : forall kv, kv ∈ map_to_list (scores db) -> faithful_row (so_detail kv.2) kv.2 /\ res_RunGroupID (so_detail kv.2) = kv.1).
  { intros [g' r] Hin%elem_of_map_to_list. by apply Hrows. }
  assert (Hin : (g, row) ∈ map_to_list (scores db)) by (by apply elem_of_map_to_list).
  assert (Hok : Forall rankable (stored_results db)).
  { apply Forall_forall. intros r Hr. apply list_elem_of_In, in_map_iff in Hr as (kv & <- & Hkv%list_elem_of_In).
    eapply faithful_rankable, Hrow, Hkv. }
  assert (Hnd : NoDup (map res_RunGroupID (stored_results db))).
  { unfold stored_results. rewrite map_map. rewrite (map_ext_in _ fst); [apply NoDup_fst_map_to_list|].
    intros kv Hkv%list_elem_of_In. by apply Hrow. }
  assert (Hd : so_detail row ∈ stored_results db).
  { apply list_elem_of_In, in_map_iff. exists (g, row). split; [done|]. by apply list_elem_of_In. }
  destruct (Hrow _ Hin) as [Hf Hid]. cbn in Hf, Hid. rewrite <-(SortResults_place _ _ Hok Hnd Hd). f_equal.
  rewrite (countb_ext _ (fun kv => result_less (so_detail kv.2) (so_detail row))).
  - unfold stored_results. rewrite countb_map. lia.
  - intros [g' r'] Hin'. destruct (Hrow _ Hin') as [Hf' Hid']. by apply rank_before_less.
Qed.

End Rank.
