(* ===== verification/ScoringDue.v ===== *)
(** * score-computer: which run groups are due

    The query behind [ReadyRunGroups]: it finds a group as soon as all its
    sessions have both their events, and what it accepts besides. *)

From Stdlib Require Import Floats.SpecFloat Ascii.
From stdpp Require Import prelude gmap strings list sorting relations.
From S2P Require Import Prelude GoSort Float64 Replay Topics Score ScoreProps Service SubStore Prog Scoring ScoringProps.

Open Scope Z_scope.
Open Scope prog_scope.

Definition is_terminal (st : string) : bool := bool_decide (st = "completed"%string) || bool_decide (st = "failed"%string).

(** Every session of the group has ended and been graded. *)
Definition complete (db : SDB) (g : string) : Prop :=
  forall sid run, runs (meta db) !! sid = Some run -> run_group run = Some g ->
    exists p, progress db !! sid = Some p /\ is_Some (sp_terminal p) /\ is_Some (sp_correct p).

(** Progress rows carry the group of their run and a terminal status. *)
Definition rows_ok (db : SDB) : Prop :=
  forall sid p, progress db !! sid = Some p ->
    (exists run, runs (meta db) !! sid = Some run /\ run_group run = Some (sp_group p)) /\
    (forall st t, sp_terminal p = Some (st, t) -> is_terminal st = true).

Lemma in_group_progress db g sid p :
  (sid, p) ∈ group_progress db g <-> progress db !! sid = Some p /\ sp_group p = g /\ is_Some (runs (meta db) !! sid).
Proof.
  unfold group_progress. rewrite list_elem_of_In, filter_In, <-list_elem_of_In, elem_of_map_to_list. cbn.
  rewrite andb_true_iff, !bool_decide_eq_true. tauto.
Qed.

Lemma in_group_runs db g sid run : (sid, run) ∈ group_runs db g <-> runs db !! sid = Some run /\ run_group run = Some g.
Proof.
  unfold group_runs. rewrite list_elem_of_In, filter_In, <-list_elem_of_In, elem_of_map_to_list. cbn. by rewrite bool_decide_eq_true.
Qed.

Lemma NoDup_fst_filter {A} (f : string * A -> bool) (m : gmap string A) : NoDup (List.filter f (map_to_list m)).*1.
Proof.
  pose proof (NoDup_fst_map_to_list m) as Hnd. revert Hnd. generalize (map_to_list m). intros l. induction l as [|[k a] l IH]; cbn; [done|].
  intros [Hk Hl]%NoDup_cons. destruct (f (k, a)); cbn; [|by apply IH]. apply NoDup_cons. split; [|by apply IH].
  intros Hin. apply Hk. apply list_elem_of_fmap in Hin as ([k' a'] & -> & Hin). apply list_elem_of_In, filter_In in Hin as [Hin _].
  apply list_elem_of_fmap. exists (k', a'). split; [done|]. by apply list_elem_of_In.
Qed.

(** One progress row per run. *)
Lemma complete_count db g : rows_ok db -> complete db g -> length (group_progress db g) = length (group_runs (meta db) g).
Proof.
  intros Hrows Hc. rewrite <-(length_fmap fst (group_progress db g)), <-(length_fmap fst (group_runs (meta db) g)).
  apply Permutation_length, NoDup_Permutation; [apply NoDup_fst_filter..|]. intros sid. rewrite !list_elem_of_fmap. split.
  - intros ([sid' p] & -> & (Hp & Hg & _)%in_group_progress). destruct (Hrows _ _ Hp) as [(run & Hrun & Hrg) _].
    exists (sid', run). split; [done|]. apply in_group_runs. by rewrite Hrg, Hg.
  - intros ([sid' run] & -> & (Hrun & Hg)%in_group_runs). destruct (Hc _ _ Hrun Hg) as (p & Hp & _). exists (sid', p). split; [done|].
    apply in_group_progress. destruct (Hrows _ _ Hp) as [(run' & Hrun' & Hrg) _]. split_and!; [done|congruence|by eexists].
Qed.

Lemma bool_and_true (xs : list (option bool)) : xs <> [] -> Forall (eq (Some true)) xs -> bool_and xs = Some true.
Proof.
  intros Hne Hxs. unfold bool_and. assert (E : omap (fun x => x) xs = replicate (length xs) true).
  { clear Hne. induction Hxs as [|x xs <- Hxs IH]; cbn; [done|]. by rewrite IH. }
  rewrite E. destruct xs as [|x xs]; [done|]. cbn. f_equal. clear. induction xs; cbn; done.
Qed.

Lemma complete_due db g :
  rows_ok db -> complete db g -> group_runs (meta db) g <> [] -> scores db !! g = None -> due db g = true.
Proof.
  intros Hrows Hc Hne Hs. unfold due, having. rewrite Hs. rewrite bool_decide_false by (intros [? ?]; done). cbn [negb andb].
  pose proof (complete_count db g Hrows Hc) as Hlen. rewrite Hlen, Nat.eqb_refl. cbn [andb].
  assert (Hrne : group_progress db g <> []) by (intros E; rewrite E in Hlen; by destruct (group_runs (meta db) g)).
  assert (Hrow : forall kv, kv ∈ group_progress db g -> is_Some (sp_terminal kv.2) /\ is_Some (sp_correct kv.2) /\
    forall st t, sp_terminal kv.2 = Some (st, t) -> is_terminal st = true).
  { intros [sid p] (Hp & Hg & _)%in_group_progress. destruct (Hrows _ _ Hp) as [(run & Hrun & Hrg) Ht].
    destruct (Hc sid run Hrun) as (p' & Hp' & ? & ?); [congruence|]. rewrite Hp in Hp'. injection Hp' as <-. done. }
  rewrite !bool_decide_true; [destruct (group_runs (meta db) g); [done|by cbn]| |].
  - apply bool_and_true; [by destruct (group_progress db g)|]. apply Forall_map, Forall_forall. intros kv Hkv.
    destruct (Hrow kv Hkv) as (_ & [c Hc'] & _). unfold total_present. by rewrite Hc'.
  - apply bool_and_true; [by destruct (group_progress db g)|]. apply Forall_map, Forall_forall. intros kv Hkv.
    destruct (Hrow kv Hkv) as ([[st t] Ht] & _ & Hterm). unfold terminal_in. rewrite Ht. f_equal. symmetry. by apply (Hterm st t).
Qed.

(** ** Events one after the other *)

Inductive Event := EStatus (ev : BenchmarkStatusUpdated) | ECorrect (ev : CorrectnessScoreEvent).

Definition process (e : Event) : sprog unit :=
  match e with EStatus ev => RunStatus_body (Parsed ev) | ECorrect ev => RunCorrectness_body (Parsed ev) end.

Fixpoint process_all (es : list Event) : sprog unit := match es with [] => Ret tt | e :: es => process e;; process_all es end.

Definition session_of (e : Event) : string := match e with EStatus ev => bs_SessionID ev | ECorrect ev => ce_SessionID ev end.

(** An event of a known run, naming its group or none. *)
Definition genuine (m : SubStore.DB) (e : Event) : Prop :=
  exists run g, runs m !! session_of e = Some run /\ run_group run = Some g /\ g <> ""%string /\
    match e with EStatus ev => bs_RunGroupID ev = ""%string \/ bs_RunGroupID ev = g | ECorrect _ => True end.

(** What has been recorded of a session. *)
Definition recorded (db : SDB) (e : Event) : Prop :=
  match e with
  | EStatus ev => is_terminal (bs_Status ev) = true -> exists p, progress db !! bs_SessionID ev = Some p /\ is_Some (sp_terminal p)
  | ECorrect ev => exists p, progress db !! ce_SessionID ev = Some p /\ is_Some (sp_correct p)
  end.

Section Sequence.
Context `{SortSlice} `{MapRange} `{Collation} `{SpecsJSON}.
Variable db0 : SDB.
Variable g : string.

Abbreviation run_ok p h Q := (wp (fun _ _ _ => True) (does false) p h Q).

Record tracked (h : Shared) (seen : list Event) : Prop := {
  tr_meta : meta (h_db h) = meta db0;
  tr_scores : scores (h_db h) = scores db0;
  tr_rows : rows_ok (h_db h);
  tr_seen : Forall (recorded (h_db h)) seen;
  tr_queue : complete (h_db h) g -> g ∈ h_queue h }.

Lemma ok_query {X} h (v x : option X) h' : query false h v x h' -> h' = h /\ x = v.
Proof. intros [-> [->|[? _]]]; done. Qed.

Lemma ok_effect {X} h (ok bad : X) done x h' : effect false h ok bad done x h' -> x = ok /\ h' = done.
Proof. intros [[-> ->]|[? _]]; done. Qed.

Lemma run_enqueue ids h (Q : unit -> Shared -> Prop) :
  Q tt (mkShared (h_db h) (h_queue h ++ ids) (h_published h)) -> run_ok (enqueue_all ids) h Q.
Proof.
  revert h. induction ids as [|id ids IH]; intros h HQ; cbn [enqueue_all].
  - cbn. rewrite app_nil_r in HQ. by destruct h.
  - apply wp_bind, wp_ask; [done|]. intros x h' [_ ->]%ok_effect. apply IH. cbn. by rewrite <-app_assoc.
Qed.

(** One more progress row, of a session of group [g']. *)
Lemma track_row h seen db1 sid p g' e :
  tracked h seen -> session_of e = sid ->
  db1 = set_progress (h_db h) (<[sid := p]> (progress (h_db h))) -> sp_group p = g' ->
  (exists run, runs (meta db0) !! sid = Some run /\ run_group run = Some g') ->
  (forall st t, sp_terminal p = Some (st, t) -> is_terminal st = true) ->
  (forall q, progress (h_db h) !! sid = Some q -> (is_Some (sp_terminal q) -> is_Some (sp_terminal p)) /\ (is_Some (sp_correct q) -> is_Some (sp_correct p))) ->
  recorded db1 e -> group_runs (meta db0) g <> [] -> scores db0 !! g = None ->
  tracked (mkShared db1 (h_queue h ++ select_ready db1 g') (h_published h)) (e :: seen).
Proof.
  intros [Hm Hs Hr Hseen Hq] Hsid -> Hg (run & Hrun & Hrg) Ht Hmore He Hne Hsc.
  set (db1 := set_progress (h_db h) (<[sid := p]> (progress (h_db h)))) in *.
  assert (Hrows : rows_ok db1).
  { intros sid' p'. cbn [progress set_progress meta db1]. destruct (decide (sid' = sid)) as [->|].
    - rewrite lookup_insert_eq. intros [= <-]. split; [exists run; rewrite Hm, Hg; done|done].
    - rewrite lookup_insert_ne by done. apply Hr. }
  split; cbn [h_db h_queue]; [done|done|done| |].
  - constructor; [done|]. eapply Forall_impl; [exact Hseen|]. intros [ev|ev]; cbn.
    + intros Hrec Hterm. destruct (Hrec Hterm) as (q & Hq' & Hqt). destruct (decide (bs_SessionID ev = sid)) as [E|].
      * rewrite E in Hq' |- *. rewrite lookup_insert_eq. exists p. split; [done|]. by apply (Hmore q).
      * rewrite lookup_insert_ne by done. by exists q.
    + intros (q & Hq' & Hqt). destruct (decide (ce_SessionID ev = sid)) as [E|].
      * rewrite E in Hq' |- *. rewrite lookup_insert_eq. exists p. split; [done|]. by apply (Hmore q).
      * rewrite lookup_insert_ne by done. by exists q.
  - intros Hc. apply elem_of_app. destruct (decide (g' = g)) as [->|Hne'].
    + right. unfold select_ready. rewrite (complete_due db1 g); [by left|done|done| |].
      * cbn. by rewrite Hm.
      * cbn. by rewrite Hs.
    + left. apply Hq. intros sid' run' Hrun' Hrg'. destruct (Hc sid' run' Hrun' Hrg') as (q & Hq' & ?).
      cbn [progress set_progress db1] in Hq'. rewrite lookup_insert_ne in Hq'; [by exists q|].
      intros <-. rewrite Hm in Hrun'. congruence.
Qed.
Hypothesis runs_exist : group_runs (meta db0) g <> [].
Hypothesis unscored : scores db0 !! g = None.

Lemma select_run_genuine h seen sid run g' :
  tracked h seen -> runs (meta db0) !! sid = Some run -> run_group run = Some g' -> g' <> ""%string ->
  select_run (h_db h) sid = Some (g', run_submission run, run_contestant run).
Proof. intros Htr Hrun Hg Hne. unfold select_run. rewrite (tr_meta _ _ Htr), Hrun, Hg. cbn. by rewrite bool_decide_false. Qed.

(** The answer of the ready query is put on the queue. *)
Lemma run_ready h g' (Q : unit -> Shared -> Prop) :
  Q tt (mkShared (h_db h) (h_queue h ++ select_ready (h_db h) g') (h_published h)) ->
  run_ok (ask (QueryReady g')) h
    (fun ready h' => run_ok (match ready with None => Ret tt | Some ids => enqueue_all ids;; ask Commit;; Ret tt end) h' Q).
Proof.
  intros HQ. apply wp_ask; [done|]. intros x h' [-> ->]%ok_query. apply wp_bind, run_enqueue. cbn. split; [done|]. by intros x h' ->.
Qed.

Lemma track_status h seen ev :
  tracked h seen -> genuine (meta db0) (EStatus ev) -> run_ok (process (EStatus ev)) h (fun _ h' => tracked h' (EStatus ev :: seen)).
Proof using runs_exist unscored.
  intros Htr (run & g' & Hrun & Hg' & Hne & Hgrp). cbn [process RunStatus_body handle session_of] in *. unfold RecordStatus.
  destruct (_ && _) eqn:Et.
  - cbn. split; [done|]. intros x h' ->. destruct Htr as [Hm Hs Hr Hseen Hq]. split; try done. constructor; [|done].
    intros Hterm. exfalso. unfold is_terminal in Hterm. apply andb_true_iff in Et as [E1 E2].
    apply negb_true_iff, bool_decide_eq_false in E1, E2. apply orb_true_iff in Hterm as [E%bool_decide_eq_true|E%bool_decide_eq_true]; done.
  - assert (Hterm : is_terminal (bs_Status ev) = true).
    { unfold is_terminal. unfold RunStatusCompleted, RunStatusFailed in Et. apply orb_true_iff. apply andb_false_iff in Et as [Et|Et]; apply negb_false_iff in Et; auto. }
    apply wp_bind, wp_bind, wp_ask; [done|]. intros x h' [-> ->]%ok_query. rewrite (select_run_genuine h seen _ run g') by done.
    assert (Egrp : (if bool_decide (bs_RunGroupID ev = ""%string) then g' else bs_RunGroupID ev) = g').
    { destruct (decide (bs_RunGroupID ev = ""%string)) as [E|E]; [by rewrite bool_decide_true|rewrite bool_decide_false by done]. by destruct Hgrp. }
    rewrite Egrp. apply wp_bind, wp_ask; [done|]. intros x h' [-> ->]%ok_effect. cbn [negb]. apply run_ready.
    eapply (track_row h); [exact Htr|done|done|done|by exists run| | |by intros _; eexists; cbn; rewrite lookup_insert_eq|done|done]; cbn.
    + by intros st t [= <- <-].
    + intros q ->. done.
Qed.

Lemma track_correct h seen ev :
  tracked h seen -> genuine (meta db0) (ECorrect ev) -> run_ok (process (ECorrect ev)) h (fun _ h' => tracked h' (ECorrect ev :: seen)).
Proof using runs_exist unscored.
  intros Htr (run & g' & Hrun & Hg' & Hne & _). cbn [process RunCorrectness_body handle session_of] in *. unfold RecordCorrectness.
  apply wp_bind, wp_bind, wp_ask; [done|]. intros x h' [-> ->]%ok_query. rewrite (select_run_genuine h seen _ run g') by done.
  apply wp_bind, wp_ask; [done|]. intros x h' [-> ->]%ok_effect. cbn [negb]. apply run_ready.
  eapply (track_row h); [exact Htr|done|done|done|by exists run| | |by eexists; cbn; rewrite lookup_insert_eq|done|done]; cbn.
  + intros st t. destruct (progress (h_db h) !! ce_SessionID ev) as [q|] eqn:Eq; [|done]. by apply (proj2 (tr_rows _ _ Htr _ _ Eq)).
  + intros q ->. done.
Qed.

Lemma track_all es : forall h seen,
  tracked h seen -> Forall (genuine (meta db0)) es -> run_ok (process_all es) h (fun _ h' => tracked h' (rev es ++ seen)).
Proof using runs_exist unscored.
  induction es as [|e es IH]; intros h seen Htr Hes; cbn [process_all rev]; [done|]. apply Forall_cons in Hes as [He Hes]. apply wp_bind.
  apply (wp_impl _ _ _ _ (fun _ h' => tracked h' (e :: seen))).
  - intros _ h' Htr'. apply (wp_impl _ _ _ _ (fun _ h'' => tracked h'' (rev es ++ e :: seen))); [|by apply IH].
    intros _ h''. by rewrite <-app_assoc.
  - destruct e; [by apply track_status|by apply track_correct].
Qed.

(** Every run of the group has a terminal status and a grade among the
    events. *)
Definition all_reported (es : list Event) : Prop :=
  forall sid run, runs (meta db0) !! sid = Some run -> run_group run = Some g ->
    (exists ev, EStatus ev ∈ es /\ bs_SessionID ev = sid /\ is_terminal (bs_Status ev) = true) /\
    (exists ev, ECorrect ev ∈ es /\ ce_SessionID ev = sid).

Lemma reported_complete h es : tracked h es -> all_reported es -> complete (h_db h) g.
Proof.
  intros Htr Hall sid run Hrun Hg. rewrite (tr_meta _ _ Htr) in Hrun. destruct (Hall sid run Hrun Hg) as [(ev & Hev & <- & Ht) (ev' & Hev' & Hs)].
  pose proof (tr_seen _ _ Htr) as Hseen. rewrite Forall_forall in Hseen. destruct (Hseen _ Hev Ht) as (p & Hp & Hpt).
  destruct (Hseen _ Hev') as (p' & Hp' & Hpc). rewrite Hs, Hp in Hp'. injection Hp' as <-. by exists p.
Qed.

(** C31: a finished run group gets scored.  Starting from no progress, let the
    events of known runs arrive in any order, duplicates and other groups'
    events among them, and let the database answer.  When every run of an
    unscored group has had a terminal status and a grade, the group is on the
    workers' queue. *)
Theorem complete_group_queued es :
  progress db0 = ∅ -> Forall (genuine (meta db0)) es -> all_reported es ->
  wp (fun _ _ _ => True) (does false) (process_all es) (mkShared db0 [] []) (fun _ h => g ∈ h_queue h).
Proof using runs_exist unscored.
  intros Hp Hes Hall. apply (wp_impl _ _ _ _ (fun _ h => tracked h (rev es ++ []))); [|apply track_all; [|done]].
  - rewrite app_nil_r. intros _ h Htr. apply (tr_queue _ _ Htr), (reported_complete h (rev es)); [done|].
    intros sid run Hrun Hg. destruct (Hall sid run Hrun Hg) as [(ev & Hev & ?) (ev' & Hev' & ?)].
    split; [exists ev|exists ev']; (split; [by apply list_elem_of_In, in_rev; rewrite rev_involutive; apply list_elem_of_In|done]).
  - split; cbn; try done.
    + intros sid p. by rewrite Hp, lookup_empty.
    + intros Hc. exfalso. apply runs_exist. destruct (group_runs (meta db0) g) as [|[sid run] l] eqn:E; [done|].
      assert (Hin : (sid, run) ∈ group_runs (meta db0) g) by (rewrite E; by left). apply in_group_runs in Hin as [Hrun Hg].
      destruct (Hc sid run Hrun Hg) as (p & Hp' & _). by rewrite Hp, lookup_empty in Hp'.
Qed.
End Sequence.
