(* ===== verification/ScoringDemo.v ===== *)
(** * score-computer: a concrete run

    Calls answered without faults, one thread after the other, is one way for
    the service of [Scoring] to run.  Two sessions of a group end and are
    graded, the group is scored and announced. *)

From Stdlib Require Import Floats.SpecFloat Ascii.
From stdpp Require Import prelude gmap strings list relations.
From S2P Require Import Prelude GoSort Float64 Replay Topics Score ScoreProps Service SubStore Prog Scoring ScoringProps ScoringDue.

Open Scope Z_scope.

Section Calm.
Context `{SortSlice} `{MapRange} `{Collation} `{SpecsJSON} (metrics : list MetricRow).

(** The answer a call gets when nothing fails. *)
Definition answer {X} (c : stmt X) (h : Shared) : X * Shared :=
  let db := h_db h in
  match c in stmt X return X * Shared with
  | LookupRun sid => (select_run db sid, h)
  | UpsertStatus g sid sub contestant status at_ => (true, with_db h (upsert_status db g sid sub contestant status at_))
  | UpsertCorrectness g sub contestant ev => (true, with_db h (upsert_correctness db g sub contestant ev))
  | QueryReady g => (Some (select_ready db g), h)
  | QueryPending => (Some (select_pending db), h)
  | Enqueue g => (true, mkShared db (h_queue h ++ [g]) (h_published h))
  | Commit => (true, h)
  | QueryConfig => (select_config db, h)
  | QueryGroup g => (select_group db g, h)
  | QuerySessions g => (Some (select_sessions db g), h)
  | QueryMetrics _ _ => (Some metrics, h)
  | InsertScore res row => (Some (insert_score db res row).1, with_db h (insert_score db res row).2)
  | QueryRank g => (select_rank db g, h)
  | UpdatePublished g rank rankDelta => (true, with_db h (update_published db g rank rankDelta))
  | NowNS => (0, h)
  | Publish ev => (true, mkShared db (h_queue h) (h_published h ++ [ev]))
  end.

Lemma answer_does {X} (c : stmt X) h : does true X c h (answer c h).1 (answer c h).2.
Proof. destruct c; cbn; try (by split; [|left]); try (by left); try done. destruct (insert_score _ _ _); by left. Qed.

Fixpoint run_calm {A} (p : sprog A) (h : Shared) : A * Shared :=
  match p with Ret a => (a, h) | Call c k => run_calm (k (answer c h).1) (answer c h).2 end.

Lemma run_sreached (p : sprog unit) : forall s i,
  sreached s -> s_threads s !! i = Some p -> sreached (mkSys (run_calm p (s_shared s)).2 (<[i := Ret tt]> (s_threads s))).
Proof.
  induction p as [[]|X c k IH]; intros s i Hs Hi; cbn [run_calm snd].
  - rewrite list_insert_id by done. by destruct s.
  - assert (Hs1 : sreached (mkSys (answer c (s_shared s)).2 (<[i := k (answer c (s_shared s)).1]> (s_threads s)))).
    { destruct Hs as (m & cfg & Hr). exists m, cfg. eapply rtc_r; [exact Hr|]. eapply ss_call; [exact Hi|apply answer_does]. }
    pose proof (IH (answer c (s_shared s)).1 _ i Hs1) as Hend. cbn [s_threads s_shared] in Hend. rewrite list_insert_insert_eq in Hend. apply Hend.
    apply list_lookup_insert_eq. by eapply lookup_lt_Some.
Qed.

(** Start a thread and let it finish. *)
Definition spawned (s : Sys) (h : Shared) (p : sprog unit) : Sys := mkSys (run_calm p h).2 (s_threads s ++ [Ret tt]).

Lemma spawned_sreached s h p : sreached (mkSys h (s_threads s ++ [p])) -> sreached (spawned s h p).
Proof.
  intros Hr. pose proof (run_sreached p _ (length (s_threads s)) Hr) as Hend. cbn [s_threads s_shared] in Hend.
  rewrite insert_app_r_alt, Nat.sub_diag in Hend by done. apply Hend. by rewrite lookup_app_r, Nat.sub_diag by done.
Qed.

Lemma one_more s s' : sreached s -> sstep s s' -> sreached s'.
Proof. intros (m & cfg & Hr) Hs. exists m, cfg. by eapply rtc_r. Qed.

Definition take (s : Sys) (e : Event) : Sys := spawned s (s_shared s) (process e).

Lemma take_sreached s e : sreached s -> sreached (take s e).
Proof. intros Hr. apply spawned_sreached, (one_more s); [done|]. destruct e; constructor. Qed.

(** A worker takes the group at the head of the queue. *)
Definition work (s : Sys) : Sys :=
  match h_queue (s_shared s) with
  | [] => s
  | g :: q => spawned s (mkShared (h_db (s_shared s)) q (h_published (s_shared s))) (score g;; Ret tt)%prog
  end.

Lemma work_sreached s : sreached s -> sreached (work s).
Proof.
  intros Hr. unfold work. destruct (h_queue (s_shared s)) as [|g q] eqn:E; [done|]. apply spawned_sreached, (one_more s); [done|].
  by constructor.
Qed.

End Calm.

Module ScoringDemo.

#[local] Instance stable : SortSlice := SortSlice_stable.
#[local] Instance range : MapRange := MapRange_id.
#[local] Instance coll : Collation := Collation_C.
#[local] Instance json : SpecsJSON :=
  {| marshal_specs := fun _ => "[]"%string; unmarshal_specs := fun _ => Some [demo_task 0 10 100] |}.

Definition a_run (scenario : string) : RunsRow := mkRunsRow "sub" "alice" (Some "g"%string) (Some scenario) "queued" "" 0 0.

Definition tables : SubStore.DB :=
  mkDB ∅ {["correctness"%string := mkScenariosRow "sc-1" 1 60 "[]" 0; "ramp"%string := mkScenariosRow "sc-2" 2 60 "[]" 0]}
    {["g"%string := mkGroupsRow "sub" "alice" "running" 0 0]}
    {["p1"%string := a_run "sc-1"; "p2"%string := a_run "sc-2"]}.

Definition a_status (sid : string) : Event := EStatus (mkStatus sid "sub" "" "completed" "" 0).
Definition a_grade (sid : string) : Event :=
  ECorrect (mkScoreEvent sid "" 99 100 (f64 1) 1 0 100 100 100 (f64 0) (f64 0) (f64 0) (f64 0) (f64 0) 0 0 false "").

Definition evs : list Event := [a_grade "p2"; a_status "p1"; a_status "p2"; a_status "p1"; a_grade "p1"].

Definition cfg : ConfigRow := mkConfigRow (f64 0) (f64 0) 1000000 10 (f64 0).
Definition rows : list MetricRow := [demo_row 1 500].

Definition s0 : Sys := spawned rows (mkSys (mkShared (mkSDB tables ∅ ∅ (Some cfg)) [] []) []) (mkShared (mkSDB tables ∅ ∅ (Some cfg)) [] []) recover_pending.
Definition s1 : Sys := fold_left (take rows) evs s0.
Definition s2 : Sys := work rows s1.

(** Both events of both sessions delivered, and one more time; then two
    workers take what is queued. *)
Definition s3 : Sys := work rows (take rows s2 (a_grade "p2")).

Lemma s2_sreached : sreached s2.
Proof.
  apply work_sreached. repeat (cbn [s1 fold_left evs]; apply take_sreached). apply spawned_sreached.
  by exists tables, (Some cfg).
Qed.

Lemma s3_published : map lu_RunGroupID (h_published (s_shared s3)) = ["g"%string].
Proof. vm_compute. reflexivity. Qed.

Lemma s2_rank : select_rank (h_db (s_shared s2)) "g" = Some 1.
Proof. vm_compute. reflexivity. Qed.

Lemma scored_once_witness :
  map lu_RunGroupID (h_published (s_shared s2)) = ["g"%string] /\ (countb (ev_of "g") (h_published (s_shared s2)) <= 1)%nat.
Proof.
  split; [vm_compute; reflexivity|]. destruct (scored_once s2 s2 s2_sreached) as [Hone _]; [apply rtc_refl|]. apply Hone.
Defined.

Definition g_row : ScoreRow := default (mkScoreRow "" "" "" 0 0 0 (f64 0) false "" false (mkScore "" "" "" "" 0 0 0 (f64 0) false "" false NoReason (f64 0) (f64 0) (f64 0) (f64 0) (f64 0) [] false) None false)
  (scores (h_db (s_shared s2)) !! "g"%string).

Lemma rank_is_leaderboard_place_witness :
  exists k, select_rank (h_db (s_shared s2)) "g" = Some k /\ 1 <= k /\
    SortResults (stored_results (h_db (s_shared s2))) !! Z.to_nat (k - 1) = Some (so_detail g_row).
Proof. apply (rank_is_leaderboard_place s2 "g" g_row); [reflexivity|exact s2_sreached|vm_compute; reflexivity]. Defined.

Definition start_db : SDB := mkSDB tables ∅ ∅ (Some cfg).

Lemma a_genuine e run :
  runs tables !! session_of e = Some run -> run_group run = Some "g"%string ->
  match e with EStatus ev => bs_RunGroupID ev = ""%string | ECorrect _ => True end -> genuine tables e.
Proof. intros Hrun Hg He. exists run, "g"%string. split; [done|]. split; [done|]. split; [done|]. destruct e; auto. Qed.

Lemma evs_genuine : Forall (genuine tables) evs.
Proof.
  assert (Hr : forall sid, sid = "p1"%string \/ sid = "p2"%string -> genuine tables (a_status sid) /\ genuine tables (a_grade sid)).
  { intros sid [-> | ->]; split; eapply a_genuine; [vm_compute; reflexivity|reflexivity|done|..]. all: try (vm_compute; reflexivity); done. }
  repeat constructor; apply Hr; auto.
Qed.

Lemma runs_of_tables sid run : runs tables !! sid = Some run -> sid = "p1"%string \/ sid = "p2"%string.
Proof.
  cbn [runs tables]. intros [[<- _]|[_ [<- _]%lookup_singleton_Some]]%lookup_insert_Some; auto.
Qed.

Lemma evs_reported : all_reported start_db "g" evs.
Proof.
  assert (Hin : forall sid, sid = "p1"%string \/ sid = "p2"%string -> a_status sid ∈ evs /\ a_grade sid ∈ evs).
  { intros sid [-> | ->]; split; unfold evs; rewrite !elem_of_cons; tauto. }
  intros sid run Hsid%runs_of_tables _. destruct (Hin sid Hsid) as [Hs Hg].
  split; eexists; [split; [exact Hs|by split]|split; [exact Hg|done]].
Qed.

Lemma complete_group_queued_witness :
  wp (fun _ _ _ => True) (does false) (process_all evs) (mkShared start_db [] []) (fun _ h => "g"%string ∈ h_queue h).
Proof.
  apply (complete_group_queued start_db "g").
  - vm_compute. discriminate.
  - vm_compute. reflexivity.
  - reflexivity.
  - exact evs_genuine.
  - exact evs_reported.
Defined.

(** BOOL_AND skips rows whose terminal status is still NULL: with both grades
    in and only the first session ended, the group already counts as due. *)
Example due_before_the_end :
  let s := fold_left (take rows) [a_grade "p1"; a_grade "p2"; a_status "p1"] s0 in
  h_queue (s_shared s) = ["g"%string] /\
  sp_terminal <$> progress (h_db (s_shared s)) !! "p2"%string = Some None.
Proof. vm_compute. split; reflexivity. Qed.
End ScoringDemo.
