(* ===== verification/Sandbox.v ===== *)
(** * sandbox-orchestrator: slots

    [internal/k8s/slot.go] (the objects of a slot in the cluster),
    [internal/store/slot.go] (the map of known slots),
    [internal/handler/slot.go] (the three requests) and the start-up of
    [main.go], as programs over calls to the cluster and to the map. *)

From Stdlib Require Import Ascii.
From stdpp Require Import prelude gmap strings list pretty relations.
From S2P Require Import Prelude Prog Topics Archive Scenarios.

Open Scope Z_scope.
Open Scope prog_scope.

(** ** Names and labels *)

Definition LabelApp : string := "app".
Definition LabelSlot : string := "slot".
Definition LabelManagedBy : string := "app.kubernetes.io/managed-by".
Definition AppValue : string := "algo".
Definition ManagedByValue : string := "sandbox-orchestrator".
Definition CaptureAppValue : string := "ebpf-capture".
Definition captureContestantAnnotation : string := "iicpc.dev/contestant-id".
Definition captureOrderBandAnnotation : string := "iicpc.dev/order-band".
Definition captureObjectPath : string := "/opt/iicpc/ebpf/libiicpc_ebpf_latency.so".
Definition slotActiveDeadlineSeconds : Z := 3600.
Definition captureJobActiveDeadlineSeconds : Z := 3600.
Definition capturablePorts : list Z := [8080; 9898].

Definition captureJobName (slotID : string) : string := "capture-" +:+ slotID.
Definition podName (slotID : string) : string := "algo-" +:+ slotID.
Definition ServiceFQDN (slotID namespace : string) : string := podName slotID +:+ "." +:+ namespace +:+ ".svc.cluster.local".

(** [strconv.FormatUint(v, 10)]. *)
Definition FormatUint (v : Z) : string := pretty v.

Abbreviation Labels := (gmap string string).

(** A Go map read: the zero value when the key is missing. *)
Definition get (m : Labels) (k : string) : string := default ""%string (m !! k).

(** ** Configuration *)

Record Config := mkConfig {
  Namespace : string; RuntimeClass : string; CPU : string; Memory : string; NodePool : string;
  EgressBandwidth : string; IngressBandwidth : string; CaptureEnabled : bool; CaptureImage : string;
  KafkaBrokers : string; ImagePullSecretName : string }.

(** Kubernetes quantities: their milli-value, when the text is one. *)
Class Quantities := ParseQuantity : string -> option Z.

Section Config.
Context `{Quantities}.

(** [true]: no error. *)
Definition validateConfig (cfg : Config) : bool :=
  negb (bool_decide (Namespace cfg = ""%string)) &&
  (bool_decide (CPU cfg = ""%string) ||
   match ParseQuantity (CPU cfg), Atoi (CPU cfg) with Some milli, Some _ => Z.rem milli 1000 =? 0 | _, _ => false end) &&
  (bool_decide (Memory cfg = ""%string) || match ParseQuantity (Memory cfg) with Some _ => true | None => false end) &&
  negb (CaptureEnabled cfg && bool_decide (CaptureImage cfg = ""%string)).

(** The manager keeps the configuration. *)
Definition NewManager (cfg : Config) : option Config := if validateConfig cfg then Some cfg else None.

End Config.

(** ** Objects *)

Record Probe := mkProbe { pr_Port : Z; pr_InitialDelay : Z; pr_Period : Z; pr_FailureThreshold : Z }.

(** Quantities keep their text; ports are all TCP. *)
Record Resources := mkResources { rs_Requests : list (string * string); rs_Limits : list (string * string) }.

Record Container := mkContainer {
  ct_Name : string; ct_Image : string; ct_Ports : list Z; ct_Probe : Probe; ct_Resources : Resources;
  ct_ReadOnlyRoot : bool; ct_AllowPrivilegeEscalation : bool; ct_Drop : list string; ct_Seccomp : string;
  ct_Mounts : list (string * string) }.

(** A pod as submitted: memory-backed volumes, and whether it tolerates the
    sandbox taint.  Constant fields that nothing reads (image pull policy; of
    a job its pod's restart policy, annotations and mount of the BPF file
    system) are left out here and below. *)
Record PodObj := mkPodObj {
  po_Name : string; po_Labels : Labels; po_Annotations : Labels; po_RestartPolicy : string; po_Deadline : Z;
  po_AutoMount : bool; po_Volumes : list string; po_Containers : list Container; po_PullSecrets : list string;
  po_RuntimeClass : option string; po_Tolerates : bool; po_NodeSelector : Labels }.

Record ContainerStatus := mkCStatus { cs_Name : string; cs_Waiting : option (string * string); cs_ContainerID : string }.

Record PodStatus := mkPStatus {
  ps_Deleting : bool; ps_Phase : string; ps_Message : string; ps_PodIP : string;
  ps_Conditions : list (string * bool); ps_Containers : list ContainerStatus }.

(** A pod of the cluster. *)
Record Pod := mkPod { pod_obj : PodObj; pod_UID : string; pod_NodeName : string; pod_Created : Z; pod_Status : PodStatus }.

Record Service := mkService { sv_Name : string; sv_Labels : Labels; sv_Selector : Labels; sv_Ports : list (string * Z * Z) }.

Record Job := mkJob {
  jb_Name : string; jb_Labels : Labels; jb_Owner : string * string; jb_BackoffLimit : Z; jb_Deadline : Z; jb_TTL : Z;
  jb_NodeName : string; jb_HostPID : bool; jb_AutoMount : bool; jb_Grace : Z; jb_Tolerates : bool; jb_Image : string;
  jb_Env : list (string * string); jb_Privileged : bool; jb_Capabilities : list string; jb_Resources : Resources }.

Definition containerPortSpecs (ports : list Z) : list Z := map i32 ports.

Definition writableMounts : list (string * string) :=
  [("tmp", "/tmp"); ("var-tmp", "/var/tmp"); ("var-log", "/var/log"); ("var-run", "/var/run")]%string.
Definition writableVolumes : list string := ["tmp"; "var-tmp"; "var-log"; "var-run"]%string.

Section Specs.
Context `{Quantities}.
Variable m : Config.

(** [None]: [MustParse] panics. *)
Definition containerResources : option Resources :=
  let item name text :=
    if bool_decide (text = ""%string) then Some [] else match ParseQuantity text with Some _ => Some [(name, text)] | None => None end in
  match item "cpu"%string (CPU m), item "memory"%string (Memory m) with
  | Some cpu, Some memory => Some (mkResources (cpu ++ memory) (cpu ++ memory))
  | _, _ => None
  end.

Definition pod_annotations (contestantID : string) (orderBand : Z) : Labels :=
  let a := ∅ : Labels in
  let a := if bool_decide (EgressBandwidth m = ""%string) then a else <["kubernetes.io/egress-bandwidth"%string := EgressBandwidth m]> a in
  let a := if bool_decide (IngressBandwidth m = ""%string) then a else <["kubernetes.io/ingress-bandwidth"%string := IngressBandwidth m]> a in
  let a := if bool_decide (contestantID = ""%string) then a else <[captureContestantAnnotation := contestantID]> a in
  <[captureOrderBandAnnotation := FormatUint orderBand]> a.

Definition slot_labels (app slotID : string) : Labels :=
  <[LabelApp := app]> (<[LabelSlot := slotID]> {[LabelManagedBy := ManagedByValue]}).

Definition podSpec (slotID contestantID image : string) (ports : list Z) (orderBand : Z) : option PodObj :=
  match containerResources, ports with
  | Some resources, primary :: _ =>
      Some (mkPodObj (podName slotID) (slot_labels AppValue slotID) (pod_annotations contestantID orderBand) "Never"
        slotActiveDeadlineSeconds false writableVolumes
        [mkContainer "algo" image (containerPortSpecs ports) (mkProbe (i32 primary) 1 1 30) resources true false ["ALL"%string]
           "RuntimeDefault" writableMounts]
        (if bool_decide (ImagePullSecretName m = ""%string) then [] else [ImagePullSecretName m])
        (if bool_decide (RuntimeClass m = ""%string) then None else Some (RuntimeClass m))
        (negb (bool_decide (NodePool m = ""%string)))
        (if bool_decide (NodePool m = ""%string) then ∅ else {["pool"%string := NodePool m]}))
  | _, _ => None
  end.

Definition serviceSpec (slotID : string) (ports : list Z) : Service :=
  mkService (podName slotID) (slot_labels AppValue slotID) (<[LabelApp := AppValue]> {[LabelSlot := slotID]})
    (map (fun p => ("port-" +:+ pretty p, i32 p, p)) ports).

Definition captureResources : Resources :=
  mkResources [("cpu", "2"); ("memory", "2Gi")]%string [("cpu", "4"); ("memory", "4Gi")]%string.

Definition captureJobSpec (slotID contestantID nodeName podUID containerID : string) (orderBand : Z) : Job :=
  mkJob (captureJobName slotID) (slot_labels CaptureAppValue slotID) (podName slotID, podUID) 0
    captureJobActiveDeadlineSeconds 300 nodeName true false 60 (negb (bool_decide (NodePool m = ""%string))) (CaptureImage m)
    [("RUST_LOG", "info"); ("SESSION_ID", slotID); ("CONTESTANT_ID", contestantID); ("EBPF_IFACE", "eth0");
     ("EBPF_ALGO_POD_UID", podUID); ("EBPF_ALGO_CONTAINER_ID", containerID); ("EBPF_OBJECT_PATH", captureObjectPath);
     ("KAFKA_BROKERS", KafkaBrokers m); ("ORDER_BAND", FormatUint orderBand)]%string
    true ["BPF"; "NET_ADMIN"; "SYS_ADMIN"]%string captureResources.

End Specs.

(** ** State of a pod *)

Definition StateCreating : string := "creating".
Definition StateReady : string := "ready".
Definition StateFailed : string := "failed".
Definition StateTerminating : string := "terminating".

Definition isTerminalWaitingReason (reason : string) : bool :=
  bool_decide (reason ∈ ["ImagePullBackOff"; "ErrImagePull"; "InvalidImageName"; "CreateContainerConfigError";
                         "CreateContainerError"; "CrashLoopBackOff"]%string) || HasPrefix reason "Err".

Definition terminal_waiting (cs : ContainerStatus) : option string :=
  match cs_Waiting cs with
  | Some (reason, message) =>
      if isTerminalWaitingReason reason then Some ("container " +:+ cs_Name cs +:+ ": " +:+ reason +:+ " — " +:+ message) else None
  | None => None
  end.

Definition pending_text : string := "pod scheduling / readiness probe pending".

Definition deriveState (pod : Pod) : string * string :=
  let st := pod_Status pod in
  if ps_Deleting st then (StateTerminating, "pod deletion in progress"%string)
  else if bool_decide (ps_Phase st = "Failed"%string) then (StateFailed, "pod failed: " +:+ ps_Message st)
  else if bool_decide (ps_Phase st = "Succeeded"%string)
  then (StateFailed, "container exited unexpectedly (algo should stay running)"%string)
  else match omap terminal_waiting (ps_Containers st) with
       | msg :: _ => (StateFailed, msg)
       | [] =>
           if existsb (fun c => bool_decide (c.1 = "Ready"%string) && c.2) (ps_Conditions st) then (StateReady, "ready"%string)
           else (StateCreating, pending_text)
       end.

Definition containerPorts (pod : Pod) : list Z := match po_Containers (pod_obj pod) with [] => [] | c :: _ => ct_Ports c end.

Definition pod_image (pod : Pod) : string := match po_Containers (pod_obj pod) with [] => "" | c :: _ => ct_Image c end.

(** ** store/slot.go *)

Record Endpoint := mkEndpoint { ep_Host : string; ep_Port : Z }.

Record Slot := mkSlot {
  sl_SlotID : string; sl_Image : string; sl_Port : Z; sl_Ports : list Z; sl_State : string; sl_Message : string;
  sl_Endpoint : Endpoint; sl_CreatedAt : Z }.

Definition set_state (s : Slot) (state message : string) : Slot :=
  mkSlot (sl_SlotID s) (sl_Image s) (sl_Port s) (sl_Ports s) state message (sl_Endpoint s) (sl_CreatedAt s).

(** The map behind the mutex; [Get] and [Put] copy. *)
Abbreviation SlotStore := (gmap string Slot).
Definition slots_Get (slots : SlotStore) (slotID : string) : option Slot := slots !! slotID.
Definition slots_Put (slots : SlotStore) (slot : Slot) : SlotStore := <[sl_SlotID slot := slot]> slots.
Definition slots_Delete (slots : SlotStore) (slotID : string) : SlotStore := delete slotID slots.

(** ** Calls *)

Inductive KErr := NotFound | AlreadyExists | ApiError.

Record endpointJSON := mkEndpointJSON { ej_Host : string; ej_Port : Z; ej_Ports : list Z }.
Record slotResponse := mkSlotResponse { rp_SlotID : string; rp_State : string; rp_Message : string; rp_Endpoint : endpointJSON }.

Inductive Body := SlotBody (r : slotResponse) | ErrorBody (message : string) | NoBody.
Record Response := mkResponse { http_status : Z; http_body : Body }.

Inductive kcall : Type -> Type :=
  | PodGet (name : string) : kcall (KErr + Pod)
  | PodCreate (obj : PodObj) : kcall (KErr + Pod)
  | PodDelete (name : string) : kcall (option KErr)
  | PodList (selector : Labels) : kcall (option (list Pod))
  | ServiceGet (name : string) : kcall (option KErr)
  | ServiceCreate (svc : Service) : kcall (option KErr)
  | ServiceDelete (name : string) : kcall (option KErr)
  | JobGet (name : string) : kcall (option KErr)
  | JobCreate (job : Job) : kcall (option KErr)
  | JobDelete (name : string) : kcall (option KErr)
  | JobList (selector : Labels) : kcall (option (list Job))
  | Dial (ip : string) (port : Z) : kcall bool
  | SlotsGet (slotID : string) : kcall (option Slot)
  | SlotsPut (slot : Slot) : kcall unit
  | SlotsDelete (slotID : string) : kcall unit
  | Now : kcall Z
  | Respond (r : Response) : kcall unit.

Abbreviation kprog := (Prog kcall).

Inductive SlotErr := ErrSlotNotFound | ErrSlotImageMismatch (image : string) | ErrInvalidRequest (what : string) | ErrOther (what : string).

Section Manager.
Context `{Quantities}.
Variable m : Config.

(** ** k8s/slot.go *)

(** The pod of a slot, created when missing.  A panic while the specification
    is built becomes an error. *)
Definition ensurePod (resourceName slotID contestantID image : string) (ports : list Z) (orderBand : Z) : kprog (SlotErr + Pod) :=
  let! existing := ask (PodGet resourceName) in
  match existing with
  | inr pod => Ret (inr pod)
  | inl NotFound =>
      match podSpec m slotID contestantID image ports orderBand with
      | None => Ret (inl (ErrOther "panic"))
      | Some obj =>
          let! created := ask (PodCreate obj) in
          match created with
          | inr pod => Ret (inr pod)
          | inl AlreadyExists =>
              let! existing := ask (PodGet resourceName) in
              Ret (match existing with inr pod => inr pod | inl _ => inl (ErrOther "get pod after create race") end)
          | inl _ => Ret (inl (ErrOther "create pod"))
          end
      end
  | inl _ => Ret (inl (ErrOther "get pod"))
  end.

Definition ensureService (resourceName slotID : string) (ports : list Z) : kprog (option SlotErr) :=
  let! got := ask (ServiceGet resourceName) in
  match got with
  | None => Ret None
  | Some NotFound =>
      let! created := ask (ServiceCreate (serviceSpec slotID ports)) in
      Ret (match created with None | Some AlreadyExists => None | Some _ => Some (ErrOther "create service") end)
  | Some _ => Ret (Some (ErrOther "get service"))
  end.

Definition same_image (pod : Pod) (image : string) : bool :=
  match po_Containers (pod_obj pod) with [] => false | c :: _ => bool_decide (ct_Image c = image) end.

Definition mgr_CreateSlot (slotID contestantID image : string) (ports : list Z) (orderBand : Z) : kprog (option SlotErr) :=
  if bool_decide (ports = []) then Ret (Some (ErrInvalidRequest "at least one port is required"))
  else if CaptureEnabled m && negb (forallb (fun p => bool_decide (p ∈ capturablePorts)) ports)
  then Ret (Some (ErrInvalidRequest "port is not in the eBPF-capture set"))
  else
    let resourceName := podName slotID in
    let! pod := ensurePod resourceName slotID contestantID image ports orderBand in
    match pod with
    | inl e => Ret (Some e)
    | inr existing =>
        if negb (same_image existing image) then Ret (Some (ErrSlotImageMismatch (pod_image existing)))
        else ensureService resourceName slotID ports
    end.

(** A deletion fails for other reasons than a missing object. *)
Definition gone (r : option KErr) : bool := match r with None | Some NotFound => true | Some _ => false end.

Definition mgr_DeleteSlot (slotID : string) : kprog (option SlotErr) :=
  let resourceName := podName slotID in
  let! r := ask (PodDelete resourceName) in
  if negb (gone r) then Ret (Some (ErrOther "delete pod"))
  else
    let! r := ask (ServiceDelete resourceName) in
    if negb (gone r) then Ret (Some (ErrOther "delete service"))
    else if CaptureEnabled m
    then let! r := ask (JobDelete (captureJobName slotID)) in
         Ret (if gone r then None else Some (ErrOther "delete capture job"))
    else Ret None.

(** [None]: every port accepted a connection. *)
Fixpoint dial_ports (podIP : string) (ports : list Z) : kprog (option string) :=
  match ports with
  | [] => Ret None
  | p :: ports =>
      let! ok := ask (Dial podIP p) in
      if (ok : bool) then dial_ports podIP ports else Ret (Some ("waiting for port " +:+ pretty p +:+ " to accept connections"))
  end.

Definition dialAllPorts (podIP : string) (ports : list Z) : kprog (option string) :=
  if bool_decide (podIP = ""%string) then Ret (Some pending_text) else dial_ports podIP ports.

Definition capture_band (pod : Pod) : Z :=
  match po_Annotations (pod_obj pod) !! captureOrderBandAnnotation with
  | Some raw => match ParseUint raw 32 with Some band => band | None => OrderBandUnset end
  | None => OrderBandUnset
  end.

(** The error is only logged. *)
Definition ensureCapture (pod : Pod) : kprog unit :=
  let slotID := get (po_Labels (pod_obj pod)) LabelSlot in
  if bool_decide (slotID = ""%string) then Ret tt
  else
    let! got := ask (JobGet (captureJobName slotID)) in
    match got with
    | Some NotFound =>
        if bool_decide (pod_NodeName pod = ""%string) then Ret tt
        else
          let containerID := match ps_Containers (pod_Status pod) with [] => ""%string | c :: _ => cs_ContainerID c end in
          ask (JobCreate (captureJobSpec m slotID (get (po_Annotations (pod_obj pod)) captureContestantAnnotation)
                            (pod_NodeName pod) (pod_UID pod) containerID (capture_band pod)));;
          Ret tt
    | _ => Ret tt
    end.

Definition Refresh (slotID : string) : kprog (SlotErr + string * string) :=
  let! got := ask (PodGet (podName slotID)) in
  match got with
  | inl NotFound => Ret (inl ErrSlotNotFound)
  | inl _ => Ret (inl (ErrOther "get pod"))
  | inr pod =>
      let '(state, msg) := deriveState pod in
      if negb (bool_decide (state = StateReady)) then Ret (inr (state, msg))
      else
        let! waiting := match containerPorts pod with _ :: ((_ :: _) as rest) => dialAllPorts (ps_PodIP (pod_Status pod)) rest | _ => Ret None end in
        match waiting with
        | Some waitMsg => Ret (inr (StateCreating, waitMsg))
        | None => (if CaptureEnabled m then ensureCapture pod else Ret tt);; Ret (inr (state, msg))
        end
  end.

Fixpoint reap_jobs (live : gset string) (jobs : list Job) : kprog unit :=
  match jobs with
  | [] => Ret tt
  | j :: jobs =>
      if bool_decide (get (jb_Labels j) LabelSlot ∈ live) then reap_jobs live jobs
      else ask (JobDelete (jb_Name j));; reap_jobs live jobs
  end.

Definition managed (app : string) : Labels := <[LabelApp := app]> {[LabelManagedBy := ManagedByValue]}.

Definition reapOrphanCaptureJobs (live : gset string) : kprog unit :=
  let! jobs := ask (JobList (managed CaptureAppValue)) in
  match jobs with None => Ret tt | Some jobs => reap_jobs live jobs end.

(** The slot a labelled pod stands for. *)
Definition slot_of_pod (pod : Pod) : option Slot :=
  let slotID := get (po_Labels (pod_obj pod)) LabelSlot in
  if bool_decide (slotID = ""%string) then None
  else
    let ports := containerPorts pod in
    let port := match ports with [] => 0 | p :: _ => p end in
    let '(state, msg) := deriveState pod in
    Some (mkSlot slotID (pod_image pod) port ports state msg (mkEndpoint (ServiceFQDN slotID (Namespace m)) port) (pod_Created pod)).

Definition slots_of (pods : list Pod) : list Slot := omap slot_of_pod pods.

Definition ListExisting : kprog (option (list Slot * nat)) :=
  let! pods := ask (PodList (managed AppValue)) in
  match pods with
  | None => Ret None
  | Some pods =>
      let out := slots_of pods in
      (if CaptureEnabled m then reapOrphanCaptureJobs (list_to_set (map sl_SlotID out)) else Ret tt);;
      Ret (Some (out, length pods - length out)%nat)
  end.

(** main.go: the slot map is rebuilt from the cluster. *)
Fixpoint put_all (slots : list Slot) : kprog unit :=
  match slots with [] => Ret tt | s :: slots => ask (SlotsPut s);; put_all slots end.

Definition startup : kprog unit :=
  let! existing := ListExisting in
  match existing with None => Ret tt | Some (slots, _) => put_all slots end.

(** ** handler/slot.go *)

Record createSlotRequest := mkCreate {
  cq_SlotID : string; cq_ContestantID : string; cq_Image : string; cq_Port : Z; cq_Ports : list Z; cq_OrderBand : option Z }.

Definition orderBand (r : createSlotRequest) : Z := match cq_OrderBand r with None => OrderBandUnset | Some b => b end.

Definition resolvePorts (r : createSlotRequest) : list Z :=
  match cq_Ports r with [] => if 0 <? cq_Port r then [cq_Port r] else [] | ports => ports end.

Definition toResponse (slot : Slot) : slotResponse :=
  mkSlotResponse (sl_SlotID slot) (sl_State slot) (sl_Message slot)
    (mkEndpointJSON (ep_Host (sl_Endpoint slot)) (ep_Port (sl_Endpoint slot)) (sl_Ports slot)).

Definition writeError (status : Z) (msg : string) : kprog unit := ask (Respond (mkResponse status (ErrorBody msg))).
Definition writeJSON (status : Z) (r : slotResponse) : kprog unit := ask (Respond (mkResponse status (SlotBody r))).

(** The slot is known with this image. *)
Definition create_known (existing : Slot) (slotID : string) : kprog unit :=
  let! r := Refresh slotID in
  match r with
  | inl ErrSlotNotFound => writeJSON 200 (toResponse existing)
  | inl _ => writeError 500 "refresh slot"
  | inr (state, msg) => let existing := set_state existing state msg in ask (SlotsPut existing);; writeJSON 200 (toResponse existing)
  end.

Definition create_new (req : createSlotRequest) (ports : list Z) : kprog unit :=
  let! err := mgr_CreateSlot (cq_SlotID req) (cq_ContestantID req) (cq_Image req) ports (orderBand req) in
  match err with
  | Some (ErrSlotImageMismatch _) => writeError 409 "slot exists with different image"
  | Some (ErrInvalidRequest what) => writeError 400 what
  | Some _ => writeError 500 "create slot"
  | None =>
      let! r := Refresh (cq_SlotID req) in
      let '(state, msg) := match r with inr sm => sm | inl _ => (""%string, ""%string) end in
      let port := hd 0 ports in
      let! now := ask Now in
      let slot := mkSlot (cq_SlotID req) (cq_Image req) port ports state msg
                    (mkEndpoint (ServiceFQDN (cq_SlotID req) (Namespace m)) port) now in
      ask (SlotsPut slot);; writeJSON 201 (toResponse slot)
  end.

(** [None]: a body that does not decode. *)
Definition CreateSlot (body : option createSlotRequest) : kprog unit :=
  match body with
  | None => writeError 400 "invalid JSON body"
  | Some req =>
      let ports := resolvePorts req in
      if bool_decide (cq_SlotID req = ""%string) || bool_decide (cq_Image req = ""%string) || bool_decide (ports = [])
      then writeError 400 "slot_id, image, and port (or ports) are required"
      else if existsb (fun p => p <=? 0) ports then writeError 400 "ports must be positive"
      else
        let! existing := ask (SlotsGet (cq_SlotID req)) in
        match existing with
        | Some existing => if bool_decide (sl_Image existing = cq_Image req) then create_known existing (cq_SlotID req) else create_new req ports
        | None => create_new req ports
        end
  end.

Definition GetSlot (slotID : string) : kprog unit :=
  if bool_decide (slotID = ""%string) then writeError 400 "missing slot_id"
  else
    let! slot := ask (SlotsGet slotID) in
    match slot with
    | None => writeError 404 "slot not found"
    | Some slot =>
        let! r := Refresh slotID in
        match r with
        | inl ErrSlotNotFound => ask (SlotsDelete slotID);; writeError 404 "slot not found"
        | inl _ => writeError 500 "refresh slot"
        | inr (state, msg) => let slot := set_state slot state msg in ask (SlotsPut slot);; writeJSON 200 (toResponse slot)
        end
    end.

Definition DeleteSlot (slotID : string) : kprog unit :=
  if bool_decide (slotID = ""%string) then writeError 400 "missing slot_id"
  else
    let! slot := ask (SlotsGet slotID) in
    (match slot with Some slot => ask (SlotsPut (set_state slot StateTerminating "delete requested")) | None => Ret tt end);;
    let! err := mgr_DeleteSlot slotID in
    match err with
    | Some _ => writeError 500 "delete slot"
    | None => ask (SlotsDelete slotID);; ask (Respond (mkResponse 204 NoBody))
    end.

End Manager.

(** ** The cluster *)

Record Cluster := mkCluster {
  k_pods : gmap string Pod; k_services : gmap string Service; k_jobs : gmap string Job; k_slots : SlotStore;
  k_answered : list Response }.

Definition set_pods (k : Cluster) p := mkCluster p (k_services k) (k_jobs k) (k_slots k) (k_answered k).
Definition set_services (k : Cluster) v := mkCluster (k_pods k) v (k_jobs k) (k_slots k) (k_answered k).
Definition set_jobs (k : Cluster) j := mkCluster (k_pods k) (k_services k) j (k_slots k) (k_answered k).
Definition set_slots (k : Cluster) s := mkCluster (k_pods k) (k_services k) (k_jobs k) s (k_answered k).
Definition set_answered (k : Cluster) a := mkCluster (k_pods k) (k_services k) (k_jobs k) (k_slots k) a.

Definition selects (selector labels : Labels) : Prop := selector ⊆ labels.

(** Reading an object, or failing to. *)
Definition reads {X} (faults : bool) (k : Cluster) (v : KErr + X) (x : KErr + X) (k' : Cluster) : Prop :=
  k' = k /\ (x = v \/ (faults = true /\ x = inl ApiError)).

Definition present {X} (o : option X) : KErr + X := match o with Some a => inr a | None => inl NotFound end.

(** A write that arrives, whose answer may be lost, or that does not arrive. *)
Definition writes (faults : bool) (k : Cluster) (done : Cluster) (x : option KErr) (k' : Cluster) : Prop :=
  (x = None /\ k' = done) \/ (faults = true /\ x = Some ApiError /\ (k' = k \/ k' = done)).

Definition err_of {X} (r : KErr + X) : option KErr := match r with inl e => Some e | inr _ => None end.

(** The API server's part of a new pod: an identity that no pod has, no node
    yet, nothing reported. *)
Definition admitted (k : Cluster) (obj : PodObj) (p : Pod) : Prop :=
  pod_obj p = obj /\ pod_NodeName p = ""%string /\ pod_Status p = mkPStatus false "Pending" "" "" [] [] /\
  (forall n q, k_pods k !! n = Some q -> pod_UID q <> pod_UID p).

(** A deleted pod is gone at once, or marked and gone later. *)
Definition mark_deleted (p : Pod) : Pod :=
  let st := pod_Status p in
  mkPod (pod_obj p) (pod_UID p) (pod_NodeName p) (pod_Created p)
    (mkPStatus true (ps_Phase st) (ps_Message st) (ps_PodIP st) (ps_Conditions st) (ps_Containers st)).

Definition deletes_pod (k : Cluster) (name : string) (k' : Cluster) : Prop :=
  k' = set_pods k (delete name (k_pods k)) \/ k' = set_pods k (alter mark_deleted name (k_pods k)).

Definition does (faults : bool) (X : Type) (c : kcall X) (k : Cluster) : X -> Cluster -> Prop :=
  match c in kcall X return X -> Cluster -> Prop with
  | PodGet name => reads faults k (present (k_pods k !! name))
  | PodCreate obj => fun x k' =>
      match k_pods k !! po_Name obj with
      | Some _ => reads faults k (inl AlreadyExists) x k'
      | None => exists p, admitted k obj p /\
          let done := set_pods k (<[po_Name obj := p]> (k_pods k)) in
          (x = inr p /\ k' = done) \/ (faults = true /\ x = inl ApiError /\ (k' = k \/ k' = done))
      end
  | PodDelete name => fun x k' =>
      match k_pods k !! name with
      | None => k' = k /\ (x = Some NotFound \/ (faults = true /\ x = Some ApiError))
      | Some _ => exists done, deletes_pod k name done /\ writes faults k done x k'
      end
  | PodList selector => fun x k' =>
      k' = k /\ ((exists l : list (string * Pod), x = Some (map snd l) /\ NoDup (map fst l) /\
                   forall n p, (n, p) ∈ l <-> k_pods k !! n = Some p /\ selects selector (po_Labels (pod_obj p))) \/
                 (faults = true /\ x = None))
  | ServiceGet name => fun x => fun k' => exists r, reads faults k (present (k_services k !! name)) r k' /\ x = err_of r
  | ServiceCreate svc => fun x k' =>
      match k_services k !! sv_Name svc with
      | Some _ => k' = k /\ (x = Some AlreadyExists \/ (faults = true /\ x = Some ApiError))
      | None => writes faults k (set_services k (<[sv_Name svc := svc]> (k_services k))) x k'
      end
  | ServiceDelete name => fun x k' =>
      match k_services k !! name with
      | None => k' = k /\ (x = Some NotFound \/ (faults = true /\ x = Some ApiError))
      | Some _ => writes faults k (set_services k (delete name (k_services k))) x k'
      end
  | JobGet name => fun x => fun k' => exists r, reads faults k (present (k_jobs k !! name)) r k' /\ x = err_of r
  | JobCreate job => fun x k' =>
      match k_jobs k !! jb_Name job with
      | Some _ => k' = k /\ (x = Some AlreadyExists \/ (faults = true /\ x = Some ApiError))
      | None => writes faults k (set_jobs k (<[jb_Name job := job]> (k_jobs k))) x k'
      end
  | JobDelete name => fun x k' =>
      match k_jobs k !! name with
      | None => k' = k /\ (x = Some NotFound \/ (faults = true /\ x = Some ApiError))
      | Some _ => writes faults k (set_jobs k (delete name (k_jobs k))) x k'
      end
  | JobList selector => fun x k' =>
      k' = k /\ ((exists l : list (string * Job), x = Some (map snd l) /\ NoDup (map fst l) /\
                   forall n j, (n, j) ∈ l <-> k_jobs k !! n = Some j /\ selects selector (jb_Labels j)) \/
                 (faults = true /\ x = None))
  | Dial _ _ => fun _ k' => k' = k
  | SlotsGet id => fun x k' => k' = k /\ x = slots_Get (k_slots k) id
  | SlotsPut slot => fun _ k' => k' = set_slots k (slots_Put (k_slots k) slot)
  | SlotsDelete id => fun _ k' => k' = set_slots k (slots_Delete (k_slots k) id)
  | Now => fun _ k' => k' = k
  | Respond r => fun _ k' => k' = set_answered k (k_answered k ++ [r])
  end.

(** ** The service *)

(** What the cluster does on its own to a pod: it reports on it and places it
    on a node. *)
Definition pod_moves (p p' : Pod) : Prop :=
  pod_obj p' = pod_obj p /\ pod_UID p' = pod_UID p /\ (pod_NodeName p' = pod_NodeName p \/ pod_NodeName p = ""%string).

Record cluster_moves (k k' : Cluster) : Prop := {
  cm_pods : forall n p', k_pods k' !! n = Some p' -> exists p, k_pods k !! n = Some p /\ pod_moves p p';
  cm_services : k_services k' ⊆ k_services k;
  cm_jobs : k_jobs k' ⊆ k_jobs k;
  cm_slots : k_slots k' = k_slots k;
  cm_answered : k_answered k' = k_answered k }.

Record Sys := mkSys { o_cluster : Cluster; o_threads : list (kprog unit) }.

(** JSON decoding into a [*uint32] bounds the band. *)
Definition decodable (r : createSlotRequest) : Prop := match cq_OrderBand r with Some b => 0 <= b < 2 ^ 32 | None => True end.

Section System.
Context `{Quantities}.
Variable m : Config.
(** The creation requests that are ever made. *)
Variable made : createSlotRequest -> Prop.

Inductive ostep : Sys -> Sys -> Prop :=
  | os_create s req : made req -> decodable req -> ostep s (mkSys (o_cluster s) (o_threads s ++ [CreateSlot m (Some req)]))
  | os_garbage s : ostep s (mkSys (o_cluster s) (o_threads s ++ [CreateSlot m None]))
  | os_get s id : ostep s (mkSys (o_cluster s) (o_threads s ++ [GetSlot m id]))
  | os_delete s id : ostep s (mkSys (o_cluster s) (o_threads s ++ [DeleteSlot m id]))
  | os_call s i X (c : kcall X) k x cl :
      o_threads s !! i = Some (Call c k) -> does true X c (o_cluster s) x cl -> ostep s (mkSys cl (<[i := k x]> (o_threads s)))
  | os_cluster s cl : cluster_moves (o_cluster s) cl -> ostep s (mkSys cl (o_threads s))
  | os_restart s : ostep s (mkSys (set_slots (o_cluster s) ∅) [startup m]).

Definition oinit : Sys := mkSys (mkCluster ∅ ∅ ∅ ∅ []) [startup m].
Definition oreached (s : Sys) : Prop := rtc ostep oinit s.

End System.
