(* ===== verification/SandboxProps.v ===== *)
(** * sandbox-orchestrator: what runs in the cluster

    Every pod and every capture job the orchestrator makes comes from one
    creation request, whatever the interleaving, the failures and the
    restarts. *)

From Stdlib Require Import Ascii.
From stdpp Require Import prelude gmap strings list pretty relations.
From S2P Require Import Prelude Prog Topics Archive Scenarios Sandbox.

Open Scope Z_scope.
Open Scope prog_scope.

(** ** Decimal numbers *)

Lemma digit_char x : (x < 10)%N -> Z.of_N (N_of_ascii (pretty_N_char x)) = 48 + Z.of_N x.
Proof. intros Hx. assert (Hi : (x = 0 \/ x = 1 \/ x = 2 \/ x = 3 \/ x = 4 \/ x = 5 \/ x = 6 \/ x = 7 \/ x = 8 \/ x = 9)%N) by lia. by repeat destruct Hi as [-> | Hi]; try subst. Qed.

Lemma parse_digit a x s : (x < 10)%N -> parse_digits a (String (pretty_N_char x) s) = parse_digits (a * 10 + Z.of_N x) s.
Proof.
  intros Hx. cbn [parse_digits]. rewrite (digit_char x Hx). rewrite (proj2 (Z.leb_le 48 _)), (proj2 (Z.leb_le _ 57)) by lia. cbn [andb]. f_equal. lia.
Qed.

Lemma parse_pretty x : forall s, parse_digits 0 (pretty_N_go x s) = parse_digits (Z.of_N x) s.
Proof.
  induction (N.lt_wf_0 x) as [x _ IH]. intros s. destruct (decide (x = 0)%N) as [->|Hx]; [by rewrite pretty_N_go_0|].
  rewrite pretty_N_go_step by lia. rewrite IH by (apply N.div_lt; lia). rewrite parse_digit by (apply N.mod_lt; lia). f_equal.
  rewrite N2Z.inj_div, N2Z.inj_mod. pose proof (Z.div_mod (Z.of_N x) (Z.of_N 10)). lia.
Qed.

Lemma ParseUint_Format v bits : 0 <= v < 2 ^ bits -> ParseUint (FormatUint v) bits = Some v.
Proof.
  intros Hv. unfold FormatUint, pretty, pretty_Z. destruct v as [|v|v]; [ | |lia].
  - change (ParseUint _ bits) with (if 0 <? 2 ^ bits then Some 0 else None). by rewrite (proj2 (Z.ltb_lt _ _)) by lia.
  - change (pretty v) with (pretty_N_go (N.pos v) ""). pose proof (parse_pretty (N.pos v) "") as Hp. cbn [parse_digits] in Hp.
    unfold ParseUint. destruct (pretty_N_go (N.pos v) "") as [|c rest] eqn:E; [discriminate|]. rewrite Hp.
    rewrite (proj2 (Z.ltb_lt _ _)) by (cbn; lia). done.
Qed.

(** ** Where objects come from *)

Section Origin.
Context `{Quantities}.
Variable m : Config.
Variable made : createSlotRequest -> Prop.

(** A request the handler lets through. *)
Record accepted (req : createSlotRequest) : Prop := {
  ac_made : made req;
  ac_band : decodable req;
  ac_slot : cq_SlotID req <> ""%string;
  ac_image : cq_Image req <> ""%string;
  ac_ports : Forall (fun p => 0 < p /\ (CaptureEnabled m = true -> p ∈ capturablePorts)) (resolvePorts req) }.

Definition from_request (req : createSlotRequest) (obj : PodObj) : Prop :=
  accepted req /\
  podSpec m (cq_SlotID req) (cq_ContestantID req) (cq_Image req) (resolvePorts req) (orderBand req) = Some obj.

Definition good_pod (p : Pod) : Prop := exists req, from_request req (pod_obj p).

(** A capture job: that of a placed pod of the history [h], labelled as the
    request of the pod says. *)
Definition good_job (h : list Pod) (j : Job) : Prop :=
  exists req p containerID, p ∈ h /\ from_request req (pod_obj p) /\ CaptureEnabled m = true /\ pod_NodeName p <> ""%string /\
    j = captureJobSpec m (cq_SlotID req) (cq_ContestantID req) (pod_NodeName p) (pod_UID p) containerID (orderBand req).

Definition need {X} (h : list Pod) (c : kcall X) : Prop :=
  match c with
  | PodCreate obj => exists req, from_request req obj
  | JobCreate job => good_job h job
  | _ => True
  end.

Definition ans {X} (h : list Pod) (c : kcall X) : X -> Prop :=
  match c in kcall X return X -> Prop with
  | PodGet _ => fun x => forall p, x = inr p -> good_pod p /\ p ∈ h
  | PodCreate _ => fun x => forall p, x = inr p -> good_pod p
  | _ => fun _ => True
  end.

(** The routine makes its calls as they should be, when the pods of [h] have
    been in the cluster and others may follow between its calls. *)
Definition safe {A} (h : list Pod) (p : kprog A) (Q : A -> Prop) : Prop :=
  wp (fun X (c : kcall X) h => need h c) (fun X (c : kcall X) h x h' => h ⊆ h' /\ ans h' c x) p h (fun a _ => Q a).

Lemma good_job_mono h h' j : h ⊆ h' -> good_job h j -> good_job h' j.
Proof. intros Hh (req & p & cid & Hp & Hj). exists req, p, cid. split; [by apply Hh|done]. Qed.

Lemma safe_mono {A} h h' (p : kprog A) Q : h ⊆ h' -> safe h p Q -> safe h' p Q.
Proof.
  intros Hh. destruct p as [a|X c k]; [done|]. intros [Hn Hk]. split.
  - destruct c; try done. by eapply good_job_mono.
  - intros x h'' [Hh' Hx]. apply Hk. split; [|done]. by etrans.
Qed.

Lemma safe_bind {A B} h (p : kprog A) (f : A -> kprog B) (Q : A -> Prop) (R : B -> Prop) :
  safe h p Q -> (forall h' a, h ⊆ h' -> Q a -> safe h' (f a) R) -> safe h (bind p f) R.
Proof.
  revert h. induction p as [a|X c k IH]; intros h; cbn; [intros HQ Hf; by apply Hf|]. intros [Hn Hk] Hf. split; [done|].
  intros x h' [Hh Hx]. apply IH; [by apply Hk|]. intros h'' a Hh'. apply Hf. by etrans.
Qed.

Lemma safe_ask {X} h (c : kcall X) (Q : X -> Prop) : need h c -> (forall h' x, ans h' c x -> Q x) -> safe h (ask c) Q.
Proof. intros Hn HQ. apply wp_ask; [done|]. intros x h' [_ Hx]. by eapply HQ. Qed.

Lemma safe_call {X A} h (c : kcall X) (f : X -> kprog A) (Q : A -> Prop) :
  need h c -> (forall h' x, h ⊆ h' -> ans h' c x -> safe h' (f x) Q) -> safe h (bind (ask c) f) Q.
Proof. intros Hn Hf. split; [done|]. intros x h' [Hh Hx]. by apply Hf. Qed.

Lemma good_labels p : good_pod p -> exists req, from_request req (pod_obj p) /\
  get (po_Labels (pod_obj p)) LabelSlot = cq_SlotID req /\ pod_image p = cq_Image req /\
  containerPorts p = containerPortSpecs (resolvePorts req) /\
  get (po_Annotations (pod_obj p)) captureContestantAnnotation = cq_ContestantID req /\ capture_band p = orderBand req.
Proof.
  intros (req & Hreq & Hspec). exists req. split; [done|]. pose proof (ac_band _ Hreq) as Hband. unfold podSpec in Hspec.
  destruct (containerResources m) as [res|]; [|done]. destruct (resolvePorts req) as [|p0 ports] eqn:Ep; [done|].
  unfold pod_image, containerPorts, capture_band, get. injection Hspec as <-. cbn [po_Labels po_Containers po_Annotations ct_Image ct_Ports].
  split_and!; [by vm_compute|done|done| |].
  - unfold pod_annotations. rewrite lookup_insert_ne by done. destruct (decide (cq_ContestantID req = ""%string)) as [E|E].
    + rewrite (bool_decide_true _ E), E. repeat case_bool_decide; by rewrite ?lookup_insert_ne, ?lookup_empty.
    + rewrite bool_decide_false by done. by rewrite lookup_insert_eq.
  - unfold pod_annotations. rewrite lookup_insert_eq. rewrite ParseUint_Format; [done|]. unfold orderBand, decodable in *.
    destruct (cq_OrderBand req); [done|]. unfold OrderBandUnset, MaxUint32. lia.
Qed.

(** ** Programs *)

Lemma safe_ensurePod h req :
  accepted req ->
  safe h (ensurePod m (podName (cq_SlotID req)) (cq_SlotID req) (cq_ContestantID req) (cq_Image req) (resolvePorts req) (orderBand req)) (fun _ => True).
Proof.
  intros Hreq. apply safe_call; [done|]. intros h1 [[]|p] _ _; [| | |done]; try done.
  destruct (podSpec _ _ _ _ _ _) as [obj|] eqn:E; [|done]. apply safe_call; [by exists req|]. by intros h2 [[]|p] _ _.
Qed.

Lemma safe_create h req :
  made req -> decodable req -> cq_SlotID req <> ""%string -> cq_Image req <> ""%string -> Forall (fun p => 0 < p) (resolvePorts req) ->
  safe h (mgr_CreateSlot m (cq_SlotID req) (cq_ContestantID req) (cq_Image req) (resolvePorts req) (orderBand req)) (fun _ => True).
Proof.
  intros Hm Hd Hs Hi Hp. unfold mgr_CreateSlot. destruct (bool_decide _); [done|]. destruct (_ && _) eqn:Ec; [done|].
  assert (Hreq : accepted req).
  { split; try done. rewrite Forall_forall in *. intros p Hin. split; [by apply Hp|]. intros Hcap. rewrite Hcap in Ec. cbn in Ec.
    apply negb_false_iff in Ec. rewrite forallb_forall in Ec. apply (bool_decide_eq_true_1 _ (Ec p (proj1 (list_elem_of_In _ _) Hin))). }
  eapply safe_bind; [by apply safe_ensurePod|]. intros h1 [e|pod] _ _; [done|].
  destruct (same_image _ _); [|done]. by apply safe_call; [done|]; intros h2 [[]|] _ _.
Qed.

Lemma safe_dial h ip ports : safe h (dialAllPorts ip ports) (fun _ => True).
Proof.
  unfold dialAllPorts. destruct (bool_decide _); [done|]. revert h. induction ports as [|p ports IH]; intros h; cbn [dial_ports]; [done|].
  apply safe_call; [done|]. intros h1 [] _ _; [apply IH|done].
Qed.

Lemma safe_capture h pod : good_pod pod -> pod ∈ h -> CaptureEnabled m = true -> safe h (ensureCapture m pod) (fun _ => True).
Proof.
  intros Hpod Hin Hc. destruct (good_labels pod Hpod) as (req & Hreq & Hslot & _ & _ & Hcont & Hband).
  unfold ensureCapture. rewrite Hslot, Hcont, Hband. destruct (bool_decide _); [done|]. apply safe_call; [done|]. intros h1 [[]|] Hh _; try done.
  case_bool_decide; [done|]. apply safe_call; [|done]. eexists req, pod, _. by split; [apply Hh|].
Qed.

Lemma safe_Refresh h id : safe h (Refresh m id) (fun _ => True).
Proof.
  apply safe_call; [done|]. intros h1 [[]|pod] _ Hp; try done. destruct (Hp pod eq_refl) as [Hg Hin]. destruct (deriveState pod) as [st msg].
  destruct (negb _); [done|]. eapply (safe_bind _ _ _ (fun _ => True)).
  - destruct (containerPorts pod) as [|? [|? ?]]; [done|done|apply safe_dial].
  - intros h2 [w|] Hh _; [done|]. apply (safe_bind _ _ _ (fun _ => True)); [|done].
    destruct (CaptureEnabled m) eqn:Ec; [apply safe_capture; [done|by apply Hh|done]|done].
Qed.

Lemma safe_reap h live jobs : safe h (reap_jobs live jobs) (fun _ => True).
Proof.
  revert h. induction jobs as [|j jobs IH]; intros h; cbn [reap_jobs]; [done|]. destruct (bool_decide _); [apply IH|].
  apply safe_call; [done|]. intros; apply IH.
Qed.

Lemma safe_put h slots : safe h (put_all slots) (fun _ => True).
Proof. revert h. induction slots as [|s slots IH]; intros h; cbn [put_all]; [done|]. apply safe_call; [done|]. intros; apply IH. Qed.

Lemma safe_startup h : safe h (startup m) (fun _ => True).
Proof.
  eapply (safe_bind _ _ _ (fun _ => True)); [|intros h' [[slots n]|] _ _; [apply safe_put|done]].
  apply safe_call; [done|]. intros h1 [pods|] _ _; [|done]. apply (safe_bind _ _ _ (fun _ => True)); [|done].
  destruct (CaptureEnabled m); [|done]. apply safe_call; [done|]. intros h2 [jobs|] _ _; [apply safe_reap|done].
Qed.

Lemma safe_GetSlot h id : safe h (GetSlot m id) (fun _ => True).
Proof.
  unfold GetSlot. destruct (bool_decide _); [by apply safe_ask|]. apply safe_call; [done|]. intros h1 [slot|] _ _; [|by apply safe_ask].
  eapply safe_bind; [apply safe_Refresh|]. intros h2 [[]|[st msg]] _ _; try (by apply safe_ask); by apply safe_call; [done|]; intros; apply safe_ask.
Qed.

Lemma safe_DeleteSlot h id : safe h (DeleteSlot m id) (fun _ => True).
Proof.
  unfold DeleteSlot. destruct (bool_decide _); [by apply safe_ask|]. apply safe_call; [done|]. intros h1 slot _ _.
  apply (safe_bind _ _ _ (fun _ => True)); [destruct slot; [by apply safe_ask|done]|]. intros h2 _ _ _.
  apply (safe_bind _ _ _ (fun _ => True)).
  - apply safe_call; [done|]. intros h3 r _ _. destruct (negb _); [done|]. apply safe_call; [done|]. intros h4 r' _ _. destruct (negb _); [done|].
    destruct (CaptureEnabled m); [|done]. by apply safe_call.
  - intros h3 [e|] _ _; [by apply safe_ask|]. apply safe_call; [done|]. intros; by apply safe_ask.
Qed.

Lemma safe_CreateSlot h body : (forall req, body = Some req -> made req /\ decodable req) -> safe h (CreateSlot m body) (fun _ => True).
Proof.
  intros Hbody. unfold CreateSlot. destruct body as [req|]; [|by apply safe_ask]. destruct (Hbody req eq_refl) as [Hm Hd].
  destruct (_ || _) eqn:E1; [by apply safe_ask|]. destruct (existsb _ _) eqn:E2; [by apply safe_ask|].
  apply orb_false_iff in E1 as [E1 E3]. apply orb_false_iff in E1 as [E0 E1]. apply bool_decide_eq_false in E0, E1, E3.
  assert (Hp : Forall (fun p => 0 < p) (resolvePorts req)).
  { apply Forall_forall. intros p Hin. destruct (decide (0 < p)); [done|]. exfalso. rewrite <-not_true_iff_false in E2. apply E2, existsb_exists.
    exists p. split; [by apply list_elem_of_In|lia]. }
  assert (Hnew : forall h, safe h (create_new m req (resolvePorts req)) (fun _ => True)).
  { intros h0. eapply safe_bind; [by apply safe_create|]. intros h1 [[]|] _ _; try (by apply safe_ask).
    eapply safe_bind; [apply safe_Refresh|]. intros h2 r _ _.
    destruct (match r with inl _ => _ | inr _ => _ end) as [st msg]. apply safe_call; [done|]. intros h3 now _ _. apply safe_call; [done|].
    intros; by apply safe_ask. }
  apply safe_call; [done|]. intros h1 [slot|] _ _; [|apply Hnew]. case_bool_decide; [|apply Hnew].
  eapply safe_bind; [apply safe_Refresh|]. intros h2 [[]|[st msg]] _ _; try (by apply safe_ask). apply safe_call; [done|]. intros; by apply safe_ask.
Qed.

(** ** Histories *)

(** A run of the system with the pods, as they were, that its cluster has
    held so far. *)
Inductive ohistory : Sys -> list Pod -> Prop :=
  | oh_init : ohistory (oinit m) []
  | oh_step s h s' :
      ohistory s h -> ostep m made s s' -> ohistory s' (h ++ (map_to_list (k_pods (o_cluster s'))).*2).

Lemma oreached_history s : oreached m made s <-> exists h, ohistory s h.
Proof.
  split.
  - intros Hr. apply (rtc_ind_r (fun s => exists h, ohistory s h)) in Hr; [done|by exists []; constructor|].
    intros y z _ Hyz [h Hh]. eexists. by econstructor.
  - intros [h Hh]. induction Hh as [|s h s' _ IH Hs]; [apply rtc_refl|by eapply rtc_r].
Qed.

(** ** The invariant *)

Definition pods_good (pods : gmap string Pod) : Prop := map_Forall (fun n p => good_pod p /\ n = po_Name (pod_obj p)) pods.
Definition jobs_good (h : list Pod) (jobs : gmap string Job) : Prop := map_Forall (fun n j => good_job h j /\ n = jb_Name j) jobs.
Definition held (h : list Pod) (pods : gmap string Pod) : Prop := map_Forall (fun _ p => p ∈ h) pods.

Record oinv (h : list Pod) (s : Sys) : Prop := {
  oi_pods : pods_good (k_pods (o_cluster s));
  oi_jobs : jobs_good h (k_jobs (o_cluster s));
  oi_held : held h (k_pods (o_cluster s));
  oi_threads : Forall (fun p => safe h p (fun _ => True)) (o_threads s) }.

Lemma reads_same {X} b k (v x : KErr + X) k' : reads b k v x k' -> k' = k /\ (forall a, x = inr a -> v = inr a).
Proof. intros [-> [->|[_ ->]]]; split; try done; by intros a [=]. Qed.

Lemma writes_or b k done x k' : writes b k done x k' -> k' = k \/ k' = done.
Proof. intros [[_ ->]|(_ & _ & [-> | ->])]; auto. Qed.

Lemma deletes_good k name k' : deletes_pod k name k' -> pods_good (k_pods k) -> pods_good (k_pods k') /\ k_jobs k' = k_jobs k.
Proof.
  intros [-> | ->] Hp; (split; [|done]); cbn [k_pods set_pods].
  - intros n p Hn. apply lookup_delete_Some in Hn as [_ Hn]. by apply Hp.
  - intros n p Hn. apply lookup_alter_Some in Hn as [(-> & q & Hq & ->)|[_ Hn]]; [|by apply Hp]. destruct (Hp _ _ Hq) as [Hg Hn']. by split.
Qed.

(** An answered call keeps the invariant, and its answer is as programs
    expect it. *)
Lemma call_good {X} h (c : kcall X) k x k' :
  pods_good (k_pods k) -> jobs_good h (k_jobs k) -> held h (k_pods k) -> need h c -> does true X c k x k' ->
  ans h c x /\ pods_good (k_pods k') /\ jobs_good h (k_jobs k').
Proof.
  intros Hp Hj Hh Hn Hd. destruct c as [name|obj|name|sel|name|svc|name|name|job|name|sel|ip p|id|slot|id| |r]; cbn in Hd |- *.
  - apply reads_same in Hd as [-> Hx]. split; [|done]. intros p ->. specialize (Hx p eq_refl). unfold present in Hx.
    destruct (k_pods k !! name) as [q|] eqn:E; [|done]. injection Hx as ->. split; [by apply (Hp name)|by apply (Hh name)].
  - destruct (k_pods k !! po_Name obj) as [q|] eqn:E; [by apply reads_same in Hd as [-> Hx]; split; [intros p ->; by specialize (Hx p eq_refl)|]|].
    destruct Hd as (p & Had & Hd). assert (Hg : good_pod p) by (destruct Had as [Ho _]; destruct Hn as [req Hreq]; exists req; by rewrite Ho).
    assert (Hins : pods_good (<[po_Name obj := p]> (k_pods k))) by (apply map_Forall_insert_2; [split; [done|by destruct Had as [-> _]]|done]).
    destruct Hd as [[-> ->]|(_ & -> & [-> | ->])]; (split; [by intros q [= <-]|done]) || (split; [by intros q [=]|done]).
  - split; [done|]. destruct (k_pods k !! name); [|by destruct Hd as [-> _]]. destruct Hd as (done & Hdel & Hw).
    apply writes_or in Hw as [-> | ->]; [done|]. destruct (deletes_good _ _ _ Hdel Hp) as [Hp' ->]. by split.
  - by destruct Hd as [-> _].
  - destruct Hd as (r & Hr & ->). by apply reads_same in Hr as [-> _].
  - split; [done|]. destruct (k_services k !! _); [by destruct Hd as [-> _]|]. by apply writes_or in Hd as [-> | ->].
  - split; [done|]. destruct (k_services k !! _); [|by destruct Hd as [-> _]]. by apply writes_or in Hd as [-> | ->].
  - destruct Hd as (r & Hr & ->). by apply reads_same in Hr as [-> _].
  - split; [done|]. destruct (k_jobs k !! _); [by destruct Hd as [-> _]|]. apply writes_or in Hd as [-> | ->]; [done|]. split; [done|].
    by apply map_Forall_insert_2.
  - split; [done|]. destruct (k_jobs k !! _); [|by destruct Hd as [-> _]]. apply writes_or in Hd as [-> | ->]; [done|]. split; [done|].
    by apply map_Forall_delete.
  - by destruct Hd as [-> _].
  - by subst k'.
  - by destruct Hd as [-> _].
  - by subst k'.
  - by subst k'.
  - by subst k'.
  - by subst k'.
Qed.

Lemma jobs_good_mono h h' jobs : h ⊆ h' -> jobs_good h jobs -> jobs_good h' jobs.
Proof. intros Hh Hg n j Hn. destruct (Hg n j Hn) as [Hj ->]. split; [by eapply good_job_mono|done]. Qed.

(** One step, before its new pods are entered in the history. *)
Lemma step_good h s s' :
  oinv h s -> ostep m made s s' ->
  pods_good (k_pods (o_cluster s')) /\ jobs_good h (k_jobs (o_cluster s')) /\ Forall (fun p => safe h p (fun _ => True)) (o_threads s').
Proof.
  intros [Hp Hj Hh Ht]. destruct 1 as [s req Hm Hd|s|s id|s id|s i X c k x cl Hi Hd|s cl [Hpods _ Hjobs _ _]|s]; cbn [o_cluster o_threads] in *.
  - split_and!; [done|done|]. apply Forall_app; split; [done|]. constructor; [|done]. apply safe_CreateSlot. by intros ? [= <-].
  - split_and!; [done|done|]. apply Forall_app; split; [done|]. constructor; [|done]. by apply safe_CreateSlot.
  - split_and!; [done|done|]. apply Forall_app; split; [done|]. constructor; [|done]. apply safe_GetSlot.
  - split_and!; [done|done|]. apply Forall_app; split; [done|]. constructor; [|done]. apply safe_DeleteSlot.
  - pose proof (Forall_lookup_1 _ _ _ _ Ht Hi) as [Hn Hk]. destruct (call_good h c (o_cluster s) x cl Hp Hj Hh Hn Hd) as (Ha & Hp' & Hj').
    split_and!; [done|done|]. apply Forall_insert; [done|]. by apply (Hk x h).
  - split_and!; [| |done].
    + intros n p' Hn. destruct (Hpods n p' Hn) as (p & Hnp & Hmv & _). destruct (Hp n p Hnp) as [[req Hreq] Hname].
      split; [exists req|]; by rewrite Hmv.
    + intros n j Hn. apply Hj. by eapply lookup_weaken.
  - split_and!; [done|done|]. constructor; [|done]. apply safe_startup.
Qed.

Lemma ohistory_inv s h : ohistory s h -> oinv h s.
Proof.
  induction 1 as [|s h s' _ IH Hstep].
  - split; [apply map_Forall_empty|apply map_Forall_empty|apply map_Forall_empty|]. constructor; [|done]. apply safe_startup.
  - destruct (step_good h s s' IH Hstep) as (Hp & Hj & Ht).
    assert (Hh : h ⊆ h ++ (map_to_list (k_pods (o_cluster s'))).*2) by (intros p; rewrite elem_of_app; auto). split.
    + done.
    + by eapply jobs_good_mono.
    + intros n p Hn. rewrite elem_of_app. right. apply list_elem_of_fmap. exists (n, p). split; [done|]. by apply elem_of_map_to_list.
    + eapply Forall_impl; [exact Ht|]. intros p. by apply safe_mono.
Qed.

Lemma oreached_inv s : oreached m made s -> exists h, oinv h s.
Proof. intros [h Hh]%oreached_history. exists h. by apply ohistory_inv. Qed.

(** What a sandbox may do is fixed by the platform. *)
Definition confined (obj : PodObj) : Prop :=
  po_AutoMount obj = false /\ po_RestartPolicy obj = "Never"%string /\ po_Deadline obj = slotActiveDeadlineSeconds /\
  po_RuntimeClass obj = (if bool_decide (RuntimeClass m = ""%string) then None else Some (RuntimeClass m)) /\
  exists c, po_Containers obj = [c] /\ ct_ReadOnlyRoot c = true /\ ct_AllowPrivilegeEscalation c = false /\
    ct_Drop c = ["ALL"%string] /\ ct_Seccomp c = "RuntimeDefault"%string /\
    rs_Requests (ct_Resources c) = rs_Limits (ct_Resources c).

Lemma from_request_shape req obj :
  from_request req obj -> po_Name obj = podName (cq_SlotID req) /\ po_Labels obj = slot_labels AppValue (cq_SlotID req) /\ confined obj.
Proof.
  intros [_ Hs]. unfold podSpec in Hs. destruct (containerResources m) as [res|] eqn:Er; [|done]. destruct (resolvePorts req); [done|].
  injection Hs as <-. split; [done|]. split; [done|]. repeat (split; [done|]). eexists. repeat (split; [done|]). cbn.
  unfold containerResources in Er. destruct (if bool_decide (CPU m = _) then _ else _); [|done].
  destruct (if bool_decide (Memory m = _) then _ else _); [|done]. by injection Er as <-.
Qed.

(** Kubernetes gives no identity to two pods. *)
Definition unique_uids (h : list Pod) : Prop := forall p q, p ∈ h -> q ∈ h -> pod_UID p = pod_UID q -> pod_obj p = pod_obj q.

(** C32: what runs in the sandbox namespace.  In every state [s] of every run, with [h] the pods the cluster has held in
    that run up to then, whatever requests are in progress, however the cluster fails, loses answers, reports, evicts and
    restarts: every pod is the confined pod of one accepted request, with its image and its ports (capturable ones when
    capture is on); and every capture job was made for a pod of this history, made in turn for one accepted request: the
    job is owned by that pod, is placed on the node that pod was on, and carries the session, the contestant and the order
    band of that pod's request.  When no two pods of the history share an identity, there is no other pod it could belong
    to, so a response is never attributed to another session or band. *)
Theorem sandbox_matches_requests s h :
  ohistory s h ->
  (forall n p, k_pods (o_cluster s) !! n = Some p -> exists req,
     accepted req /\ n = podName (cq_SlotID req) /\ pod_image p = cq_Image req /\
     containerPorts p = map i32 (resolvePorts req) /\ confined (pod_obj p)) /\
  (forall n j, k_jobs (o_cluster s) !! n = Some j -> exists req p,
     p ∈ h /\ from_request req (pod_obj p) /\ n = captureJobName (cq_SlotID req) /\
     jb_Owner j = (po_Name (pod_obj p), pod_UID p) /\ jb_NodeName j = pod_NodeName p /\ pod_NodeName p <> ""%string /\
     ("SESSION_ID"%string, cq_SlotID req) ∈ jb_Env j /\ ("CONTESTANT_ID"%string, cq_ContestantID req) ∈ jb_Env j /\
     (exists band, ("ORDER_BAND"%string, band) ∈ jb_Env j /\ ParseUint band 32 = Some (orderBand req)) /\
     (unique_uids h -> forall q, q ∈ h -> pod_UID q = (jb_Owner j).2 -> from_request req (pod_obj q))).
Proof.
  intros [Hp Hj _ _]%ohistory_inv. split.
  - intros n p Hn. destruct (Hp n p Hn) as [Hg ->]. destruct (good_labels p Hg) as (req & Hreq & _ & Himg & Hports & _).
    exists req. destruct (from_request_shape _ _ Hreq) as (-> & _ & Hc). split; [apply Hreq|]. done.
  - intros n j Hn. destruct (Hj n j Hn) as [(req & p & cid & Hin & Hreq & _ & Hnode & ->) ->]. exists req, p.
    pose proof Hreq as [Hacc _]. split; [done|]. split; [done|]. cbn [jb_Owner jb_NodeName jb_Env captureJobSpec jb_Name snd].
    split; [done|]. split; [by destruct (from_request_shape _ _ Hreq) as (-> & _)|].
    repeat (split; [done|]). split; [rewrite !elem_of_cons; tauto|]. split; [rewrite !elem_of_cons; tauto|]. split.
    + exists (FormatUint (orderBand req)). split; [rewrite !elem_of_cons; tauto|]. apply ParseUint_Format.
      pose proof (ac_band _ Hacc) as Hband. unfold decodable, orderBand in *. destruct (cq_OrderBand req); [done|]. unfold OrderBandUnset, MaxUint32. lia.
    + intros Hu q Hq Euid. by rewrite (Hu q p Hq Hin Euid).
Qed.

End Origin.
