(* ===== verification/SandboxLife.v ===== *)
(** * sandbox-orchestrator: the life of a slot

    When a slot is reported ready, what creation and deletion leave in the
    cluster, and the map rebuilt at start-up. *)

From Stdlib Require Import Ascii.
From stdpp Require Import prelude gmap strings list pretty relations.
From S2P Require Import Prelude Prog Topics Archive Scenarios Sandbox SandboxProps.

Open Scope Z_scope.
Open Scope prog_scope.

(** ** Ready answers *)

(** What a handler has seen. *)
Inductive Obs := SawPod (name : string) (pod : Pod) | PortAccepted (ip : string) (port : Z) | OtherAnswer.

Definition observe {X} (c : kcall X) : X -> Obs :=
  match c in kcall X return X -> Obs with
  | PodGet name => fun x => match x with inr pod => SawPod name pod | inl _ => OtherAnswer end
  | Dial ip port => fun ok => if ok then PortAccepted ip port else OtherAnswer
  | _ => fun _ => OtherAnswer
  end.

(** A pod that is up: not on its way out, not ended, no container stuck, and
    ready by its probe. *)
Record pod_up (pod : Pod) : Prop := {
  up_kept : ps_Deleting (pod_Status pod) = false;
  up_phase : ps_Phase (pod_Status pod) <> "Failed"%string /\ ps_Phase (pod_Status pod) <> "Succeeded"%string;
  up_waiting : forall cs reason msg, cs ∈ ps_Containers (pod_Status pod) -> cs_Waiting cs = Some (reason, msg) -> isTerminalWaitingReason reason = false;
  up_ready : ("Ready"%string, true) ∈ ps_Conditions (pod_Status pod) }.

Lemma deriveState_ready pod : (deriveState pod).1 = StateReady <-> pod_up pod.
Proof.
  unfold deriveState. set (st := pod_Status pod). split.
  - destruct (ps_Deleting st) eqn:Ed; [done|]. case_bool_decide as E1; [done|]. case_bool_decide as E2; [done|].
    destruct (omap terminal_waiting (ps_Containers st)) as [|msg l] eqn:Ew; [|done]. destruct (existsb _ _) eqn:Ee; [|done]. intros _.
    split; fold st; [done|done| |].
    + intros cs reason msg Hcs Hw. destruct (isTerminalWaitingReason reason) eqn:Et; [|done]. exfalso.
      assert (Hin : exists y, y ∈ omap terminal_waiting (ps_Containers st)).
      { eexists. apply list_elem_of_omap. exists cs. split; [done|]. unfold terminal_waiting. by rewrite Hw, Et. }
      destruct Hin as [y Hy]. rewrite Ew in Hy. by apply elem_of_nil in Hy.
    + apply existsb_exists in Ee as ([t b] & Hin & Hb). cbn in Hb. apply andb_true_iff in Hb as [Ht%bool_decide_eq_true Hb]. subst t b.
      by apply list_elem_of_In.
  - intros [Hk [Hf Hs] Hw Hr]. fold st in Hk, Hf, Hs, Hw, Hr. rewrite Hk, !bool_decide_false by done.
    assert (Ew : omap terminal_waiting (ps_Containers st) = []).
    { destruct (omap terminal_waiting (ps_Containers st)) as [|y l] eqn:E; [done|]. exfalso.
      assert (Hy : y ∈ omap terminal_waiting (ps_Containers st)) by (rewrite E; by left).
      apply list_elem_of_omap in Hy as (cs & Hcs & Ht). unfold terminal_waiting in Ht. destruct (cs_Waiting cs) as [[reason msg]|] eqn:Ec; [|done].
      by rewrite (Hw cs reason msg Hcs Ec) in Ht. }
    rewrite Ew. rewrite (proj2 (existsb_exists _ _)); [done|]. exists ("Ready"%string, true). split; [by apply list_elem_of_In|done].
Qed.

Section Ready.
Context `{Quantities}.
Variable m : Config.

(** The pod was seen up, and each of its ports beyond the probed one was seen
    to accept a connection. *)
Definition serving (h : list Obs) (slotID : string) : Prop :=
  exists pod, SawPod (podName slotID) pod ∈ h /\ pod_up pod /\
    forall p, p ∈ tail (containerPorts pod) -> PortAccepted (ps_PodIP (pod_Status pod)) p ∈ h.

Definition says_ready (r : Response) : Prop :=
  match http_body r with SlotBody b => rp_State b = StateReady | _ => False end.

Definition justified (slotID : string) (X : Type) (c : kcall X) (h : list Obs) : Prop :=
  match c with Respond r => says_ready r -> serving h slotID | _ => True end.

Definition seen (X : Type) (c : kcall X) (h : list Obs) (x : X) (h' : list Obs) : Prop := h' = h ++ [observe c x].

Abbreviation watched id p h Q := (wp (justified id) seen p h Q).

Lemma watched_dial id ip ports : forall h,
  watched id (dial_ports ip ports) h (fun r h' => h ⊆ h' /\ (r = None -> forall p, p ∈ ports -> PortAccepted ip p ∈ h')).
Proof.
  induction ports as [|p ports IH]; intros h; cbn [dial_ports]; [split; [done|]; by intros _ p Hp%elem_of_nil|].
  apply wp_bind, wp_ask; [done|]. intros ok h' ->. destruct ok; [|split; [set_solver|done]].
  eapply wp_impl; [|apply IH]. intros r h' [Hsub Hp]. split; [set_solver|]. intros Hr q [->|Hq]%elem_of_cons; [|by apply Hp].
  apply Hsub. apply elem_of_app. right. by left.
Qed.

Lemma watched_capture id pod h : watched id (ensureCapture m pod) h (fun _ h' => h ⊆ h').
Proof.
  unfold ensureCapture. destruct (bool_decide _); [by cbn|]. apply wp_bind, wp_ask; [done|]. intros x h' ->.
  assert (Hsub : h ⊆ h ++ [observe (JobGet (captureJobName (get (po_Labels (pod_obj pod)) LabelSlot))) x]) by set_solver.
  destruct x as [[]|]; try exact Hsub. destruct (bool_decide _); [exact Hsub|]. apply wp_bind, wp_ask; [done|]. intros x h' ->. cbn. set_solver.
Qed.

(** [Refresh] reports ready only what it has seen serving. *)
Lemma watched_Refresh id h :
  watched id (Refresh m id) h (fun r h' => forall state msg, r = inr (state, msg) -> state = StateReady -> serving h' id).
Proof.
  apply wp_bind, wp_ask; [done|]. intros x h' ->. destruct x as [[]|pod]; try done. destruct (deriveState pod) as [state msg] eqn:Ed.
  case_bool_decide as Es; cbn [negb]; [|by intros ? ? [= <- <-]]. subst state.
  assert (Hup : pod_up pod) by (apply deriveState_ready; by rewrite Ed).
  set (h1 := h ++ _). assert (Hsaw : SawPod (podName id) pod ∈ h1) by (apply elem_of_app; right; by left).
  apply wp_bind. eapply (wp_impl _ _ _ _ (fun r h' => h1 ⊆ h' /\ (r = None -> forall p, p ∈ tail (containerPorts pod) -> PortAccepted (ps_PodIP (pod_Status pod)) p ∈ h'))).
  - intros [w|] h2 [Hsub Hports]; [by intros ? ? [= <- <-]|]. apply wp_bind.
    eapply (wp_impl _ _ _ _ (fun _ h3 => h2 ⊆ h3)); [|destruct (CaptureEnabled m); [apply watched_capture|by cbn]].
    intros _ h3 Hsub3 ? ? _ _. exists pod. split; [set_solver|]. split; [done|]. intros p Hp. apply Hsub3. by apply Hports.
  - destruct (containerPorts pod) as [|p0 [|p1 ports]]; [split; [done|]; by intros _ p Hp%elem_of_nil..|].
    unfold dialAllPorts. destruct (bool_decide _); [by split|]. apply watched_dial.
Qed.

Lemma watched_error id status msg h : watched id (writeError status msg) h (fun _ _ => True).
Proof. split; [by intros []|done]. Qed.

(** A slot that is reported ready was up.  However the cluster and the
    contestant's program answer: if the status request for a slot answers
    "ready", then during this request the pod was read and was not being
    deleted, had neither failed nor ended, no container stuck, its readiness
    probe positive, and every further declared port accepted a connection. *)
Theorem ready_was_serving slotID : wp (justified slotID) seen (GetSlot m slotID) [] (fun _ _ => True).
Proof.
  unfold GetSlot. destruct (bool_decide _); [apply watched_error|]. apply wp_bind, wp_ask; [done|].
  intros [slot|] h ->; [|apply watched_error]. apply wp_bind. eapply wp_impl; [|apply watched_Refresh].
  intros [[]|[state msg]] h Hr; try apply watched_error.
  - apply wp_bind, wp_ask; [done|]. intros u h' ->. apply watched_error.
  - apply wp_bind, wp_ask; [done|]. intros u h' ->. split; [|done]. intros Hs. destruct (Hr state msg eq_refl Hs) as (pod & Hp & Hup & Hports).
    exists pod. split; [set_solver|]. split; [done|]. intros p Hin. apply elem_of_app. left. by apply Hports.
Qed.

End Ready.

(** ** Creation and deletion *)

Section Life.
Context `{Quantities}.
Variable m : Config.

Abbreviation calm p k Q := (wp (fun _ _ _ => True) (does false) p k Q).

Lemma calm_reads {X} k (v x : KErr + X) k' : reads false k v x k' -> k' = k /\ x = v.
Proof. by intros [-> [->|[? _]]]. Qed.

Lemma calm_writes k done x k' : writes false k done x k' -> x = None /\ k' = done.
Proof. by intros [[-> ->]|[? _]]. Qed.

(** Deleting an object, there or not. *)
Lemma calm_service_delete name k (Q : option KErr -> Cluster -> Prop) :
  (forall r, gone r = true -> Q r (set_services k (delete name (k_services k)))) -> calm (ask (ServiceDelete name)) k Q.
Proof.
  intros HQ. apply wp_ask; [done|]. intros x k' Hd. cbn in Hd. destruct (k_services k !! name) eqn:E.
  - apply calm_writes in Hd as [-> ->]. by apply HQ.
  - destruct Hd as [-> [-> |[? _]]]; [|done]. replace k with (set_services k (delete name (k_services k))) at 1; [by apply HQ|].
    rewrite delete_id by done. by destruct k.
Qed.

Lemma calm_job_delete name k (Q : option KErr -> Cluster -> Prop) :
  (forall r, gone r = true -> Q r (set_jobs k (delete name (k_jobs k)))) -> calm (ask (JobDelete name)) k Q.
Proof.
  intros HQ. apply wp_ask; [done|]. intros x k' Hd. cbn in Hd. destruct (k_jobs k !! name) eqn:E.
  - apply calm_writes in Hd as [-> ->]. by apply HQ.
  - destruct Hd as [-> [-> |[? _]]]; [|done]. replace k with (set_jobs k (delete name (k_jobs k))) at 1; [by apply HQ|].
    rewrite delete_id by done. by destruct k.
Qed.

(** The pod of the name is gone, or marked and on its way out. *)
Definition leaving (pods pods' : gmap string Pod) (name : string) : Prop :=
  (forall n, n <> name -> pods' !! n = pods !! n) /\
  (pods' !! name = None \/ exists p, pods !! name = Some p /\ pods' !! name = Some (mark_deleted p)).

Lemma calm_pod_delete name k (Q : option KErr -> Cluster -> Prop) :
  (forall r pods', gone r = true -> leaving (k_pods k) pods' name -> Q r (set_pods k pods')) -> calm (ask (PodDelete name)) k Q.
Proof.
  intros HQ. apply wp_ask; [done|]. intros x k' Hd. cbn in Hd. destruct (k_pods k !! name) as [p|] eqn:E.
  - destruct Hd as (done & Hdel & [-> ->]%calm_writes). destruct Hdel as [-> | ->]; (apply HQ; [done|]); split.
    + intros n Hn. by rewrite lookup_delete_ne.
    + left. by rewrite lookup_delete_eq.
    + intros n Hn. by rewrite lookup_alter_ne.
    + right. exists p. by rewrite lookup_alter_eq, E.
  - destruct Hd as [-> [-> |[? _]]]; [|done]. replace k with (set_pods k (k_pods k)) at 1 by (by destruct k). apply HQ; [done|].
    split; [done|by left].
Qed.

(** What a completed deletion leaves. *)
Record slot_deleted (slotID : string) (k k' : Cluster) : Prop := {
  sd_pods : leaving (k_pods k) (k_pods k') (podName slotID);
  sd_services : k_services k' = delete (podName slotID) (k_services k);
  sd_jobs : k_jobs k' = if CaptureEnabled m then delete (captureJobName slotID) (k_jobs k) else k_jobs k;
  sd_slots : k_slots k' = delete slotID (k_slots k);
  sd_answer : k_answered k' = k_answered k ++ [mkResponse 204 NoBody] }.

Lemma calm_mgr_delete slotID k (Q : option SlotErr -> Cluster -> Prop) :
  (forall pods', leaving (k_pods k) pods' (podName slotID) ->
     Q None (mkCluster pods' (delete (podName slotID) (k_services k))
               (if CaptureEnabled m then delete (captureJobName slotID) (k_jobs k) else k_jobs k) (k_slots k) (k_answered k))) ->
  calm (mgr_DeleteSlot m slotID) k Q.
Proof.
  intros HQ. apply wp_bind, calm_pod_delete. intros r pods' -> Hp. cbn [negb]. apply wp_bind, calm_service_delete. intros r' ->.
  cbn [negb]. destruct (CaptureEnabled m); [|by apply HQ]. apply wp_bind, calm_job_delete. intros r'' ->. by apply HQ.
Qed.

Lemma delete_completes slotID k :
  slotID <> ""%string -> (forall s, k_slots k !! slotID = Some s -> sl_SlotID s = slotID) ->
  calm (DeleteSlot m slotID) k (fun _ k' => slot_deleted slotID k k').
Proof.
  intros Hne Hkey. unfold DeleteSlot. rewrite bool_decide_false by done. apply wp_bind, wp_ask; [done|]. intros slot k' [-> Hs]. apply wp_bind.
  assert (Hend : forall slots', delete slotID slots' = delete slotID (k_slots k) ->
    calm (mgr_DeleteSlot m slotID) (set_slots k slots') (fun a k1 => calm (match a with
      | Some _ => writeError 500 "delete slot"
      | None => ask (SlotsDelete slotID);; ask (Respond (mkResponse 204 NoBody)) end) k1 (fun _ k' => slot_deleted slotID k k'))).
  { intros slots' Hsl. apply calm_mgr_delete. intros pods' Hp. apply wp_bind, wp_ask; [done|]. intros u k1 ->. apply wp_ask; [done|].
    intros u' k2 ->. by split. }
  destruct slot as [slot|]; cbn [bind].
  - apply wp_ask; [done|]. intros u k1 ->. apply wp_bind, Hend. unfold slots_Put. cbn [sl_SlotID set_state]. rewrite (Hkey slot) by done. apply delete_insert_eq.
  - replace k with (set_slots k (k_slots k)) at 1 by (by destruct k). by apply wp_bind, Hend.
Qed.

(** A request the handler and the manager let through. *)
Record proper (req : createSlotRequest) : Prop := {
  pq_slot : cq_SlotID req <> ""%string;
  pq_image : cq_Image req <> ""%string;
  pq_some : resolvePorts req <> [];
  pq_ports : Forall (fun p => 0 < p /\ (CaptureEnabled m = true -> p ∈ capturablePorts)) (resolvePorts req) }.

(** Nothing of the slot exists. *)
Definition vacant (slotID : string) (k : Cluster) : Prop :=
  k_pods k !! podName slotID = None /\ k_services k !! podName slotID = None /\ k_slots k !! slotID = None.

(** What creation leaves: the pod and the service of the request, the slot
    recorded and reported as being created. *)
Record slot_created (req : createSlotRequest) (k k' : Cluster) : Prop := {
  sc_pod : exists p obj, podSpec m (cq_SlotID req) (cq_ContestantID req) (cq_Image req) (resolvePorts req) (orderBand req) = Some obj /\
    pod_obj p = obj /\ k_pods k' = <[podName (cq_SlotID req) := p]> (k_pods k);
  sc_services : k_services k' = <[podName (cq_SlotID req) := serviceSpec (cq_SlotID req) (resolvePorts req)]> (k_services k);
  sc_jobs : k_jobs k' = k_jobs k;
  sc_slots : exists slot, sl_SlotID slot = cq_SlotID req /\ sl_Image slot = cq_Image req /\ sl_Ports slot = resolvePorts req /\
    sl_State slot = StateCreating /\ ep_Host (sl_Endpoint slot) = ServiceFQDN (cq_SlotID req) (Namespace m) /\
    k_slots k' = <[cq_SlotID req := slot]> (k_slots k) /\
    k_answered k' = k_answered k ++ [mkResponse 201 (SlotBody (toResponse slot))] }.

(** A valid configuration never makes the specification panic. *)
Lemma valid_resources : validateConfig m = true -> is_Some (containerResources m).
Proof.
  unfold validateConfig, containerResources. intros Hv. apply andb_true_iff in Hv as [Hv _]. apply andb_true_iff in Hv as [Hv Hmem].
  apply andb_true_iff in Hv as [_ Hcpu]. destruct (bool_decide (CPU m = _)); destruct (bool_decide (Memory m = _)); cbn in Hcpu, Hmem;
    repeat (destruct (ParseQuantity _); try done); by eexists.
Qed.

Lemma calm_ensurePod req obj k (Q : SlotErr + Pod -> Cluster -> Prop) :
  podSpec m (cq_SlotID req) (cq_ContestantID req) (cq_Image req) (resolvePorts req) (orderBand req) = Some obj ->
  k_pods k !! podName (cq_SlotID req) = None ->
  (forall p, admitted k obj p -> Q (inr p) (set_pods k (<[podName (cq_SlotID req) := p]> (k_pods k)))) ->
  calm (ensurePod m (podName (cq_SlotID req)) (cq_SlotID req) (cq_ContestantID req) (cq_Image req) (resolvePorts req) (orderBand req)) k Q.
Proof.
  intros Hs Hnone HQ. assert (Hname : po_Name obj = podName (cq_SlotID req)).
  { unfold podSpec in Hs. destruct (containerResources m); [|done]. destruct (resolvePorts req); [done|]. by injection Hs as <-. }
  apply wp_bind, wp_ask; [done|]. intros x k' [-> ->]%calm_reads. rewrite Hnone. cbn [present]. rewrite Hs. apply wp_bind, wp_ask; [done|].
  intros x k' Hd. cbn in Hd. rewrite Hname, Hnone in Hd. destruct Hd as (p & Had & [[-> ->]|[? _]]); [|done]. by apply HQ.
Qed.

Lemma calm_ensureService slotID ports k (Q : option SlotErr -> Cluster -> Prop) :
  k_services k !! podName slotID = None ->
  Q None (set_services k (<[podName slotID := serviceSpec slotID ports]> (k_services k))) ->
  calm (ensureService (podName slotID) slotID ports) k Q.
Proof.
  intros Hnone HQ. apply wp_bind, wp_ask; [done|]. intros x k' (r & [-> ->]%calm_reads & ->). rewrite Hnone. cbn [present err_of].
  apply wp_bind, wp_ask; [done|]. intros x k' Hd. cbn in Hd. rewrite Hnone in Hd. by apply calm_writes in Hd as [-> ->].
Qed.

Lemma create_completes req k :
  validateConfig m = true -> proper req -> vacant (cq_SlotID req) k ->
  calm (CreateSlot m (Some req)) k (fun _ k' => slot_created req k k').
Proof.
  intros Hv [Hs Hi Hne Hports] (Hp & Hsv & Hsl). unfold CreateSlot. rewrite !bool_decide_false by done. cbn [orb].
  assert (E : existsb (fun p => p <=? 0) (resolvePorts req) = false).
  { apply not_true_iff_false. intros (p & Hin%list_elem_of_In & Hle)%existsb_exists. rewrite Forall_forall in Hports. specialize (Hports p Hin). lia. }
  rewrite E. apply wp_bind, wp_ask; [done|]. intros x k' [-> ->]. unfold slots_Get. rewrite Hsl. unfold create_new, mgr_CreateSlot.
  assert (Ec : CaptureEnabled m && negb (forallb (fun p => bool_decide (p ∈ capturablePorts)) (resolvePorts req)) = false).
  { destruct (CaptureEnabled m) eqn:Ece; [|done]. cbn. apply negb_false_iff, forallb_forall. intros p Hin%list_elem_of_In.
    rewrite Forall_forall in Hports. apply bool_decide_eq_true_2. by apply (Hports p Hin). }
  rewrite bool_decide_false by done. rewrite Ec. apply wp_bind, wp_bind.
  destruct (valid_resources Hv) as [res Hres].
  assert (Hobj : exists obj, podSpec m (cq_SlotID req) (cq_ContestantID req) (cq_Image req) (resolvePorts req) (orderBand req) = Some obj).
  { unfold podSpec. rewrite Hres. destruct (resolvePorts req); [done|]. by eexists. }
  destruct Hobj as [obj Hobj]. eapply calm_ensurePod; [done|done|]. intros p Had. pose proof Had as (Ho & Hnode & Hst & _).
  assert (Himg : same_image p (cq_Image req) = true).
  { unfold same_image. rewrite Ho. unfold podSpec in Hobj. rewrite Hres in Hobj. destruct (resolvePorts req); [done|]. injection Hobj as <-.
    cbn. by apply bool_decide_eq_true_2. }
  rewrite Himg. cbn [negb]. apply calm_ensureService; [done|]. apply wp_bind, wp_bind, wp_ask; [done|].
  intros x k' [-> ->]%calm_reads. cbn [k_pods set_services set_pods]. rewrite lookup_insert_eq. cbn [present].
  assert (Ed : deriveState p = (StateCreating, pending_text)) by (unfold deriveState; by rewrite Hst). rewrite Ed. cbn [negb].
  rewrite bool_decide_false by done. cbn [negb]. apply wp_bind, wp_ask; [done|]. intros now k' ->. apply wp_bind, wp_ask; [done|].
  intros u k' ->. apply wp_ask; [done|]. intros u' k' ->. split; [by exists p, obj|done|done|]. eexists. split; [|split; [|split; [|split; [|split; [|split; [reflexivity|reflexivity]]]]]]; done.
Qed.

(** A status request for a pod that is up. *)
Record slot_reported (slotID : string) (p : Pod) (k k' : Cluster) : Prop := {
  sr_pods : k_pods k' = k_pods k;
  sr_services : k_services k' = k_services k;
  sr_answer : exists b, k_answered k' = k_answered k ++ [mkResponse 200 (SlotBody b)] /\
    (rp_State b = StateReady \/ rp_State b = StateCreating) /\
    ((length (containerPorts p) <= 1)%nat -> rp_State b = StateReady) /\
    (rp_State b = StateReady -> CaptureEnabled m = true -> is_Some (k_jobs k' !! captureJobName slotID)) }.

Lemma calm_capture slotID p k (Q : unit -> Cluster -> Prop) :
  get (po_Labels (pod_obj p)) LabelSlot = slotID -> slotID <> ""%string -> pod_NodeName p <> ""%string ->
  (forall jobs', is_Some (jobs' !! captureJobName slotID) -> Q tt (set_jobs k jobs')) -> calm (ensureCapture m p) k Q.
Proof.
  intros Hl Hne Hnode HQ. unfold ensureCapture. rewrite Hl, bool_decide_false by done. apply wp_bind, wp_ask; [done|].
  intros x k' (r & [-> ->]%calm_reads & ->). destruct (k_jobs k !! captureJobName slotID) as [j|] eqn:E; cbn [present err_of].
  - replace k with (set_jobs k (k_jobs k)) at 1 by (by destruct k). apply HQ. by eexists.
  - rewrite bool_decide_false by done. apply wp_bind, wp_ask; [done|]. intros x k' Hd. cbn in Hd. rewrite E in Hd.
    apply calm_writes in Hd as [-> ->]. apply HQ. rewrite lookup_insert_eq. by eexists.
Qed.

Lemma calm_dial ip ports k (Q : option string -> Cluster -> Prop) :
  (forall r, (ports = [] -> r = None) -> Q r k) -> calm (dial_ports ip ports) k Q.
Proof.
  induction ports as [|q ports IH]; intros HQ; cbn [dial_ports]; [by apply HQ|]. apply wp_bind, wp_ask; [done|]. intros [] k' ->; [|by apply HQ].
  apply IH. intros r _. by apply HQ.
Qed.

Lemma get_reports slotID p slot k :
  slotID <> ""%string -> k_slots k !! slotID = Some slot -> k_pods k !! podName slotID = Some p ->
  get (po_Labels (pod_obj p)) LabelSlot = slotID -> pod_up p -> pod_NodeName p <> ""%string ->
  calm (GetSlot m slotID) k (fun _ k' => slot_reported slotID p k k').
Proof.
  intros Hne Hsl Hp Hl Hup%deriveState_ready Hnode. unfold GetSlot. rewrite bool_decide_false by done. apply wp_bind, wp_ask; [done|].
  intros x k' [-> ->]. unfold slots_Get. rewrite Hsl. apply wp_bind, wp_bind, wp_ask; [done|]. intros x k' [-> ->]%calm_reads. rewrite Hp. cbn [present].
  destruct (deriveState p) as [state msg] eqn:Ed. cbn in Hup. subst state. rewrite bool_decide_true by done. cbn [negb]. apply wp_bind.
  apply (wp_impl _ _ _ _ (fun w k' => k' = k /\ ((length (containerPorts p) <= 1)%nat -> w = None))).
  - intros [w|] k' [-> Hone].
    + apply wp_bind, wp_ask; [done|]. intros u k1 ->. apply wp_ask; [done|]. intros u' k2 ->. split; [done|done|]. eexists. split; [reflexivity|].
      split; [by right|]. split; [by intros Hlen; specialize (Hone Hlen)|done].
    + assert (Hend : forall jobs', (CaptureEnabled m = true -> is_Some (jobs' !! captureJobName slotID)) ->
        calm (ask (SlotsPut (set_state slot StateReady msg));; writeJSON 200 (toResponse (set_state slot StateReady msg))) (set_jobs k jobs')
          (fun _ k' => slot_reported slotID p k k')).
      { intros jobs' Hj. apply wp_bind, wp_ask; [done|]. intros u k1 ->. apply wp_ask; [done|]. intros u' k2 ->. split; [done|done|].
        eexists. split; [reflexivity|]. split; [by left|]. by split. }
      apply wp_bind. destruct (CaptureEnabled m) eqn:Ec.
      * eapply calm_capture; [exact Hl|done|done|]. intros jobs' Hj. by apply Hend.
      * replace k with (set_jobs k (k_jobs k)) at 1 by (by destruct k). by apply Hend.
  - destruct (containerPorts p) as [|p0 [|p1 ports]]; [done|done|]. unfold dialAllPorts. destruct (bool_decide _); [by split; [|cbn; lia]|].
    apply calm_dial. intros r _. split; [done|cbn; lia].
Qed.

(** ** In the running service *)

Variable made : createSlotRequest -> Prop.

(** Slots are stored under their own id. *)
Definition keyed (k : Cluster) : Prop := forall id s, k_slots k !! id = Some s -> sl_SlotID s = id.

Lemma call_keyed {X} (c : kcall X) k x k' : keyed k -> does true X c k x k' -> keyed k'.
Proof.
  intros Hk Hd.
  assert (Hsame : k_slots k' = k_slots k -> keyed k') by (intros E id s; rewrite E; apply Hk).
  destruct c; cbn in Hd; try (apply Hsame; by destruct Hd as [-> _]); try (by apply Hsame; subst k').
  - apply Hsame. destruct (k_pods k !! _); [by destruct Hd as [-> _]|]. by destruct Hd as (p & _ & [[_ ->]|(_ & _ & [-> | ->])]).
  - apply Hsame. destruct (k_pods k !! _); [|by destruct Hd as [-> _]]. destruct Hd as (d & Hdel & [-> | ->]%writes_or); [done|].
    by destruct Hdel as [-> | ->].
  - apply Hsame. destruct Hd as (r & [-> _] & _). done.
  - apply Hsame. destruct (k_services k !! _); [by destruct Hd as [-> _]|]. by apply writes_or in Hd as [-> | ->].
  - apply Hsame. destruct (k_services k !! _); [|by destruct Hd as [-> _]]. by apply writes_or in Hd as [-> | ->].
  - apply Hsame. destruct Hd as (r & [-> _] & _). done.
  - apply Hsame. destruct (k_jobs k !! _); [by destruct Hd as [-> _]|]. by apply writes_or in Hd as [-> | ->].
  - apply Hsame. destruct (k_jobs k !! _); [|by destruct Hd as [-> _]]. by apply writes_or in Hd as [-> | ->].
  - subst k'. intros id s. cbn. unfold slots_Put. intros [[<- <-]|[_ Hs]]%lookup_insert_Some; [done|by apply Hk].
  - subst k'. intros id s. cbn. unfold slots_Delete. intros [_ Hs]%lookup_delete_Some. by apply Hk.
Qed.

Lemma reached_keyed s : oreached m made s -> keyed (o_cluster s).
Proof.
  intros Hr. apply (rtc_ind_r (fun s => keyed (o_cluster s))) in Hr; [done|by intros id s'|].
  intros y z _ Hyz Hy. destruct Hyz as [| | | |s0 i X c k x cl Hi Hd|s0 cl [_ _ _ Hsl _]|]; try done.
  - by eapply call_keyed.
  - intros id s1. cbn. rewrite Hsl. apply Hy.
Qed.

(** C33: the life of a slot, when the cluster answers.  From every reachable
    state of a validly configured service: a proper creation request for a
    slot that is not there is answered 201 and leaves exactly its pod, its
    service and its record, nothing else changed; a status request for a slot
    whose pod is up and placed is answered 200, "ready" if no further port
    is declared, and "ready" only with a capture job in place when capture is on; and a
    deletion is answered 204 and leaves, whatever was there, no service, no
    record, no capture job when capture is on (with capture off jobs are left
    alone), and either no pod or the same pod marked as being deleted, without
    touching other slots. *)
Theorem slot_lifecycle s :
  validateConfig m = true -> oreached m made s ->
  let k := o_cluster s in
  (forall req, proper req -> vacant (cq_SlotID req) k ->
     wp (fun _ _ _ => True) (does false) (CreateSlot m (Some req)) k (fun _ k' => slot_created req k k')) /\
  (forall slotID p slot, slotID <> ""%string -> k_slots k !! slotID = Some slot -> k_pods k !! podName slotID = Some p ->
     pod_up p -> pod_NodeName p <> ""%string ->
     wp (fun _ _ _ => True) (does false) (GetSlot m slotID) k (fun _ k' => slot_reported slotID p k k')) /\
  (forall slotID, slotID <> ""%string ->
     wp (fun _ _ _ => True) (does false) (DeleteSlot m slotID) k (fun _ k' => slot_deleted slotID k k')).
Proof.
  intros Hv Hr. split; [intros req; by apply create_completes|]. split.
  - intros slotID p slot Hne Hsl Hp Hup Hnode. apply (get_reports slotID p slot); try done.
    destruct (oreached_inv m made s Hr) as [h Hi]. destruct (oi_pods _ _ _ _ Hi _ _ Hp) as [Hg Hname]. destruct (good_labels _ _ _ Hg) as (req & Hreq & -> & _).
    destruct (from_request_shape _ _ _ _ Hreq) as (Hn & _). rewrite Hn in Hname. unfold podName in Hname. by apply (inj (String.append _)) in Hname.
  - intros slotID Hne. apply delete_completes; [done|]. intros s'. by apply (reached_keyed s Hr).
Qed.

End Life.

(** ** Start-up *)

Lemma foldl_put slots : forall m0 : SlotStore,
  NoDup (map sl_SlotID slots) -> (forall s, s ∈ slots -> m0 !! sl_SlotID s = None) ->
  forall id s, foldl slots_Put m0 slots !! id = Some s <-> m0 !! id = Some s \/ (s ∈ slots /\ sl_SlotID s = id).
Proof.
  induction slots as [|t slots IH]; intros m0 Hnd Hnew id s; cbn [foldl map].
  - split; [by left|]. intros [?|[Hs%elem_of_nil _]]; done.
  - cbn in Hnd. apply NoDup_cons in Hnd as [Hni Hnd]. rewrite IH; [|done|].
    + unfold slots_Put. rewrite lookup_insert_Some, elem_of_cons. split.
      * intros [[[<- <-]|[_ Hm]]|[Hs <-]]; [by right; split; [left|]|by left|by right; split; [right|]].
      * intros [Hm|[[->|Hs] <-]]; [|by left; left|by right]. left. right. split; [|done]. intros <-. by rewrite (Hnew t) in Hm by (by left).
    + intros u Hu. unfold slots_Put. rewrite lookup_insert_ne; [apply Hnew; by right|]. intros E. apply Hni. rewrite E.
      apply list_elem_of_In, in_map, list_elem_of_In, Hu.
Qed.

Section Rebuild.
Context `{Quantities}.
Variable m : Config.
Variable made : createSlotRequest -> Prop.

Abbreviation calm p k Q := (wp (fun _ _ _ => True) (does false) p k Q).

Lemma calm_put slots : forall k (Q : unit -> Cluster -> Prop), Q tt (set_slots k (foldl slots_Put (k_slots k) slots)) -> calm (put_all slots) k Q.
Proof.
  induction slots as [|s slots IH]; intros k Q HQ; cbn [put_all]; [by destruct k|]. apply wp_bind, wp_ask; [done|]. intros u k' ->. by apply IH.
Qed.

Lemma calm_reap live jobs : forall k (Q : unit -> Cluster -> Prop),
  (forall jobs', jobs' ⊆ k_jobs k -> (forall j, j ∈ jobs -> get (jb_Labels j) LabelSlot ∉ live -> jobs' !! jb_Name j = None) -> Q tt (set_jobs k jobs')) ->
  calm (reap_jobs live jobs) k Q.
Proof.
  induction jobs as [|j jobs IH]; intros k Q HQ; cbn [reap_jobs].
  - replace k with (set_jobs k (k_jobs k)) at 1 by (by destruct k). apply HQ; [done|]. by intros j Hj%elem_of_nil.
  - case_bool_decide as Hlive.
    + apply IH. intros jobs' Hsub Hdel. apply HQ; [done|]. intros j' [->|Hj']%elem_of_cons; [done|by apply Hdel].
    + apply wp_bind, calm_job_delete. intros r _. apply IH. intros jobs' Hsub Hdel. cbn [k_jobs set_jobs] in Hsub. apply (HQ jobs').
      * etrans; [exact Hsub|]. apply delete_subseteq.
      * intros j' [->|Hj']%elem_of_cons; [|by apply Hdel]. intros _. destruct (jobs' !! jb_Name j) eqn:E; [|done]. exfalso.
        eapply lookup_weaken in E; [|exact Hsub]. by rewrite lookup_delete_eq in E.
Qed.

(** The slot a good pod stands for. *)
Lemma good_slot p : good_pod m made p -> exists s, slot_of_pod m p = Some s /\ podName (sl_SlotID s) = po_Name (pod_obj p).
Proof.
  intros Hg. destruct (good_labels _ _ _ Hg) as (req & Hreq & Hl & _). destruct (from_request_shape _ _ _ _ Hreq) as (Hn & _).
  unfold slot_of_pod. rewrite Hl. rewrite bool_decide_false by (apply Hreq). destruct (deriveState p). eexists. split; [done|]. by rewrite Hn.
Qed.

(** The listing, when every pod is good: one slot for each, under its own
    name. *)
Lemma listed_slots (pods : gmap string Pod) (l : list (string * Pod)) :
  pods_good m made pods -> NoDup (map fst l) ->
  (forall n p, (n, p) ∈ l <-> pods !! n = Some p /\ selects (managed AppValue) (po_Labels (pod_obj p))) ->
  NoDup (map sl_SlotID (slots_of m (map snd l))) /\
  forall id s, (s ∈ slots_of m (map snd l) /\ sl_SlotID s = id) <-> exists p, pods !! podName id = Some p /\ slot_of_pod m p = Some s.
Proof.
  intros Hgood Hnd Hl.
  assert (Hin : forall n p, (n, p) ∈ l -> exists s, slot_of_pod m p = Some s /\ podName (sl_SlotID s) = n).
  { intros n p Hnp. apply Hl in Hnp as [Hp _]. destruct (Hgood n p Hp) as [Hg ->]. by apply good_slot. }
  assert (Hsel : forall n p, pods !! n = Some p -> (n, p) ∈ l).
  { intros n p Hp. apply Hl. split; [done|]. destruct (Hgood n p Hp) as [(req & Hreq) _]. destruct (from_request_shape _ _ _ _ Hreq) as (_ & -> & _).
    unfold selects, managed, slot_labels. apply insert_mono. rewrite insert_union_singleton_l. apply map_union_subseteq_r.
    apply map_disjoint_singleton_l_2. done. }
  split.
  - clear Hl Hsel. induction l as [|[n p] l IH]; cbn; [constructor|]. cbn in Hnd. apply NoDup_cons in Hnd as [Hni Hnd].
    destruct (Hin n p ltac:(by left)) as (s & Hs & Hn). unfold slots_of in *. cbn. rewrite Hs. cbn. apply NoDup_cons. split.
    + intros Hc. apply Hni. apply list_elem_of_In, in_map_iff in Hc as (t & Ht & Hin'%list_elem_of_In).
      apply list_elem_of_omap in Hin' as (q & Hq & Hqt). apply list_elem_of_In, in_map_iff in Hq as ([n' q'] & <- & Hq%list_elem_of_In).
      destruct (Hin n' q' ltac:(by right)) as (s' & Hs' & Hn'). cbn in Hqt. rewrite Hs' in Hqt. injection Hqt as ->.
      apply list_elem_of_In, in_map_iff. exists (n', q'). split; [cbn; congruence|by apply list_elem_of_In].
    + apply IH; [done|]. intros n' p' Hnp. apply Hin. by right.
  - intros id s. split.
    + intros [Hs <-]. apply list_elem_of_omap in Hs as (q & Hq & Hqs). apply list_elem_of_In, in_map_iff in Hq as ([n q'] & <- & Hq%list_elem_of_In).
      exists q'. split; [|done]. destruct (Hin n q' Hq) as (s' & Hs' & Hn). cbn in Hqs. rewrite Hs' in Hqs. injection Hqs as ->.
      rewrite Hn. by apply Hl.
    + intros (p & Hp & Hs). pose proof (Hsel _ _ Hp) as Hlp. destruct (Hin _ _ Hlp) as (s' & Hs' & Hn). rewrite Hs in Hs'. injection Hs' as <-.
      split; [|by apply (inj (String.append _)) in Hn]. apply list_elem_of_omap. exists p. split; [|done].
      apply list_elem_of_In, in_map_iff. exists (podName id, p). split; [done|by apply list_elem_of_In].
Qed.

(** What start-up leaves. *)
Record rebuilt (k k' : Cluster) : Prop := {
  rb_pods : k_pods k' = k_pods k;
  rb_services : k_services k' = k_services k;
  rb_slots : forall id slot, k_slots k' !! id = Some slot <-> exists p, k_pods k !! podName id = Some p /\ slot_of_pod m p = Some slot;
  rb_requests : forall id slot, k_slots k' !! id = Some slot -> exists req, accepted m made req /\ cq_SlotID req = id /\
    sl_Image slot = cq_Image req /\ sl_Ports slot = map i32 (resolvePorts req) /\
    sl_Endpoint slot = mkEndpoint (ServiceFQDN id (Namespace m)) (hd 0 (map i32 (resolvePorts req)));
  rb_jobs : k_jobs k' ⊆ k_jobs k;
  rb_live : CaptureEnabled m = true -> forall n j, k_jobs k' !! n = Some j -> exists id slot, n = captureJobName id /\ k_slots k' !! id = Some slot }.

Lemma slot_of_request id p slot :
  good_pod m made p -> podName id = po_Name (pod_obj p) -> slot_of_pod m p = Some slot ->
  exists req, accepted m made req /\ cq_SlotID req = id /\ sl_Image slot = cq_Image req /\ sl_Ports slot = map i32 (resolvePorts req) /\
    sl_Endpoint slot = mkEndpoint (ServiceFQDN id (Namespace m)) (hd 0 (map i32 (resolvePorts req))).
Proof.
  intros Hg Hn Hs. destruct (good_labels _ _ _ Hg) as (req & Hreq & Hl & Himg & Hports & _).
  destruct (from_request_shape _ _ _ _ Hreq) as (Hname & _). rewrite Hname in Hn. apply (inj (String.append _)) in Hn. subst id.
  exists req. unfold slot_of_pod in Hs. rewrite Hl, bool_decide_false in Hs by (apply Hreq). destruct (deriveState p). injection Hs as <-.
  cbn. rewrite Himg, Hports. split; [apply Hreq|]. split_and!; try done.
Qed.

(** C34: a restart forgets no slot.  From every reachable state, whatever was
    in progress, start-up over an answering cluster rebuilds the slot map from
    the pods alone: a slot is in the map exactly when its pod exists, with the
    state the pod is in and the image, ports and endpoint of the request
    it was created by; pods and services are left alone; and when
    capture is on, the capture jobs that remain are those of rebuilt
    slots. *)
Theorem restart_rebuilds s :
  oreached m made s ->
  wp (fun _ _ _ => True) (does false) (startup m) (set_slots (o_cluster s) ∅) (fun _ k' => rebuilt (o_cluster s) k').
Proof.
  intros Hr. destruct (oreached_inv m made s Hr) as [h [Hgood Hjobs _ _]]. set (k := o_cluster s) in *.
  apply wp_bind, wp_bind, wp_ask; [done|]. intros x k' [-> [(l & -> & Hnd & Hl)|[? _]]]; [|done]. cbn [k_pods set_slots] in Hl.
  destruct (listed_slots (k_pods k) l Hgood Hnd Hl) as [Hids Hslots].
  assert (Hmap : forall id slot, foldl slots_Put ∅ (slots_of m (map snd l)) !! id = Some slot <->
    exists p, k_pods k !! podName id = Some p /\ slot_of_pod m p = Some slot).
  { intros id slot. rewrite (foldl_put _ ∅ Hids), lookup_empty by (intros; apply lookup_empty). rewrite <-Hslots. split; [by intros [?|?]|by right]. }
  assert (Hend : forall jobs', jobs' ⊆ k_jobs k ->
    (CaptureEnabled m = true -> forall n j, jobs' !! n = Some j -> get (jb_Labels j) LabelSlot ∈ (list_to_set (map sl_SlotID (slots_of m (map snd l))) : gset string)) ->
    rebuilt k (set_slots (set_jobs (set_slots k ∅) jobs') (foldl slots_Put ∅ (slots_of m (map snd l))))).
  { intros jobs' Hsub Hlive. split; cbn [k_pods k_services k_slots k_jobs set_slots set_jobs]; try done.
    - intros id slot Hs. apply Hmap in Hs as (p & Hp & Hs). destruct (Hgood _ _ Hp) as [Hg Hn]. by apply (slot_of_request id p slot).
    - intros Hc n j Hj. specialize (Hlive Hc n j Hj). eapply lookup_weaken in Hj; [|exact Hsub].
      destruct (Hjobs n j Hj) as [(req & p & cid & _ & Hreq & _ & _ & ->) ->]. cbn in Hlive |- *. exists (cq_SlotID req).
      apply elem_of_list_to_set, list_elem_of_In, in_map_iff in Hlive as (slot & Hid & Hin%list_elem_of_In). exists slot. split; [done|].
      apply Hmap, Hslots. split; [done|]. rewrite Hid. by vm_compute. }
  apply wp_bind. destruct (CaptureEnabled m) eqn:Ec.
  - apply wp_bind, wp_ask; [done|]. intros x k' [-> [(js & -> & _ & Hjs)|[? _]]]; [|done]. cbn [k_jobs set_slots] in Hjs. apply calm_reap.
    intros jobs' Hsub Hdel. apply calm_put. apply Hend; [done|]. intros _ n j Hj. pose proof (lookup_weaken _ _ _ _ Hj Hsub) as Hj0.
    destruct (Hjobs n j Hj0) as [Hg Hn]. destruct (decide (get (jb_Labels j) LabelSlot ∈ (list_to_set (map sl_SlotID (slots_of m (map snd l))) : gset string))) as [|Hnot]; [done|].
    exfalso. assert (Hin : (n, j) ∈ js).
    { apply Hjs. split; [done|]. destruct Hg as (req & p & cid & _ & _ & _ & _ & ->). unfold selects, managed. cbn [jb_Labels captureJobSpec]. unfold slot_labels.
      apply insert_mono. rewrite insert_union_singleton_l. apply map_union_subseteq_r. by apply map_disjoint_singleton_l_2. }
    rewrite Hn, (Hdel j) in Hj; [done| |done]. apply list_elem_of_In, in_map_iff. exists (n, j). split; [done|by apply list_elem_of_In].
  - apply calm_put. replace (set_slots k ∅) with (set_jobs (set_slots k ∅) (k_jobs k)) by (by destruct k). by apply Hend.
Qed.

End Rebuild.
