(* ===== verification/SandboxDemo.v ===== *)
(** * sandbox-orchestrator: a concrete run

    Calls answered without faults, one request after the other, is one way for
    the service of [Sandbox] to run.  A slot is created, its pod comes up, its
    status is asked for. *)

From Stdlib Require Import Ascii.
From stdpp Require Import prelude gmap strings list pretty relations.
From S2P Require Import Prelude Prog Topics Archive Scenarios Sandbox SandboxProps SandboxLife.

Open Scope Z_scope.

(** An identity no pod has: longer than all. *)
Definition new_uid (pods : list (string * Pod)) : string := foldr (fun kv acc => pod_UID kv.2 +:+ acc) "x"%string pods.

Lemma new_uid_long pods kv : kv ∈ pods -> (String.length (pod_UID kv.2) < String.length (new_uid pods))%nat.
Proof.
  assert (Happ : forall a b, String.length (a +:+ b) = (String.length a + String.length b)%nat).
  { intros a b. induction a as [|c a IH]; sapp; [done|]. cbn [String.length]. by rewrite IH. }
  assert (Hpos : forall l, (0 < String.length (new_uid l))%nat).
  { induction l as [|kv' l IH]; cbn; [lia|]. rewrite Happ. unfold new_uid in IH. lia. }
  induction pods as [|kv' pods IH]; intros Hin; [by apply elem_of_nil in Hin|]. cbn. rewrite Happ. fold (new_uid pods).
  apply elem_of_cons in Hin as [->|Hin]; [pose proof (Hpos pods)|specialize (IH Hin)]; lia.
Qed.

Definition selectsb (selector labels : Labels) : bool := bool_decide (map_Forall (fun k v => labels !! k = Some v) selector).

Lemma selectsb_ok selector labels : selectsb selector labels = true <-> selects selector labels.
Proof. unfold selectsb, selects. rewrite bool_decide_eq_true, map_subseteq_spec. done. Qed.

Definition listing {A} (labels : A -> Labels) (selector : Labels) (objs : gmap string A) : list (string * A) :=
  List.filter (fun kv => selectsb selector (labels kv.2)) (map_to_list objs).

Lemma listing_ok {A} (labels : A -> Labels) selector (objs : gmap string A) :
  NoDup (map fst (listing labels selector objs)) /\
  forall n a, (n, a) ∈ listing labels selector objs <-> objs !! n = Some a /\ selects selector (labels a).
Proof.
  split.
  - unfold listing. pose proof (NoDup_fst_map_to_list objs) as Hnd. revert Hnd. generalize (map_to_list objs). intros l.
    induction l as [|[k a] l IH]; cbn; [done|]. intros [Hk Hl]%NoDup_cons. destruct (selectsb _ _); cbn; [|by apply IH]. apply NoDup_cons.
    split; [|by apply IH]. intros Hin. apply Hk. apply list_elem_of_In, in_map_iff in Hin as ([k' a'] & Ek & Hin). apply filter_In in Hin as [Hin _].
    cbn in Ek. subst k'. apply list_elem_of_fmap. exists (k, a'). split; [done|]. by apply list_elem_of_In.
  - intros n a. unfold listing. rewrite list_elem_of_In, filter_In, <-list_elem_of_In, elem_of_map_to_list, selectsb_ok. done.
Qed.

Section Calm.
Context `{Quantities}.
Variable m : Config.
Variable made : createSlotRequest -> Prop.

Definition answer {X} (c : kcall X) (k : Cluster) : X * Cluster :=
  match c in kcall X return X * Cluster with
  | PodGet name => (present (k_pods k !! name), k)
  | PodCreate obj =>
      match k_pods k !! po_Name obj with
      | Some _ => (inl AlreadyExists, k)
      | None => let p := mkPod obj (new_uid (map_to_list (k_pods k))) "" 0 (mkPStatus false "Pending" "" "" [] []) in
                (inr p, set_pods k (<[po_Name obj := p]> (k_pods k)))
      end
  | PodDelete name => match k_pods k !! name with None => (Some NotFound, k) | Some _ => (None, set_pods k (delete name (k_pods k))) end
  | PodList selector => (Some (map snd (listing (fun p => po_Labels (pod_obj p)) selector (k_pods k))), k)
  | ServiceGet name => (err_of (present (k_services k !! name)), k)
  | ServiceCreate svc =>
      match k_services k !! sv_Name svc with
      | Some _ => (Some AlreadyExists, k) | None => (None, set_services k (<[sv_Name svc := svc]> (k_services k)))
      end
  | ServiceDelete name => match k_services k !! name with None => (Some NotFound, k) | Some _ => (None, set_services k (delete name (k_services k))) end
  | JobGet name => (err_of (present (k_jobs k !! name)), k)
  | JobCreate job =>
      match k_jobs k !! jb_Name job with
      | Some _ => (Some AlreadyExists, k) | None => (None, set_jobs k (<[jb_Name job := job]> (k_jobs k)))
      end
  | JobDelete name => match k_jobs k !! name with None => (Some NotFound, k) | Some _ => (None, set_jobs k (delete name (k_jobs k))) end
  | JobList selector => (Some (map snd (listing jb_Labels selector (k_jobs k))), k)
  | Dial _ _ => (true, k)
  | SlotsGet id => (slots_Get (k_slots k) id, k)
  | SlotsPut slot => (tt, set_slots k (slots_Put (k_slots k) slot))
  | SlotsDelete id => (tt, set_slots k (slots_Delete (k_slots k) id))
  | Now => (0, k)
  | Respond r => (tt, set_answered k (k_answered k ++ [r]))
  end.

Lemma cluster_answer_does {X} (c : kcall X) k : does true X c k (answer c k).1 (answer c k).2.
Proof.
  destruct c; cbn; try done; try (by split; [|left]).
  - destruct (k_pods k !! po_Name obj) eqn:E; [by split; [|left]|]. eexists. split; [|by left]. split_and!; try done.
    intros n q Hq Hu. pose proof (new_uid_long (map_to_list (k_pods k)) (n, q)) as Hlen. cbn in Hu, Hlen. rewrite <-Hu in Hlen.
    apply (Nat.lt_irrefl (String.length (pod_UID q))), Hlen. by apply elem_of_map_to_list.
  - destruct (k_pods k !! name); [|by split; [|left]]. eexists. split; [by left|by left].
  - split; [done|]. left. eexists. split; [done|]. apply listing_ok.
  - eexists. split; [by split; [|left]|done].
  - destruct (k_services k !! _); [by split; [|left]|by left].
  - destruct (k_services k !! _); [by left|by split; [|left]].
  - eexists. split; [by split; [|left]|done].
  - destruct (k_jobs k !! _); [by split; [|left]|by left].
  - destruct (k_jobs k !! _); [by left|by split; [|left]].
  - split; [done|]. left. eexists. split; [done|]. apply listing_ok.
Qed.

Fixpoint run_calm {A} (p : kprog A) (k : Cluster) : A * Cluster :=
  match p with Ret a => (a, k) | Call c f => run_calm (f (answer c k).1) (answer c k).2 end.

Lemma run_oreached (p : kprog unit) : forall s i,
  oreached m made s -> o_threads s !! i = Some p -> oreached m made (mkSys (run_calm p (o_cluster s)).2 (<[i := Ret tt]> (o_threads s))).
Proof.
  induction p as [[]|X c f IH]; intros s i Hs Hi; cbn [run_calm snd].
  - rewrite list_insert_id by done. by destruct s.
  - assert (Hs1 : oreached m made (mkSys (answer c (o_cluster s)).2 (<[i := f (answer c (o_cluster s)).1]> (o_threads s)))).
    { eapply rtc_r; [exact Hs|]. eapply os_call; [exact Hi|apply cluster_answer_does]. }
    pose proof (IH (answer c (o_cluster s)).1 _ i Hs1) as Hend. cbn [o_threads o_cluster] in Hend. rewrite list_insert_insert_eq in Hend.
    apply Hend. apply list_lookup_insert_eq. by eapply lookup_lt_Some.
Qed.

Definition spawned (s : Sys) (p : kprog unit) : Sys := mkSys (run_calm p (o_cluster s)).2 (o_threads s ++ [Ret tt]).

Lemma spawned_oreached s p :
  oreached m made s -> ostep m made s (mkSys (o_cluster s) (o_threads s ++ [p])) -> oreached m made (spawned s p).
Proof.
  intros Hr Hs. pose proof (run_oreached p (mkSys (o_cluster s) (o_threads s ++ [p])) (length (o_threads s))) as Hend. cbn [o_threads o_cluster] in Hend.
  rewrite insert_app_r_alt, Nat.sub_diag in Hend by done. apply Hend; [by eapply rtc_r|]. by rewrite lookup_app_r, Nat.sub_diag by done.
Qed.

(** The first calls of a thread. *)
Fixpoint run_some (n : nat) (p : kprog unit) (k : Cluster) : kprog unit * Cluster :=
  match n, p with
  | S n, Call c f => run_some n (f (answer c k).1) (answer c k).2
  | _, _ => (p, k)
  end.

Lemma run_some_oreached n : forall p s i,
  oreached m made s -> o_threads s !! i = Some p ->
  oreached m made (mkSys (run_some n p (o_cluster s)).2 (<[i := (run_some n p (o_cluster s)).1]> (o_threads s))).
Proof.
  induction n as [|n IH]; intros p s i Hs Hi; [cbn; rewrite list_insert_id by done; by destruct s|].
  destruct p as [a|X c f]; [cbn; rewrite list_insert_id by done; by destruct s|]. cbn [run_some].
  assert (Hs1 : oreached m made (mkSys (answer c (o_cluster s)).2 (<[i := f (answer c (o_cluster s)).1]> (o_threads s)))).
  { eapply rtc_r; [exact Hs|]. eapply os_call; [exact Hi|apply cluster_answer_does]. }
  pose proof (IH (f (answer c (o_cluster s)).1) _ i Hs1) as Hend. cbn [o_threads o_cluster] in Hend. rewrite list_insert_insert_eq in Hend.
  apply Hend. apply list_lookup_insert_eq. by eapply lookup_lt_Some.
Qed.

End Calm.

Module SandboxDemo.

#[local] Instance quantities : Quantities := fun s => if bool_decide (s = "2"%string) then Some 2000 else Some 1000.

Definition m : Config := mkConfig "sandbox" "gvisor" "2" "1Gi" "" "" "" true "capture:1" "kafka:9092" "".
Definition req : createSlotRequest := mkCreate "s1" "alice" "img" 0 [9898; 8080] (Some 3).
Definition made (r : createSlotRequest) : Prop := r = req.

Definition s0 : Sys := mkSys (run_calm (startup m) (mkCluster ∅ ∅ ∅ ∅ [])).2 [Ret tt].
Definition s1 : Sys := spawned s0 (CreateSlot m (Some req)).

(** The pod comes up on a node. *)
Definition up_status : PodStatus := mkPStatus false "Running" "" "10.0.0.7" [("Ready"%string, true)] [mkCStatus "algo" None "containerd://c1"].
Definition bring_up (p : Pod) : Pod := mkPod (pod_obj p) (pod_UID p) "node-1" (pod_Created p) up_status.
Definition s2 : Sys := mkSys (set_pods (o_cluster s1) (alter bring_up (podName "s1") (k_pods (o_cluster s1)))) (o_threads s1).
Definition s3 : Sys := spawned s2 (GetSlot m "s1").

Lemma s0_reached : oreached m made s0.
Proof. apply (run_oreached m made (startup m) (oinit m) 0); [apply rtc_refl|done]. Qed.

Lemma s1_reached : oreached m made s1.
Proof. apply spawned_oreached; [exact s0_reached|]. apply os_create; [done|]. cbn. lia. Qed.

Lemma s2_reached : oreached m made s2.
Proof.
  eapply rtc_r; [exact s1_reached|]. apply os_cluster. split; try done. intros n p'. cbn [s2 o_cluster k_pods set_pods].
  intros [(En & p & Hp & ->)|[_ Hp]]%lookup_alter_Some; [subst n|by exists p'; split; [|split_and!; [| |left]]]. exists p. split; [done|]. split_and!; [done|done|].
  right. assert (E : pod_NodeName <$> k_pods (o_cluster s1) !! podName "s1" = Some ""%string) by (vm_compute; reflexivity).
  rewrite Hp in E. by injection E.
Qed.

Lemma s3_reached : oreached m made s3.
Proof. apply spawned_oreached; [exact s2_reached|]. constructor. Qed.

Definition the_job : Job := captureJobSpec m "s1" "alice" "node-1" "x" "containerd://c1" 3.

(** The capture job of the session, with its band. *)
Lemma sandbox_matches_requests_witness :
  k_jobs (o_cluster s3) !! captureJobName "s1" = Some the_job /\
  exists band, ("ORDER_BAND"%string, band) ∈ jb_Env the_job /\ ParseUint band 32 = Some 3.
Proof.
  assert (E : k_jobs (o_cluster s3) !! captureJobName "s1" = Some the_job) by (vm_compute; reflexivity). split; [exact E|].
  destruct (proj1 (oreached_history m made s3) s3_reached) as [h Hh].
  destruct (sandbox_matches_requests m made s3 h Hh) as [_ Hj].
  destruct (Hj _ _ E) as (r & p & _ & [Hacc _] & _ & _ & _ & _ & _ & _ & Hband & _). rewrite (ac_made _ _ _ Hacc) in Hband. exact Hband.
Defined.

Lemma proper_req : proper m (mkCreate "s2" "bob" "other" 8080 [] None).
Proof. split; [discriminate|discriminate|discriminate|]. constructor; [|constructor]. split; [cbn; lia|]. intros _. apply list_elem_of_In. cbn. auto. Qed.

(** Another slot beside the first, and the end of the first. *)
Lemma slot_lifecycle_witness :
  validateConfig m = true /\
  wp (fun _ _ _ => True) (does false) (CreateSlot m (Some (mkCreate "s2" "bob" "other" 8080 [] None))) (o_cluster s3)
    (fun _ k' => slot_created m (mkCreate "s2" "bob" "other" 8080 [] None) (o_cluster s3) k') /\
  wp (fun _ _ _ => True) (does false) (DeleteSlot m "s1") (o_cluster s3) (fun _ k' => slot_deleted m "s1" (o_cluster s3) k').
Proof.
  assert (Hv : validateConfig m = true) by (vm_compute; reflexivity). split; [exact Hv|].
  destruct (slot_lifecycle m made s3 Hv s3_reached) as (Hc & _ & Hd). split; [|by apply Hd].
  apply Hc; [exact proper_req|]. split_and!; vm_compute; reflexivity.
Defined.

Lemma restart_rebuilds_witness :
  wp (fun _ _ _ => True) (does false) (startup m) (set_slots (o_cluster s3) ∅) (fun _ k' => rebuilt m made (o_cluster s3) k') /\
  is_Some (k_slots (run_calm (startup m) (set_slots (o_cluster s3) ∅)).2 !! "s1"%string).
Proof. split; [exact (restart_rebuilds m made s3 s3_reached)|]. vm_compute. by eexists. Defined.

(** ** What the handlers do not notice *)

(** A creation request for a known slot whose pod is gone is answered with
    the last state that was stored: here "ready", with no pod. *)
Example known_slot_without_pod :
  let k := set_pods (o_cluster s3) ∅ in
  let k' := (run_calm (CreateSlot m (Some req)) k).2 in
  k_pods k' = ∅ /\ exists b, last (k_answered k') = Some (mkResponse 200 (SlotBody b)) /\ rp_State b = StateReady.
Proof. vm_compute. split; [reflexivity|]. eexists. split; reflexivity. Qed.

(** The process dies between the creation of the pod and that of the service;
    start-up takes the slot over from the pod, and a repeated creation request
    is then answered 200 without the service ever being made. *)
Definition half : Cluster := (run_some 3 (CreateSlot m (Some req)) (o_cluster s0)).2.

Lemma half_reached : exists threads, oreached m made (mkSys half threads).
Proof.
  assert (Hr : oreached m made (mkSys (o_cluster s0) (o_threads s0 ++ [CreateSlot m (Some req)]))).
  { eapply rtc_r; [exact s0_reached|]. apply os_create; [done|]. cbn. lia. }
  eexists. exact (run_some_oreached m made 3 (CreateSlot m (Some req)) _ 1 Hr eq_refl).
Qed.

Example restart_without_service :
  let k := (run_calm (startup m) (set_slots half ∅)).2 in
  let k' := (run_calm (CreateSlot m (Some req)) k).2 in
  is_Some (k_pods k' !! podName "s1") /\ k_services k' !! podName "s1" = None /\
  http_status <$> last (k_answered k') = Some 200.
Proof. vm_compute. split; [by eexists|]. split; reflexivity. Qed.

End SandboxDemo.
