(* ===== verification/Base64.v ===== *)
(** * Base64

    What the services use of Go's [encoding/base64]: [StdEncoding] for
    encoding and [RawURLEncoding] for both directions, on byte strings. *)

From Stdlib Require Import Ascii.
From stdpp Require Import prelude strings list.
From S2P Require Import Prelude.

Open Scope Z_scope.

Definition byte_of (c : ascii) : Z := Z.of_N (N_of_ascii c).
Definition char_of (b : Z) : ascii := ascii_of_N (Z.to_N b).

Lemma byte_of_range c : 0 <= byte_of c < 256.
Proof. unfold byte_of. pose proof (N_ascii_bounded c). lia. Qed.

Lemma char_byte c : char_of (byte_of c) = c.
Proof. unfold char_of, byte_of. rewrite N2Z.id. apply ascii_N_embedding. Qed.

Lemma byte_char b : 0 <= b < 256 -> byte_of (char_of b) = b.
Proof. intros Hb. unfold char_of, byte_of. rewrite N_ascii_embedding by lia. lia. Qed.

Fixpoint bytes (s : string) : list Z := match s with EmptyString => [] | String c s => byte_of c :: bytes s end.
Fixpoint text (bs : list Z) : string := match bs with [] => EmptyString | b :: bs => String (char_of b) (text bs) end.

Lemma text_bytes s : text (bytes s) = s.
Proof. induction s as [|c s IH]; cbn; [done|]. by rewrite char_byte, IH. Qed.

Lemma bytes_range s : Forall (fun b => 0 <= b < 256) (bytes s).
Proof. induction s; constructor; [apply byte_of_range|done]. Qed.

Lemma bytes_text bs : Forall (fun b => 0 <= b < 256) bs -> bytes (text bs) = bs.
Proof. induction 1 as [|b bs Hb _ IH]; cbn; [done|]. by rewrite byte_char, IH. Qed.

(** ** Groups of six bits *)

Fixpoint sextets (bs : list Z) : list Z :=
  match bs with
  | a :: b :: c :: bs => a / 4 :: a mod 4 * 16 + b / 16 :: b mod 16 * 4 + c / 64 :: c mod 64 :: sextets bs
  | [a; b] => [a / 4; a mod 4 * 16 + b / 16; b mod 16 * 4]
  | [a] => [a / 4; a mod 4 * 16]
  | [] => []
  end.

(** [None]: an incomplete group.  Left-over bits are dropped. *)
Fixpoint unsextets (ss : list Z) : option (list Z) :=
  match ss with
  | p :: q :: r :: s :: ss => (fun bs => p * 4 + q / 16 :: q mod 16 * 16 + r / 4 :: r mod 4 * 64 + s :: bs) <$> unsextets ss
  | [p; q; r] => Some [p * 4 + q / 16; q mod 16 * 16 + r / 4]
  | [p; q] => Some [p * 4 + q / 16]
  | [_] => None
  | [] => Some []
  end.

(** Induction three bytes at a time. *)
Lemma triples_ind {A} (P : list A -> Prop) :
  P [] -> (forall a, P [a]) -> (forall a b, P [a; b]) -> (forall a b c l, P l -> P (a :: b :: c :: l)) -> forall l, P l.
Proof.
  intros H0 H1 H2 H3. fix IH 1. intros [|a [|b [|c l]]]; [apply H0|apply H1|apply H2|apply H3, IH].
Qed.

Ltac divmod := Z.to_euclidean_division_equations; lia.

Lemma sextets_range bs : Forall (fun b => 0 <= b < 256) bs -> Forall (fun s => 0 <= s < 64) (sextets bs).
Proof.
  induction bs as [|a|a b|a b c bs IH] using triples_ind; intros H; [done|..]; rewrite !Forall_cons in H; decompose [and] H.
  all: cbn [sextets]; repeat (apply Forall_cons; split; [divmod|]); first [done|by apply IH].
Qed.

Lemma unsextets_sextets bs : Forall (fun b => 0 <= b < 256) bs -> unsextets (sextets bs) = Some bs.
Proof.
  induction bs as [|a|a b|a b c bs IH] using triples_ind; intros H; [done|..]; rewrite !Forall_cons in H; decompose [and] H;
    cbn [sextets unsextets]; [| |rewrite IH by done; cbn [fmap option_fmap option_map]]; repeat f_equal; divmod.
Qed.

(** ** Alphabets *)

(** The two characters the encodings differ in. *)
Record Alphabet := mkAlphabet { sym62 : Z; sym63 : Z }.
Definition URLAlphabet : Alphabet := mkAlphabet 45 95.
Definition StdAlphabet : Alphabet := mkAlphabet 43 47.

Definition symbol (a : Alphabet) (s : Z) : Z :=
  if s <? 26 then 65 + s else if s <? 52 then 71 + s else if s <? 62 then s - 4 else if s =? 62 then sym62 a else sym63 a.

Definition symbol_value (a : Alphabet) (c : Z) : option Z :=
  if (65 <=? c) && (c <=? 90) then Some (c - 65)
  else if (97 <=? c) && (c <=? 122) then Some (c - 71)
  else if (48 <=? c) && (c <=? 57) then Some (c + 4)
  else if c =? sym62 a then Some 62
  else if c =? sym63 a then Some 63
  else None.

Definition RawURL_EncodeToString (payload : string) : string := text (map (symbol URLAlphabet) (sextets (bytes payload))).

(** Carriage returns and newlines are skipped. *)
Definition RawURL_DecodeString (s : string) : option string :=
  let cs := List.filter (fun c => negb ((c =? 10) || (c =? 13))) (bytes s) in
  match mapM (symbol_value URLAlphabet) cs with
  | Some ss => text <$> unsextets ss
  | None => None
  end.

(** Padded to a multiple of four characters. *)
Definition Std_EncodeToString (payload : string) : string :=
  let ss := sextets (bytes payload) in
  text (map (symbol StdAlphabet) ss ++ repeat 61 (Z.to_nat (- Z.of_nat (length ss) mod 4))).

Lemma symbol_visible s : 0 <= s < 64 -> 33 <= symbol URLAlphabet s < 128.
Proof. intros Hs. unfold symbol. cbn [sym62 sym63 URLAlphabet]. repeat case_match; lia. Qed.

Lemma symbol_back s : 0 <= s < 64 -> symbol_value URLAlphabet (symbol URLAlphabet s) = Some s.
Proof.
  intros Hs. assert (Hall : forallb (fun k => bool_decide (symbol_value URLAlphabet (symbol URLAlphabet k) = Some k)) (seqZ 0 64) = true)
    by (by vm_compute).
  rewrite forallb_forall in Hall. specialize (Hall s). rewrite bool_decide_eq_true in Hall. apply Hall, list_elem_of_In, elem_of_seqZ. lia.
Qed.

Lemma encoded_visible payload : Forall (fun c => 33 <= c < 128) (bytes (RawURL_EncodeToString payload)).
Proof.
  assert (H : Forall (fun c => 33 <= c < 128) (map (symbol URLAlphabet) (sextets (bytes payload)))).
  { apply Forall_fmap. eapply Forall_impl; [apply sextets_range, bytes_range|]. intros s Hs. by apply symbol_visible. }
  unfold RawURL_EncodeToString. rewrite bytes_text; [done|]. eapply Forall_impl; [exact H|]. cbn. lia.
Qed.

Lemma symbols_back ss : Forall (fun s => 0 <= s < 64) ss -> mapM (symbol_value URLAlphabet) (map (symbol URLAlphabet) ss) = Some ss.
Proof. intros H. apply mapM_Some, Forall2_fmap_l, Forall_Forall2_diag. eapply Forall_impl; [exact H|]. cbn. apply symbol_back. Qed.

Lemma RawURL_roundtrip payload : RawURL_DecodeString (RawURL_EncodeToString payload) = Some payload.
Proof.
  unfold RawURL_DecodeString. rewrite forallb_filter_id.
  - unfold RawURL_EncodeToString. rewrite bytes_text, symbols_back, unsextets_sextets.
    + cbn. by rewrite text_bytes.
    + apply bytes_range.
    + apply sextets_range, bytes_range.
    + apply Forall_fmap. eapply Forall_impl; [apply sextets_range, bytes_range|]. cbn. intros s Hs%symbol_visible. lia.
  - apply forallb_forall. intros c Hc%list_elem_of_In. pose proof (encoded_visible payload) as Hv. rewrite Forall_forall in Hv.
    specialize (Hv c Hc). lia.
Qed.
