(* ===== verification/Board.v ===== *)
(** * leaderboard-api: the leaderboard

    [internal/read/store.go] (the paged, filtered and sorted leaderboard
    query), [internal/read/cache.go] (the short-lived cache in front of it) and
    the request of [internal/handler/handler.go] that serves it, over the
    [scores] table that score-computer writes. *)

From Stdlib Require Import Ascii Floats.SpecFloat.
From stdpp Require Import prelude gmap strings list pretty.
From S2P Require Import Prelude Prog GoSort Float64 Ordering Topics Scenarios Score SubStore Scoring Base64.

Open Scope Z_scope.
Open Scope prog_scope.

Definition maxLeaderboardRows : Z := 500.
Definition defaultLeaderboardRows : Z := 100.
Definition maxLeaderboardOffset : Z := 100000.

(** ** Strings *)

(** [strings.ToLower] outside ASCII consults the Unicode tables. *)
Class UnicodeLower := map_ToLower : string -> string.

Definition lower (c : ascii) : ascii :=
  if ((65 <=? N_of_ascii c) && (N_of_ascii c <=? 90))%N then ascii_of_N (N_of_ascii c + 32) else c.

Definition ToLower `{UnicodeLower} (s : string) : string :=
  if forall_bytes isASCII s then map_bytes lower s else map_ToLower s.

(** [strings.ReplaceAll(s, "-", "_")]. *)
Definition dashes_to_underscores (s : string) : string := map_bytes (fun c => if Ascii.eqb c "-" then "_"%char else c) s.

(** ** Queries, rows and responses *)

Record LeaderboardQuery := mkQuery {
  q_Limit : Z; q_Sort : string; q_Order : string; q_Cursor : string; q_RunGroupID : string; q_SubmissionID : string;
  q_ContestantID : string; q_TeamID : string; q_TeamName : string; q_Scenario : string }.

Record LeaderboardRow := mkLRow {
  lr_Rank : Z; lr_RunGroupID : string; lr_SubmissionID : string; lr_ContestantID : string; lr_TeamName : string;
  lr_PeakSustainedTPS : Z; lr_P99NSAtPeakTPS : Z; lr_SpikeRecoveryNS : Z; lr_TotalCorrectness : float64;
  lr_Disqualified : bool; lr_DisqualificationCode : string; lr_RankDelta : Z; lr_ComputedAtUnixNS : Z;
  lr_JitterP50US : float64; lr_JitterP99US : float64; lr_JitterP999US : float64; lr_JitterMaxUS : float64;
  lr_JitterInvRate : float64 }.

Record LeaderboardResponse := mkLResponse { rs_Source : string; rs_Rows : list LeaderboardRow; rs_NextCursor : string }.

(** ** ORDER BY *)

Inductive Column :=
  | ColDisqualified | ColRank | ColPeak | ColP99 | ColRecovery | ColCorrectness | ColTeam | ColComputedAt | ColRunGroup.
Inductive Dir := ASC | DESC.

Abbreviation OrderBy := (list (Column * Dir)).

Definition column_name (c : Column) : string :=
  match c with
  | ColDisqualified => "disqualified" | ColRank => "rank" | ColPeak => "peak_sustained_tps" | ColP99 => "p99_at_peak_ns"
  | ColRecovery => "spike_recovery_ns" | ColCorrectness => "total_correctness" | ColTeam => "team_name"
  | ColComputedAt => "computed_at" | ColRunGroup => "run_group_id"
  end.
Definition dir_name (d : Dir) : string := match d with ASC => "ASC" | DESC => "DESC" end.

(** The text of a clause. *)
Fixpoint order_sql (o : OrderBy) : string :=
  match o with
  | [] => ""
  | [(c, d)] => column_name c +:+ " " +:+ dir_name d
  | (c, d) :: o => column_name c +:+ " " +:+ dir_name d +:+ ", " +:+ order_sql o
  end.

Definition rankedOrder : OrderBy :=
  [(ColDisqualified, ASC); (ColPeak, DESC); (ColP99, ASC); (ColRecovery, ASC); (ColCorrectness, DESC); (ColRunGroup, ASC)].

Record sortSpec := mkSpec { ss_column : Column; ss_defaultDesc : bool; ss_tiebreak : OrderBy }.

Definition by_rank : sortSpec := mkSpec ColRank false [(ColRunGroup, ASC)].
Definition by_peak : sortSpec :=
  mkSpec ColPeak true [(ColP99, ASC); (ColRecovery, ASC); (ColCorrectness, DESC); (ColRunGroup, ASC)].
Definition by_p99 : sortSpec :=
  mkSpec ColP99 false [(ColPeak, DESC); (ColRecovery, ASC); (ColCorrectness, DESC); (ColRunGroup, ASC)].
Definition by_recovery : sortSpec :=
  mkSpec ColRecovery false [(ColPeak, DESC); (ColP99, ASC); (ColCorrectness, DESC); (ColRunGroup, ASC)].
Definition by_correctness : sortSpec :=
  mkSpec ColCorrectness true [(ColPeak, DESC); (ColP99, ASC); (ColRecovery, ASC); (ColRunGroup, ASC)].
Definition by_team : sortSpec := mkSpec ColTeam false [(ColRank, ASC); (ColRunGroup, ASC)].
Definition by_computed : sortSpec := mkSpec ColComputedAt true [(ColRank, ASC); (ColRunGroup, ASC)].

(** The map literal. *)
Definition sort_specs : list (string * sortSpec) :=
  [("", by_rank); ("rank", by_rank); ("peak_tps", by_peak); ("peak_sustained_tps", by_peak); ("p99", by_p99);
   ("p99_at_peak", by_p99); ("p99_ns_at_peak_tps", by_p99); ("spike_recovery", by_recovery);
   ("spike_recovery_ns", by_recovery); ("total_score", by_correctness); ("total_correctness", by_correctness);
   ("correctness", by_correctness); ("team_name", by_team); ("computed_at", by_computed)]%string.

Definition find_spec (name : string) : option sortSpec :=
  snd <$> List.find (fun kv => bool_decide (kv.1 = name)) sort_specs.

Section OrderBy.
Context `{Unicode} `{UnicodeLower}.

Definition leaderboardOrderBy (sortField order : string) : OrderBy :=
  let sortField := dashes_to_underscores (ToLower (TrimSpace sortField)) in
  let order := ToLower (TrimSpace order) in
  let spec := default by_rank (find_spec sortField) in
  let dir := if ss_defaultDesc spec then DESC else ASC in
  let dir := if bool_decide (order = "asc"%string) then ASC else if bool_decide (order = "desc"%string) then DESC else dir in
  (ColDisqualified, ASC) :: (ss_column spec, dir) :: ss_tiebreak spec.

End OrderBy.

(** ** The table *)

(** The metadata database, with the column [computed_at] of [scores]; the
    jitter columns of a row are those of its result. *)
Record BoardDB := mkBoardDB { bd_db : SDB; bd_computed_at : string -> Z }.

(** A row of the inner query. *)
Record Ranked := mkRanked { rk_rank : Z; rk_group : string; rk_row : ScoreRow; rk_computed : Z }.

(** [team_name ILIKE '%' || text || '%']. *)
Class ILike := ilike_contains : string -> string -> bool.

Section Query.
Context `{Collation} `{ILike}.

Definition coll_cmp (a b : string) : comparison :=
  if coll_le a b then if coll_le b a then Eq else Lt else Gt.

Definition sql_double_cmp (x y : float64) : comparison :=
  if sql_double_gt x y then Gt else if sql_double_gt y x then Lt else Eq.

Definition cmp_column (c : Column) (a b : Ranked) : comparison :=
  match c with
  | ColDisqualified => asc (fun r => Z.b2z (so_disqualified (rk_row r))) a b
  | ColRank => asc rk_rank a b
  | ColPeak => asc (fun r => so_peak (rk_row r)) a b
  | ColP99 => asc (fun r => so_p99 (rk_row r)) a b
  | ColRecovery => asc (fun r => so_recovery (rk_row r)) a b
  | ColCorrectness => sql_double_cmp (so_correctness (rk_row a)) (so_correctness (rk_row b))
  | ColTeam => coll_cmp (so_team (rk_row a)) (so_team (rk_row b))
  | ColComputedAt => asc rk_computed a b
  | ColRunGroup => coll_cmp (rk_group a) (rk_group b)
  end.

Fixpoint cmp_order (o : OrderBy) (a b : Ranked) : comparison :=
  match o with
  | [] => Eq
  | (c, ASC) :: o => lex (cmp_column c) (cmp_order o) a b
  | (c, DESC) :: o => lex (fun a b => cmp_column c b a) (cmp_order o) a b
  end.

(** ORDER BY: the clauses end with the primary key, so the order is total. *)
Definition order_rows (o : OrderBy) (rows : list Ranked) : list Ranked := sort_stable (lt_of (cmp_order o)) rows.

Definition set_rank (i : nat) (r : Ranked) : Ranked := mkRanked (1 + Z.of_nat i) (rk_group r) (rk_row r) (rk_computed r).

(** [SELECT ROW_NUMBER() OVER (ORDER BY ...) AS rank, ... FROM scores]. *)
Definition unranked (d : BoardDB) : list Ranked :=
  map (fun kv => mkRanked 0 kv.1 kv.2 (bd_computed_at d kv.1)) (map_to_list (scores (bd_db d))).
Definition ranked (d : BoardDB) : list Ranked := imap set_rank (order_rows rankedOrder (unranked d)).

(** [EXISTS (SELECT 1 FROM runs r2 JOIN scenarios sc2 ...)]. *)
Definition ran_scenario (d : BoardDB) (g name : string) : bool :=
  existsb (fun kv =>
    bool_decide (run_group kv.2 = Some g) &&
    match scenarios (meta (bd_db d)) !! name with
    | Some sc => bool_decide (run_scenario kv.2 = Some (scn_id sc))
    | None => false
    end) (map_to_list (runs (meta (bd_db d)))).

Definition contestantFilter (q : LeaderboardQuery) : string :=
  if bool_decide (q_ContestantID q = ""%string) then q_TeamID q else q_ContestantID q.

(** The WHERE clause. *)
Definition board_match (d : BoardDB) (q : LeaderboardQuery) (r : Ranked) : bool :=
  (bool_decide (q_RunGroupID q = ""%string) || bool_decide (rk_group r = q_RunGroupID q)) &&
  (bool_decide (q_SubmissionID q = ""%string) || bool_decide (so_submission (rk_row r) = q_SubmissionID q)) &&
  (bool_decide (contestantFilter q = ""%string) || bool_decide (so_contestant (rk_row r) = contestantFilter q)) &&
  (bool_decide (q_TeamName q = ""%string) || ilike_contains (so_team (rk_row r)) (q_TeamName q)) &&
  (bool_decide (q_Scenario q = ""%string) || ran_scenario d (rk_group r) (q_Scenario q)).

(** Every row a query is about, in its order. *)
Definition board_rows (d : BoardDB) (q : LeaderboardQuery) (o : OrderBy) : list Ranked :=
  order_rows o (List.filter (board_match d q) (ranked d)).

(** [LIMIT n OFFSET k]. *)
Definition select_board (d : BoardDB) (q : LeaderboardQuery) (o : OrderBy) (n k : Z) : list Ranked :=
  take (Z.to_nat n) (drop (Z.to_nat k) (board_rows d q o)).

End Query.

(** ** Cursors *)

(** [json.Unmarshal] into a [leaderboardCursor]: its offset. *)
Class CursorJSON := unmarshal_cursor : string -> option Z.

Definition quote : string := String (char_of 34) "".

(** [json.Marshal] of a [leaderboardCursor]. *)
Definition marshal_cursor (offset : Z) : string := "{" +:+ quote +:+ "offset" +:+ quote +:+ ":" +:+ pretty offset +:+ "}".

Class CursorJSONLaws `{CursorJSON} : Prop :=
  cursor_unmarshal n : - 2 ^ 63 <= n < 2 ^ 63 -> unmarshal_cursor (marshal_cursor n) = Some n.

Definition encodeLeaderboardCursor (offset : Z) : string := RawURL_EncodeToString (marshal_cursor offset).

(** [None]: invalid cursor. *)
Definition decodeLeaderboardCursor `{Unicode} `{CursorJSON} (cursor : string) : option Z :=
  if bool_decide (TrimSpace cursor = ""%string) then Some 0
  else
    match RawURL_DecodeString cursor with
    | None => None
    | Some payload =>
        match unmarshal_cursor payload with
        | None => None
        | Some offset => if (offset <? 0) || (maxLeaderboardOffset <? offset) then None else Some offset
        end
    end.

(** ** Reading the leaderboard *)

Inductive BoardErr := ErrCursor | ErrQuery | ErrRows.

(** What [Query] and the scan of its rows give: an error of the query, the
    rows, or rows followed by an error. *)
Inductive QueryAnswer := UndefinedTable | QueryFailed | Scanned (rows : list Ranked) | Broken (rows : list Ranked).

(** The text a response is cached as. *)
Class ResponseJSON := {
  payload : Type;
  marshal_response : LeaderboardResponse -> option payload;
  unmarshal_response : payload -> option LeaderboardResponse }.

Section Reader.
Context `{Unicode} `{UnicodeLower} `{CursorJSON} `{ResponseJSON}.

Inductive rcall : Type -> Type :=
  | QueryBoard (q : LeaderboardQuery) (order : OrderBy) (limit offset : Z) : rcall QueryAnswer
  | CacheGet (key : string) : rcall (BoardErr + option payload)
  | CacheSet (key : string) (value : payload) (ttl : Z) : rcall bool
  | Answer (q : LeaderboardQuery) (r : BoardErr + LeaderboardResponse) : rcall unit.

Abbreviation rprog := (Prog rcall).

Definition effective_limit (limit : Z) : Z :=
  if (limit <=? 0) || (maxLeaderboardRows <? limit) then defaultLeaderboardRows else limit.

Definition leaderboard_row (r : Ranked) : LeaderboardRow :=
  let s := rk_row r in
  mkLRow (rk_rank r) (rk_group r) (so_submission s) (so_contestant s) (so_team s) (nonNegativeUint64 (so_peak s))
    (nonNegativeUint64 (so_p99 s)) (nonNegativeUint64 (so_recovery s)) (so_correctness s) (so_disqualified s) (so_code s)
    (match so_rank s with Some (_, delta) => delta | None => 0 end) (rk_computed r)
    (res_JitterP50US (so_detail s)) (res_JitterP99US (so_detail s)) (res_JitterP999US (so_detail s))
    (res_JitterMaxUS (so_detail s)) (res_JitterInvRate (so_detail s)).

(** The loop over the rows: at most [limit] are kept. *)
Definition collect_row (limit : Z) (acc : list LeaderboardRow * bool) (r : Ranked) : list LeaderboardRow * bool :=
  let '(rows, hasMore) := acc in
  if Z.of_nat (length rows) <? limit then (rows ++ [leaderboard_row r], hasMore) else (rows, true).

Definition response_of (limit offset : Z) (rows : list Ranked) : LeaderboardResponse :=
  let '(kept, hasMore) := foldl (collect_row limit) ([], false) rows in
  mkLResponse "frozen" kept (if hasMore then encodeLeaderboardCursor (offset + limit) else "").

Definition Leaderboard (q : LeaderboardQuery) : rprog (BoardErr + LeaderboardResponse) :=
  let limit := effective_limit (q_Limit q) in
  match decodeLeaderboardCursor (q_Cursor q) with
  | None => Ret (inl ErrCursor)
  | Some offset =>
      let order := leaderboardOrderBy (q_Sort q) (q_Order q) in
      let! answer := ask (QueryBoard q order (limit + 1) offset) in
      match answer with
      | UndefinedTable => Ret (inr (mkLResponse "frozen" [] ""))
      | QueryFailed => Ret (inl ErrQuery)
      | Broken _ => Ret (inl ErrRows)
      | Scanned rows => Ret (inr (response_of limit offset rows))
      end
  end.

(** ** The cache *)

Definition cacheableLeaderboard (q : LeaderboardQuery) : bool :=
  let sortField := ToLower (TrimSpace (q_Sort q)) in
  let order := ToLower (TrimSpace (q_Order q)) in
  bool_decide (q_Cursor q = ""%string) && bool_decide (q_RunGroupID q = ""%string) &&
  bool_decide (q_SubmissionID q = ""%string) && bool_decide (q_ContestantID q = ""%string) &&
  bool_decide (q_TeamID q = ""%string) && bool_decide (q_TeamName q = ""%string) &&
  (bool_decide (sortField = ""%string) || bool_decide (sortField = "rank"%string)) &&
  (bool_decide (order = ""%string) || bool_decide (order = "asc"%string)).

Definition leaderboardCacheKey (q : LeaderboardQuery) : string :=
  let limit := effective_limit (q_Limit q) in
  let scenario := TrimSpace (q_Scenario q) in
  let scenario := if bool_decide (scenario = ""%string) then "all"%string else scenario in
  "leaderboard-api:v1:top:" +:+ pretty limit +:+ ":" +:+ scenario.

(** Reading past the cache, and storing what was read. *)
Definition read_through (ttl : Z) (key : string) (q : LeaderboardQuery) : rprog (BoardErr + LeaderboardResponse) :=
  let! resp := Leaderboard q in
  match resp with
  | inl e => Ret (inl e)
  | inr resp =>
      match marshal_response resp with
      | Some text => ask (CacheSet key text ttl);; Ret (inr resp)
      | None => Ret (inr resp)
      end
  end.

(** [CachedReader.Leaderboard], with a cache. *)
Definition cached_Leaderboard (ttl : Z) (q : LeaderboardQuery) : rprog (BoardErr + LeaderboardResponse) :=
  if negb (cacheableLeaderboard q) || (ttl <=? 0) then Leaderboard q
  else
    let key := leaderboardCacheKey q in
    let! got := ask (CacheGet key) in
    match got with
    | inr (Some text) =>
        match unmarshal_response text with
        | Some resp => Ret (inr resp)
        | None => read_through ttl key q
        end
    | _ => read_through ttl key q
    end.

(** ** The request *)

(** The query of a request; [get] reads the URL's parameters.  [Atoi] gives 0
    for a text that is no number and an extreme value for one out of range:
    both mean the default. *)
Definition query_of (get : string -> string) : LeaderboardQuery :=
  mkQuery (default 0 (Atoi (get "limit"))) (get "sort") (get "order") (get "cursor") (get "run_group_id") (get "submission_id")
    (get "contestant_id") (get "team_id") (get "team_name") (get "scenario").

(** The cache's time to live in [main.go], in nanoseconds. *)
Definition cacheTTL : Z := 2 * 1000000000.

Definition serve_Leaderboard (get : string -> string) : rprog unit :=
  let q := query_of get in
  let! resp := cached_Leaderboard cacheTTL q in
  ask (Answer q resp).

End Reader.

Arguments rcall : clear implicits.
Arguments rcall {_}.

(** The clauses as the code writes them. *)
Example ranked_sql :
  order_sql rankedOrder =
  "disqualified ASC, peak_sustained_tps DESC, p99_at_peak_ns ASC, spike_recovery_ns ASC, total_correctness DESC, run_group_id ASC"%string.
Proof. reflexivity. Qed.

Example latency_sql `{Unicode} `{UnicodeLower} :
  order_sql (leaderboardOrderBy " P99-at-peak" "DESC") =
  "disqualified ASC, p99_at_peak_ns DESC, peak_sustained_tps DESC, spike_recovery_ns ASC, total_correctness DESC, run_group_id ASC"%string.
Proof. reflexivity. Qed.
