(* ===== verification/BoardProps.v ===== *)
(** * leaderboard-api: what the pages show

    Following the cursors of a query gives every row it matches once, in its
    order; and the default leaderboard is the order score-computer ranks its
    results by. *)

From Stdlib Require Import Ascii Floats.SpecFloat.
From stdpp Require Import prelude gmap strings list pretty sorting.
From S2P Require Import Prelude Prog GoSort Replay Float64 Ordering Topics Scenarios Score ScoreProps SubStore Scoring ScoringProps Base64 Board.

Open Scope Z_scope.

(** ** Sorting *)

Lemma insert_stable_last {A} (less : A -> A -> bool) x l : (forall y, y ∈ l -> less x y = false) -> insert_stable less x l = l ++ [x].
Proof.
  induction l as [|y l IH]; intros Hl; cbn; [done|]. rewrite (Hl y) by (by left). f_equal. apply IH. intros z Hz. apply Hl. by right.
Qed.

Lemma sort_stable_app {A} (less : A -> A -> bool) l acc :
  sorted_by less (acc ++ l) -> foldl (fun acc x => insert_stable less x acc) acc l = acc ++ l.
Proof.
  revert acc. induction l as [|x l IH]; intros acc Hs; cbn; [by rewrite app_nil_r|].
  rewrite insert_stable_last.
  - rewrite IH; [by rewrite <-app_assoc|by rewrite <-app_assoc].
  - intros y Hy. apply StronglySorted_app_iff in Hs as (_ & _ & Hc). apply Hc; [done|by left].
Qed.

(** A sorted list stays as it is. *)
Lemma sort_stable_id {A} (less : A -> A -> bool) l : sorted_by less l -> sort_stable less l = l.
Proof. intros Hs. by apply (sort_stable_app less l []). Qed.

Lemma insert_stable_map {A B} (f : A -> B) (lessA : A -> A -> bool) (lessB : B -> B -> bool) x l :
  (forall y, y ∈ l -> lessB (f x) (f y) = lessA x y) -> map f (insert_stable lessA x l) = insert_stable lessB (f x) (map f l).
Proof.
  induction l as [|y l IH]; intros Hl; cbn; [done|]. rewrite (Hl y) by (by left). destruct (lessA x y); cbn; [done|].
  f_equal. apply IH. intros z Hz. apply Hl. by right.
Qed.

(** Sorting commutes with a map that keeps the order. *)
Lemma sort_stable_map {A B} (f : A -> B) (lessA : A -> A -> bool) (lessB : B -> B -> bool) l :
  (forall x y, x ∈ l -> y ∈ l -> lessB (f x) (f y) = lessA x y) -> map f (sort_stable lessA l) = sort_stable lessB (map f l).
Proof.
  intros Hl. unfold sort_stable. change (@nil B) with (map f []).
  assert (Hacc : forall x y, x ∈ l -> y ∈ [] ++ l -> lessB (f x) (f y) = lessA x y) by done.
  clear Hl. revert Hacc. generalize (@nil A) as acc. induction l as [|x l IH]; intros acc Hl; cbn; [done|].
  rewrite IH.
  - f_equal. apply insert_stable_map. intros y Hy. apply Hl; [by left|]. apply elem_of_app. by left.
  - intros u v Hu Hv. apply Hl; [by right|]. rewrite insert_stable_perm in Hv. set_solver.
Qed.

Lemma NoDup_map_filter {A B} (f : A -> B) (p : A -> bool) l : NoDup (map f l) -> NoDup (map f (List.filter p l)).
Proof.
  induction l as [|x l IH]; cbn; [done|]. intros [Hx Hl]%NoDup_cons. destruct (p x); cbn; [|by apply IH]. constructor; [|by apply IH].
  intros Hin. apply Hx. apply list_elem_of_In, in_map_iff in Hin as (y & <- & Hin). apply List.filter_In in Hin as [Hin _].
  by apply list_elem_of_In, in_map.
Qed.

(** ** The order of the rows *)

(** PostgreSQL's order on doubles, NaN last. *)
Definition fkey0 (f : float64) : Z := match f with S754_nan => 1 | _ => 0 end.

Lemma sql_double_cmp_keys f g :
  sql_double_cmp f g = lex (asc fkey0) (lex (asc fkey1) (lex (asc fkey2) (asc fkey3))) f g.
Proof.
  assert (HN : forall h : float64, h = S754_nan \/ h <> S754_nan) by (intros []; by (left + right)).
  destruct (HN f) as [->|Hf], (HN g) as [->|Hg]; [done|by destruct g|by destruct f|].
  unfold sql_double_cmp. rewrite !sql_double by done. unfold lex at 1. replace (asc fkey0 f g) with Eq by (by destruct f, g).
  rewrite <-fcmp_keys by done. destruct (fcmp_bool f g Hf Hg) as [_ ->], (fcmp_bool g f Hg Hf) as [_ ->].
  unfold lt_of. rewrite (cl_opp _ _ fcmp_laws f g) by done. by destruct (fcmp f g).
Qed.

Lemma sql_double_laws : CmpLaws (fun _ => True) sql_double_cmp.
Proof.
  assert (L : CmpLaws (fun _ => True) (lex (asc fkey0) (lex (asc fkey1) (lex (asc fkey2) (asc fkey3))))) by (repeat apply lex_laws; apply asc_laws).
  split; intros *; rewrite !sql_double_cmp_keys; [apply (cl_opp _ _ L)|apply (cl_le_trans _ _ L)].
Qed.

Section Order.
Context `{CollationLaws}.

Lemma coll_cmp_laws : CmpLaws (fun _ => True) coll_cmp.
Proof.
  split.
  - intros a b _ _. unfold coll_cmp. destruct (coll_total a b) as [->| ->]; by destruct (coll_le _ _).
  - intros a b c _ _ _. unfold coll_cmp. pose proof (coll_trans a b c) as Ht.
    destruct (coll_le a b); [|done]. destruct (coll_le b c); [|by destruct (coll_le b a)]. rewrite Ht by done. by destruct (coll_le c a).
Qed.

Lemma coll_cmp_eq a b : coll_cmp a b = Eq -> a = b.
Proof. unfold coll_cmp. destruct (coll_le a b) eqn:E1, (coll_le b a) eqn:E2; try done. intros _. by apply coll_antisym. Qed.

Lemma cmp_column_laws c : CmpLaws (fun _ => True) (cmp_column c).
Proof.
  destruct c; cbn [cmp_column]; try apply asc_laws.
  - apply (pull_laws _ (fun _ => True) sql_double_cmp (fun r => so_correctness (rk_row r))); [apply sql_double_laws|done].
  - apply (pull_laws _ (fun _ => True) coll_cmp (fun r => so_team (rk_row r))); [apply coll_cmp_laws|done].
  - apply (pull_laws _ (fun _ => True) coll_cmp rk_group); [apply coll_cmp_laws|done].
Qed.

Lemma cmp_order_laws o : CmpLaws (fun _ => True) (cmp_order o).
Proof.
  induction o as [|[c []] o IH]; [by split| |]; apply lex_laws; try done; [apply cmp_column_laws|apply flip_laws, cmp_column_laws].
Qed.

Lemma order_sw o : StrictWeakOn (fun _ => True) (lt_of (cmp_order o)).
Proof. apply lt_of_sw, cmp_order_laws. Qed.

End Order.

(** ** One page *)

Section Reading.
Context `{CollationLaws} `{ILike} `{Unicode} `{UnicodeLower} `{CursorJSONLaws} `{ResponseJSON}.

(** The answers of a database that does not change, [None] before the table
    is created, and of an empty cache. *)
Definition reply (d : option BoardDB) (X : Type) (c : rcall X) : X :=
  match c in rcall X return X with
  | QueryBoard q o n k => match d with Some d => Scanned (select_board d q o n k) | None => UndefinedTable end
  | CacheGet _ => inr None
  | CacheSet _ _ _ => true
  | Answer _ _ => tt
  end.

Fixpoint exec {A} (d : option BoardDB) (p : Prog rcall A) : A :=
  match p with Ret a => a | Call c k => exec d (k (reply d _ c)) end.

Definition order_of (q : LeaderboardQuery) : OrderBy := leaderboardOrderBy (q_Sort q) (q_Order q).

Lemma collect_rows limit rows : 0 <= limit -> forall kept more, Z.of_nat (length kept) <= limit ->
  foldl (collect_row limit) (kept, more) rows =
  (kept ++ map leaderboard_row (take (Z.to_nat limit - length kept) rows),
   more || bool_decide (limit < Z.of_nat (length kept + length rows))).
Proof.
  intros Hlim. induction rows as [|r rows IH]; intros kept more Hk; cbn [foldl collect_row].
  - rewrite take_nil, app_nil_r. rewrite bool_decide_eq_false_2 by (cbn; lia). by rewrite orb_false_r.
  - destruct (Z.ltb_spec (Z.of_nat (length kept)) limit) as [Hlt|Hge].
    + rewrite IH by (rewrite length_app; cbn; lia). rewrite length_app. cbn [length].
      replace (Z.to_nat limit - length kept)%nat with (S (Z.to_nat limit - (length kept + 1)))%nat by lia. cbn [take map].
      rewrite <-app_assoc. repeat f_equal. by rewrite <-Nat.add_assoc.
    + rewrite IH by lia. replace (Z.to_nat limit - length kept)%nat with 0%nat by lia. cbn [take]. f_equal. cbn [length].
      rewrite (bool_decide_eq_true_2 (limit < Z.of_nat (length kept + S (length rows)))) by lia. by rewrite orb_true_r.
Qed.

Lemma effective_limit_range l : 1 <= effective_limit l <= maxLeaderboardRows.
Proof. unfold effective_limit, maxLeaderboardRows, defaultLeaderboardRows. case_match; lia. Qed.

(** A page: at most [limit] rows from [offset] on, and a cursor exactly when
    there are more. *)
Lemma page d q offset :
  decodeLeaderboardCursor (q_Cursor q) = Some offset -> 0 <= offset ->
  let limit := effective_limit (q_Limit q) in
  let rest := drop (Z.to_nat offset) (board_rows d q (order_of q)) in
  exec (Some d) (Leaderboard q) =
  inr (mkLResponse "frozen" (map leaderboard_row (take (Z.to_nat limit) rest))
    (if bool_decide (limit < Z.of_nat (length rest)) then encodeLeaderboardCursor (offset + limit) else "")).
Proof.
  intros Hc Ho limit rest. pose proof (effective_limit_range (q_Limit q)) as Hl. fold limit in Hl.
  unfold Leaderboard. rewrite Hc. cbn [bind ask exec reply]. fold limit. unfold response_of, select_board. change (leaderboardOrderBy _ _) with (order_of q). fold rest.
  rewrite collect_rows by (cbn; lia). cbn [length app orb]. rewrite take_take, Nat.sub_0_r, Nat.min_l by lia. do 2 f_equal.
  rewrite length_take. replace (bool_decide (limit < Z.of_nat (0 + Z.to_nat (limit + 1) `min` length rest))) with (bool_decide (limit < Z.of_nat (length rest))); [done|].
  apply bool_decide_ext. lia.
Qed.

(** ** Cursors *)

Lemma forall_rev_app f s t : forall_bytes f (String.rev_app s t) = forall_bytes f s && forall_bytes f t.
Proof. revert t. induction s as [|c s IH]; intros t; cbn; [done|]. rewrite IH. cbn. destruct (f c), (forall_bytes f s); by rewrite ?andb_false_r. Qed.

Lemma rev_app_empty s t : String.rev_app s t = ""%string -> s = ""%string /\ t = ""%string.
Proof. revert t. induction s as [|c s IH]; intros t; cbn; [done|]. intros [_ [=]]%IH. Qed.

Lemma trim_left_empty s : trim_left s = ""%string -> forall_bytes asciiSpace s = true.
Proof. induction s as [|c s IH]; cbn; [done|]. destruct (asciiSpace c); [done|discriminate]. Qed.

Lemma visible_trim s : Forall (fun c => 33 <= c < 128) (bytes s) -> TrimSpace s = ""%string -> s = ""%string.
Proof.
  intros Hv. assert (Ha : forall_bytes isASCII s = true /\ forall_bytes (fun c => negb (asciiSpace c)) s = true).
  { induction s as [|c s IH]; [done|]. cbn [bytes] in Hv. apply Forall_cons in Hv as [Hc Hv]. destruct (IH Hv) as [I1 I2].
    cbn [forall_bytes]. rewrite I1, I2. unfold isASCII, asciiSpace. unfold byte_of in Hc.
    split; apply andb_true_iff; (split; [|done]); [apply N.ltb_lt; lia|].
    apply negb_true_iff, orb_false_iff. split; [|apply N.eqb_neq; lia]. apply andb_false_iff. right. apply N.leb_gt. lia. }
  destruct Ha as [Ha Hs]. unfold TrimSpace. rewrite Ha. unfold trim. destruct s as [|c s]; [done|]. cbn [trim_left forall_bytes] in Hs |- *.
  apply andb_true_iff in Hs as [Hc Hs]. apply negb_true_iff in Hc. rewrite Hc. intros [He _]%rev_app_empty. apply trim_left_empty in He.
  unfold String.rev in He. rewrite forall_rev_app in He. cbn [forall_bytes] in He.
  by rewrite Hc in He.
Qed.

Lemma cursor_roundtrip n :
  - 2 ^ 63 <= n < 2 ^ 63 ->
  decodeLeaderboardCursor (encodeLeaderboardCursor n) = (if bool_decide (0 <= n <= maxLeaderboardOffset) then Some n else None) /\
  encodeLeaderboardCursor n <> ""%string.
Proof.
  intros Hn. assert (Hne : encodeLeaderboardCursor n <> ""%string) by done. split; [|done].
  unfold decodeLeaderboardCursor. rewrite bool_decide_eq_false_2.
  - unfold encodeLeaderboardCursor. rewrite RawURL_roundtrip, cursor_unmarshal by done.
    case_bool_decide; [rewrite (proj2 (orb_false_iff _ _))|rewrite (proj2 (orb_true_iff _ _))]; try done; lia.
  - intros Ht%visible_trim; [done|]. apply encoded_visible.
Qed.

(** ** Following the cursors *)

Definition at_cursor (q : LeaderboardQuery) (cursor : string) : LeaderboardQuery :=
  mkQuery (q_Limit q) (q_Sort q) (q_Order q) cursor (q_RunGroupID q) (q_SubmissionID q) (q_ContestantID q) (q_TeamID q) (q_TeamName q)
    (q_Scenario q).

(** A client that asks for page after page. *)
Fixpoint follow (fuel : nat) (d : BoardDB) (q : LeaderboardQuery) : option (list LeaderboardRow) :=
  match exec (Some d) (Leaderboard q) with
  | inl _ => None
  | inr resp =>
      if bool_decide (rs_NextCursor resp = ""%string) then Some (rs_Rows resp)
      else match fuel with
           | O => None
           | S fuel => app (rs_Rows resp) <$> follow fuel d (at_cursor q (rs_NextCursor resp))
           end
  end.

Section Follow.
Variable d : BoardDB.
Variable q : LeaderboardQuery.

Let rows := board_rows d q (order_of q).
Let n := Z.of_nat (length rows).
Let L := effective_limit (q_Limit q).

(** Where the last page starts. *)
Let last_offset := L * ((n - 1) / L).

Lemma page_at cursor offset :
  decodeLeaderboardCursor cursor = Some offset -> 0 <= offset ->
  exec (Some d) (Leaderboard (at_cursor q cursor)) =
  inr (mkLResponse "frozen" (map leaderboard_row (take (Z.to_nat L) (drop (Z.to_nat offset) rows)))
    (if bool_decide (offset + L < n) then encodeLeaderboardCursor (offset + L) else "")).
Proof.
  intros Hc Ho. rewrite (page d (at_cursor q cursor) offset Hc Ho). cbn [q_Limit q_Sort q_Order at_cursor order_of].
  change (board_rows d (at_cursor q cursor) (order_of (at_cursor q cursor))) with rows. fold L. do 2 f_equal.
  rewrite length_drop. erewrite bool_decide_ext; [done|]. pose proof (effective_limit_range (q_Limit q)). unfold n. lia.
Qed.

Lemma next_offset j : L * j + L < n -> L * (j + 1) <= last_offset.
Proof.
  intros Hlt. pose proof (effective_limit_range (q_Limit q)) as HL. fold L in HL. unfold last_offset. apply Z.mul_le_mono_nonneg_l; [lia|].
  apply Z.div_le_lower_bound; lia.
Qed.

Lemma next_cursor j :
  0 <= L * j <= maxLeaderboardOffset ->
  decodeLeaderboardCursor (encodeLeaderboardCursor (L * j + L)) = (if bool_decide (L * (j + 1) <= maxLeaderboardOffset) then Some (L * (j + 1)) else None) /\
  encodeLeaderboardCursor (L * j + L) <> ""%string.
Proof.
  intros Hj. pose proof (effective_limit_range (q_Limit q)) as HL. fold L in HL. unfold maxLeaderboardOffset, maxLeaderboardRows in *.
  replace (L * j + L) with (L * (j + 1)) by lia. destruct (cursor_roundtrip (L * (j + 1))) as [-> Hne]; [lia|]. split; [|done].
  erewrite bool_decide_ext; [done|]. unfold maxLeaderboardOffset. lia.
Qed.

Lemma follow_all fuel : forall j cursor, 0 <= j -> decodeLeaderboardCursor cursor = Some (L * j) -> 0 <= L * j <= maxLeaderboardOffset ->
  last_offset <= maxLeaderboardOffset -> n - L * j <= Z.of_nat fuel ->
  follow fuel d (at_cursor q cursor) = Some (map leaderboard_row (drop (Z.to_nat (L * j)) rows)).
Proof.
  pose proof (effective_limit_range (q_Limit q)) as HL. fold L in HL.
  induction fuel as [|fuel IH]; intros j cursor Hj Hc Hr Hlast Hf; cbn [follow]; rewrite (page_at _ _ Hc) by lia; cbn [rs_NextCursor rs_Rows].
  all: destruct (decide (L * j + L < n)) as [Hmore|Hmore];
    [rewrite (bool_decide_eq_true_2 _ Hmore)|rewrite (bool_decide_eq_false_2 _ Hmore); cbn; by rewrite take_ge by (rewrite length_drop; lia)].
  - lia.
  - destruct (next_cursor j Hr) as [Hd Hne]. rewrite bool_decide_eq_false_2 by done.
    pose proof (next_offset j Hmore) as Hnext. rewrite bool_decide_eq_true_2 in Hd by lia.
    change (at_cursor (at_cursor q cursor) ?c) with (at_cursor q c). rewrite (IH (j + 1)); [|lia|done|lia..]. cbn [fmap option_fmap option_map].
    rewrite <-map_app. do 2 f_equal. replace (Z.to_nat (L * (j + 1))) with (Z.to_nat (L * j) + Z.to_nat L)%nat by lia.
    rewrite <-drop_drop. apply take_drop.
Qed.

Lemma before_last j : L * j < last_offset -> L * j + L < n.
Proof.
  pose proof (effective_limit_range (q_Limit q)) as HL. fold L in HL. unfold last_offset. intros Hlast.
  assert (Hjl : j + 1 <= (n - 1) / L) by nia. pose proof (Z.mul_div_le (n - 1) L ltac:(lia)). nia.
Qed.

Lemma follow_refused fuel : forall j cursor, 0 <= j -> decodeLeaderboardCursor cursor = Some (L * j) -> 0 <= L * j <= maxLeaderboardOffset ->
  maxLeaderboardOffset < last_offset -> follow fuel d (at_cursor q cursor) = None.
Proof.
  pose proof (effective_limit_range (q_Limit q)) as HL. fold L in HL.
  induction fuel as [|fuel IH]; intros j cursor Hj Hc Hr Hlast; cbn [follow]; rewrite (page_at _ _ Hc) by lia; cbn [rs_NextCursor rs_Rows];
    rewrite (bool_decide_eq_true_2 (L * j + L < n)) by (apply before_last; lia); destruct (next_cursor j Hr) as [Hd Hne];
    rewrite bool_decide_eq_false_2 by done; [done|].
  change (at_cursor (at_cursor q cursor) ?c) with (at_cursor q c).
  case_bool_decide as Hin; [by rewrite (IH (j + 1)) by (done || lia)|].
  destruct fuel; cbn [follow]; unfold Leaderboard at 1; cbn [q_Cursor at_cursor]; by rewrite Hd.
Qed.

End Follow.

Lemma ranked_group (d : BoardDB) : map rk_group (ranked d) = map rk_group (order_rows rankedOrder (unranked d)).
Proof.
  unfold ranked. generalize (order_rows rankedOrder (unranked d)) as l. intros l. change (map rk_group (imap set_rank l)) with (rk_group <$> imap set_rank l).
  rewrite fmap_imap. apply list_eq. intros i. rewrite list_lookup_imap, list_lookup_fmap. by destruct (l !! i).
Qed.

Lemma ranked_nodup (d : BoardDB) : NoDup (map rk_group (ranked d)).
Proof.
  rewrite ranked_group. unfold order_rows. rewrite sort_stable_perm. unfold unranked. rewrite map_map. cbn. apply NoDup_fst_map_to_list.
Qed.

Lemma board_rows_perm d q o : board_rows d q o ≡ₚ List.filter (board_match d q) (ranked d).
Proof. apply sort_stable_perm. Qed.

Lemma at_own_cursor q : at_cursor q (q_Cursor q) = q.
Proof. by destruct q. Qed.

(** C36: pages are complete.  For a table that does not change meanwhile, and
    any filter, sort field and page size, the rows of a query are those of the
    table that match, each once, in the order asked for; a client that follows
    the cursors from the first page on gets exactly these rows, as long as the
    last page starts no later than the largest offset the service accepts;
    beyond it, a cursor the service handed out is refused. *)
Theorem paging_complete d q fuel :
  q_Cursor q = ""%string ->
  let all := board_rows d q (order_of q) in
  let limit := effective_limit (q_Limit q) in
  let n := Z.of_nat (length all) in
  (n <= Z.of_nat fuel -> follow fuel d q =
     if bool_decide (limit * ((n - 1) / limit) <= maxLeaderboardOffset) then Some (map leaderboard_row all) else None) /\
  (forall r, r ∈ all <-> r ∈ ranked d /\ board_match d q r = true) /\
  NoDup (map lr_RunGroupID (map leaderboard_row all)) /\
  sorted_by (lt_of (cmp_order (order_of q))) all.
Proof.
  intros Hc all limit n. split; [|split; [|split]].
  - intros Hf. assert (Hd : decodeLeaderboardCursor "" = Some (limit * 0)) by (by rewrite Z.mul_0_r).
    rewrite <-(at_own_cursor q), Hc. case_bool_decide as Hl.
    + rewrite (follow_all d q fuel 0); [by rewrite Z.mul_0_r|lia|done|unfold maxLeaderboardOffset; lia|done|].
      fold limit all. fold n. lia.
    + apply (follow_refused d q fuel 0); [lia|done|unfold maxLeaderboardOffset; lia|]. fold limit all. fold n. lia.
  - intros r. unfold all. rewrite board_rows_perm. rewrite !list_elem_of_In. apply List.filter_In.
  - rewrite map_map. change (fun x => lr_RunGroupID (leaderboard_row x)) with rk_group. unfold all. rewrite board_rows_perm.
    apply NoDup_map_filter, ranked_nodup.
  - apply (sort_stable_sorted (fun _ => True)); [apply order_sw|]. by apply Forall_true.
Qed.

End Reading.

(** ** The default leaderboard *)

Section Default.
Context `{SortSlice} `{MapRange} `{Collation} `{SpecsJSON} `{ILike} `{Unicode} `{UnicodeLower} `{CursorJSONLaws} `{ResponseJSON}.
Hypothesis bytewise : forall a b, coll_le a b = String.leb a b.

#[local] Instance bytewise_laws : CollationLaws.
Proof.
  destruct Collation_C_laws as [Ht Htr Ha]. split; intros *; rewrite !bytewise; [apply Ht|apply Htr|apply Ha].
Qed.

(** The two services order the table alike. *)
Lemma ranked_before (d : BoardDB) a b :
  lt_of (cmp_order rankedOrder) (mkRanked 0 a.1 a.2 (bd_computed_at d a.1)) (mkRanked 0 b.1 b.2 (bd_computed_at d b.1)) = rank_before a b.
Proof.
  destruct a as [ga ra], b as [gb rb]. unfold lt_of, rank_before, rankedOrder. cbn [cmp_order]. unfold lex.
  cbn [cmp_column]. unfold asc. cbn [rk_row rk_group fst snd]. unfold sql_double_cmp, coll_cmp. rewrite !Z.eqb_compare, !Z.ltb_compare.
  destruct (so_disqualified ra), (so_disqualified rb); cbn; try done.
  all: rewrite (Z.compare_antisym (so_peak rb) (so_peak ra)); destruct (so_peak rb ?= so_peak ra); cbn; try done.
  all: destruct (so_p99 ra ?= so_p99 rb); cbn; try done.
  all: destruct (so_recovery ra ?= so_recovery rb); cbn; try done.
  all: destruct (sql_double_gt (so_correctness rb) (so_correctness ra)) eqn:E1, (sql_double_gt (so_correctness ra) (so_correctness rb)) eqn:E2; cbn; try done.
  all: try (pose proof (cl_opp _ _ sql_double_laws (so_correctness ra) (so_correctness rb) I I) as Ho; unfold sql_double_cmp in Ho; by rewrite E1, E2 in Ho).
  all: destruct (coll_le ga gb) eqn:E3, (coll_le gb ga) eqn:E4; try done; destruct (coll_total ga gb); congruence.
Qed.

Definition defaultOrder : OrderBy := [(ColDisqualified, ASC); (ColRank, ASC); (ColRunGroup, ASC)].

Lemma cacheable_order q : cacheableLeaderboard q = true -> order_of q = defaultOrder.
Proof.
  unfold cacheableLeaderboard. rewrite !andb_true_iff, !orb_true_iff, !bool_decide_eq_true. intros [[_ Hs] Ho].
  unfold order_of, leaderboardOrderBy. by destruct Hs as [-> | ->], Ho as [-> | ->].
Qed.

Lemma cacheable_match d q r : cacheableLeaderboard q = true -> q_Scenario q = ""%string -> board_match d q r = true.
Proof.
  unfold cacheableLeaderboard. rewrite !andb_true_iff, !bool_decide_eq_true. intros [[[[[[[Hc Hg] Hs] Hco] Ht] Htn] _] _] Hsc.
  unfold board_match, contestantFilter. by rewrite Hg, Hs, Hco, Ht, Htn, Hsc.
Qed.

(** The ranking puts the disqualified last. *)
Lemma rank_disqualified x y :
  lt_of (cmp_order rankedOrder) y x = false -> Z.b2z (so_disqualified (rk_row x)) <= Z.b2z (so_disqualified (rk_row y)).
Proof.
  unfold lt_of, rankedOrder. cbn [cmp_order]. unfold lex at 1. cbn [cmp_column]. unfold asc at 1.
  destruct (Z.compare_spec (Z.b2z (so_disqualified (rk_row y))) (Z.b2z (so_disqualified (rk_row x)))); [lia|done|lia].
Qed.

Lemma ranked_sorted k l : sorted_by (lt_of (cmp_order rankedOrder)) l -> sorted_by (lt_of (cmp_order defaultOrder)) (imap (fun i => set_rank (k + i)) l).
Proof.
  intros Hs. revert k. induction Hs as [|x l Hs IH Hx]; intros k; cbn; [constructor|]. constructor.
  - eapply (eq_ind _ (sorted_by _)); [apply (IH (S k))|]. apply imap_ext. intros i y _. cbn. f_equal. lia.
  - apply Forall_forall. intros y Hy. apply elem_of_lookup_imap in Hy as (i & z & -> & Hz). rewrite Forall_forall in Hx.
    assert (Hd := rank_disqualified x z (Hx z (list_elem_of_lookup_2 _ _ _ Hz))).
    unfold lt_of, defaultOrder. cbn [cmp_order]. unfold lex. cbn [cmp_column]. unfold asc, compose. cbn [rk_row set_rank rk_rank].
    destruct (Z.compare_spec (Z.b2z (so_disqualified (rk_row z))) (Z.b2z (so_disqualified (rk_row x)))); [|lia|done].
    destruct (Z.compare_spec (1 + Z.of_nat (k + S i)) (1 + Z.of_nat (k + 0))); [lia|lia|done].
Qed.

(** Without filters and in the default order, the rows are the ranking. *)
Lemma default_rows d q : cacheableLeaderboard q = true -> q_Scenario q = ""%string -> board_rows d q (order_of q) = ranked d.
Proof.
  intros Hc Hs. unfold board_rows. rewrite (forallb_filter_id (board_match d q)).
  - rewrite cacheable_order by done. apply sort_stable_id. apply (ranked_sorted 0). apply (sort_stable_sorted (fun _ => True)); [apply order_sw|by apply Forall_true].
  - apply forallb_forall. intros r _. by apply cacheable_match.
Qed.

(** What a row shows of a result. *)
Record shows (rank : Z) (res : Result) (row : LeaderboardRow) : Prop := {
  sh_rank : lr_Rank row = rank;
  sh_group : lr_RunGroupID row = res_RunGroupID res;
  sh_peak : lr_PeakSustainedTPS row = nonNegativeUint64 (res_PeakSustainedTPS res);
  sh_p99 : lr_P99NSAtPeakTPS row = nonNegativeUint64 (res_P99AtPeakNS res);
  sh_recovery : lr_SpikeRecoveryNS row = nonNegativeUint64 (res_SpikeRecoveryNS res);
  sh_correct : lr_TotalCorrectness row = res_TotalCorrectness res;
  sh_dq : lr_Disqualified row = res_Disqualified res }.

Definition details (rows : list Ranked) : list Result := map (fun r => so_detail (rk_row r)) rows.

Lemma ordered_details d :
  (forall g row, scores (bd_db d) !! g = Some row -> faithful_row (so_detail row) row /\ res_RunGroupID (so_detail row) = g) ->
  details (order_rows rankedOrder (unranked d)) = SortResults (stored_results (bd_db d)).
Proof.
  intros Hrow. unfold details, order_rows, SortResults, stored_results.
  rewrite (sort_stable_map _ _ result_less); [unfold unranked; by rewrite map_map|].
  intros x y Hx Hy. unfold unranked in Hx, Hy.
  apply list_elem_of_In, in_map_iff in Hx as ([ga ra] & <- & Hx%list_elem_of_In%elem_of_map_to_list).
  apply list_elem_of_In, in_map_iff in Hy as ([gb rb] & <- & Hy%list_elem_of_In%elem_of_map_to_list).
  rewrite (ranked_before d (ga, ra) (gb, rb)). symmetry. destruct (Hrow _ _ Hx), (Hrow _ _ Hy). by apply rank_before_less.
Qed.

(** C37: the page everyone sees is score-computer's ranking.  However scoring
    went, with text compared byte by byte, a client that follows the default
    leaderboard of the stored scores gets the results in the order of
    [SortResults], ranked 1, 2, 3, ..., each with the figures that were
    computed for it. *)
Theorem board_is_leaderboard s d q fuel :
  sreached s -> bd_db d = h_db (s_shared s) -> cacheableLeaderboard q = true -> q_Scenario q = ""%string ->
  let results := SortResults (stored_results (h_db (s_shared s))) in
  (length results <= fuel)%nat -> Z.of_nat (length results) <= maxLeaderboardOffset ->
  exists rows, follow fuel d q = Some rows /\ length rows = length results /\
    forall i res, results !! i = Some res -> exists row, rows !! i = Some row /\ shows (1 + Z.of_nat i) res row.
Proof.
  intros [toks [_ _ _ _ Hrow]]%sreached_inv Hd Hc Hs results Hf Hmax. rewrite <-Hd in Hrow. set (l := order_rows rankedOrder (unranked d)).
  assert (Hl : details l = results) by (unfold results; rewrite <-Hd; by apply ordered_details).
  assert (Hlen : length results = length l) by (rewrite <-Hl; apply length_map).
  exists (map leaderboard_row (ranked d)). split; [|split].
  - assert (Hcur : q_Cursor q = ""%string).
    { unfold cacheableLeaderboard in Hc. rewrite !andb_true_iff, !bool_decide_eq_true in Hc. tauto. }
    rewrite <-(at_own_cursor q), Hcur. pose proof (effective_limit_range (q_Limit q)) as HL.
    assert (Hn : length (board_rows d q (order_of q)) = length results) by (rewrite default_rows by done; unfold ranked; by rewrite length_imap).
    rewrite (follow_all d q fuel 0); rewrite ?Z.mul_0_r; [|lia|done|unfold maxLeaderboardOffset; lia| |lia].
    + rewrite drop_0. do 2 f_equal. by apply default_rows.
    + rewrite Hn. etrans; [apply Z.mul_div_le; lia|lia].
  - unfold ranked. by rewrite length_map, length_imap.
  - intros i res Hi. rewrite <-Hl in Hi. unfold details in Hi. apply list_lookup_fmap_Some in Hi as (r & -> & Hr).
    exists (leaderboard_row (set_rank i r)). split.
    { rewrite list_lookup_fmap. unfold ranked. rewrite list_lookup_imap. fold l. by rewrite Hr. }
    assert (Hin : r ∈ unranked d) by (apply list_elem_of_lookup_2 in Hr; unfold l, order_rows in Hr; by rewrite sort_stable_perm in Hr).
    unfold unranked in Hin. apply list_elem_of_In, in_map_iff in Hin as ([g row] & <- & Hg%list_elem_of_In%elem_of_map_to_list).
    destruct (Hrow _ _ Hg) as [[_ Hp Hp99 Hre Hco Hdq _] Hid]. split; cbn; congruence.
Qed.

End Default.
