(* ===== verification/BoardCache.v ===== *)
(** * leaderboard-api: how old a cached page can be

    Requests run concurrently against a database that changes and a cache
    whose calls fail, that evicts when it likes, and that drops an entry when
    its time is over. *)

From Stdlib Require Import Ascii.
From stdpp Require Import prelude gmap strings list pretty relations.
From S2P Require Import Prelude Prog GoSort Ordering Topics Archive Scenarios SubStore Scoring Base64 Board BoardProps.

Open Scope Z_scope.
Open Scope prog_scope.

(** ** Keys *)

Lemma colon_inj a b s t :
  forall_bytes (fun c => negb (Ascii.eqb c ":")) a = true -> forall_bytes (fun c => negb (Ascii.eqb c ":")) b = true ->
  a +:+ ":" +:+ s = b +:+ ":" +:+ t -> a = b /\ s = t.
Proof.
  revert b. induction a as [|c a IH]; intros [|c' b]; sapp; rewrite ?andb_true_iff, ?negb_true_iff.
  - intros _ _ [= ->]. done.
  - intros _ [Hc _] [= <- _]. by rewrite Ascii.eqb_refl in Hc.
  - intros [Hc _] _ [= -> _]. by rewrite Ascii.eqb_refl in Hc.
  - intros [_ Ha] [_ Hb] [= -> He]. by destruct (IH b Ha Hb He) as [-> ->].
Qed.

Lemma pretty_chars f (n : N) : (forall k, f (pretty_N_char k) = true) -> forall_bytes f (pretty n) = true.
Proof.
  intros Hf. unfold pretty, pretty_N. case_decide; [cbn [forall_bytes]; by rewrite (Hf 0%N : f "0"%char = true)|].
  assert (Hgo : forall s, forall_bytes f s = true -> forall_bytes f (pretty_N_go n s) = true); [|by apply Hgo].
  induction (N.lt_wf_0 n) as [n _ IH]. intros s Hs.
  destruct (decide (n = 0%N)) as [->|]; [by rewrite pretty_N_go_0|]. rewrite pretty_N_go_step by lia.
  destruct (decide (n `div` 10 = 0)%N) as [->|].
  - rewrite pretty_N_go_0. cbn [forall_bytes]. by rewrite Hf.
  - apply IH; [by apply N.div_lt; lia|lia|]. cbn [forall_bytes]. by rewrite Hf.
Qed.

Lemma limit_no_colon l : forall_bytes (fun c => negb (Ascii.eqb c ":")) (pretty (effective_limit l)) = true.
Proof.
  pose proof (effective_limit_range l) as Hl. destruct (effective_limit l) as [|p|p]; [lia| |lia].
  change (pretty (Zpos p)) with (pretty (Npos p)). apply pretty_chars. intros k. unfold pretty_N_char. by repeat case_match.
Qed.

Section Keys.
Context `{Collation} `{ILike} `{Unicode} `{UnicodeLower} `{CursorJSON} `{ResponseJSON}.

(** A scenario written as the database has it, and none called "all". *)
Definition plain_scenario (q : LeaderboardQuery) : Prop := TrimSpace (q_Scenario q) = q_Scenario q /\ q_Scenario q <> "all"%string.

Lemma key_inj q q' :
  plain_scenario q -> plain_scenario q' -> leaderboardCacheKey q = leaderboardCacheKey q' ->
  effective_limit (q_Limit q) = effective_limit (q_Limit q') /\ q_Scenario q = q_Scenario q'.
Proof.
  intros [Ht Ha] [Ht' Ha'] Hk. unfold leaderboardCacheKey in Hk. apply (inj (String.append _)) in Hk.
  apply colon_inj in Hk as [Hl Hs]; [|apply limit_no_colon..]. rewrite Ht, Ht' in Hs. apply (inj pretty) in Hl. split; [done|].
  repeat case_bool_decide; congruence.
Qed.

(** Cacheable queries with the same key have the same answer. *)
Lemma same_key_same_answer d q q' :
  cacheableLeaderboard q = true -> cacheableLeaderboard q' = true -> plain_scenario q -> plain_scenario q' ->
  leaderboardCacheKey q = leaderboardCacheKey q' -> exec d (Leaderboard q) = exec d (Leaderboard q').
Proof.
  intros Hc Hc' Hp Hp' Hk. destruct (key_inj q q' Hp Hp' Hk) as [Hl Hs].
  pose proof (cacheable_order q Hc) as Ho. pose proof (cacheable_order q' Hc') as Ho'. unfold order_of in Ho, Ho'.
  unfold cacheableLeaderboard in Hc, Hc'. rewrite !andb_true_iff, !bool_decide_eq_true in Hc, Hc'. destruct_and!.
  unfold Leaderboard. rewrite Hl, Ho, Ho'. replace (q_Cursor q') with (q_Cursor q) by congruence.
  destruct (decodeLeaderboardCursor _) as [offset|]; [|done]. cbn [bind ask exec reply]. destruct d as [d|]; [|done].
  do 2 f_equal. unfold select_board, board_rows. do 5 f_equal. apply List.filter_ext. intros r. unfold board_match, contestantFilter.
  rewrite Hs. repeat match goal with E : _ = ""%string |- _ => rewrite !E; clear E end. done.
Qed.

End Keys.

(** ** Requests, cache and time *)

Section Fresh.
Context `{Collation} `{ILike} `{Unicode} `{UnicodeLower} `{CursorJSON} `{ResponseJSON}.

(** The database at each instant, and how long a request may take. *)
Variable dbs : Z -> option BoardDB.
Variable D : Z.

(** The parameters of the requests that are made. *)
Variable made : (string -> string) -> Prop.

(** [c_cache]: value and instant of expiry; [c_log]: the answers given, with
    their instant. *)
Record Cached := mkCached {
  c_now : Z; c_cache : gmap string (payload * Z);
  c_log : list (Z * LeaderboardQuery * (BoardErr + LeaderboardResponse));
  c_threads : list (Z * Prog rcall unit) }.

(** A call at instant [t]: its answer, the cache and the answer log after it. *)
Definition serves (t : Z) (X : Type) (c : rcall X) (cache : gmap string (payload * Z)) :
    X -> gmap string (payload * Z) -> list (Z * LeaderboardQuery * (BoardErr + LeaderboardResponse)) -> Prop :=
  match c in rcall X return X -> _ -> _ -> Prop with
  | QueryBoard q o n k => fun x cache' out =>
      cache' = cache /\ out = [] /\
      (x = QueryFailed \/ (exists rows, x = Broken rows) \/ x = reply (dbs t) _ (QueryBoard q o n k))
  | CacheGet key => fun x cache' out =>
      cache' = cache /\ out = [] /\
      ((exists e, x = inl e) \/ x = inr None \/ exists v e, cache !! key = Some (v, e) /\ t < e /\ x = inr (Some v))
  | CacheSet key v ttl => fun x cache' out =>
      out = [] /\ (cache' = <[key := (v, t + ttl)]> cache \/ x = false /\ cache' = cache)
  | Answer q r => fun x cache' out => cache' = cache /\ out = [(t, q, r)]
  end.

Inductive cstep : Cached -> Cached -> Prop :=
  | CRequest s get : made get ->
      cstep s (mkCached (c_now s) (c_cache s) (c_log s) (c_threads s ++ [(c_now s, serve_Leaderboard get)]))
  | CMove s i start X (c : rcall X) k x cache' out :
      c_threads s !! i = Some (start, Call c k) -> c_now s <= start + D ->
      serves (c_now s) X c (c_cache s) x cache' out ->
      cstep s (mkCached (c_now s) cache' (c_log s ++ out) (<[i := (start, k x)]> (c_threads s)))
  | CTime s t : c_now s <= t -> cstep s (mkCached t (c_cache s) (c_log s) (c_threads s))
  | CEvict s cache' : cache' ⊆ c_cache s -> cstep s (mkCached (c_now s) cache' (c_log s) (c_threads s)).

Definition creached (s : Cached) : Prop := exists t, rtc cstep (mkCached t ∅ [] []) s.

(** ** What holds of the cache and of an answer *)

Definition base_answer (t : Z) (q : LeaderboardQuery) (resp : LeaderboardResponse) : Prop :=
  exec (dbs t) (Leaderboard q) = inr resp.

Definition entry_ok (key : string) (v : payload) (e now : Z) : Prop :=
  forall resp, unmarshal_response v = Some resp ->
  exists t0, t0 <= now /\ e <= t0 + D + cacheTTL /\
    forall q, plain_scenario q -> cacheableLeaderboard q = true -> leaderboardCacheKey q = key -> base_answer t0 q resp.

Definition fresh (t : Z) (q : LeaderboardQuery) (r : BoardErr + LeaderboardResponse) : Prop :=
  forall resp, r = inr resp -> exists t0, t - (cacheTTL + 2 * D) <= t0 <= t /\ base_answer t0 q resp.

(** One request by itself, the state being the instant it has reached. *)
Definition may (start : Z) (X : Type) (c : rcall X) (t : Z) : Prop :=
  forall t', t <= t' <= start + D ->
  match c with
  | CacheSet key v ttl => entry_ok key v (t' + ttl) t'
  | Answer q r => fresh t' q r
  | _ => True
  end.

Definition learns (start : Z) (X : Type) (c : rcall X) (t : Z) : X -> Z -> Prop :=
  match c in rcall X return X -> Z -> Prop with
  | QueryBoard q o n k => fun x t' => t <= t' <= start + D /\
      (x = QueryFailed \/ (exists rows, x = Broken rows) \/ x = reply (dbs t') _ (QueryBoard q o n k))
  | CacheGet key => fun x t' => t <= t' <= start + D /\ forall v, x = inr (Some v) -> exists e, t' < e /\ entry_ok key v e t'
  | CacheSet _ _ _ => fun x t' => t <= t' <= start + D
  | Answer _ _ => fun x t' => t <= t' <= start + D
  end.

Abbreviation runs_ok start p t Q := (wp (may start) (learns start) p t Q).

Hypothesis json_back : forall t q resp v, base_answer t q resp -> marshal_response resp = Some v -> unmarshal_response v = Some resp.
Hypothesis plain : forall get, made get -> plain_scenario (query_of get).

Lemma ok_Leaderboard start q t (Q : BoardErr + LeaderboardResponse -> Z -> Prop) :
  t <= start + D ->
  (forall t' r, t <= t' <= start + D -> (forall resp, r = inr resp -> base_answer t' q resp) -> Q r t') ->
  runs_ok start (Leaderboard q) t Q.
Proof.
  intros Ht HQ. unfold Leaderboard. destruct (decodeLeaderboardCursor _) as [offset|] eqn:Ec; [|by apply HQ].
  apply wp_bind, wp_ask; [done|]. intros x t' [Hr [->|[[rows ->]| ->]]]; [by apply HQ..|].
  assert (Hb : forall resp, exec (dbs t') (Leaderboard q) = inr resp -> base_answer t' q resp) by done.
  unfold Leaderboard in Hb. rewrite Ec in Hb. cbn [bind ask exec reply] in Hb |- *.
  destruct (dbs t'); apply HQ; try done; intros resp [= <-]; by apply Hb.
Qed.

(** An answer that stays fresh until the request is over. *)
Definition stays_fresh (start t : Z) (q : LeaderboardQuery) (r : BoardErr + LeaderboardResponse) : Prop :=
  forall t', t <= t' <= start + D -> fresh t' q r.

Lemma base_stays_fresh start t t' q r :
  start <= t -> t <= t' -> (forall resp, r = inr resp -> base_answer t q resp) -> stays_fresh start t' q r.
Proof. intros Hs Ht Hr t'' Ht'' resp ->. exists t. unfold cacheTTL. split; [lia|]. by apply Hr. Qed.

Lemma ok_read_through start q t (Q : BoardErr + LeaderboardResponse -> Z -> Prop) :
  start <= t <= start + D -> plain_scenario q -> cacheableLeaderboard q = true ->
  (forall t' r, t <= t' <= start + D -> stays_fresh start t' q r -> Q r t') ->
  runs_ok start (read_through cacheTTL (leaderboardCacheKey q) q) t Q.
Proof.
  intros Hs Hp Hc HQ. apply wp_bind, ok_Leaderboard; [lia|]. intros t1 [e|resp] Ht1 Hb.
  { apply HQ; [done|]. apply (base_stays_fresh start t1); [lia..|done]. }
  destruct (marshal_response resp) as [v|] eqn:Em; [|apply HQ; [done|]; apply (base_stays_fresh start t1); [lia..|done]].
  specialize (Hb resp eq_refl). apply wp_bind, wp_ask.
  - intros t2 Ht2 resp' Hresp'. rewrite (json_back _ _ _ _ Hb Em) in Hresp'. injection Hresp' as <-.
    exists t1. split; [lia|]. split; [lia|]. intros q' Hp' Hc' Hk. unfold base_answer in *. rewrite <-Hb. by apply same_key_same_answer.
  - intros x t2 Ht2. cbn [learns] in Ht2. apply HQ; [lia|]. apply (base_stays_fresh start t1); [lia..|]. by intros ? [= <-].
Qed.

Lemma ok_cached start q t (Q : BoardErr + LeaderboardResponse -> Z -> Prop) :
  start <= t <= start + D -> plain_scenario q ->
  (forall t' r, t <= t' <= start + D -> stays_fresh start t' q r -> Q r t') ->
  runs_ok start (cached_Leaderboard cacheTTL q) t Q.
Proof.
  intros Hs Hp HQ. unfold cached_Leaderboard. destruct (cacheableLeaderboard q) eqn:Hc; cbn [negb orb Z.leb cacheTTL].
  - apply wp_bind, wp_ask; [done|]. intros x t1 [Ht1 Hx].
    assert (Hrt : runs_ok start (read_through cacheTTL (leaderboardCacheKey q) q) t1 Q) by (apply ok_read_through; [lia|done..|]; intros; apply HQ; [lia|done]).
    destruct x as [e|[v|]]; [done| |done]. destruct (unmarshal_response v) as [resp|] eqn:Eu; [|done].
    destruct (Hx v eq_refl) as (e & He & Hok). destruct (Hok resp Eu) as (t0 & Ht0 & Hage & Hb). apply HQ; [done|].
    intros t2 Ht2 resp' [= <-]. exists t0. split; [lia|]. by apply Hb.
  - apply ok_Leaderboard; [lia|]. intros t1 r Ht1 Hb. apply HQ; [done|]. apply (base_stays_fresh start t1); [lia..|done].
Qed.

Lemma ok_serve start get : 0 <= D -> made get -> runs_ok start (serve_Leaderboard get) start (fun _ _ => True).
Proof.
  intros HD Hm. apply wp_bind, ok_cached; [lia|by apply plain|]. intros t r Ht Hf. apply wp_ask; [|done]. exact Hf.
Qed.

(** ** Every reachable state *)

Record cinv (s : Cached) : Prop := {
  ci_cache : forall key v e, c_cache s !! key = Some (v, e) -> entry_ok key v e (c_now s);
  ci_log : forall t q r, (t, q, r) ∈ c_log s -> fresh t q r;
  ci_threads : forall i start p, c_threads s !! i = Some (start, p) ->
    exists t, start <= t <= c_now s /\ runs_ok start p t (fun _ _ => True) }.

Lemma entry_later key v e t t' : t <= t' -> entry_ok key v e t -> entry_ok key v e t'.
Proof. intros Ht Hok resp Hresp. destruct (Hok resp Hresp) as (t0 & Ht0 & He & Hb). exists t0. split; [lia|done]. Qed.

(** A call by a request that is in order keeps the cache and the answers in
    order, and the request too. *)
Lemma request_call_ok start t X (c : rcall X) cache x cache' out now :
  (forall key v e, cache !! key = Some (v, e) -> entry_ok key v e now) -> t <= now <= start + D ->
  may start X c t -> serves now X c cache x cache' out ->
  (forall key v e, cache' !! key = Some (v, e) -> entry_ok key v e now) /\
  (forall t q r, (t, q, r) ∈ out -> fresh t q r) /\ learns start X c t x now.
Proof.
  intros Hcache Ht Hm Hs. destruct c as [q o n k|key|key v ttl|q r]; cbn in Hs |- *.
  - destruct Hs as (-> & -> & Hx). split; [done|]. split; [|done]. by intros ??? ?%elem_of_nil.
  - destruct Hs as (-> & -> & Hx). split; [done|]. split; [by intros ??? ?%elem_of_nil|]. split; [done|]. intros v ->.
    destruct Hx as [[? [=]]|[[=]|(v' & e & Hk & He & [= <-])]]. exists e. split; [done|]. by apply Hcache.
  - destruct Hs as [-> Hc]. split; [|split; [by intros ??? ?%elem_of_nil|done]].
    destruct Hc as [->|[_ ->]]; [|done]. intros key' v' e' [[<- [= <- <-]]|[_ Hk]]%lookup_insert_Some; [by apply Hm|by apply Hcache].
  - destruct Hs as [-> ->]. split; [done|]. split; [|done]. intros t' q' r' [= -> -> ->]%list_elem_of_singleton. by apply Hm.
Qed.

Lemma cstep_inv s s' : 0 <= D -> cinv s -> cstep s s' -> cinv s'.
Proof.
  intros HD [Hc Hl Ht]. destruct 1 as [s get Hm|s i start X c k x cache' out Hi Hd Hs|s t Hle|s cache' Hsub]; split; cbn [c_now c_cache c_log c_threads] in *; try done.
  - intros i start p [Hi|[_ Hi]]%lookup_app_Some; [by apply (Ht i)|]. apply list_lookup_singleton_Some in Hi as [_ [= <- <-]].
    exists (c_now s). split; [lia|]. by apply ok_serve.
  - destruct (Ht i start _ Hi) as (t & Hr & Hm & _). eapply request_call_ok; [exact Hc| |exact Hm|exact Hs]. lia.
  - destruct (Ht i start _ Hi) as (t & Hr & Hm & _). intros t' q r [Hin|Hin]%elem_of_app; [by apply Hl|]. eapply request_call_ok; [exact Hc| |exact Hm|exact Hs|exact Hin]. lia.
  - destruct (Ht i start _ Hi) as (t & Hr & Hm & Hk). intros j start' p [(-> & [= <- <-] & _)|[_ Hj]]%list_lookup_insert_Some; [|by apply (Ht j)].
    exists (c_now s). split; [lia|]. apply Hk. eapply request_call_ok; [exact Hc| |exact Hm|exact Hs]. lia.
  - intros key v e Hk. eapply entry_later; [exact Hle|]. by apply Hc.
  - intros i start p Hi. destruct (Ht i start p Hi) as (t' & Hr & Hw). exists t'. split; [lia|done].
  - intros key v e Hk. apply Hc. by eapply lookup_weaken.
Qed.

(** C38: a page from the cache is never old.  Requests run concurrently while
    the database changes and the cache fails, forgets and expires; when
    scenarios are named as the database names them, every answer is what the
    database itself would have answered to that very query at an instant no
    further back than the time to live plus twice the longest request. *)
Theorem cached_answers_fresh s t q resp :
  0 <= D -> creached s -> (t, q, inr resp) ∈ c_log s ->
  exists t0, t - (cacheTTL + 2 * D) <= t0 <= t /\ exec (dbs t0) (Leaderboard q) = inr resp.
Proof.
  intros HD [t1 Hr] Hin. cut (cinv s); [intros [_ Hl _]; by apply (Hl t q (inr resp))|].
  assert (Hinit : cinv (mkCached t1 ∅ [] [])) by (split; cbn; [by intros ??? ?%lookup_empty_Some|by intros ??? ?%elem_of_nil|done]).
  clear Hin. induction Hr as [s|s s' s'' Hstep _ IH]; [done|]. apply IH. by eapply cstep_inv.
Qed.

End Fresh.
