(* ===== verification/RunDetail.v ===== *)
(** * leaderboard-api: run details and active runs

    [internal/read/store.go]: the detail view of a run group (score, sessions
    with their metric timelines, violation counts), the list of active runs,
    and the requests of [internal/handler/handler.go] that serve them.  Each
    query is a call whose answer is the rows it scans. *)

From stdpp Require Import prelude gmap strings list.
From S2P Require Import Prelude Prog GoSort Float64 Ordering SubStore Service Scoring Base64 Board.

Open Scope Z_scope.
Open Scope prog_scope.

Definition maxChartPoints : Z := 20000.

(** ** Data *)

Record MetricPoint := mkPoint {
  mp_TimeUnixNS : Z; mp_WaveIndex : Z; mp_P50NS : Z; mp_P90NS : Z; mp_P99NS : Z; mp_RTP50NS : Z; mp_RTP90NS : Z; mp_RTP99NS : Z;
  mp_TPS1S : float64; mp_ErrorRate : float64;
  mp_HDREncoded : string; mp_RTHDREncoded : string; mp_SlipHDREncoded : string; mp_MatchHDREncoded : string }.

Record SessionDetail := mkSession {
  sd_SessionID : string; sd_Scenario : string; sd_Status : string; sd_CorrectnessScore : option float64;
  sd_ValidFills : option Z; sd_TotalFills : option Z; sd_Timeline : list MetricPoint }.

Record ViolationCount := mkVCount { vc_SessionID : string; vc_ViolationType : string; vc_Count : Z }.

Record RunDetail := mkDetail {
  rd_RunGroupID : string; rd_Score : option LeaderboardRow; rd_Sessions : list SessionDetail; rd_ViolationCounts : list ViolationCount }.

Record ActiveSession := mkActiveSession { as_SessionID : string; as_Scenario : string; as_Status : string }.
Record ActiveRun := mkActiveRun { ar_RunGroupID : string; ar_TeamName : string; ar_Sessions : list ActiveSession }.
Record ActiveSessionContestant := mkContestant { asc_SessionID : string; asc_ContestantID : string }.

(** ** Rows *)

(** A row of [metrics] as selected: after COALESCE the figures are there, the
    histograms may be NULL (the empty string). *)
Record MetricsRow := mkMetrics {
  mr_ns : float64; mr_wave : Z; mr_p50 : Z; mr_p90 : Z; mr_p99 : Z; mr_rt50 : Z; mr_rt90 : Z; mr_rt99 : Z; mr_tps : float64;
  mr_err : float64; mr_hdr : string; mr_rt_hdr : string; mr_slip_hdr : string; mr_match_hdr : string }.

Record SessionRow := mkSessionRow {
  sr_session : string; sr_scenario : string; sr_status : string; sr_score : option float64; sr_valid : option Z; sr_total : option Z }.

Record ActiveRow := mkActiveRow { aw_group : string; aw_team : string; aw_session : ActiveSession }.

(** What a query gives: nothing, the rows, or rows and then an error. *)
Inductive Rows (A : Type) := Refused | All (rows : list A) | Partial (rows : list A).
Arguments Refused {A}.
Arguments All {A}.
Arguments Partial {A}.

Inductive dcall : Type -> Type :=
  | QueryScore (g : string) : dcall (Rows Ranked)
  | QuerySessions (g : string) : dcall (Rows SessionRow)
  | QueryMetrics (sessionID : string) (limit : Z) : dcall (Rows MetricsRow)
  | QuerySummaries (g : string) : dcall (Rows (string * Row))
  | QueryActive : dcall (Rows ActiveRow)
  | QueryContestants : dcall (Rows ActiveSessionContestant).

Abbreviation dprog := (Prog dcall).

(** ** Timelines *)

Definition set_hdrs (p : MetricPoint) (hdr rt slip match_ : string) : MetricPoint :=
  mkPoint (mp_TimeUnixNS p) (mp_WaveIndex p) (mp_P50NS p) (mp_P90NS p) (mp_P99NS p) (mp_RTP50NS p) (mp_RTP90NS p) (mp_RTP99NS p)
    (mp_TPS1S p) (mp_ErrorRate p) hdr rt slip match_.

Fixpoint last_indices (i : nat) (tl : list MetricPoint) (lastIdx : gmap Z nat) : gmap Z nat :=
  match tl with
  | [] => lastIdx
  | p :: tl => last_indices (S i) tl (<[mp_WaveIndex p := i]> lastIdx)
  end.

Definition keepLastPerWaveHDR (tl : list MetricPoint) : list MetricPoint :=
  let lastIdx := last_indices 0 tl ∅ in
  imap (fun i p => if bool_decide (lastIdx !! mp_WaveIndex p = Some i) then p else set_hdrs p "" "" "" "") tl.

(** An empty histogram stays empty. *)
Definition encode_hdr (b : string) : string := if bool_decide (b = ""%string) then "" else Std_EncodeToString b.

Definition point_of (r : MetricsRow) : MetricPoint :=
  mkPoint (f_to_Z (mr_ns r)) (mr_wave r) (nonNegativeUint64 (mr_p50 r)) (nonNegativeUint64 (mr_p90 r)) (nonNegativeUint64 (mr_p99 r))
    (nonNegativeUint64 (mr_rt50 r)) (nonNegativeUint64 (mr_rt90 r)) (nonNegativeUint64 (mr_rt99 r)) (mr_tps r) (mr_err r)
    (encode_hdr (mr_hdr r)) (encode_hdr (mr_rt_hdr r)) (encode_hdr (mr_slip_hdr r)) (encode_hdr (mr_match_hdr r)).

(** [None]: an error. *)
Definition Chart (sessionID : string) : dprog (option (list MetricPoint)) :=
  let! rows := ask (QueryMetrics sessionID maxChartPoints) in
  match rows with
  | All rows => Ret (Some (map point_of rows))
  | _ => Ret None
  end.

(** ** Violation counts *)

(** The non-zero counters of a summary row. *)
Definition violation_counts (sessionID : string) (cs : Row) : list ViolationCount :=
  List.filter (fun c => 0 <? vc_Count c)
    [mkVCount sessionID "price" (row_price cs); mkVCount sessionID "self_trade" (row_selfTrades cs);
     mkVCount sessionID "phantom" (row_phantom cs); mkVCount sessionID "time" (row_time cs);
     mkVCount sessionID "cancel_replace_loss" (row_crl cs); mkVCount sessionID "overfill" (row_overfills cs);
     mkVCount sessionID "missed_fill" (row_missed cs); mkVCount sessionID "lost_order" (row_lostOrders cs);
     mkVCount sessionID "lost_cancel" (row_lostCancels cs)].

Definition ViolationCounts (g : string) : dprog (option (list ViolationCount)) :=
  let! rows := ask (QuerySummaries g) in
  match rows with
  | All rows => Ret (Some (concat (map (fun '(sid, cs) => violation_counts sid cs) rows)))
  | _ => Ret None
  end.

(** ** The detail view *)

Section Detail.

(** [None]: an error; otherwise the score, if there is one. *)
Definition scoreForRunGroup (g : string) : dprog (option (option LeaderboardRow)) :=
  let! rows := ask (QueryScore g) in
  match rows with
  | All [] => Ret (Some None)
  | All (r :: _) => Ret (Some (Some (leaderboard_row r)))
  | _ => Ret None
  end.

Fixpoint load_details (rows : list SessionRow) : dprog (option (list SessionDetail)) :=
  match rows with
  | [] => Ret (Some [])
  | r :: rows =>
      let! chart := Chart (sr_session r) in
      match chart with
      | None => Ret None
      | Some tl =>
          let sd := mkSession (sr_session r) (sr_scenario r) (sr_status r) (sr_score r) (sr_valid r) (sr_total r) (keepLastPerWaveHDR tl) in
          let! rest := load_details rows in
          Ret (cons sd <$> rest)
      end
  end.

Definition read_RunDetail (g : string) : dprog (option RunDetail) :=
  let! score := scoreForRunGroup g in
  match score with
  | None => Ret None
  | Some score =>
      let! sessions := ask (QuerySessions g) in
      match sessions with
      | Refused => Ret None
      | Partial rows => load_details rows;; Ret None
      | All rows =>
          let! details := load_details rows in
          match details with
          | None => Ret None
          | Some details =>
              let! counts := ViolationCounts g in
              Ret ((fun counts => mkDetail g score details counts) <$> counts)
          end
      end
  end.

End Detail.

(** ** Active runs *)

(** The loop over the rows: [idx] remembers where a group is in [out]. *)
Fixpoint group_active (rows : list ActiveRow) (idx : gmap string nat) (out : list ActiveRun) : list ActiveRun :=
  match rows with
  | [] => out
  | r :: rows =>
      match idx !! aw_group r with
      | Some i =>
          group_active rows idx
            (alter (fun a => mkActiveRun (ar_RunGroupID a) (ar_TeamName a) (ar_Sessions a ++ [aw_session r])) i out)
      | None =>
          group_active rows (<[aw_group r := length out]> idx) (out ++ [mkActiveRun (aw_group r) (aw_team r) [aw_session r]])
      end
  end.

Definition ActiveRuns : dprog (option (list ActiveRun)) :=
  let! rows := ask QueryActive in
  match rows with
  | All rows => Ret (Some (group_active rows ∅ []))
  | _ => Ret None
  end.

Definition ActiveSessionContestants : dprog (option (list ActiveSessionContestant)) :=
  let! rows := ask QueryContestants in
  match rows with
  | All rows => Ret (Some (List.filter (fun sc => negb (bool_decide (asc_ContestantID sc = ""%string))) rows))
  | _ => Ret None
  end.

(** ** The requests *)

(** [writeJSON] answers 500 with the error, 200 with the value otherwise. *)
Inductive Http (A : Type) := BadRequest | InternalServerError | OK (body : A).
Arguments BadRequest {A}.
Arguments InternalServerError {A}.
Arguments OK {A}.

Definition write_json {A} (r : option A) : Http A := match r with Some v => OK v | None => InternalServerError end.

Definition serve_RunDetail (id : string) : dprog (Http RunDetail) :=
  if bool_decide (id = ""%string) then Ret BadRequest else let! resp := read_RunDetail id in Ret (write_json resp).

(** The session and its points. *)
Definition serve_Chart (id : string) : dprog (Http (string * list MetricPoint)) :=
  if bool_decide (id = ""%string) then Ret BadRequest else let! resp := Chart id in Ret (write_json (pair id <$> resp)).

Definition serve_LiveRuns : dprog (Http (list ActiveRun)) := let! runs := ActiveRuns in Ret (write_json runs).
