(* ===== verification/DetailProps.v ===== *)
(** * leaderboard-api: what the detail views show *)

From stdpp Require Import prelude gmap strings list.
From S2P Require Import Prelude Prog GoSort Float64 Model Book Replay Report StreamVal StreamProps SubStore Topics Pipeline Invariants Source Service CountBounds Scoring Base64 Board RunDetail.

Open Scope Z_scope.

(** ** Histograms *)

Lemma last_indices_spec w tl : forall i m,
  (last_indices i tl m !! w = m !! w /\ forall k p, tl !! k = Some p -> mp_WaveIndex p <> w) \/
  (exists k p, last_indices i tl m !! w = Some (i + k)%nat /\ tl !! k = Some p /\ mp_WaveIndex p = w /\
     forall k' p', tl !! k' = Some p' -> mp_WaveIndex p' = w -> (k' <= k)%nat).
Proof.
  induction tl as [|p tl IH]; intros i m; cbn [last_indices]; [by left|].
  destruct (IH (S i) (<[mp_WaveIndex p := i]> m)) as [[-> Hno]|(k & q & -> & Hk & Hw & Hmax)].
  - destruct (decide (mp_WaveIndex p = w)) as [<-|Hne].
    + right. exists 0%nat, p. rewrite lookup_insert_eq, Nat.add_0_r. split; [done|]. split; [done|]. split; [done|].
      intros [|k'] p' Hk' Hw'; [lia|]. by destruct (Hno k' p' Hk').
    + left. rewrite lookup_insert_ne by done. split; [done|]. intros [|k] q Hk; [by injection Hk as <-|by apply (Hno k)].
  - right. exists (S k), q. split; [f_equal; lia|]. split; [done|]. split; [done|]. intros [|k'] p' Hk' Hw'; [lia|].
    specialize (Hmax k' p' Hk' Hw'). lia.
Qed.

(** A later point of the same wave. *)
Definition superseded (tl : list MetricPoint) (i : nat) (p : MetricPoint) : Prop :=
  exists j q, (i < j)%nat /\ tl !! j = Some q /\ mp_WaveIndex q = mp_WaveIndex p.

Definition figures (p : MetricPoint) : MetricPoint := set_hdrs p "" "" "" "".

(** The detail view keeps every point of a timeline with its
    figures, and the histograms of exactly the last point of each wave. *)
Theorem hdr_last_per_wave tl :
  length (keepLastPerWaveHDR tl) = length tl /\
  forall i p, tl !! i = Some p ->
    (superseded tl i p -> keepLastPerWaveHDR tl !! i = Some (figures p)) /\
    (~ superseded tl i p -> keepLastPerWaveHDR tl !! i = Some p).
Proof.
  unfold keepLastPerWaveHDR. split; [apply length_imap|]. intros i p Hi. rewrite !list_lookup_imap, Hi. cbn [fmap option_fmap option_map].
  destruct (last_indices_spec (mp_WaveIndex p) tl 0 ∅) as [[_ Hno]|(k & q & -> & Hk & Hw & Hmax)]; [by destruct (Hno i p Hi)|].
  pose proof (Hmax i p Hi eq_refl) as Hle. cbn. split.
  - intros (j & q' & Hij & Hj & Hwj). specialize (Hmax j q' Hj Hwj). rewrite bool_decide_eq_false_2; [done|]. intros [= ->]. lia.
  - intros Hlast. rewrite bool_decide_eq_true_2; [done|]. f_equal. destruct (decide (k = i)) as [|Hne]; [done|]. destruct Hlast.
    exists k, q. split; [lia|]. split; [done|congruence].
Qed.

(** ** Active runs *)

Definition of_group (g : string) (r : ActiveRow) : bool := bool_decide (aw_group r = g).

(** The runs built so far from [rows]. *)
Record grouped (rows : list ActiveRow) (idx : gmap string nat) (out : list ActiveRun) : Prop := {
  gr_index : forall g i, idx !! g = Some i <-> (exists a, out !! i = Some a /\ ar_RunGroupID a = g);
  gr_known : forall r, r ∈ rows -> is_Some (idx !! aw_group r);
  gr_sessions : forall a, a ∈ out -> ar_Sessions a = map aw_session (List.filter (of_group (ar_RunGroupID a)) rows) /\ ar_Sessions a <> [] }.

Lemma grouped_nodup rows idx out : grouped rows idx out -> NoDup (map ar_RunGroupID out).
Proof.
  intros [Hi _ _]. apply NoDup_alt. intros i j g Hgi Hgj. rewrite list_lookup_fmap in Hgi, Hgj.
  destruct (out !! i) as [a|] eqn:Ea; [|done]. destruct (out !! j) as [b|] eqn:Eb; [|done]. cbn in Hgi, Hgj. simplify_eq.
  assert (Hx : idx !! ar_RunGroupID b = Some j) by (apply Hi; by exists b).
  assert (Hy : idx !! ar_RunGroupID b = Some i) by (apply Hi; by exists a). congruence.
Qed.

Lemma filter_snoc (rows : list ActiveRow) r g :
  List.filter (of_group g) (rows ++ [r]) = List.filter (of_group g) rows ++ (if bool_decide (aw_group r = g) then [r] else []).
Proof. apply List.filter_app. Qed.

Lemma grouped_known rows idx out r i :
  grouped rows idx out -> idx !! aw_group r = Some i ->
  grouped (rows ++ [r]) idx (alter (fun a => mkActiveRun (ar_RunGroupID a) (ar_TeamName a) (ar_Sessions a ++ [aw_session r])) i out).
Proof.
  intros [Hi Hk Hs] Hr. set (f := fun a => _). split.
  - intros g j. rewrite Hi. destruct (decide (i = j)) as [<-|Hne]; [|by rewrite list_lookup_alter_ne].
    rewrite list_lookup_alter_eq. split.
    + intros (a & -> & <-). by exists (f a).
    + intros (a' & Ha' & <-). destruct (out !! i) as [a|]; [|done]. injection Ha' as <-. by exists a.
  - intros r' [Hr'| ->%list_elem_of_singleton]%elem_of_app; [by apply Hk|by exists i].
  - intros a' Ha'. apply list_elem_of_lookup in Ha' as [j Hj]. destruct (decide (i = j)) as [<-|Hne].
    + rewrite list_lookup_alter_eq in Hj. destruct (out !! i) as [a|] eqn:Ea; [|done]. injection Hj as <-. cbn.
      destruct (Hs a (list_elem_of_lookup_2 _ _ _ Ea)) as [-> _]. assert (Hg : ar_RunGroupID a = aw_group r).
      { apply Hi in Hr as (b & Hb & <-). congruence. }
      rewrite filter_snoc, Hg, bool_decide_eq_true_2 by done. rewrite map_app. split; [done|]. by intros [_ [=]]%app_nil.
    + rewrite list_lookup_alter_ne in Hj by done. destruct (Hs a' (list_elem_of_lookup_2 _ _ _ Hj)) as [Hsess Hne'].
      rewrite filter_snoc, bool_decide_eq_false_2, app_nil_r; [done|]. intros Hg.
      assert (Hx : idx !! aw_group r = Some j) by (apply Hi; by exists a'). congruence.
Qed.

Lemma grouped_new rows idx out r :
  grouped rows idx out -> idx !! aw_group r = None ->
  grouped (rows ++ [r]) (<[aw_group r := length out]> idx) (out ++ [mkActiveRun (aw_group r) (aw_team r) [aw_session r]]).
Proof.
  intros [Hi Hk Hs] Hr. assert (Hnew : forall a, a ∈ out -> ar_RunGroupID a <> aw_group r).
  { intros a Ha Hg. apply list_elem_of_lookup in Ha as [j Hj]. assert (idx !! aw_group r = Some j) by (apply Hi; by exists a). congruence. }
  split.
  - intros g j. rewrite lookup_insert_Some. split.
    + intros [[<- <-]|[Hne Hj]].
      * eexists. by rewrite lookup_app_r, Nat.sub_diag by lia.
      * apply Hi in Hj as (a & Ha & <-). exists a. by rewrite (lookup_app_l_Some _ _ _ _ Ha).
    + intros (a & [Ha|[Hlen Ha]]%lookup_app_Some & <-).
      * right. split; [intros Heq; by apply (Hnew a); [by eapply list_elem_of_lookup_2|]|]. apply Hi. by exists a.
      * apply list_lookup_singleton_Some in Ha as [Hz <-]. left. split; [done|]. lia.
  - intros r' [Hr'| ->%list_elem_of_singleton]%elem_of_app; [|by rewrite lookup_insert_eq].
    destruct (decide (aw_group r = aw_group r')) as [->|Hne]; [by rewrite lookup_insert_eq|]. rewrite lookup_insert_ne by done. by apply Hk.
  - intros a [Ha| ->%list_elem_of_singleton]%elem_of_app.
    + destruct (Hs a Ha) as [Hsess Hne]. rewrite filter_snoc, bool_decide_eq_false_2, app_nil_r; [done|]. by apply not_eq_sym, Hnew.
    + cbn. split; [|done]. rewrite filter_snoc, bool_decide_eq_true_2 by done. rewrite map_app. cbn.
      assert (Hnone : List.filter (of_group (aw_group r)) rows = []); [|by rewrite Hnone].
      apply nil_length_inv, (countb_zero (of_group (aw_group r))). intros r' Hr'. apply bool_decide_eq_false_2. intros Heq.
      destruct (Hk r' Hr') as [j Hj]. congruence.
Qed.

Lemma group_active_grouped rows : forall done idx out, grouped done idx out -> exists idx', grouped (done ++ rows) idx' (group_active rows idx out).
Proof.
  induction rows as [|r rows IH]; intros done idx out Hg; cbn [group_active]; [exists idx; by rewrite app_nil_r|].
  rewrite cons_middle, app_assoc. destruct (idx !! aw_group r) as [i|] eqn:Er; apply IH; [by apply grouped_known|by apply grouped_new].
Qed.

(** The active runs are the rows of the query, grouped: each run group appears
    once, with exactly its sessions, in the order of the query. *)
Theorem active_runs_grouped rows :
  let out := group_active rows ∅ [] in
  NoDup (map ar_RunGroupID out) /\
  (forall r, r ∈ rows -> aw_group r ∈ map ar_RunGroupID out) /\
  (forall a, a ∈ out -> ar_Sessions a = map aw_session (List.filter (of_group (ar_RunGroupID a)) rows) /\ ar_Sessions a <> []).
Proof.
  cbv zeta. destruct (group_active_grouped rows [] ∅ []) as [idx Hg].
  { split; [|by intros ? ?%elem_of_nil|by intros ? ?%elem_of_nil]. intros g i. rewrite lookup_empty. split; [done|]. by intros (a & [=] & _). }
  split; [by eapply grouped_nodup|]. destruct Hg as [Hi Hk Hs]. split; [|done]. intros r Hr. destruct (Hk r Hr) as [i Hx].
  apply Hi in Hx as (a & Ha & <-). apply list_elem_of_fmap. exists a. split; [done|]. by eapply list_elem_of_lookup_2.
Qed.

(** ** The violation breakdown *)

Definition total (counts : list ViolationCount) : Z := foldr (fun c n => vc_Count c + n) 0 counts.

Lemma total_positive counts :
  Forall (fun c => 0 <= vc_Count c) counts -> total (List.filter (fun c => 0 <? vc_Count c) counts) = total counts.
Proof.
  induction 1 as [|c counts Hc _ IH]; [done|]. cbn. destruct (Z.ltb_spec 0 (vc_Count c)); cbn; fold (total counts) in *; unfold total in *; lia.
Qed.

Section Breakdown.
Context {T : Type} `{!BTreeG T} `{!SortSlice} `{!MapRange}.

(** C40: the violation breakdown of a session.  Whatever a session hands to the
    validator, in either mode and short of 2^63 orders, responses and phantom
    fills (the counters are [int64] columns), the counts that the detail view
    lists for the row the validator stores are exact, cancel-replace losses
    split off from the time violations, and add up to the stored number of
    violations plus the phantom fills, which the validator does not count as
    violations. *)
Theorem breakdown_adds_up v cs report id contestant counts now :
  report = full_report (T := T) cs \/ report = inv_report v cs -> handed cs < 2 ^ 63 ->
  let row := row_of (scored_record id contestant report counts now) in
  total (violation_counts id row) = row_violations row + row_phantom row /\
  row_violations row = classes report /\ row_phantom row = rp_PhantomFills report /\
  row_time row + row_crl row = rp_TimeViolations report /\ row_crl row = rp_CancelReplaceLosses report.
Proof.
  intros Hr Hlt. assert (Ht : tame (handed cs) report) by (destruct Hr as [->| ->]; [apply full_tame|apply inv_tame]; lia). clear Hr.
  destruct Ht as [Hp Hs Hc Ht]. unfold counters in Hp. rewrite !Forall_cons in Hp. destruct Hp as (P1 & P2 & P3 & P4 & P5 & P6 & P7 & P8 & P9 & _).
  unfold violation_counts, row_of, Report.ViolationCount. cbv zeta. cbn [scored_record rc_Report]. unfold classes in *.
  rewrite (i64_small (rp_CancelReplaceLosses report)), (i64_small (rp_TimeViolations report)) by lia.
  rewrite (i64_small (rp_TimeViolations report - _)) by lia. rewrite (proj2 (Z.ltb_ge _ _)) by lia.
  cbn [row_price row_selfTrades row_phantom row_time row_crl row_overfills row_missed row_lostOrders row_lostCancels row_violations].
  rewrite Ht, !i64_small by lia. split_and!; [|lia..]. rewrite total_positive.
  - cbn [total foldr vc_Count]. lia.
  - repeat (apply Forall_cons; split; [cbn [vc_Count]; lia|]). done.
Qed.

End Breakdown.
