(* ===== verification/Sse.v ===== *)
(** * leaderboard-api: server-sent events

    [internal/sse/broker.go], and the consumer of [internal/consumer] that
    feeds it.  Each connection has a channel of 16 messages; [send] runs under
    the broker's lock and drops a client whose channel is full; a connection is
    a state machine whose steps interleave with [send] and with the other
    connections. *)

From stdpp Require Import prelude gmap strings list relations.
From S2P Require Import Prelude Scoring Base64.

Open Scope Z_scope.

Record sseMessage := mkMessage { ms_event : string; ms_data : string }.

(** ** Channels and connections *)

Definition channel_capacity : nat := 16.

(** What has been written to a connection. *)
Inductive Out := OSnapshot (data : string) | OEvent (m : sseMessage) | OKeepalive | OError.

(** Where [ServeHTTP] is: about to take the snapshot, in the loop, in the
    deferred function, returned. *)
Inductive Phase := Snapshotting | Looping | Leaving | Left.

(** A connection since it was registered: its channel, its output, and, for
    the theorems, how many messages had been sent before it was registered and
    before its snapshot was taken. *)
Record Conn := mkConn {
  cn_phase : Phase; cn_buf : list sseMessage; cn_closed : bool; cn_out : list Out; cn_from : nat; cn_snap : option nat }.

(** The broker: [b_clients] is the map of registered channels; [b_sent] every
    message sent so far; [b_panicked] a send on or a close of a closed
    channel. *)
Record Broker := mkBroker { b_clients : gset nat; b_conns : list Conn; b_sent : list sseMessage; b_panicked : bool }.

Definition newBroker : Broker := mkBroker ∅ [] [] false.

Definition set_phase (c : Conn) (p : Phase) : Conn := mkConn p (cn_buf c) (cn_closed c) (cn_out c) (cn_from c) (cn_snap c).
Definition write (c : Conn) (o : Out) : Conn := mkConn (cn_phase c) (cn_buf c) (cn_closed c) (cn_out c ++ [o]) (cn_from c) (cn_snap c).
Definition close_channel (c : Conn) : Conn := mkConn (cn_phase c) (cn_buf c) true (cn_out c) (cn_from c) (cn_snap c).
Definition push (c : Conn) (m : sseMessage) : Conn :=
  mkConn (cn_phase c) (cn_buf c ++ [m]) (cn_closed c) (cn_out c) (cn_from c) (cn_snap c).

Definition has_room (c : Conn) : bool := (length (cn_buf c) <? channel_capacity)%nat.

(** ** Sending *)

(** One turn of the loop of [send], for a registered channel. *)
Definition offer (m : sseMessage) (c : Conn) : Conn := if has_room c then push c m else close_channel c.

Definition room_at (b : Broker) (i : nat) : bool := match b_conns b !! i with Some c => has_room c | None => false end.

(** The registered channels are served one after the other; they do not
    depend on each other. *)
Definition send (m : sseMessage) (b : Broker) : Broker :=
  mkBroker
    (filter (fun i => room_at b i = true) (b_clients b))
    (imap (fun i c => if bool_decide (i ∈ b_clients b) then offer m c else c) (b_conns b))
    (b_sent b ++ [m])
    (b_panicked b || existsb (fun i => match b_conns b !! i with Some c => cn_closed c | None => true end) (elements (b_clients b))).

(** [json.Marshal] of an event and of a live payload. *)
Class EventJSON (P : Type) := { marshal_event : LeaderboardUpdateEvent -> option string; marshal_live : P -> option string;
  unmarshal_event : string -> option LeaderboardUpdateEvent }.

Section Events.
Context {P : Type} `{EventJSON P}.

Definition Broadcast (ev : LeaderboardUpdateEvent) (b : Broker) : Broker :=
  match marshal_event ev with Some payload => send (mkMessage "update" payload) b | None => b end.

Definition BroadcastLive (payload : P) (b : Broker) : Broker :=
  match marshal_live payload with Some data => send (mkMessage "live_metrics" data) b | None => b end.

(** One message of the leaderboard-updates topic. *)
Definition consume_update (value : string) (b : Broker) : Broker :=
  match unmarshal_event value with Some ev => Broadcast ev b | None => b end.

End Events.

(** ** Serving a connection *)

(** Registering a new channel. *)
Definition register (b : Broker) : Broker :=
  mkBroker ({[length (b_conns b)]} ∪ b_clients b) (b_conns b ++ [mkConn Snapshotting [] false [] (length (b_sent b)) None]) (b_sent b) (b_panicked b).

Definition update (i : nat) (c : Conn) (b : Broker) : Broker := mkBroker (b_clients b) (<[i := c]> (b_conns b)) (b_sent b) (b_panicked b).

(** The snapshot: taken at some instant, and written.  The service always
    gives the broker a snapshot function. *)
Definition take_snapshot (c : Conn) (sent : nat) (snap : option string) : Conn :=
  let c := mkConn (cn_phase c) (cn_buf c) (cn_closed c) (cn_out c) (cn_from c) (Some sent) in
  match snap with
  | Some data => set_phase (write c (OSnapshot data)) Looping
  | None => set_phase (write c OError) Leaving
  end.

Definition receive (c : Conn) : option Conn :=
  match cn_buf c with
  | m :: buf => Some (mkConn (cn_phase c) buf (cn_closed c) (cn_out c ++ [OEvent m]) (cn_from c) (cn_snap c))
  | [] => if cn_closed c then Some (set_phase c Leaving) else None
  end.

Definition keepalive (c : Conn) (written : bool) : Conn := if written then write c OKeepalive else set_phase c Leaving.

(** The deferred function. *)
Definition leave (i : nat) (c : Conn) (b : Broker) : Broker :=
  if bool_decide (i ∈ b_clients b) then
    mkBroker (b_clients b ∖ {[i]}) (<[i := set_phase (close_channel c) Left]> (b_conns b)) (b_sent b) (b_panicked b || cn_closed c)
  else update i (set_phase c Left) b.

Inductive bstep : Broker -> Broker -> Prop :=
  | BSend b m : bstep b (send m b)
  | BRegister b : bstep b (register b)
  | BSnapshot b i c snap : b_conns b !! i = Some c -> cn_phase c = Snapshotting ->
      bstep b (update i (take_snapshot c (length (b_sent b)) snap) b)
  | BReceive b i c c' : b_conns b !! i = Some c -> cn_phase c = Looping -> receive c = Some c' -> bstep b (update i c' b)
  | BKeepalive b i c written : b_conns b !! i = Some c -> cn_phase c = Looping -> bstep b (update i (keepalive c written) b)
  | BDone b i c : b_conns b !! i = Some c -> cn_phase c = Looping -> bstep b (update i (set_phase c Leaving) b)
  | BLeave b i c : b_conns b !! i = Some c -> cn_phase c = Leaving -> bstep b (leave i c b).

Definition breached (b : Broker) : Prop := rtc bstep newBroker b.

(** ** What a client sees *)

(** The messages among what was written, in order. *)
Definition messages (out : list Out) : list sseMessage := omap (fun o => match o with OEvent m => Some m | _ => None end) out.

Lemma messages_snoc out o : messages (out ++ [o]) = messages out ++ match o with OEvent m => [m] | _ => [] end.
Proof. unfold messages. rewrite omap_app. by destruct o. Qed.

(** A connection, given what was sent. *)
Record conn_ok (b : Broker) (i : nat) (c : Conn) : Prop := {
  co_from : (cn_from c <= length (b_sent b))%nat;
  co_prefix : messages (cn_out c) ++ cn_buf c `prefix_of` drop (cn_from c) (b_sent b);
  co_complete : i ∈ b_clients b -> messages (cn_out c) ++ cn_buf c = drop (cn_from c) (b_sent b);
  co_bounded : (length (cn_buf c) <= channel_capacity)%nat;
  co_closed : cn_closed c = true <-> i ∉ b_clients b;
  co_left : cn_phase c = Left -> i ∉ b_clients b;
  co_snap : match cn_snap c with Some k => (cn_from c <= k <= length (b_sent b))%nat | None => cn_phase c = Snapshotting end }.

Record broker_ok (b : Broker) : Prop := {
  bo_conns : forall i c, b_conns b !! i = Some c -> conn_ok b i c;
  bo_clients : forall i, i ∈ b_clients b -> is_Some (b_conns b !! i);
  bo_calm : b_panicked b = false }.

Lemma same_conn_ok b b' i c :
  b_sent b' = b_sent b -> (i ∈ b_clients b' <-> i ∈ b_clients b) -> conn_ok b i c -> conn_ok b' i c.
Proof. intros Hs Hc [H1 H2 H3 H4 H5 H6 H7]. rewrite <-Hs in *. split; try done; [by intros ?%Hc; apply H3|by rewrite Hc|intros ?; rewrite Hc; by apply H6]. Qed.

(** A step of one connection that leaves the map alone. *)
Lemma update_ok b i c c' : broker_ok b -> b_conns b !! i = Some c -> conn_ok b i c' -> broker_ok (update i c' b).
Proof.
  intros [Hco Hcl Hp] Hi Hc'. split; [| |done].
  - intros j d [(-> & <- & _)|[_ Hj]]%list_lookup_insert_Some; [by apply (same_conn_ok b)|]. apply (same_conn_ok b); [done|done|]. by apply Hco.
  - intros j Hj. destruct (Hcl j Hj) as [d Hd]. cbn. destruct (decide (i = j)) as [<-|Hne].
    + rewrite list_lookup_insert_eq; [done|]. by eapply lookup_lt_Some.
    + rewrite list_lookup_insert_ne by done. by exists d.
Qed.

Lemma send_ok b m : broker_ok b -> broker_ok (send m b).
Proof.
  intros [Hco Hcl Hp]. split.
  - intros i d Hd. cbn [b_conns send] in Hd. rewrite list_lookup_imap in Hd. destruct (b_conns b !! i) as [c|] eqn:Ei; [|done]. cbn in Hd. injection Hd as <-.
    assert (Hin : i ∈ b_clients (send m b) <-> has_room c = true /\ i ∈ b_clients b).
    { cbn [b_clients send]. rewrite elem_of_filter. unfold room_at. by rewrite Ei. }
    destruct (Hco i c Ei) as [H1 H2 H3 H4 H5 H6 H7].
    assert (Hdrop : drop (cn_from c) (b_sent b ++ [m]) = drop (cn_from c) (b_sent b) ++ [m]) by (by rewrite drop_app_le).
    assert (Hlen : length (b_sent b ++ [m]) = S (length (b_sent b))) by (rewrite length_app; cbn; lia).
    case_bool_decide as Hreg; [unfold offer; destruct (has_room c) eqn:Er|].
    + split; cbn [push b_sent send cn_from cn_out cn_buf cn_closed cn_phase cn_snap]; rewrite ?Hdrop, ?Hlen, ?Hin.
      * lia.
      * rewrite app_assoc, (H3 Hreg). done.
      * intros _. by rewrite app_assoc, (H3 Hreg).
      * unfold has_room in Er. apply Nat.ltb_lt in Er. rewrite length_app. cbn. lia.
      * rewrite H5. tauto.
      * intros Hl. by destruct (H6 Hl).
      * destruct (cn_snap c); [lia|done].
    + split; cbn [close_channel b_sent send cn_from cn_out cn_buf cn_closed cn_phase cn_snap]; rewrite ?Hdrop, ?Hlen, ?Hin; try done.
      * lia.
      * by apply prefix_app_r.
      * by intros [[=] _].
      * split; [by intros _ [[=] _]|done].
      * by intros _ [[=] _].
      * destruct (cn_snap c); [lia|done].
    + split; cbn [b_sent send]; rewrite ?Hdrop, ?Hlen, ?Hin; try done; try tauto.
      * lia.
      * by apply prefix_app_r.
      * destruct (cn_snap c); [lia|done].
  - intros i Hi. cbn [b_clients b_conns send] in *. rewrite elem_of_filter in Hi. destruct Hi as [_ Hi]. destruct (Hcl i Hi) as [c Hc].
    rewrite list_lookup_imap, Hc. by eexists.
  - cbn [b_panicked send]. rewrite Hp. cbn. apply not_true_iff_false. intros (i & Hi & Hc)%existsb_exists.
    apply list_elem_of_In, elem_of_elements in Hi. destruct (Hcl i Hi) as [c Ec]. rewrite Ec in Hc. destruct (Hco i c Ec) as [_ _ _ _ H5 _ _].
    by apply H5 in Hc.
Qed.

Lemma register_ok b : broker_ok b -> broker_ok (register b).
Proof.
  intros [Hco Hcl Hp]. assert (Hnew : length (b_conns b) ∉ b_clients b).
  { intros [c Hc]%Hcl. apply lookup_lt_Some in Hc. lia. }
  split; [| |done].
  - intros i c [Hi|[Hlen Hi]]%lookup_app_Some.
    + apply (same_conn_ok b); [done| |by apply Hco]. cbn. apply lookup_lt_Some in Hi. set_unfold. split; [intros [->|?]; [lia|done]|by right].
    + apply list_lookup_singleton_Some in Hi as [Hz <-]. assert (i = length (b_conns b)) as -> by lia.
      split; cbn; rewrite ?drop_all; try lia; try done; set_solver.
  - cbn. intros i [->%elem_of_singleton|Hi]%elem_of_union; [by rewrite lookup_app_r, Nat.sub_diag by lia|].
    destruct (Hcl i Hi) as [c Hc]. exists c. by apply lookup_app_l_Some.
Qed.

(** Writing something that is not a message, or moving on, changes nothing
    that [conn_ok] speaks of. *)
Lemma moved_ok b i c c' :
  conn_ok b i c -> messages (cn_out c') ++ cn_buf c' = messages (cn_out c) ++ cn_buf c -> (length (cn_buf c') <= length (cn_buf c))%nat ->
  cn_closed c' = cn_closed c -> cn_from c' = cn_from c -> cn_phase c' <> Left ->
  match cn_snap c' with Some k => (cn_from c <= k <= length (b_sent b))%nat | None => cn_phase c' = Snapshotting end ->
  conn_ok b i c'.
Proof.
  intros [H1 H2 H3 H4 H5 H6 H7] Hm Hl Hc Hf Hph Hs. split; rewrite ?Hm, ?Hc, ?Hf; try done. lia.
Qed.

Lemma leave_ok b i c : broker_ok b -> b_conns b !! i = Some c -> cn_phase c = Leaving -> broker_ok (leave i c b).
Proof.
  intros Hb Hi Hph. pose proof Hb as [Hco Hcl Hp]. pose proof (Hco i c Hi) as [H1 H2 H3 H4 H5 H6 H7]. unfold leave. case_bool_decide as Hreg.
  - split.
    + intros j d [(-> & <- & _)|[Hne Hj]]%list_lookup_insert_Some.
      * assert (Hout : j ∉ b_clients b ∖ {[j]}) by set_solver. split; cbn; try done. destruct (cn_snap c); [lia|congruence].
      * apply (same_conn_ok b); [done| |by apply Hco]. cbn. set_solver.
    + cbn. intros j [Hj Hne]%elem_of_difference. destruct (Hcl j Hj) as [d Hd]. rewrite list_lookup_insert_ne by set_solver. by exists d.
    + cbn. rewrite Hp. cbn. apply not_true_iff_false. by intros ?%H5.
  - apply (update_ok b i c); [done..|]. split; cbn; try done. destruct (cn_snap c); [lia|congruence].
Qed.

Lemma bstep_ok b b' : broker_ok b -> bstep b b' -> broker_ok b'.
Proof.
  intros Hb. destruct 1 as [b m|b|b i c snap Hi Hph|b i c c' Hi Hph Hr|b i c written Hi Hph|b i c Hi Hph|b i c Hi Hph];
    [by apply send_ok|by apply register_ok|..|by apply leave_ok].
  all: apply (update_ok b i c); [done..|]; pose proof (bo_conns b Hb i c Hi) as Hok; pose proof (co_from _ _ _ Hok); pose proof (co_snap _ _ _ Hok) as Hsnap.
  - apply (moved_ok b i c); destruct snap; cbn; rewrite ?messages_snoc, ?app_nil_r; try done; lia.
  - unfold receive in Hr. destruct (cn_buf c) as [|m buf] eqn:Eb.
    + destruct (cn_closed c) eqn:Ec; [|done]. injection Hr as <-. apply (moved_ok b i c); cbn; rewrite ?Eb; try done. destruct (cn_snap c); [done|congruence].
    + injection Hr as <-. apply (moved_ok b i c); cbn; rewrite ?Eb, ?messages_snoc; try done; [by rewrite <-app_assoc|cbn; lia|congruence].
  - apply (moved_ok b i c); destruct written; cbn; rewrite ?messages_snoc, ?app_nil_r; try done; try congruence. destruct (cn_snap c); [done|congruence].
  - apply (moved_ok b i c); cbn; try done. destruct (cn_snap c); [done|congruence].
Qed.

Lemma breached_ok b : breached b -> broker_ok b.
Proof.
  unfold breached. intros Hr. assert (Hinit : broker_ok newBroker) by (split; [done|set_solver|done]).
  induction Hr as [b|b b' b'' Hstep _ IH]; [done|]. apply IH. by eapply bstep_ok.
Qed.

(** A connection in its loop can read its channel empty. *)
Lemma drain b i c : b_conns b !! i = Some c -> cn_phase c = Looping ->
  exists b' c', rtc bstep b b' /\ b_sent b' = b_sent b /\ b_clients b' = b_clients b /\ b_conns b' !! i = Some c' /\
    cn_from c' = cn_from c /\ messages (cn_out c') = messages (cn_out c) ++ cn_buf c.
Proof.
  remember (cn_buf c) as buf eqn:Eb. revert b c Eb. induction buf as [|m buf IH]; intros b c Eb Hi Hph.
  - exists b, c. split; [done|]. by rewrite app_nil_r.
  - set (c1 := mkConn (cn_phase c) buf (cn_closed c) (cn_out c ++ [OEvent m]) (cn_from c) (cn_snap c)).
    assert (Hstep : bstep b (update i c1 b)) by (apply (BReceive b i c); [done..|]; unfold receive; by rewrite <-Eb).
    destruct (IH (update i c1 b) c1) as (b' & c' & Hr & Hs & Hcl & Hc' & Hf & Hm); [done| |done|].
    { cbn. rewrite list_lookup_insert_eq; [done|]. by eapply lookup_lt_Some. }
    exists b', c'. split; [by eapply rtc_l|]. do 3 (split; [done|]). split; [done|]. rewrite Hm. cbn. by rewrite messages_snoc, <-app_assoc.
Qed.

(** C39: the event stream has no gaps.  Whatever is broadcast, however clients
    come, stall and go: no channel is closed twice or sent on after it was closed; what a client was
    written, followed by what waits in its channel (at most 16 messages), is
    a gapless run of the messages sent since it connected, in order, and all
    of them while it is connected; its snapshot was taken after it connected,
    so that nothing sent after the snapshot is missed; and a connected client
    that reads gets everything sent. *)
Theorem sse_no_gaps b i c :
  breached b -> b_conns b !! i = Some c ->
  let since := drop (cn_from c) (b_sent b) in
  b_panicked b = false /\
  messages (cn_out c) ++ cn_buf c `prefix_of` since /\ (length (cn_buf c) <= channel_capacity)%nat /\
  (forall k, cn_snap c = Some k -> (cn_from c <= k)%nat) /\
  (i ∈ b_clients b -> messages (cn_out c) ++ cn_buf c = since /\
     (cn_phase c = Looping -> exists b' c', rtc bstep b b' /\ b_sent b' = b_sent b /\ i ∈ b_clients b' /\ b_conns b' !! i = Some c' /\
        messages (cn_out c') = since)).
Proof.
  intros Hr Hi since. pose proof (breached_ok b Hr) as [Hco _ Hp]. destruct (Hco i c Hi) as [H1 H2 H3 H4 H5 H6 H7].
  split; [done|]. split; [done|]. split; [done|]. split; [intros k Hk; rewrite Hk in H7; lia|]. intros Hreg. split; [by apply H3|]. intros Hph.
  destruct (drain b i c Hi Hph) as (b' & c' & Hrt & Hs & Hcl & Hc' & Hf & Hm). exists b', c'. rewrite Hs, Hcl, Hm. rewrite (H3 Hreg). done.
Qed.
