(* ===== verification/Live.v ===== *)
(** * leaderboard-api: live metrics

    [internal/live/poll.go]: a poller reads the latest wave of each active
    session from Redis and broadcasts what is new.  Redis, the session source,
    the broker and the log are calls. *)

From stdpp Require Import prelude gmap strings list pretty.
From S2P Require Import Prelude Prog Float64 Scenarios RunDetail.

Open Scope Z_scope.
Open Scope prog_scope.

Definition parseWarnEveryNTicks : Z := 30.

Record LiveMetrics := mkLive {
  lm_ContestantID : string; lm_SessionID : string; lm_WaveIndex : Z; lm_P50NS : Z; lm_P99NS : Z; lm_P999NS : Z;
  lm_TPS1s : float64; lm_ErrorRate : float64; lm_UpdatedAtNS : Z }.

Record parseWarnEntry := mkWarn { we_ticksSinceLog : Z; we_lastMessage : string }.

Record Poller := mkPoller { po_lastBroadcastAtNS : gmap string Z; po_parseWarnState : gmap string parseWarnEntry }.

Definition newPoller : Poller := mkPoller ∅ ∅.

(** [strconv.ParseFloat(s, 64)], and the text of a number error. *)
Class Numbers := { ParseFloat : string -> option float64; num_error : string -> string -> string }.

Inductive lcall : Type -> Type :=
  | FetchActive : lcall (option (list ActiveSessionContestant))
  | RedisGet (key : string) : lcall (option (option string))
  | RedisHGetAll (key : string) : lcall (option (gmap string string))
  | Emit (m : LiveMetrics) : lcall unit
  | Warn (msg : string) : lcall unit.

Abbreviation lprog := (Prog lcall).

(** A Go map read: the empty string when the field is missing. *)
Definition field (fields : gmap string string) (k : string) : string := default ""%string (fields !! k).

(** [strconv.ParseInt(s, 10, 64)] reads what [Atoi] reads. *)
Definition ParseInt (s : string) : option Z := Atoi s.

Section Poller.
Context `{Numbers}.

(** The metrics, or the text of the first field's error. *)
Definition parseLiveMetrics (contestantID sessionID : string) (waveIndex : Z) (fields : gmap string string) : string + LiveMetrics :=
  let get_int k := match ParseInt (field fields k) with Some z => inr z | None => inl (num_error "ParseInt" (field fields k)) end in
  let get_float k := match ParseFloat (field fields k) with Some f => inr f | None => inl (num_error "ParseFloat" (field fields k)) end in
  match get_int "p50_ns"%string with inl e => inl e | inr p50 =>
  match get_int "p99_ns"%string with inl e => inl e | inr p99 =>
  match get_int "p999_ns"%string with inl e => inl e | inr p999 =>
  match get_float "tps_1s"%string with inl e => inl e | inr tps =>
  match get_float "error_rate"%string with inl e => inl e | inr errRate =>
  match get_int "updated_at_ns"%string with inl e => inl e | inr updatedAt =>
    inr (mkLive contestantID sessionID waveIndex p50 p99 p999 tps errRate updatedAt)
  end end end end end end.

(** The entry after a warning, and whether it is logged. *)
Definition warn_step (entry : parseWarnEntry) (current : string) : parseWarnEntry * bool :=
  let ticks := we_ticksSinceLog entry + 1 in
  if negb (bool_decide (we_lastMessage entry = current)) || (parseWarnEveryNTicks <=? ticks)
  then (mkWarn 0 current, true) else (mkWarn ticks (we_lastMessage entry), false).

(** [args] is rendered as [" k=v"] pairs. *)
Definition warnRateLimited (p : Poller) (sessionID msg : string) (args : list (string * string)) : lprog Poller :=
  let entry := default (mkWarn 0 "") (po_parseWarnState p !! sessionID) in
  let current := foldl (fun s kv => s +:+ " " +:+ kv.1 +:+ "=" +:+ kv.2) msg args in
  let '(entry, logged) := warn_step entry current in
  let p := mkPoller (po_lastBroadcastAtNS p) (<[sessionID := entry]> (po_parseWarnState p)) in
  if logged then ask (Warn msg);; Ret p else Ret p.

Definition latest_key (sessionID : string) : string := "live:" +:+ sessionID +:+ ":latest".
Definition metrics_key (contestantID sessionID : string) (waveIndex : Z) : string :=
  "contestant:" +:+ contestantID +:+ ":" +:+ sessionID +:+ ":" +:+ pretty waveIndex.

Definition pollSession (p : Poller) (sc : ActiveSessionContestant) : lprog Poller :=
  let sid := asc_SessionID sc in
  let! waveRaw := ask (RedisGet (latest_key sid)) in
  match waveRaw with
  | None => ask (Warn "live poller: get latest wave failed");; Ret p
  | Some None => Ret p
  | Some (Some waveRaw) =>
      match ParseInt waveRaw with
      | None => warnRateLimited p sid "live poller: parse wave index failed" [("session_id", sid); ("error", num_error "ParseInt" waveRaw)]%string
      | Some waveIndex =>
          let key := metrics_key (asc_ContestantID sc) sid waveIndex in
          let! fields := ask (RedisHGetAll key) in
          match fields with
          | None => ask (Warn "live poller: hgetall failed");; Ret p
          | Some fields =>
              if bool_decide (fields = ∅) then Ret p
              else
                match parseLiveMetrics (asc_ContestantID sc) sid waveIndex fields with
                | inl e => warnRateLimited p sid "live poller: parse metrics failed" [("key", key); ("error", e)]%string
                | inr m =>
                    if bool_decide (po_lastBroadcastAtNS p !! sid = Some (lm_UpdatedAtNS m)) then Ret p
                    else
                      let p := mkPoller (<[sid := lm_UpdatedAtNS m]> (po_lastBroadcastAtNS p)) (po_parseWarnState p) in
                      ask (Emit m);; Ret p
                end
          end
      end
  end.

Fixpoint poll_all (p : Poller) (sessions : list ActiveSessionContestant) : lprog Poller :=
  match sessions with
  | [] => Ret p
  | sc :: sessions => let! p := pollSession p sc in poll_all p sessions
  end.

Definition tick (p : Poller) : lprog Poller :=
  let! sessions := ask FetchActive in
  match sessions with
  | None => ask (Warn "live poller: fetch active sessions failed");; Ret p
  | Some sessions => poll_all p sessions
  end.

(** [n] ticks of [Run]. *)
Fixpoint run_ticks (n : nat) (p : Poller) : lprog Poller :=
  match n with O => Ret p | S n => let! p := tick p in run_ticks n p end.

(** ** What is broadcast *)

Definition last_update (sid : string) (sent : list LiveMetrics) : option Z :=
  lm_UpdatedAtNS <$> last (List.filter (fun m => bool_decide (lm_SessionID m = sid)) sent).

Lemma last_update_snoc sid sent m :
  last_update sid (sent ++ [m]) = if bool_decide (lm_SessionID m = sid) then Some (lm_UpdatedAtNS m) else last_update sid sent.
Proof.
  unfold last_update. rewrite List.filter_app. cbn. case_bool_decide; [by rewrite last_snoc|by rewrite app_nil_r].
Qed.

(** The state: what was read last for the metrics, and what was broadcast. *)
Record View := mkView { v_read : option (string * gmap string string); v_sent : list LiveMetrics }.

(** A broadcast says what was read from Redis under the key of its session,
    contestant and wave, and is new. *)
Definition emits (X : Type) (c : lcall X) (v : View) : Prop :=
  match c with
  | Emit m => last_update (lm_SessionID m) (v_sent v) <> Some (lm_UpdatedAtNS m) /\
      exists fields, v_read v = Some (metrics_key (lm_ContestantID m) (lm_SessionID m) (lm_WaveIndex m), fields) /\
        parseLiveMetrics (lm_ContestantID m) (lm_SessionID m) (lm_WaveIndex m) fields = inr m
  | _ => True
  end.

Definition views (X : Type) (c : lcall X) (v : View) : X -> View -> Prop :=
  match c in lcall X return X -> View -> Prop with
  | RedisHGetAll key => fun x v' => v' = mkView (match x with Some fields => Some (key, fields) | None => None end) (v_sent v)
  | Emit m => fun _ v' => v' = mkView (v_read v) (v_sent v ++ [m])
  | _ => fun _ v' => v' = v
  end.

Abbreviation polls p v Q := (wp emits views p v Q).

Definition remembers (p : Poller) (v : View) : Prop := forall sid, po_lastBroadcastAtNS p !! sid = last_update sid (v_sent v).

Lemma parse_ids c s w fields m : parseLiveMetrics c s w fields = inr m -> lm_ContestantID m = c /\ lm_SessionID m = s /\ lm_WaveIndex m = w.
Proof. unfold parseLiveMetrics. repeat case_match; try done. intros [= <-]. done. Qed.

Lemma polls_warn p v sid msg args : remembers p v -> polls (warnRateLimited p sid msg args) v (fun p' v' => remembers p' v' /\ v_sent v' = v_sent v).
Proof.
  intros Hr. unfold warnRateLimited. destruct (warn_step _ _) as [entry []]; cbn; [|done]. split; [done|]. by intros x v' ->.
Qed.

Lemma remembers_emit p v m :
  remembers p v -> remembers (mkPoller (<[lm_SessionID m := lm_UpdatedAtNS m]> (po_lastBroadcastAtNS p)) (po_parseWarnState p)) (mkView (v_read v) (v_sent v ++ [m])).
Proof.
  intros Hr sid. cbn [v_sent po_lastBroadcastAtNS]. rewrite last_update_snoc. case_bool_decide as Hs; [by rewrite Hs, lookup_insert_eq|]. rewrite lookup_insert_ne by done. apply Hr.
Qed.

Lemma polls_session p v sc : remembers p v -> polls (pollSession p sc) v (fun p' v' => remembers p' v').
Proof.
  intros Hr. unfold pollSession. apply wp_bind, wp_ask; [done|]. intros [[raw|]|] v' ->; [|done|by cbn; split; [done|]; intros x v' ->].
  destruct (ParseInt raw) as [w|]; [|by eapply wp_impl; [|by apply polls_warn]; intros ?? []].
  apply wp_bind, wp_ask; [done|]. intros [fields|] v' ->; [|by cbn; split; [done|]; intros x v' ->].
  case_bool_decide; [done|]. destruct (parseLiveMetrics _ _ _ _) as [e|m] eqn:Em.
  { eapply wp_impl; [|by apply polls_warn]. by intros ?? []. }
  destruct (parse_ids _ _ _ _ _ Em) as (Hc & Hs & Hw). case_bool_decide as Hlast; [done|]. apply wp_bind, wp_ask.
  - split; [rewrite Hs; cbn [v_sent]; by rewrite <-Hr|]. exists fields. rewrite Hc, Hs, Hw. done.
  - intros x v' ->. rewrite <-Hs. by apply remembers_emit.
Qed.

Lemma polls_all p v sessions : remembers p v -> polls (poll_all p sessions) v (fun p' v' => remembers p' v').
Proof.
  revert p v. induction sessions as [|sc sessions IH]; intros p v Hr; cbn [poll_all]; [done|]. apply wp_bind.
  eapply wp_impl; [|by apply polls_session]. cbn. intros p' v' Hr'. by apply IH.
Qed.

Lemma polls_ticks n p v : remembers p v -> polls (run_ticks n p) v (fun p' v' => remembers p' v').
Proof.
  revert p v. induction n as [|n IH]; intros p v Hr; cbn [run_ticks]; [done|]. apply wp_bind. eapply wp_impl; [intros p' v' Hr'; by apply IH|].
  unfold tick. apply wp_bind, wp_ask; [done|]. intros [sessions|] v' ->; [by apply polls_all|]. cbn. split; [done|]. by intros x v' ->.
Qed.

(** Redis holding wave [raw] and hash [fields] for the session polled. *)
Definition redis_holds (raw : string) (fields : gmap string string) (X : Type) (c : lcall X) (v : View) (x : X) (v' : View) : Prop :=
  views X c v x v' /\
  match c in lcall X return X -> Prop with
  | RedisGet _ => fun x => x = Some (Some raw)
  | RedisHGetAll _ => fun x => x = Some fields
  | _ => fun _ => True
  end x.

(** Live metrics are passed on once.  Over any number of ticks and
    whatever the session source and Redis answer, a broadcast carries the
    metrics just read under the key of its contestant, session and latest wave, and
    its time of update differs from the session's last broadcast; and a poll
    that can read the metrics leaves them as the session's last broadcast. *)
Theorem live_updates_once :
  (forall n, polls (run_ticks n newPoller) (mkView None []) (fun p v => remembers p v)) /\
  (forall p v sc raw w fields m,
     remembers p v -> ParseInt raw = Some w -> fields <> ∅ -> parseLiveMetrics (asc_ContestantID sc) (asc_SessionID sc) w fields = inr m ->
     wp (fun _ _ _ => True) (redis_holds raw fields) (pollSession p sc) v
       (fun p' v' => remembers p' v' /\ last_update (asc_SessionID sc) (v_sent v') = Some (lm_UpdatedAtNS m))).
Proof.
  split; [intros n; by apply polls_ticks|]. intros p v sc raw w fields m Hr Hw Hne Hm. unfold pollSession.
  apply wp_bind, wp_ask; [done|]. intros x v' [-> ->]. rewrite Hw. apply wp_bind, wp_ask; [done|]. intros x v' [-> ->].
  rewrite bool_decide_eq_false_2 by done. rewrite Hm. destruct (parse_ids _ _ _ _ _ Hm) as (_ & Hs & _).
  case_bool_decide as Hlast; [split; [done|]; cbn [v_sent]; by rewrite <-Hr|]. apply wp_bind, wp_ask; [done|]. intros x v' [-> _].
  rewrite <-Hs. split; [by apply remembers_emit|]. cbn [v_sent]. by rewrite last_update_snoc, bool_decide_eq_true_2.
Qed.

(** ** How often a warning is logged *)

(** The logged ones among warnings about a session, in order. *)
Fixpoint logged (entry : parseWarnEntry) (warnings : list string) : list bool :=
  match warnings with
  | [] => []
  | w :: warnings => let '(entry, b) := warn_step entry w in b :: logged entry warnings
  end.

Lemma logged_repeat t msg k :
  0 <= t -> t + Z.of_nat k = parseWarnEveryNTicks - 1 -> logged (mkWarn t msg) (repeat msg k ++ [msg]) = repeat false k ++ [true].
Proof.
  unfold parseWarnEveryNTicks. revert t.
  induction k as [|k IH]; intros t Ht Hk; cbn [repeat app logged]; unfold warn_step; cbn [we_lastMessage we_ticksSinceLog].
  all: rewrite bool_decide_eq_true_2 by done; unfold parseWarnEveryNTicks; cbn [negb orb].
  - by rewrite (proj2 (Z.leb_le _ _)) by lia.
  - rewrite (proj2 (Z.leb_gt _ _)) by lia. f_equal. apply IH; lia.
Qed.

(** A new message is logged at once, and a repeated one once in thirty. *)
Lemma warning_rate entry msg :
  we_lastMessage entry <> msg -> logged entry (msg :: repeat msg 29 ++ [msg]) = true :: repeat false 29 ++ [true].
Proof.
  intros Hne. cbn [logged]. unfold warn_step at 1. rewrite bool_decide_eq_false_2 by done. cbn [negb orb]. f_equal.
  by apply (logged_repeat 0 msg 29).
Qed.

End Poller.
