(* ===== verification/BoardDemo.v ===== *)
(** * leaderboard-api: the theorems at work

    Concrete tables, requests and connections on which the theorems of the
    leaderboard files apply, and the cache keys that collide. *)

From Stdlib Require Import Ascii.
From stdpp Require Import prelude gmap strings list pretty relations.
From S2P Require Import Prelude Prog GoSort Replay Float64 Model Book BTree Report StreamVal StreamProps Topics Archive Scenarios Score SubStore Pipeline Invariants Source Service CountBounds Scoring ScoringProps ScoringDemo SandboxProps Base64 Board BoardProps BoardCache RunDetail DetailProps Sse Live.

Open Scope Z_scope.
Open Scope prog_scope.

(** ** A reader of cursors *)

Fixpoint skip (k : nat) (s : string) : string := match k, s with S k, String _ s => skip k s | _, _ => s end.
Fixpoint unclose (s : string) : string := match s with String c (String _ _ as s) => String c (unclose s) | _ => ""%string end.

Definition read_cursor (s : string) : option Z := Atoi (unclose (skip 10 s)).

Lemma unclose_app s c : unclose (s +:+ String c "") = s.
Proof. induction s as [|d s IH]; [done|]. change (unclose (String d (s +:+ String c "")) = String d s). cbn. destruct s; [done|]. by rewrite <-IH at 2. Qed.

Lemma digits_first (n : N) : exists c rest, pretty n = String c rest /\ Ascii.eqb c "-" = false /\ Ascii.eqb c "+" = false /\ parse_digits 0 (pretty n) = Some (Z.of_N n).
Proof.
  pose proof (pretty_chars (fun c => negb (Ascii.eqb c "-") && negb (Ascii.eqb c "+")) n) as Hc.
  assert (Hall : forall_bytes (fun c => negb (Ascii.eqb c "-") && negb (Ascii.eqb c "+")) (pretty n) = true)
    by (apply Hc; intros k; unfold pretty_N_char; by repeat case_match).
  assert (Hp : parse_digits 0 (pretty n) = Some (Z.of_N n)).
  { unfold pretty, pretty_N. case_decide as Hn; [by rewrite Hn|]. apply (parse_pretty n ""). }
  assert (Hne : pretty n <> ""%string) by (intros E; unfold pretty, pretty_N in E; case_decide; [done|]; unfold pretty, pretty_N in Hp; rewrite decide_False in Hp by done; rewrite E in Hp; cbn in Hp; injection Hp; lia).
  destruct (pretty n) as [|c rest]; [done|]. exists c, rest. cbn [forall_bytes] in Hall. apply andb_true_iff in Hall as [[Hm Hpl]%andb_true_iff _].
  by rewrite negb_true_iff in Hm, Hpl.
Qed.

Lemma Atoi_pretty n : - 2 ^ 63 <= n < 2 ^ 63 -> Atoi (pretty n) = Some n.
Proof.
  intros Hn. assert (Hpos : forall k : N, (Z.of_N k < 2 ^ 63) -> Atoi (pretty k) = Some (Z.of_N k)).
  { intros k Hk. destruct (digits_first k) as (c & rest & E & Hm & Hp & Hd). rewrite E in Hd |- *. unfold Atoi. rewrite Hm, Hp, Hd.
    rewrite (proj2 (Z.leb_le _ _)), (proj2 (Z.ltb_lt _ _)) by lia. done. }
  destruct n as [|p|p]; [done|apply (Hpos (Npos p)); lia|]. change (pretty (Zneg p)) with (String "-" (pretty (Npos p))).
  destruct (digits_first (Npos p)) as (c & rest & E & _ & _ & Hd). unfold Atoi. cbn [Ascii.eqb Bool.eqb]. rewrite E in Hd |- *. rewrite Hd. cbn [Z.of_N].
  rewrite (proj2 (Z.leb_le _ _)), (proj2 (Z.ltb_lt _ _)) by lia. done.
Qed.

Lemma read_cursor_laws : @CursorJSONLaws read_cursor.
Proof.
  intros n Hn. unfold unmarshal_cursor, read_cursor. change (skip 10 (marshal_cursor n)) with (pretty n +:+ "}").
  change "}"%string with (String "}" ""). rewrite unclose_app. by apply Atoi_pretty.
Qed.

(** ** Requests that run by themselves *)

Section Calm.
Context `{Collation} `{ILike} `{Unicode} `{UnicodeLower} `{CursorJSON} `{ResponseJSON}.
Variable dbs : Z -> option BoardDB.
Variable D : Z.
Variable made : (string -> string) -> Prop.

Abbreviation Cache := (gmap string (payload * Z)).
Abbreviation Log := (list (Z * LeaderboardQuery * (BoardErr + LeaderboardResponse))).

Definition calmly (t : Z) (X : Type) (c : rcall X) (cache : Cache) : X * Cache * Log :=
  match c in rcall X return X * Cache * Log with
  | QueryBoard q o n k => (reply (dbs t) _ (QueryBoard q o n k), cache, [])
  | CacheGet key => (inr (match cache !! key with Some (v, e) => if t <? e then Some v else None | None => None end), cache, [])
  | CacheSet key v ttl => (true, <[key := (v, t + ttl)]> cache, [])
  | Answer q r => (tt, cache, [(t, q, r)])
  end.

Lemma calmly_serves t X (c : rcall X) cache : serves dbs t X c cache (calmly t X c cache).1.1 (calmly t X c cache).1.2 (calmly t X c cache).2.
Proof.
  destruct c as [q o n k|key|key v ttl|q r]; cbn; [by split_and!; auto| |by auto|done]. split_and!; [done|done|].
  destruct (cache !! key) as [[v e]|] eqn:E; [|by auto]. destruct (Z.ltb_spec t e); [|by auto]. right. right. by exists v, e.
Qed.

Fixpoint run_request (t : Z) (p : Prog rcall unit) (cache : Cache) (log : Log) : Cache * Log :=
  match p with
  | Ret _ => (cache, log)
  | Call c k => let '(x, cache, out) := calmly t _ c cache in run_request t (k x) cache (log ++ out)
  end.

Lemma run_creached t p : forall cache log threads, 0 <= D -> creached dbs D made (mkCached t cache log (threads ++ [(t, p)])) ->
  creached dbs D made (mkCached t (run_request t p cache log).1 (run_request t p cache log).2 (threads ++ [(t, Ret tt)])).
Proof.
  induction p as [[]|X c k IH]; intros cache log threads HD Hr; cbn [run_request]; [done|].
  pose proof (calmly_serves t X c cache) as Hs. destruct (calmly t X c cache) as [[x cache'] out]. cbn in Hs. apply IH; [done|].
  destruct Hr as [t0 Hr]. exists t0. eapply rtc_r; [exact Hr|].
  pose proof (CMove dbs D made (mkCached t cache log (threads ++ [(t, Call c k)])) (length threads) t X c k x cache' out) as Hstep. cbn in Hstep.
  rewrite insert_app_r_alt, Nat.sub_diag in Hstep by lia. apply Hstep; [by rewrite lookup_app_r, Nat.sub_diag by lia|lia|done].
Qed.

(** A request at instant [t]. *)
Definition request (t : Z) (get : string -> string) (s : Cached) : Cached :=
  let '(cache, log) := run_request t (serve_Leaderboard get) (c_cache s) (c_log s) in mkCached t cache log (c_threads s ++ [(t, Ret tt)]).

Lemma request_creached t get s : 0 <= D -> made get -> c_now s <= t -> creached dbs D made s -> creached dbs D made (request t get s).
Proof.
  intros HD Hm Ht [t0 Hr]. unfold request. pose proof (run_creached t (serve_Leaderboard get) (c_cache s) (c_log s) (c_threads s) HD) as Hrun.
  destruct (run_request _ _ _ _) as [cache log]. apply Hrun. exists t0. eapply rtc_r; [eapply rtc_r; [exact Hr|apply (CTime dbs D made s t Ht)]|].
  apply (CRequest dbs D made (mkCached t (c_cache s) (c_log s) (c_threads s))). done.
Qed.

End Calm.

Module BoardDemo.

#[local] Instance stable : SortSlice := SortSlice_stable.
#[local] Instance range : MapRange := MapRange_id.
#[local] Instance coll : Collation := Collation_C.
#[local] Instance like : ILike := fun _ _ => false.
#[local] Instance unicode : Unicode := {| map_ToUpper := fun s => s; trim_Space := fun s => s |}.
#[local] Instance lowercase : UnicodeLower := fun s => s.
#[local] Instance cursors : CursorJSON := read_cursor.
#[local] Instance responses : ResponseJSON := {| payload := LeaderboardResponse; marshal_response := Some; unmarshal_response := Some |}.

(** One scored run group. *)
Definition d : BoardDB := mkBoardDB (h_db (s_shared ScoringDemo.s2)) (fun _ => 7).

Definition top : string -> string := fun k => ""%string.
Definition everything : string -> string := fun k => if bool_decide (k = "scenario"%string) then "all"%string else ""%string.

Definition dbs (t : Z) : option BoardDB := if t <? 5 then None else Some d.

(** Before the table exists, and after: the second answer is the cached one. *)
Definition s_before : Cached := request dbs 1 top (mkCached 0 ∅ [] []).
Definition s_after : Cached := request dbs 6 top s_before.

Definition empty_page : LeaderboardResponse := mkLResponse "frozen" [] "".

Lemma s_after_reached : creached dbs 2 (eq top) s_after.
Proof.
  apply request_creached; [lia|done|vm_compute; discriminate|]. apply request_creached; [lia|done|cbn; lia|]. by exists 0.
Qed.

Lemma cached_answers_fresh_witness :
  exists t0, 6 - (cacheTTL + 2 * 2) <= t0 <= 6 /\ exec (dbs t0) (Leaderboard (query_of top)) = inr empty_page.
Proof.
  apply (cached_answers_fresh dbs 2 (eq top)) with (s := s_after).
  - intros t q resp v _ [= <-]. done.
  - intros get <-. split; [reflexivity|discriminate].
  - lia.
  - exact s_after_reached.
  - apply list_elem_of_In. vm_compute. right. left. reflexivity.
Defined.

(** [scenario=all] and no scenario share a cache key: after a request for a
    scenario called "all", which no run has, the leaderboard is served empty. *)
Example all_hides_the_board :
  let s := request (fun _ => Some d) 1 top (request (fun _ => Some d) 1 everything (mkCached 0 ∅ [] [])) in
  creached (fun _ => Some d) 2 (fun get => get = top \/ get = everything) s /\
  last (c_log s) = Some (1, query_of top, inr empty_page) /\
  exec (Some d) (Leaderboard (query_of top)) <> inr empty_page.
Proof.
  split; [|split; [vm_compute; reflexivity|vm_compute; discriminate]].
  apply request_creached; [lia|by left|vm_compute; discriminate|]. apply request_creached; [lia|by right|cbn; lia|]. by exists 0.
Qed.

Definition by_latency : LeaderboardQuery := mkQuery 1 "p99" "" "" "" "" "" "" "" "ramp".

Lemma paging_complete_witness :
  follow 1 d by_latency = Some (map leaderboard_row (board_rows d by_latency (order_of by_latency))) /\
  map rk_group (board_rows d by_latency (order_of by_latency)) = ["g"%string].
Proof.
  split; [|vm_compute; reflexivity].
  pose proof (proj1 (@paging_complete coll Collation_C_laws like unicode lowercase cursors read_cursor_laws responses d by_latency 1 eq_refl)) as Hp.
  cbv zeta in Hp. rewrite Hp by (vm_compute; discriminate). vm_compute. reflexivity.
Defined.

Lemma board_is_leaderboard_witness :
  exists rows, follow 1 d (query_of top) = Some rows /\ length rows = 1%nat /\
    forall i res, SortResults (stored_results (h_db (s_shared ScoringDemo.s2))) !! i = Some res -> exists row, rows !! i = Some row /\ shows (1 + Z.of_nat i) res row.
Proof.
  apply (@board_is_leaderboard stable range coll ScoringDemo.json like unicode lowercase cursors read_cursor_laws responses) with (s := ScoringDemo.s2);
    [reflexivity|exact ScoringDemo.s2_sreached|reflexivity|reflexivity|reflexivity|vm_compute; lia|vm_compute; discriminate].
Defined.

(** A client connects, is sent the snapshot and one update. *)
Definition update1 : sseMessage := mkMessage "update" "{}".
Definition conn0 : Conn := mkConn Snapshotting [] false [] 0 None.
Definition broker1 : Broker := send update1 (Sse.update 0 (take_snapshot conn0 0 (Some "{}"%string)) (register newBroker)).

Lemma broker1_reached : breached broker1.
Proof.
  eapply rtc_r; [eapply rtc_r; [eapply rtc_r; [apply rtc_refl|apply BRegister]|]|apply BSend].
  apply (BSnapshot (register newBroker) 0 conn0 (Some "{}"%string)); reflexivity.
Qed.

Lemma sse_no_gaps_witness :
  exists b' c', rtc bstep broker1 b' /\ b_sent b' = [update1] /\ 0%nat ∈ b_clients b' /\ b_conns b' !! 0%nat = Some c' /\ messages (cn_out c') = [update1].
Proof.
  destruct (sse_no_gaps broker1 0 (push (take_snapshot conn0 0 (Some "{}"%string)) update1) broker1_reached eq_refl) as (_ & _ & _ & _ & Hreg).
  apply Hreg; [|reflexivity]. apply (bool_decide_unpack _). vm_compute. exact I.
Defined.

(** A session with a lost order and a phantom fill, in full mode. *)
Definition some_calls : list SinkCall := [CLost "z" NewLimit; CPhantom "x" 1 1].
Definition some_report : Report := @full_report ListTree _ SortSlice_stable MapRange_id some_calls.
Definition some_row : Row := row_of (scored_record "p1" "alice" some_report zeroCounts 0).

Lemma breakdown_adds_up_witness :
  total (violation_counts "p1" some_row) = row_violations some_row + row_phantom some_row /\ row_violations some_row = 1 /\ row_phantom some_row = 1.
Proof.
  split; [|split; vm_compute; reflexivity].
  apply (@breakdown_adds_up ListTree _ SortSlice_stable MapRange_id (mkValidator 8 "auto" 0 0 0 (f64 0) 1) some_calls some_report "p1" "alice" zeroCounts 0);
    [left; reflexivity|vm_compute; reflexivity].
Defined.

(** A live session whose metrics are read for the first time. *)
#[local] Instance numbers : Numbers := {| ParseFloat := fun _ => Some (f64 0); num_error := fun _ _ => ""%string |}.

Definition hash : gmap string string :=
  <["p50_ns"%string := "5"%string]> (<["p99_ns"%string := "9"%string]> (<["p999_ns"%string := "12"%string]> {["updated_at_ns"%string := "77"%string]})).
Definition read77 : LiveMetrics := mkLive "alice" "p1" 3 5 9 12 (f64 0) (f64 0) 77.

Lemma live_updates_once_witness :
  wp (fun _ _ _ => True) (redis_holds "3" hash) (pollSession newPoller (mkContestant "p1" "alice")) (mkView None [])
    (fun p' v' => remembers p' v' /\ last_update "p1" (v_sent v') = Some 77).
Proof.
  apply (proj2 live_updates_once newPoller (mkView None []) (mkContestant "p1" "alice") "3"%string 3 hash read77);
    [done|reflexivity|vm_compute; discriminate|vm_compute; reflexivity].
Defined.

End BoardDemo.
