(* ===== verification/SlotClient.v ===== *)
(** * bot-fleet-controller: the orchestrator's client

    [internal/orchestrator/client.go], calling the handlers of
    sandbox-orchestrator ([Sandbox]) over HTTP: the JSON both sides exchange,
    the three calls and the wait for readiness. *)

From Stdlib Require Import Ascii.
From stdpp Require Import prelude gmap strings list.
From S2P Require Import Prelude Topics Shard Prog Scenarios Sandbox SandboxLife SandboxDemo.

Open Scope Z_scope.
Open Scope prog_scope.

(** ** JSON *)

(** A JSON text by the value it stands for. *)
Inductive JVal := JNull | JStr (s : string) | JNum (z : Z) | JNums (zs : list Z) | JObj (fields : list (string * JVal)).

(** [json.Decode] into a field: a missing or null one keeps the zero value, one
    of another type or out of range is an error ([None]). *)
Definition jfield (fields : list (string * JVal)) (k : string) : JVal :=
  default JNull (snd <$> List.find (fun kv => bool_decide (kv.1 = k)) (rev fields)).

Definition read_str (v : JVal) : option string := match v with JNull => Some ""%string | JStr s => Some s | _ => None end.
Definition is_int (z : Z) : bool := (- 2 ^ 63 <=? z) && (z <? 2 ^ 63).
Definition read_int (v : JVal) : option Z := match v with JNull => Some 0 | JNum z => if is_int z then Some z else None | _ => None end.
Definition read_ints (v : JVal) : option (list Z) :=
  match v with JNull => Some [] | JNums zs => if forallb is_int zs then Some zs else None | _ => None end.
Definition read_uint32_ptr (v : JVal) : option (option Z) :=
  match v with JNull => Some None | JNum z => if (0 <=? z) && (z <? 2 ^ 32) then Some (Some z) else None | _ => None end.

(** The server reads a creation request. *)
Definition decode_create (body : JVal) : option Sandbox.createSlotRequest :=
  match body with
  | JObj fs =>
      match read_str (jfield fs "slot_id"), read_str (jfield fs "contestant_id"), read_str (jfield fs "image"),
            read_int (jfield fs "port"), read_ints (jfield fs "ports"), read_uint32_ptr (jfield fs "order_band") with
      | Some sid, Some cid, Some image, Some port, Some ports, Some band => Some (mkCreate sid cid image port ports band)
      | _, _, _, _, _, _ => None
      end
  | JNull => Some (mkCreate "" "" "" 0 [] None)
  | _ => None
  end.

(** The server writes a slot. *)
Definition encode_slot (r : slotResponse) : JVal :=
  let e := rp_Endpoint r in
  JObj [("slot_id"%string, JStr (rp_SlotID r)); ("state"%string, JStr (rp_State r)); ("message"%string, JStr (rp_Message r));
        ("endpoint"%string, JObj ([("host"%string, JStr (ej_Host e)); ("port"%string, JNum (ej_Port e))] ++
           match ej_Ports e with [] => [] | ports => [("ports"%string, JNums ports)] end))].

Definition encode_body (b : Body) : option JVal :=
  match b with SlotBody r => Some (encode_slot r) | ErrorBody msg => Some (JObj [("error"%string, JStr msg)]) | NoBody => None end.

(** The client writes a creation request, and reads a slot. *)
Definition marshal_create (slotID contestantID image : string) (ports : list Z) (orderBand : Z) : JVal :=
  JObj [("slot_id"%string, JStr slotID); ("contestant_id"%string, JStr contestantID); ("image"%string, JStr image);
        ("ports"%string, match ports with [] => JNull | _ => JNums ports end); ("order_band"%string, JNum orderBand)].

Definition decode_endpoint (v : JVal) : option Shard.Endpoint :=
  match v with
  | JNull => Some (Shard.mkEndpoint "" 0)
  | JObj fs => match read_str (jfield fs "host"), read_int (jfield fs "port") with Some h, Some p => Some (Shard.mkEndpoint h p) | _, _ => None end
  | _ => None
  end.

Definition decode_slot (v : JVal) : option Shard.Slot :=
  match v with
  | JNull => Some (Shard.mkSlot "" "" "" (Shard.mkEndpoint "" 0))
  | JObj fs =>
      match read_str (jfield fs "slot_id"), read_str (jfield fs "state"), read_str (jfield fs "message"), decode_endpoint (jfield fs "endpoint") with
      | Some sid, Some state, Some msg, Some e => Some (Shard.mkSlot sid state msg e)
      | _, _, _, _ => None
      end
  | _ => None
  end.

(** ** Calls between the two services *)

(** A call of the server to its cluster; whether a request reaches the server
    and an answer the client before a deadline; the wait for the next tick of
    a ticker or the end of the context ([true]: a tick).  A slot id is a
    session id, which is the same in a path. *)
Inductive wcall : Type -> Type :=
  | Serve {X} (c : kcall X) : wcall X
  | Reaches (deadline : Z) : wcall bool
  | Returns (deadline : Z) : wcall bool
  | AwaitTick (deadline : Z) : wcall bool.

Abbreviation wprog := (Prog wcall).

Definition response_in {X} (c : kcall X) : option Response := match c with Respond r => Some r | _ => None end.

(** A handler, with the response it gives. *)
Fixpoint handled (p : kprog unit) : wprog (option Response) :=
  match p with
  | Ret _ => Ret None
  | Call c k =>
      Call (Serve c) (fun x =>
        match response_in c with
        | Some r => let! _ := handled (k x) in Ret (Some r)
        | None => handled (k x)
        end)
  end.

(** [http.Client.Do]: [None] is an error. *)
Definition Do (deadline : Z) (handler : kprog unit) : wprog (option Response) :=
  let! sent := ask (Reaches deadline) in
  if negb (sent : bool) then Ret None
  else
    let! resp := handled handler in
    let! received := ask (Returns deadline) in
    Ret (if received : bool then resp else None).

Inductive ClientErr := ErrRequest | ErrNotFound | ErrStatus (status : Z) | ErrDecode.

Definition doSlot (deadline : Z) (handler : kprog unit) : wprog (ClientErr + Shard.Slot) :=
  let! resp := Do deadline handler in
  match resp with
  | None => Ret (inl ErrRequest)
  | Some resp =>
      if http_status resp =? 404 then Ret (inl ErrNotFound)
      else if (http_status resp <? 200) || (300 <=? http_status resp) then Ret (inl (ErrStatus (http_status resp)))
      else
        match encode_body (http_body resp) with
        | None => Ret (inl ErrDecode)
        | Some v => match decode_slot v with Some slot => Ret (inr slot) | None => Ret (inl ErrDecode) end
        end
  end.

Section Client.
Context `{Quantities}.
Variable m : Sandbox.Config.

Definition client_CreateSlot (deadline : Z) (slotID contestantID image : string) (ports : list Z) (orderBand : Z) : wprog (ClientErr + Shard.Slot) :=
  doSlot deadline (Sandbox.CreateSlot m (decode_create (marshal_create slotID contestantID image ports orderBand))).

Definition client_GetSlot (deadline : Z) (slotID : string) : wprog (ClientErr + Shard.Slot) := doSlot deadline (Sandbox.GetSlot m slotID).

Definition client_DeleteSlot (deadline : Z) (slotID : string) : wprog (option ClientErr) :=
  let! resp := Do deadline (Sandbox.DeleteSlot m slotID) in
  match resp with
  | None => Ret (Some ErrRequest)
  | Some resp =>
      if (http_status resp =? 404) || ((200 <=? http_status resp) && (http_status resp <? 300)) then Ret None
      else Ret (Some (ErrStatus (http_status resp)))
  end.

(** [WaitPanic]: [time.NewTicker] panics on a negative interval.  [WaitNoFuel]
    is not an outcome of the code. *)
Inductive Waited := WaitErr (e : ClientErr) | WaitSlot (slot : Shard.Slot) | WaitTimeout (slot : Shard.Slot) | WaitPanic | WaitNoFuel.

Fixpoint wait_loop (fuel : nat) (deadline : Z) (slotID : string) : wprog Waited :=
  match fuel with
  | O => Ret WaitNoFuel
  | S fuel =>
      let! r := client_GetSlot deadline slotID in
      match r with
      | inl e => Ret (WaitErr e)
      | inr slot =>
          if bool_decide (Shard.sl_State slot = StateReady) || bool_decide (Shard.sl_State slot = StateFailed) then Ret (WaitSlot slot)
          else
            let! tick := ask (AwaitTick deadline) in
            if tick : bool then wait_loop fuel deadline slotID else Ret (WaitTimeout slot)
      end
  end.

Definition defaultPoll : Z := 500 * 1000000.

(** [now]: when it is called. *)
Definition WaitForReady (now : Z) (slotID : string) (deadline pollInterval : Z) : wprog Waited :=
  let pollInterval := if pollInterval =? 0 then defaultPoll else pollInterval in
  if pollInterval <? 0 then Ret WaitPanic
  else wait_loop (Z.to_nat (deadline / pollInterval) + 2) (now + deadline) slotID.

End Client.

(** ** The wire *)

(** The request the server reads is the one the client was asked to send: the
    band a lease gave reaches the handler as it is, zero included, and so do
    the ports. *)
Theorem create_request_roundtrip slotID contestantID image ports band :
  Forall (fun p => is_int p = true) ports -> 0 <= band < 2 ^ 32 ->
  exists req, decode_create (marshal_create slotID contestantID image ports band) = Some req /\
    cq_SlotID req = slotID /\ cq_ContestantID req = contestantID /\ cq_Image req = image /\
    resolvePorts req = ports /\ orderBand req = band.
Proof.
  intros Hp [H0 H1]. assert (Hb : (0 <=? band) && (band <? 2 ^ 32) = true) by (apply andb_true_iff; split; [by apply Z.leb_le|by apply Z.ltb_lt]).
  assert (Hf : forallb is_int ports = true) by (apply forallb_forall; intros p Hin; by eapply Forall_forall in Hp; [|apply list_elem_of_In]).
  exists (mkCreate slotID contestantID image 0 ports (Some band)). split; [|by destruct ports].
  unfold decode_create, marshal_create. set (fs := [_; _; _; _; _]).
  assert (Hs : jfield fs "slot_id" = JStr slotID) by reflexivity. assert (Hc : jfield fs "contestant_id" = JStr contestantID) by reflexivity.
  assert (Hi : jfield fs "image" = JStr image) by reflexivity. assert (Hn : jfield fs "port" = JNull) by reflexivity.
  assert (Ho : jfield fs "order_band" = JNum band) by reflexivity.
  assert (Hl : read_ints (jfield fs "ports") = Some ports).
  { change (jfield fs "ports") with (match ports with [] => JNull | _ => JNums ports end). destruct ports as [|p ports]; [done|]. cbn [read_ints]. by rewrite Hf. }
  rewrite Hs, Hc, Hi, Hn, Ho, Hl. cbn [read_str read_int read_uint32_ptr]. by rewrite Hb.
Qed.

(** A slot the client reads has the state the server wrote. *)
Lemma decode_encode_slot r slot :
  decode_slot (encode_slot r) = Some slot ->
  slot = Shard.mkSlot (rp_SlotID r) (rp_State r) (rp_Message r) (Shard.mkEndpoint (ej_Host (rp_Endpoint r)) (ej_Port (rp_Endpoint r))).
Proof.
  destruct r as [sid state msg [host p ports]]. unfold decode_slot, encode_slot. cbn [rp_SlotID rp_State rp_Message rp_Endpoint ej_Host ej_Port ej_Ports].
  set (es := _ ++ _). set (fs := [_; _; _; _]).
  assert (Hh : jfield es "host" = JStr host) by (by destruct ports). assert (Hp : jfield es "port" = JNum p) by (by destruct ports).
  assert (He : jfield fs "endpoint" = JObj es) by reflexivity. assert (Hs : jfield fs "slot_id" = JStr sid) by reflexivity.
  assert (Ht : jfield fs "state" = JStr state) by reflexivity. assert (Hm : jfield fs "message" = JStr msg) by reflexivity.
  rewrite He, Hs, Ht, Hm. cbn [decode_endpoint read_str]. rewrite Hh, Hp. cbn [read_str read_int]. destruct (is_int p); congruence.
Qed.

(** ** Waiting *)

(** The time, what the request under way has seen, and the ticks taken. *)
Record WState := mkW { w_now : Z; w_seen : list Obs; w_ticks : nat }.

Section Waiting.
Context `{Quantities}.
Variable m : Sandbox.Config.
Variables started poll : Z.

(** Time goes on.  A request whose context has expired is not sent; the
    [k]-th tick comes no earlier than [k] intervals after the start, and may
    be taken when the deadline has passed too.  [AwaitTick] answers [false] when
    the context ends, at the deadline or because the run is cancelled. *)
Definition wnext (X : Type) (c : wcall X) (s : WState) : X -> WState -> Prop :=
  match c in wcall X return X -> WState -> Prop with
  | Serve c => fun x s' => w_now s <= w_now s' /\ w_seen s' = w_seen s ++ [observe c x] /\ w_ticks s' = w_ticks s
  | Reaches deadline => fun sent s' => w_now s <= w_now s' /\ w_seen s' = [] /\ w_ticks s' = w_ticks s /\ (sent = true -> w_now s' < deadline)
  | Returns _ => fun _ s' => w_now s <= w_now s' /\ w_seen s' = w_seen s /\ w_ticks s' = w_ticks s
  | AwaitTick _ => fun tick s' =>
      w_now s <= w_now s' /\ w_seen s' = w_seen s /\
      if tick : bool then w_ticks s' = S (w_ticks s) /\ started + Z.of_nat (w_ticks s') * poll <= w_now s'
      else w_ticks s' = w_ticks s
  end.

Abbreviation waits p s Q := (wp (fun _ _ _ => True) wnext p s Q).

Lemma serving_mono h h' id : h ⊆ h' -> serving h id -> serving h' id.
Proof. intros Hsub (pod & Hs & Hup & Hp). exists pod. split; [by apply Hsub|]. split; [done|]. intros p Hin. by apply Hsub, Hp. Qed.

(** A state a request of the server has moved on to. *)
Definition later (s s' : WState) : Prop := w_now s <= w_now s' /\ w_seen s ⊆ w_seen s' /\ w_ticks s' = w_ticks s.

Lemma later_trans s1 s2 s3 : later s1 s2 -> later s2 s3 -> later s1 s3.
Proof. unfold later. intros (? & ? & ?) (? & ? & ?). split_and!; [lia|set_solver|congruence]. Qed.

Lemma later_serve {X} (c : kcall X) x s s' : wnext X (Serve c) s x s' -> later s s'.
Proof. intros (Hn & Hs & Ht). split_and!; [done| |done]. rewrite Hs. set_solver. Qed.

Lemma handled_later p : forall s, waits (handled p) s (fun _ s' => later s s').
Proof.
  induction p as [a|X c k IH]; intros s; cbn [handled]; [split_and!; [lia|done|done]|]. split; [done|].
  intros x s' Hs%later_serve. destruct (response_in c).
  - apply wp_bind. eapply wp_impl; [|apply IH]. intros ? s'' Hl. cbn. by eapply later_trans.
  - eapply wp_impl; [|apply IH]. intros ? s'' Hl. by eapply later_trans.
Qed.

(** A ready answer of a handler is justified by what the handler has seen. *)
Lemma handled_justified id p : forall s,
  wp (justified id) seen p (w_seen s) (fun _ _ => True) ->
  waits (handled p) s (fun r s' => forall resp, r = Some resp -> says_ready resp -> serving (w_seen s') id).
Proof.
  induction p as [a|X c k IH]; intros s; cbn [handled]; [done|]. intros [Hj Hk]. split; [done|]. intros x s' Hs.
  assert (Hk' : wp (justified id) seen (k x) (w_seen s') (fun _ _ => True)) by (apply Hk; apply Hs).
  apply later_serve in Hs as Hl. destruct (response_in c) as [r|] eqn:Ec.
  - apply wp_bind. eapply wp_impl; [|apply handled_later]. intros ? s'' Hl'. cbn. intros resp [= <-] Hr.
    destruct c; simplify_eq/=. eapply serving_mono; [|by apply Hj]. destruct Hl as (_ & ? & _), Hl' as (_ & ? & _). set_solver.
  - by apply IH.
Qed.

Lemma wp_both {E St A} need next (p : Prog E A) (s : St) Q R : wp need next p s Q -> wp need next p s R -> wp need next p s (fun a s => Q a s /\ R a s).
Proof. revert s. induction p as [a|X c k IH]; intros s; cbn; [done|]. intros [Hn Hq] [_ Hr]. split; [done|]. intros x s' Hs. apply IH; auto. Qed.

(** One poll: an expired one errs, and a ready slot was serving. *)
Lemma waits_GetSlot deadline id s :
  waits (client_GetSlot m deadline id) s (fun r s' =>
    w_now s <= w_now s' /\ w_ticks s' = w_ticks s /\
    forall slot, r = inr slot -> w_now s < deadline /\ (Shard.sl_State slot = Shard.StateReady -> serving (w_seen s') id)).
Proof.
  apply wp_bind, wp_bind, wp_ask; [done|]. intros sent s1 (Hn1 & Hs1 & Ht1 & Hd1). destruct sent; cbn [negb]; [|cbn; by split_and!].
  apply wp_bind. eapply wp_impl; [|apply wp_both; [apply handled_later|apply (handled_justified id)]];
    [|rewrite Hs1; apply ready_was_serving].
  intros resp s2 [(Hn2 & _ & Ht2) Hr]. apply wp_bind, wp_ask; [done|]. intros b s3 (Hn3 & Hs3 & Ht3).
  assert (Hle : w_now s <= w_now s3 /\ w_ticks s3 = w_ticks s) by (split; [lia|congruence]). destruct Hle as [Hle Htk].
  cbn. destruct b; [|cbn; by split_and!]. destruct resp as [resp|]; [|cbn; by split_and!]. specialize (Hr resp eq_refl).
  destruct (http_status resp =? 404); [cbn; by split_and!|]. destruct (_ || _); [cbn; by split_and!|]. unfold says_ready in Hr.
  destruct (http_body resp) as [r|msg|]; cbn [encode_body]; [|change (decode_slot _) with (Some (Shard.mkSlot "" "" "" (Shard.mkEndpoint "" 0)))|cbn; by split_and!].
  2: { cbn. split_and!; [done..|]. intros ? [= <-]. split; [specialize (Hd1 eq_refl); lia|done]. }
  destruct (decode_slot (encode_slot r)) as [slot|] eqn:Ed; [|cbn; by split_and!]. cbn. split_and!; [done..|].
  intros ? [= <-]. split; [specialize (Hd1 eq_refl); lia|]. rewrite Hs3. apply decode_encode_slot in Ed as ->. by apply Hr.
Qed.

(** What the wait can end with. *)
Definition wait_ok (id : string) (r : Waited) (s : WState) : Prop :=
  match r with
  | WaitErr _ => True
  | WaitSlot slot => Shard.sl_State slot = Shard.StateReady /\ serving (w_seen s) id \/ Shard.sl_State slot = StateFailed
  | WaitTimeout slot => Shard.sl_State slot <> Shard.StateReady /\ Shard.sl_State slot <> StateFailed
  | WaitPanic | WaitNoFuel => False
  end.

(** With a tick at least every interval, the fuel is more than the polls that
    fit before the deadline. *)
Lemma waits_loop deadline id : 0 < poll -> forall fuel s,
  (Z.to_nat (deadline / poll) + 2 <= fuel + w_ticks s)%nat -> (w_ticks s <= Z.to_nat (deadline / poll) + 1)%nat ->
  started + Z.of_nat (w_ticks s) * poll <= w_now s ->
  waits (wait_loop m fuel (started + deadline) id) s (wait_ok id).
Proof.
  intros Hp. induction fuel as [|fuel IH]; intros s Hf Ht Hs; [lia|]. cbn [wait_loop]. apply wp_bind.
  eapply wp_impl; [|apply waits_GetSlot]. intros [e|slot] s1 (Hn & Htk & Hr); [done|]. specialize (Hr slot eq_refl) as [Hd Hserv].
  case_bool_decide as Er; [left; split; [done|by apply Hserv]|]. case_bool_decide as Ef; [by right|]. cbn [orb].
  apply wp_bind, wp_ask; [done|]. intros [] s2 (Hn2 & _ & Hb); [|done]. destruct Hb as [Ht2 Hs2].
  assert (Z.of_nat (w_ticks s) <= deadline / poll) by (apply Z.div_le_lower_bound; lia).
  apply IH; [rewrite Ht2, Htk; lia..|done].
Qed.

End Waiting.

(** C35: waiting for a slot ends, and rightly.  However the network, the
    orchestrator, its cluster and the contestant's program answer: the wait
    panics only on a negative interval; else it ends after finitely many polls
    with an error, with a slot that failed, as its context ends with a slot
    that is neither ready nor failed, or with a ready slot, and then during that
    poll the orchestrator read the pod up with its probe positive and every
    further declared port accepted a connection. *)
Theorem wait_for_ready `{Quantities} m now slotID deadline pollInterval :
  let poll := if pollInterval =? 0 then defaultPoll else pollInterval in
  wp (fun _ _ _ => True) (wnext now poll) (WaitForReady m now slotID deadline pollInterval) (mkW now [] 0)
    (fun r s => if pollInterval <? 0 then r = WaitPanic else wait_ok slotID r s).
Proof.
  intros poll. unfold WaitForReady. fold poll. destruct (poll <? 0) eqn:Ep; destruct (pollInterval <? 0) eqn:Ei;
    [done|subst poll; destruct (pollInterval =? 0) eqn:E0; [done|congruence]| |].
  - subst poll. destruct (pollInterval =? 0) eqn:E0; [lia|congruence].
  - apply waits_loop; [|cbn; lia..]. subst poll. destruct (pollInterval =? 0) eqn:E0; unfold defaultPoll; lia.
Qed.

(** ** A concrete wait

    The client creates a slot, whose pod comes up at the first tick. *)
Module ClientDemo.

#[local] Existing Instance SandboxDemo.quantities.

Definition world_answer {X} (c : wcall X) (k : Cluster) : X * Cluster :=
  match c in wcall X return X * Cluster with
  | Serve c => answer c k
  | Reaches _ => (true, k)
  | Returns _ => (true, k)
  | AwaitTick _ => (true, set_pods k (alter SandboxDemo.bring_up (podName "s1") (k_pods k)))
  end.

Fixpoint run_world {A} (p : wprog A) (k : Cluster) : A * Cluster :=
  match p with Ret a => (a, k) | Call c f => run_world (f (world_answer c k).1) (world_answer c k).2 end.

Definition session : wprog (Waited * option ClientErr * (ClientErr + Shard.Slot)) :=
  let! _ := client_CreateSlot SandboxDemo.m 1000 "s1" "alice" "img" [9898; 8080] 0 in
  let! r := WaitForReady SandboxDemo.m 0 "s1" 2000000000 0 in
  let! d := client_DeleteSlot SandboxDemo.m 1000 "s1" in
  let! g := client_GetSlot SandboxDemo.m 1000 "s1" in
  Ret (r, d, g).

(** Ready at the second poll with the address of the slot's service; deleted,
    it is not found any more. *)
Example session_runs :
  (run_world session (o_cluster SandboxDemo.s0)).1 =
  (WaitSlot (Shard.mkSlot "s1" "ready" "ready" (Shard.mkEndpoint "algo-s1.sandbox.svc.cluster.local" 9898)), None, inl ErrNotFound).
Proof. vm_compute. reflexivity. Qed.

End ClientDemo.
